(* ===== verification/_CoqProject ===== *)
-Q . S2P
Prelude.v
Text.v
Core.v
Base64.v
Credential.v
Dto.v
Validation.v
Notify.v
Sql.v
Migrate.v
Upgrade.v
Store.v
Repository.v
Instance.v
Message.v
Inbox.v
Authenticated.v
Relay.v
Invariant.v
Effects.v
Events.v
History.v
Commands.v
Fixtures.v
Guarantees.v
Ownership.v
Delivery.v
Queue.v
Sessions.v
Views.v
MessageViews.v
Wire.v
Gateway.v
Client.v
Codec.v
Retries.v
Network.v
Files.v
Failure.v
Activation.v
Engine.v
Ledger.v
Owning.v
Profile.v
Config.v
Json.v
AppServer.v
Journal.v
CredentialStore.v
Durability.v
Recovery.v
Status.v
Codex.v
Startup.v
Departure.v
Restart.v
Leaving.v
Farewell.v
Running.v
Company.v
Desk.v
Tools.v
Arguments.v
Adapter.v
Slot.v
Server.v
Channel.v
Worker.v
Serial.v
Serve.v
Grammar.v
Cli.v
Terminal.v
Bootstrap.v
Locks.v
Controller.v
