(* ===== verification/Prelude.v ===== *)
(** * Psst: the durable messaging relay and its clients

    Psst lets agents join squads and send each other messages through a relay that keeps
    everything in one SQLite database.  This library models the relay, from the domain types
    to the HTTP handlers, its worker and its shutdown, the HTTP client, the client-side
    session that decides what is sent, kept and removed, the adapters that wake agents, and
    the command line, and proves what makes them correct.

    ** The program and its model

    - crates/psst-core: the domain.  Text.v models the Rust string functions it relies on
      (UTF-8 characters, trimming, prefixes); Core.v has the error codes, the validated
      newtypes (identifiers, names, bodies, timestamps: the type [checked ok] below, a raw
      value with the proof that it passes the validator), the lifecycle states, leases,
      message semantics and resume tokens.  SHA-256, base64 and the operating system's
      randomness are the class [Crypto] with the laws [CryptoLaws]; Base64.v is a concrete
      instance, so that every hypothesis can be met.
    - crates/psst-store: the repository.  Sql.v is the schema of migrations/*.sql as data:
      a [Database] is five tables, and each SQL statement of the sources is a function on it
      that checks the constraints the schema declares (keys, partial unique indexes, foreign
      keys, CHECKs) and returns the rows or the error of rusqlite.  Store.v is the monad [M]
      the operations run in: a state and error monad over a [World], which holds the
      database, a schedule of faults that may strike any SQL call (BEGIN and COMMIT
      included), and the supply of random bytes; [transaction] restores the database on
      every error path, as rusqlite's Drop does.  Migrate.v is lib.rs: opening the file, its
      connection policy and the migrations, over the class [Engine] of what a batch of SQL
      does to a schema.  Repository.v, Instance.v, Message.v,
      Inbox.v and Authenticated.v model the files of the same names, one definition per
      function, with the fault-injection points of the sources.
    - crates/psst-protocol: the wire.  Credential.v (auth.rs), Dto.v (dto.rs, error.rs,
      timestamp.rs) and Validation.v (validation.rs, the trait [Validate] as a class).  The
      http, time and serde_json crates are the classes [HttpHeaders], [TimeCrate] and
      [SerdeJson].
    - crates/psst-relay: Notify.v is the registry that wakes long polls (tokio's watch
      channels and semaphores are the classes [Watch] and [Semaphores]); Relay.v has the
      configuration, the error mapping, the worker's commands as [Job]s, and the thirteen
      handlers in the monad [R] over the whole relay, with the fate of each command sent to
      the worker ([Delivery]: answered, refused, cancelled, or timed out before or after it
      ran) and the interleaving of a long poll with the rest of the relay ([Schedule]) as
      inputs.  Worker.v is the worker itself: the bounded queue, its thread, the callers
      that wait or give up, and the shutdown flag, one function on the state [Worker] for
      each step that is atomic in the code, and their interleavings ([interleave]).  Serve.v
      is the rest of lib.rs and main.rs: the environment of the process, health and
      readiness, the permits of the connections, and serving until shutdown.
    - crates/psst-client: Client.v is lib.rs, every operation in the monad [C] over a
      [Transport] (exchanges, the permits in flight, sleeping), with the retry loop on the
      attempts that are left; a deadline that passes is the answer [Elapsed].  The url crate is the
      class [UrlCrate], serde's codecs are [Serialize] and [Deserialize] with [SerdeLaws];
      Codec.v is a concrete one.  CredentialStore.v is credential_store.rs.
    - crates/psst-application: Failure.v (error.rs and SessionError), Activation.v
      (activation.rs: the machine, the policy and the engine that drives a host, which
      consumes a [Scene] of observations, host answers, waits and random draws), Ledger.v
      (the owned sends and the report tracker of session.rs), Profile.v and Locks.v (profile.rs and
      the names and origins of config.rs), Config.v (the rest of config.rs, with the standard
      library's parsers of numbers and socket addresses; serde_yaml is the class [Yaml]),
      Status.v (harness_status.rs: the record a harness publishes and its publisher),
      Journal.v (leave_journal.rs), Startup.v (joining,
      starting, resuming and cleaning up in session.rs, over the trait [SessionTransport]),
      Leaving.v (the supervisor its tasks share, and leaving) and Running.v (heartbeats,
      reports, sends, reads, shutdown).  The tasks of a session are programs that wait; at
      each wait the other tasks run, by a list of functions on files, network and supervisor.
      The files are those of Files.v: a Unix file system whose calls fail or kill the
      process as a script decides, and of which a loss of power keeps what was synced.
    - crates/psst-codex: Json.v has the values of serde_json and the check of the App
      Server's schema; AppServer.v is app_server.rs, the host that wakes Codex: the lines on
      the pipes of its child process are a list of what each read gives, and everything
      written and read is kept in a log.  Bootstrap.v is bootstrap.rs and main.rs: the
      session that is opened for one look at the inbox, and starting the adapter.
    - crates/psst-mcp: Tools.v has the tools of psst-application's mcp.rs, their contracts
      and views, and the validators of server.rs; Adapter.v is dispatch.rs, each call a
      program ([Prog]) of blocks under the lock of the session's slot and operations that the
      environment answers; Server.v is server.rs, the opening of the profile, and lib.rs with
      its framing pumps; Channel.v and Controller.v are
      claude_channel.rs.  serde's codecs of the tools are
      [ToolInputs] and [ToValue], the time crate's calendar is [Calendar].
    - crates/psst-cli: Grammar.v is the reading of the command line, in which an index out of
      range and an unwrapped absence are [None], the panic they are in the code; Cli.v is
      every command as a program ([CliProgram]) of operations on configuration, profile,
      relay and session, which the environment answers, and the output on two streams.

    ** The abstract system and the theorems

    Invariant.v states well-formedness [wf] and that every SQL statement keeps it; Effects.v
    says what each operation does to the tables when it succeeds; Events.v is the
    specification, an inductive transition system of ten events on databases with the
    ownership discipline [own]; History.v is the order [evolves] in which stores grow;
    Commands.v collects the operations as [Command]s, proves them atomic and refines each
    run to events, in any environment.  Fixtures.v holds a small concrete history for the
    examples.  The theorems are then:

    - Guarantees.v (C1-C4): atomicity, refinement, the invariant,
      durability of history.
    - Upgrade.v (C8): opening a database migrates it atomically or leaves it
      alone, whatever fails; an opened database opens again.
    - Gateway.v (C5): serving any request moves the store only by its public
      operations, so all store theorems hold of the relay; what is issued is accepted; a
      send whose answer was lost can be retried safely.
    - Serial.v (C7, C27, C28): the worker's interleavings are sequences of single
      commands, whose callers get what the handlers' model of a command assumes; it stops,
      and after shutdown runs at most the command it had begun.
    - Serve.v (C21): the relay reports success only with its last checkpoint taken.
    - Network.v (C6): the client and the relay together, over a network that loses
      requests and answers: a prepared send stores at most one message, exactly one when it
      succeeds.
    - Departure.v (C9) and Restart.v (C10, C11): cleaning up and starting are safe to
      interrupt; the local authority goes only after a confirmed leave.
    - Company.v (C12, C13), on Farewell.v: leaving is write-ahead logged beside the
      other tasks of a session, first against a rely condition on them ([polite]), which
      every task is then shown to meet; a ready session uses the stored credential.
    - Locks.v (C15): processes that compete for a profile, with the sockets of the
      kernel, and that its lock excludes.
    - Queue.v (C14): inboxes as queues, acknowledgement.
    - Ownership.v (C16, C17): one live owner per membership, never preempted
      by a resume, and renewed by its own heartbeat only.
    - Delivery.v (C22) and MessageViews.v: sending, the inbox page.
    - Owning.v (C23): the ledger of owned sends is bounded, admits, and answers
      once.
    - Engine.v (C30-C32): the activation machine and its engine:
      well-formed, serial, terminating, with bounded delays.
    - Retries.v (C35): the client's calls end, mutations are sent once, only valid
      responses are accepted.
    - Recovery.v (C36, C37), on the program logic of Durability.v: the stores replace
      their files atomically and durably.
    - Config.v (C24): every setting is its first source's value, or resolving fails.
    - Status.v (C34): the published status follows the activation machine.
    - Codex.v (C18, C38): a turn ends and acknowledges only what it retrieved, which a
      monitor of the traffic checks; a host keeps its thread.
    - Arguments.v (C25): the tool server accepts the arguments whose requests the
      client accepts.
    - Slot.v (C19): however the calls of the MCP server interleave, at most one
      session of the profile runs, and the slot knows it.
    - Server.v (C39): a pump forwards whole lines within the limit.
    - Channel.v (C33): a turn of the channel ends, and completes only when it did.
    - Grammar.v (C26, C40): what the grammar accepts can be read back within its
      bounds; parsing panics on one command line only.
    - Terminal.v (C20, C29): a command does what it was told and nothing else,
      against every answer of its environment; its output is on one stream.

    Views.v, Wire.v, Sessions.v, Bootstrap.v, Controller.v, Credential.v, Notify.v and the files
    above also prove what is not in this list: rosters, transcripts and their paging,
    responses that validate, the texts of credentials, tokens and identifiers, waiters that
    miss no wakeup, what an archived squad refuses, credentials that are concealed, the one
    session of the Codex observer. Desk.v holds a profile on disk for the examples.

    ** Bounds and fuel

    Loops over rows, ids, attempts and the steps of a long poll recurse on lists or numbers.
    Five definitions take fuel: driving a wake needs eight steps, the bound of the policy's
    attempts (C32), and the activation engine one step for each observation of its scene; changing
    the journal mode retries at most once per ten milliseconds of its bound, and serving a
    turn takes one step for each message queued or on the wire, both shown to be enough;
    listening from the command line polls until there is mail or a signal, and its number of
    polls is a parameter: where it is used up the command is still listening ([Listening]),
    and the theorems hold for every number.
    Path resolution follows at most forty links, the limit of the system.  A long poll waits
    at most until its deadline, so its schedule is finite.
    Timestamps are i64 milliseconds, sizes saturating usize, sequences i64; durations are
    whole nanoseconds.  Theorems on the wire form assume instants before the year 10000, the
    range of the time crate.  The refinement to events assumes leases of at least one
    millisecond ([whole]); Ownership.v shows what a shorter one, which [LeasePolicy_new]
    accepts, breaks.

    ** Not modelled

    The HTTP server, JSON decoding and extraction, the internals of axum, tower, tokio and the
    tracing output; the Windows and macOS branches, with them the platform-security crate,
    which is bindings to the Windows API; the MCP SDK; Debug formatting and OpenAPI
    generation. A process is assumed alone on the files of its profile, as its lock ensures
    (Locks.v). SQLite itself is represented by the statements' functions in Sql.v: a
    statement either takes effect with its constraints checked or fails without effect.

    This file holds what the others share: results, validated values, machine integers,
    tactics and generic lemmas. *)

From stdpp Require Export base tactics list sorting strings relations.
From Stdlib Require Export ZArith Lia.

Open Scope Z_scope.

(** ** Results: Rust's [Result<T, E>] *)

Inductive Result (E A : Type) : Type :=
| Ok (a : A)
| Err (e : E).
Arguments Ok {E A} a.
Arguments Err {E A} e.

#[global] Instance result_ret E : MRet (Result E) := fun A a => Ok a.
#[global] Instance result_bind E : MBind (Result E) := fun A B f r =>
  match r with Ok a => f a | Err e => Err e end.
#[global] Instance result_fmap E : FMap (Result E) := fun A B f r =>
  match r with Ok a => Ok (f a) | Err e => Err e end.

Definition is_ok {E A} (r : Result E A) : bool :=
  match r with Ok _ => true | Err _ => false end.

(** [Result::map_err]. *)
Definition map_err {E E' A} (f : E -> E') (r : Result E A) : Result E' A :=
  match r with Ok a => Ok a | Err e => Err (f e) end.

(** [Option::ok_or]. *)
Definition ok_or {E A} (o : option A) (e : E) : Result E A :=
  match o with Some a => Ok a | None => Err e end.

(** [Option<Result<_>>::transpose] after [Option::map]. *)
Definition opt_try {E A B} (f : A -> Result E B) (o : option A) : Result E (option B) :=
  match o with
  | None => Ok None
  | Some a => match f a with Ok b => Ok (Some b) | Err e => Err e end
  end.

(** [Iterator::map(f).collect::<Result<Vec<_>, _>>()]: stops at the first error. *)
Fixpoint try_collect {E A B} (f : A -> Result E B) (l : list A) : Result E (list B) :=
  match l with
  | [] => Ok []
  | a :: l' =>
      match f a with
      | Err e => Err e
      | Ok b => match try_collect f l' with Ok bs => Ok (b :: bs) | Err e => Err e end
      end
  end.

(** ** Validated newtypes

    A Rust newtype with a private field and a validating constructor is the
    type of raw values that pass the validator. *)

Record checked {A : Type} (ok : A -> bool) : Type :=
  Checked { raw : A; raw_ok : Is_true (ok raw) }.
Arguments Checked {A} ok raw raw_ok.
Arguments raw {A ok} _.
Arguments raw_ok {A ok} _.

Definition check {A} (ok : A -> bool) (a : A) : option (checked ok) :=
  (if ok a as b return ((Is_true b -> checked ok) -> option (checked ok))
   then fun k => Some (k I)
   else fun _ => None) (Checked ok a).

Section Checked.
Context {A : Type} (ok : A -> bool).

Lemma checked_eq (x y : checked ok) : raw x = raw y -> x = y.
Proof.
  destruct x as [a p], y as [b q]; simpl; intros ->. f_equal. apply Is_true_pi.
Qed.

Lemma raw_true (x : checked ok) : ok (raw x) = true.
Proof. apply Is_true_true, raw_ok. Qed.

#[global] Instance raw_inj : Inj (=) (=) (@raw A ok).
Proof. intros x y; apply checked_eq. Qed.

#[global] Instance checked_eq_dec `{!EqDecision A} : EqDecision (checked ok).
Proof.
  intros x y. destruct (decide (raw x = raw y)) as [e|n].
  - left. by apply checked_eq.
  - right. intros ->. by apply n.
Defined.

Lemma check_true a (p : Is_true (ok a)) : check ok a = Some (Checked ok a p).
Proof.
  unfold check. generalize (Checked ok a). revert p.
  destruct (ok a); simpl; [|done]. intros [] c. done.
Qed.

Lemma check_raw (x : checked ok) : check ok (raw x) = Some x.
Proof. destruct x as [a p]; simpl. apply check_true. Qed.

Lemma check_Some a x : check ok a = Some x -> raw x = a.
Proof.
  unfold check. set (c := Checked ok a).
  assert (forall q, raw (c q) = a) as Hc by done. generalize dependent c.
  destruct (ok a); simpl; [|done]. intros c Hc [= <-]. done.
Qed.

Lemma check_None a : check ok a = None -> ok a = false.
Proof.
  unfold check. generalize (Checked ok a). destruct (ok a); simpl; done.
Qed.
End Checked.

(** ** Machine integers *)

Definition i64_max : Z := 2 ^ 63 - 1.
Definition usize_max : Z := 2 ^ 64 - 1.
Definition in_i64 (z : Z) : bool := (- 2 ^ 63 <=? z) && (z <=? i64_max).

(** [i64::checked_add]. *)
Definition i64_checked_add (a b : Z) : option Z :=
  if in_i64 (a + b) then Some (a + b) else None.

(** [usize::checked_add], [saturating_add], [saturating_mul] on 64-bit targets. *)
Definition usize_checked_add (a b : Z) : option Z :=
  if a + b <=? usize_max then Some (a + b) else None.
Definition usize_saturating_add (a b : Z) : Z := Z.min (a + b) usize_max.
Definition usize_saturating_mul (a b : Z) : Z := Z.min (a * b) usize_max.

(** ** Tactics of the development *)

(** Case analysis on the innermost [match] scrutinee of the goal or of a hypothesis. *)
Ltac case_scrut t :=
  match t with
  | context [match ?x with _ => _ end] => case_scrut x
  | _ => let E := fresh "E" in destruct t eqn:E
  end.

Ltac split_match_in H :=
  match type of H with
  | context [match ?x with _ => _ end] => case_scrut x; simplify_eq/=
  end.

Ltac split_match :=
  match goal with
  | |- context [match ?x with _ => _ end] => case_scrut x; simplify_eq/=
  end.

(** Boolean tests of the code as propositions. *)
Ltac bool_to_prop :=
  repeat match goal with
  | H : _ && _ = true |- _ => apply andb_true_iff in H; destruct H
  | H : _ || _ = false |- _ => apply orb_false_iff in H; destruct H
  | H : negb _ = true |- _ => apply negb_true_iff in H
  | H : negb _ = false |- _ => apply negb_false_iff in H
  | H : bool_decide _ = true |- _ => apply bool_decide_eq_true in H
  | H : bool_decide _ = false |- _ => apply bool_decide_eq_false in H
  | H : ~ (_ <> _) |- _ => apply dec_stable in H
  | H : (_ <? _) = true |- _ => apply Z.ltb_lt in H
  | H : (_ <? _) = false |- _ => apply Z.ltb_ge in H
  | H : (_ <=? _) = true |- _ => apply Z.leb_le in H
  | H : (_ <=? _) = false |- _ => apply Z.leb_gt in H
  | H : (_ =? _)%Z = true |- _ => apply Z.eqb_eq in H
  | H : (_ =? _)%Z = false |- _ => apply Z.eqb_neq in H
  end.

(** Conjunctions of boolean tests, kept boolean. *)
Ltac split_andb :=
  repeat match goal with H : _ && _ = true |- _ => apply andb_true_iff in H; destruct H end.
Ltac solve_andb :=
  repeat match goal with |- _ && _ = true => apply andb_true_iff; split end;
  try assumption; try reflexivity.

(** ** Generic lemmas *)
Create HintDb psst.
#[export] Hint Resolve raw_true : psst.

Lemma Forall_in_app {A B} (f : A -> B) (l l' : list B) (L : list A) :
  Forall (fun a => f a ∈ l) L -> Forall (fun a => f a ∈ l ++ l') L.
Proof. intros Hf. eapply Forall_impl; [exact Hf|]. intros a Ha. apply elem_of_app. by left. Qed.
#[export] Hint Resolve Forall_in_app : psst.

Lemma try_collect_ok {E A B} (f : A -> Result E B) (P : A -> B -> Prop) (l : list A) :
  (forall a, a ∈ l -> exists b, f a = Ok b /\ P a b) ->
  exists bs, try_collect f l = Ok bs /\ Forall2 P l bs.
Proof.
  induction l as [|a l IH]; intros Hf; simpl; [by exists []|].
  destruct (Hf a) as (b & -> & Hb); [apply elem_of_cons; by left|].
  destruct IH as (bs & -> & Hbs); [intros x Hx; apply Hf, elem_of_cons; by right|].
  exists (b :: bs). by split; [|constructor].
Qed.
