(* ===== verification/Text.v ===== *)
(** * Text: the parts of Rust's [str], [char] and [u8] the sources use

    A Rust [str] is modelled by its UTF-8 bytes, a Rocq [string] (a list of
    8-bit characters), so that [len] and [as_bytes] are immediate.  A [char] is
    modelled by the bytes that encode it. *)
From Stdlib Require Import Ascii.
From S2P Require Import Prelude.

(** [str::len] counts bytes. *)
Definition len (s : string) : Z := Z.of_nat (String.length s).
Definition is_empty (s : string) : bool := bool_decide (s = ""%string).

Definition byte_val (b : ascii) : Z := Z.of_N (N_of_ascii b).
Definition as_bytes (s : string) : list ascii := String.list_ascii_of_string s.

(** ** [u8::is_ascii_*] *)
Definition is_ascii_lowercase (b : ascii) : bool := (97 <=? byte_val b) && (byte_val b <=? 122).
Definition is_ascii_uppercase (b : ascii) : bool := (65 <=? byte_val b) && (byte_val b <=? 90).
Definition is_ascii_digit (b : ascii) : bool := (48 <=? byte_val b) && (byte_val b <=? 57).
Definition is_ascii_alphanumeric (b : ascii) : bool :=
  is_ascii_lowercase b || is_ascii_uppercase b || is_ascii_digit b.

(** ** [str::chars] on UTF-8 bytes *)
Definition is_continuation (b : ascii) : bool := (128 <=? byte_val b) && (byte_val b <? 192).

Definition starts_with_continuation (c : list ascii) : bool :=
  match c with b :: _ => is_continuation b | [] => false end.

(** A character is a leading byte with the continuation bytes after it. *)
Fixpoint chars (bs : list ascii) : list (list ascii) :=
  match bs with
  | [] => []
  | b :: bs' =>
      match chars bs' with
      | c :: cs => if starts_with_continuation c then (b :: c) :: cs else [b] :: c :: cs
      | [] => [[b]]
      end
  end.

Definition low6 (b : ascii) : Z := Z.land (byte_val b) 63.

Definition code_point (c : list ascii) : Z :=
  match c with
  | [b0] => byte_val b0
  | [b0; b1] => Z.lor (Z.shiftl (Z.land (byte_val b0) 31) 6) (low6 b1)
  | [b0; b1; b2] =>
      Z.lor (Z.shiftl (Z.land (byte_val b0) 15) 12) (Z.lor (Z.shiftl (low6 b1) 6) (low6 b2))
  | [b0; b1; b2; b3] =>
      Z.lor (Z.shiftl (Z.land (byte_val b0) 7) 18)
        (Z.lor (Z.shiftl (low6 b1) 12) (Z.lor (Z.shiftl (low6 b2) 6) (low6 b3)))
  | _ => 65533
  end.

(** [char::is_whitespace]: the Unicode property White_Space. *)
Definition is_whitespace (c : list ascii) : bool :=
  let p := code_point c in
  ((9 <=? p) && (p <=? 13)) || (p =? 32) || (p =? 133) || (p =? 160) || (p =? 5760)
  || ((8192 <=? p) && (p <=? 8202)) || (p =? 8232) || (p =? 8233) || (p =? 8239)
  || (p =? 8287) || (p =? 12288).

(** [char::is_control]: the Unicode category Cc. *)
Definition is_control (c : list ascii) : bool :=
  let p := code_point c in ((0 <=? p) && (p <=? 31)) || ((127 <=? p) && (p <=? 159)).

Fixpoint skip_while {A} (f : A -> bool) (l : list A) : list A :=
  match l with
  | [] => []
  | a :: l' => if f a then skip_while f l' else l
  end.

(** [str::trim]. *)
Definition trim (s : string) : string :=
  let cs := chars (as_bytes s) in
  let front := skip_while is_whitespace cs in
  String.string_of_list_ascii (concat (rev (skip_while is_whitespace (rev front)))).

(** [str::strip_prefix]. *)
Fixpoint strip_prefix (p s : string) : option string :=
  match p, s with
  | EmptyString, _ => Some s
  | String a p', String b s' => if bool_decide (a = b) then strip_prefix p' s' else None
  | String _ _, EmptyString => None
  end.

(** [str::split] on a character. *)
Fixpoint split_on (c : ascii) (s : string) : list string :=
  match s with
  | EmptyString => [EmptyString]
  | String d s' =>
      let parts := split_on c s' in
      if bool_decide (c = d) then EmptyString :: parts
      else match parts with p :: ps => String d p :: ps | [] => [String d EmptyString] end
  end.

(** ** Hexadecimal: [{byte:02x}] *)
Definition hex_digit (n : N) : ascii := ascii_of_N (if (n <? 10)%N then 48 + n else 87 + n)%N.
(** [write!(output, "{byte:02x}")]. *)
Definition hex_byte (b : ascii) : list ascii :=
  [hex_digit (N_of_ascii b / 16)%N; hex_digit (N_of_ascii b mod 16)%N].
Definition hex (bytes : string) : string := String.string_of_list_ascii (concat (map hex_byte (as_bytes bytes))).

Lemma strip_prefix_app p s : strip_prefix p (p +:+ s) = Some s.
Proof. induction p as [|a p IH]; simpl; [done|]. by rewrite bool_decide_eq_true_2. Qed.

Lemma strip_prefix_Some p s r : strip_prefix p s = Some r -> s = p +:+ r.
Proof.
  revert s. induction p as [|a p IH]; simpl; [by intros s [= ->]|].
  intros [|b s]; [done|]. case_bool_decide; [subst|done]. intros H. by rewrite (IH _ H).
Qed.

Lemma string_app_length a b : String.length (a +:+ b) = (String.length a + String.length b)%nat.
Proof. induction a as [|c a IH]; simpl; [done|]. by rewrite IH. Qed.

Lemma len_app a b : len (a +:+ b) = len a + len b.
Proof. unfold len. rewrite string_app_length. lia. Qed.

Lemma string_app_assoc a b c : a +:+ (b +:+ c) = (a +:+ b) +:+ c.
Proof. induction a as [|x a IH]; [done|]. change (String x (a +:+ (b +:+ c)) = String x ((a +:+ b) +:+ c)). by rewrite IH. Qed.

Lemma length_as_bytes s : length (as_bytes s) = String.length s.
Proof. unfold as_bytes. induction s as [|c s IH]; simpl; [done|]. by rewrite IH. Qed.

Lemma len_nonneg s : 0 <= len s.
Proof. unfold len. lia. Qed.

Lemma as_bytes_app a b : as_bytes (a +:+ b) = as_bytes a ++ as_bytes b.
Proof. unfold as_bytes. induction a as [|c a IH]; simpl; [done|]. by rewrite IH. Qed.


Lemma len_String c s : len (String c s) = 1 + len s.
Proof. unfold len. simpl. lia. Qed.

(** ** Bytes one by one *)
Lemma forallb_impl {A} (p q : A -> bool) l : (forall x, p x = true -> q x = true) -> forallb p l = true -> forallb q l = true.
Proof. intros Hpq. rewrite !forallb_forall. auto. Qed.

Lemma char_cases (p q : ascii -> bool) :
  forallb (fun n => implb (p (ascii_of_nat n)) (q (ascii_of_nat n))) (seq 0 256) = true -> forall c, p c = true -> q c = true.
Proof.
  intros Hall c Hp. rewrite forallb_forall in Hall. specialize (Hall (nat_of_ascii c)).
  rewrite ascii_nat_embedding, Hp in Hall. apply Hall. apply in_seq. pose proof (nat_ascii_bounded c). lia.
Qed.

(** The digits are lowercase. *)
Definition hex_char (b : ascii) : bool := is_ascii_digit b || is_ascii_lowercase b.
Definition unhex (h l : ascii) : N :=
  let digit c := (if (N_of_ascii c <? 58) then N_of_ascii c - 48 else N_of_ascii c - 87)%N in (16 * digit h + digit l)%N.

Lemma bytes_all (p : ascii -> bool) : forallb (fun n => p (ascii_of_nat n)) (seq 0 256) = true -> forall b, p b = true.
Proof.
  intros Hall b. assert (forallb (fun n => implb true (p (ascii_of_nat n))) (seq 0 256) = true) as H' by exact Hall.
  by apply (char_cases (fun _ => true) p H').
Qed.
Lemma hex_byte_ok b : forallb hex_char (hex_byte b) = true.
Proof. revert b. apply bytes_all. vm_compute. reflexivity. Qed.
Lemma unhex_hex b : match hex_byte b with [h; l] => unhex h l = N_of_ascii b | _ => False end.
Proof.
  apply N.eqb_eq. revert b. apply (bytes_all (fun b => N.eqb (unhex _ _) (N_of_ascii b))). vm_compute. reflexivity.
Qed.

Lemma as_bytes_hex bytes : as_bytes (hex bytes) = concat (map hex_byte (as_bytes bytes)).
Proof. unfold hex, as_bytes. apply String.list_ascii_of_string_of_list_ascii. Qed.

Lemma hex_inj bytes bytes' : hex bytes = hex bytes' -> bytes = bytes'.
Proof.
  intros E. apply (f_equal as_bytes) in E. rewrite !as_bytes_hex in E.
  rewrite <- (String.string_of_list_ascii_of_string bytes), <- (String.string_of_list_ascii_of_string bytes'). f_equal.
  unfold as_bytes in E. revert E. generalize (String.list_ascii_of_string bytes), (String.list_ascii_of_string bytes').
  intros l. induction l as [|b l IH]; intros [|b' l']; simpl; try done.
  pose proof (unhex_hex b) as Hb. pose proof (unhex_hex b') as Hb'. simpl in Hb, Hb'.
  intros [= E1 E2 E3]. f_equal; [|by apply IH].
  apply (f_equal ascii_of_N) in Hb, Hb'. rewrite !ascii_N_embedding in Hb, Hb'. rewrite <- Hb, <- Hb'. by rewrite E1, E2.
Qed.

Lemma hex_chars bytes : forallb hex_char (as_bytes (hex bytes)) = true.
Proof.
  rewrite as_bytes_hex. induction (as_bytes bytes) as [|b l IH]; [done|].
  cbn [map concat]. by rewrite forallb_app, hex_byte_ok, IH.
Qed.
Lemma hex_len bytes : len (hex bytes) = 2 * len bytes.
Proof.
  unfold len. rewrite <- !length_as_bytes, as_bytes_hex. induction (as_bytes bytes) as [|b l IH]; [done|]. cbn [map concat].
  rewrite length_app. simpl length. lia.
Qed.
