(* ===== verification/Core.v ===== *)
(** * Core: the I/O-free domain vocabulary of [psst-core]

    Errors, opaque identifiers, validated text, timestamps, the lifecycle state
    machines, the lease rule and the retry equality of messages. *)
From Stdlib Require Import Ascii.
From S2P Require Import Prelude Text.

(** ** Errors (error.rs) *)
Inductive ErrorCode : Set :=
| EcInvalidRequest | EcNotFound | EcSquadArchived | EcNotMember | EcNameInUse
| EcLeaseExpired | EcRecipientNotFound | EcIdempotencyConflict | EcPayloadTooLarge
| EcRateLimited | EcDatabaseBusy | EcInternalError | EcInvalidStateTransition.

#[global] Instance ErrorCode_eq_dec : EqDecision ErrorCode.
Proof. solve_decision. Defined.

Definition ErrorCode_as_str (c : ErrorCode) : string :=
  match c with
  | EcInvalidRequest => "invalid_request"
  | EcNotFound => "not_found"
  | EcSquadArchived => "squad_archived"
  | EcNotMember => "not_member"
  | EcNameInUse => "name_in_use"
  | EcLeaseExpired => "lease_expired"
  | EcRecipientNotFound => "recipient_not_found"
  | EcIdempotencyConflict => "idempotency_conflict"
  | EcPayloadTooLarge => "payload_too_large"
  | EcRateLimited => "rate_limited"
  | EcDatabaseBusy => "database_busy"
  | EcInternalError => "internal_error"
  | EcInvalidStateTransition => "invalid_state_transition"
  end.

Record InvalidValue : Set := InvalidValue_new { iv_field : string; iv_reason : string }.

(** ** Opaque identifiers (id.rs) *)
Definition id_char (b : ascii) : bool :=
  is_ascii_lowercase b || is_ascii_digit b || bool_decide (b = "-"%char).

Definition id_ok (prefix : string) (value : string) : bool :=
  match strip_prefix (prefix +:+ "_") value with
  | None => false
  | Some suffix =>
      negb (is_empty suffix) && (len value <=? 128) && forallb id_char (as_bytes suffix)
  end.

(** The [opaque_id!] macro's [new], for the type named [name]. *)
Definition id_new (name prefix value : string) : Result InvalidValue (checked (id_ok prefix)) :=
  match strip_prefix (prefix +:+ "_") value with
  | None => Err (InvalidValue_new name "has the wrong prefix")
  | Some suffix =>
      if is_empty suffix || (128 <? len value) then
        Err (InvalidValue_new name "has an invalid length")
      else if negb (forallb id_char (as_bytes suffix)) then
        Err (InvalidValue_new name "contains invalid characters")
      else ok_or (check (id_ok prefix) value) (InvalidValue_new name "contains invalid characters")
  end.

Abbreviation SquadId := (checked (id_ok "sqd")).
Abbreviation AgentId := (checked (id_ok "agt")).
Abbreviation MembershipId := (checked (id_ok "mem")).
Abbreviation InstanceId := (checked (id_ok "ins")).
Abbreviation MessageId := (checked (id_ok "msg")).
Definition SquadId_new : string -> Result InvalidValue SquadId := id_new "SquadId" "sqd".
Definition AgentId_new : string -> Result InvalidValue AgentId := id_new "AgentId" "agt".
Definition MembershipId_new : string -> Result InvalidValue MembershipId := id_new "MembershipId" "mem".
Definition InstanceId_new : string -> Result InvalidValue InstanceId := id_new "InstanceId" "ins".
Definition MessageId_new : string -> Result InvalidValue MessageId := id_new "MessageId" "msg".

(** ** Validated text (value.rs) *)
Definition valid_squad_name (value : string) : bool :=
  let bytes := as_bytes value in
  match head bytes with Some b => is_ascii_alphanumeric b | None => false end
  && match last bytes with Some b => is_ascii_alphanumeric b | None => false end
  && forallb (fun b => is_ascii_lowercase b || is_ascii_digit b || bool_decide (b = "-"%char)) bytes.

Definition valid_member_name (value : string) : bool :=
  let bytes := as_bytes value in
  match head bytes with Some b => is_ascii_alphanumeric b | None => false end
  && match last bytes with Some b => is_ascii_alphanumeric b | None => false end
  && forallb (fun b => is_ascii_lowercase b || is_ascii_digit b
                       || bool_decide (b = "-"%char) || bool_decide (b = "_"%char)
                       || bool_decide (b = "."%char)) bytes.

Definition trimmed_nonempty (value : string) : bool :=
  bool_decide (trim value = value) && negb (is_empty (trim value)).
Definition printable (value : string) : bool :=
  trimmed_nonempty value && negb (existsb is_control (chars (as_bytes value))).

Definition text_ok (max : Z) (validator : string -> bool) (value : string) : bool :=
  negb (is_empty value) && (len value <=? max) && validator value.

(** The [text_value!] macro's [new]. *)
Definition text_new (field : string) (max : Z) (validator : string -> bool) (reason : string)
    (value : string) : Result InvalidValue (checked (text_ok max validator)) :=
  if is_empty value then Err (InvalidValue_new field "must not be empty")
  else if max <? len value then Err (InvalidValue_new field "is too large")
  else if negb (validator value) then Err (InvalidValue_new field reason)
  else ok_or (check (text_ok max validator) value) (InvalidValue_new field reason).

Abbreviation SquadName := (checked (text_ok 64 valid_squad_name)).
Abbreviation MemberName := (checked (text_ok 64 valid_member_name)).
Abbreviation Mission := (checked (text_ok 4096 trimmed_nonempty)).
Abbreviation Role := (checked (text_ok 256 trimmed_nonempty)).
Abbreviation DedupeKey := (checked (text_ok 256 printable)).
Abbreviation CorrelationId := (checked (text_ok 256 printable)).
Definition SquadName_new : string -> Result InvalidValue SquadName :=
  text_new "squad_name" 64 valid_squad_name "must be a lowercase ASCII routing name".
Definition MemberName_new : string -> Result InvalidValue MemberName :=
  text_new "member_name" 64 valid_member_name "must be a lowercase ASCII routing name".
Definition Mission_new : string -> Result InvalidValue Mission :=
  text_new "mission" 4096 trimmed_nonempty "must not have surrounding whitespace".
Definition Role_new : string -> Result InvalidValue Role :=
  text_new "role" 256 trimmed_nonempty "must not have surrounding whitespace".
Definition DedupeKey_new : string -> Result InvalidValue DedupeKey :=
  text_new "dedupe_key" 256 printable "must contain printable text without surrounding whitespace".
Definition CorrelationId_new : string -> Result InvalidValue CorrelationId :=
  text_new "correlation_id" 256 printable "must contain printable text without surrounding whitespace".

Definition MAX_BYTES : Z := 64 * 1024.
Definition body_ok (value : string) : bool := negb (is_empty value) && (len value <=? MAX_BYTES).
Abbreviation MessageBody := (checked body_ok).
Definition MessageBody_new (value : string) : Result InvalidValue MessageBody :=
  if is_empty value then Err (InvalidValue_new "message_body" "must not be empty")
  else if MAX_BYTES <? len value then Err (InvalidValue_new "message_body" "is too large")
  else ok_or (check body_ok value) (InvalidValue_new "message_body" "is too large").

(** ** Time (time.rs)

    A [std::time::Duration] is its number of nanoseconds; [as_millis] truncates. *)
Definition Duration : Set := N.
Definition Duration_from_millis (n : N) : Duration := (n * 1000000)%N.
Definition Duration_from_secs (n : N) : Duration := (n * 1000000000)%N.
Definition as_millis (d : Duration) : Z := Z.of_N (d / 1000000)%N.
Definition as_secs (d : Duration) : Z := Z.of_N (d / 1000000000)%N.
Definition is_zero (d : Duration) : bool := (d =? 0)%N.

(** [Duration::MAX]: u64 seconds and 999,999,999 nanoseconds. *)
Definition Duration_MAX : Duration := (2 ^ 64 * 1000000000 - 1)%N.
Definition Duration_checked_mul (d : Duration) (k : N) : option Duration :=
  if (d * k <=? Duration_MAX)%N then Some (d * k)%N else None.
Definition Duration_saturating_mul (d : Duration) (k : N) : Duration := N.min (d * k) Duration_MAX.
Definition Duration_saturating_add (d e : Duration) : Duration := N.min (d + e) Duration_MAX.

(** [UnixMillis] wraps a non-negative [i64]; the second test is the field's type. *)
Definition millis_ok (value : Z) : bool := (0 <=? value) && (value <=? i64_max).
Abbreviation UnixMillis := (checked millis_ok).

Definition UnixMillis_new (value : Z) : Result InvalidValue UnixMillis :=
  if value <? 0 then Err (InvalidValue_new "timestamp" "must not precede the Unix epoch")
  else ok_or (check millis_ok value) (InvalidValue_new "timestamp" "must not precede the Unix epoch").

(** [UnixMillis::checked_add]: the duration must fit an [i64] and the sum too. *)
Definition UnixMillis_checked_add (self : UnixMillis) (duration : Duration) : option UnixMillis :=
  let millis := as_millis duration in
  if millis <=? i64_max then
    match i64_checked_add (raw self) millis with
    | Some sum => check millis_ok sum
    | None => None
    end
  else None.

Definition UnixMillis_max (a b : UnixMillis) : UnixMillis := if raw a <=? raw b then b else a.

(** ** Domain errors (error.rs) *)
Inductive DomainError : Set :=
| DeInvalidValue (e : InvalidValue)
| DeInvalidStateTransition (entity action : string)
| DeLeaseExpired
| DeIdempotencyConflict (existing : MessageId).

Definition DomainError_code (e : DomainError) : ErrorCode :=
  match e with
  | DeInvalidValue _ => EcInvalidRequest
  | DeInvalidStateTransition _ _ => EcInvalidStateTransition
  | DeLeaseExpired => EcLeaseExpired
  | DeIdempotencyConflict _ => EcIdempotencyConflict
  end.

(** ** Lifecycles (state.rs): a method that mutates [self] returns its new value *)
Inductive AgentMode : Set := Cooperative | Scheduled | Harnessed.
Inductive SquadState : Set := SqActive | SqArchived.
Inductive MembershipState : Set := Joined | Left.
Inductive InstanceState : Set := Online | Expired | Closed.
Inductive MessageState : Set := Pending | Acknowledged.
Inductive Availability : Set := Idle | Busy | Blocked | AvUnknown.
Inductive AvailabilitySource : Set :=
| SessionLifecycle | McpConnection | ToolActivity | AgentReported | SrcUnknown.

#[global] Instance AgentMode_eq_dec : EqDecision AgentMode.
Proof. solve_decision. Defined.
#[global] Instance SquadState_eq_dec : EqDecision SquadState.
Proof. solve_decision. Defined.
#[global] Instance MembershipState_eq_dec : EqDecision MembershipState.
Proof. solve_decision. Defined.
#[global] Instance InstanceState_eq_dec : EqDecision InstanceState.
Proof. solve_decision. Defined.
#[global] Instance MessageState_eq_dec : EqDecision MessageState.
Proof. solve_decision. Defined.
#[global] Instance Availability_eq_dec : EqDecision Availability.
Proof. solve_decision. Defined.
#[global] Instance AvailabilitySource_eq_dec : EqDecision AvailabilitySource.
Proof. solve_decision. Defined.

Definition SquadState_archive (self : SquadState) : Result DomainError SquadState :=
  if bool_decide (self = SqArchived) then Err (DeInvalidStateTransition "squad" "archive")
  else Ok SqArchived.

Definition MembershipState_leave (self : MembershipState) : Result DomainError MembershipState :=
  if bool_decide (self = Left) then Err (DeInvalidStateTransition "membership" "leave")
  else Ok Left.

Definition InstanceState_at (closed_at : option UnixMillis) (lease_expires_at now : UnixMillis)
    : InstanceState :=
  match closed_at with
  | Some _ => Closed
  | None => if raw lease_expires_at <=? raw now then Expired else Online
  end.

Definition InstanceState_close (self : InstanceState) : Result DomainError InstanceState :=
  if bool_decide (self <> Online) then Err (DeInvalidStateTransition "instance" "close")
  else Ok Closed.

Definition MessageState_acknowledge (self : MessageState) : Result DomainError MessageState :=
  if bool_decide (self = Acknowledged) then Err (DeInvalidStateTransition "message" "acknowledge")
  else Ok Acknowledged.

Definition renew_lease (state : InstanceState) (current_expiry now : UnixMillis)
    (duration : Duration) : Result DomainError UnixMillis :=
  if bool_decide (state = Closed) then Err (DeInvalidStateTransition "instance" "heartbeat")
  else if bool_decide (state = Expired) || (raw current_expiry <=? raw now) then
    Err DeLeaseExpired
  else match UnixMillis_checked_add now duration with
       | None => Err (DeInvalidValue (InvalidValue_new "lease" "overflows timestamp"))
       | Some candidate => Ok (UnixMillis_max candidate current_expiry)
       end.

Record AvailabilityObservation : Set := {
  obs_availability : Availability;
  obs_source : AvailabilitySource;
  obs_observed_at : UnixMillis }.

Definition AvailabilityObservation_new (availability : Availability) (source : AvailabilitySource)
    (observed_at : UnixMillis) : Result DomainError AvailabilityObservation :=
  if negb (eqb (bool_decide (availability = AvUnknown)) (bool_decide (source = SrcUnknown))) then
    Err (DeInvalidValue (InvalidValue_new "availability"
      "availability and observation source must both be known or both be unknown"))
  else Ok {| obs_availability := availability; obs_source := source; obs_observed_at := observed_at |}.

(** ** Messages (message.rs) *)
Inductive MessagePriority : Set := Normal | High.
#[global] Instance MessagePriority_eq_dec : EqDecision MessagePriority.
Proof. solve_decision. Defined.

Record MessageSemantics : Set := {
  sem_squad : SquadId;
  sem_sender : MembershipId;
  sem_recipient : MembershipId;
  sem_body : MessageBody;
  sem_priority : MessagePriority;
  sem_reply_to : option MessageId;
  sem_correlation_id : option CorrelationId }.
#[global] Instance MessageSemantics_eq_dec : EqDecision MessageSemantics.
Proof. solve_decision. Defined.

Definition matches_retry (self retry : MessageSemantics) : bool := bool_decide (self = retry).

(** ** Resume tokens (secret.rs)

    The SHA-256, base64url and CSPRNG crates are parameters. *)
Class Crypto := {
  sha256 : string -> string;
  base64url_encode : string -> string;
  base64url_decode : string -> option string }.

Definition base64url_char (b : ascii) : bool :=
  is_ascii_alphanumeric b || bool_decide (b = "-"%char) || bool_decide (b = "_"%char).

(** What their documentation promises and the sources rely on. *)
Class CryptoLaws `{Crypto} : Prop := {
  sha256_length : forall s, len (sha256 s) = 32;
  base64url_length : forall s, len s = 32 -> len (base64url_encode s) = 43;
  base64url_roundtrip : forall s, len s = 32 -> base64url_decode (base64url_encode s) = Some s;
  base64url_alphabet : forall s, forallb base64url_char (as_bytes (base64url_encode s)) = true }.

Definition TOKEN_BYTES : Z := 32.
Definition TOKEN_ENCODED_LENGTH : Z := 43.
Record ResumeToken : Set := MkResumeToken { expose_encoded : string }.
#[global] Instance ResumeToken_eq_dec : EqDecision ResumeToken.
Proof. solve_decision. Defined.

Section Tokens.
Context `{Crypto}.

(** [ResumeToken::generate], on what the operating system's generator gave. *)
Definition ResumeToken_generate (random : option string) : Result unit ResumeToken :=
  match random with
  | Some bytes => Ok (MkResumeToken (base64url_encode bytes))
  | None => Err tt
  end.

Definition ResumeToken_from_encoded (value : string) : Result InvalidValue ResumeToken :=
  if negb (len value =? TOKEN_ENCODED_LENGTH) then
    Err (InvalidValue_new "resume_token" "must be a canonical 256-bit token")
  else match base64url_decode value with
  | None => Err (InvalidValue_new "resume_token" "must be canonical base64url without padding")
  | Some decoded =>
      if negb (len decoded =? TOKEN_BYTES) || bool_decide (base64url_encode decoded <> value) then
        Err (InvalidValue_new "resume_token" "must be a canonical 256-bit token")
      else Ok (MkResumeToken value)
  end.
End Tokens.

(** ** Messages of the errors *)
Definition InvalidValue_fmt (self : InvalidValue) : string :=
  "invalid " +:+ iv_field self +:+ ": " +:+ iv_reason self.
Definition DomainError_fmt (self : DomainError) : string :=
  match self with
  | DeInvalidValue error => InvalidValue_fmt error
  | DeInvalidStateTransition entity action => "cannot " +:+ action +:+ " " +:+ entity +:+ " in its current state"
  | DeLeaseExpired => "the instance lease has expired"
  | DeIdempotencyConflict _ => "dedupe key has different semantics"
  end.

(** ** Lemmas: validation and its round trip

    [as_str] of a validated value is accepted again, as the same value, and only
    valid text is accepted. *)
Lemma id_new_iff name prefix value (x : checked (id_ok prefix)) :
  id_new name prefix value = Ok x <-> raw x = value.
Proof.
  unfold id_new. split.
  - destruct (strip_prefix _ _); [|done]. repeat case_match; try done.
    unfold ok_or. destruct (check _ _) eqn:Hc; [|done]. intros [= <-]. by eapply check_Some.
  - intros <-. rewrite check_raw. simpl.
    destruct x as [v Hv]; simpl. pose proof Hv as Hx. apply Is_true_true in Hx. unfold id_ok in Hx.
    destruct (strip_prefix _ _) as [suffix|]; [|done]. bool_to_prop.
    assert (is_empty suffix || (128 <? len v) = false) as ->.
    { apply orb_false_iff. split; [done|]. by apply Z.ltb_ge. }
    match goal with H : forallb _ _ = true |- _ => rewrite H end. done.
Qed.

Lemma text_new_iff field max validator reason value (x : checked (text_ok max validator)) :
  text_new field max validator reason value = Ok x <-> raw x = value.
Proof.
  unfold text_new. split.
  - repeat case_match; try done.
    unfold ok_or. destruct (check _ _) eqn:Hc; [|done]. intros [= <-]. by eapply check_Some.
  - intros <-. rewrite check_raw. simpl.
    destruct x as [v Hv]; simpl. pose proof Hv as Hx. apply Is_true_true in Hx. unfold text_ok in Hx. bool_to_prop.
    destruct (is_empty v); [done|]. destruct (Z.ltb_spec max (len v)); [lia|].
    destruct (validator v); done.
Qed.

Lemma MessageBody_new_iff value (x : MessageBody) : MessageBody_new value = Ok x <-> raw x = value.
Proof.
  unfold MessageBody_new. split.
  - repeat case_match; try done.
    unfold ok_or. destruct (check _ _) eqn:Hc; [|done]. intros [= <-]. by eapply check_Some.
  - intros <-. rewrite check_raw. simpl.
    destruct x as [v Hv]; simpl. pose proof Hv as Hx. apply Is_true_true in Hx. unfold body_ok in Hx. bool_to_prop.
    destruct (is_empty v); [done|]. destruct (Z.ltb_spec MAX_BYTES (len v)); [lia|done].
Qed.

Lemma UnixMillis_new_iff value (x : UnixMillis) : UnixMillis_new value = Ok x <-> raw x = value.
Proof.
  unfold UnixMillis_new. split.
  - case_match; [done|].
    unfold ok_or. destruct (check _ _) eqn:Hc; [|done]. intros [= <-]. by eapply check_Some.
  - intros <-. rewrite check_raw. simpl.
    destruct x as [v Hv]; simpl. pose proof Hv as Hx. apply Is_true_true in Hx. unfold millis_ok in Hx. bool_to_prop.
    destruct (Z.ltb_spec v 0); [lia|done].
Qed.

Lemma millis_range (x : UnixMillis) : 0 <= raw x <= i64_max.
Proof. destruct x as [v Hx]; simpl. apply Is_true_true in Hx. unfold millis_ok in Hx. bool_to_prop. lia. Qed.

(** A validating constructor and the type it guards. *)
Class Validator (T : Type) (new : string -> Result InvalidValue T) (text : T -> string) : Prop :=
  new_iff : forall value x, new value = Ok x <-> text x = value.

#[global] Instance SquadId_validator : Validator SquadId SquadId_new raw := id_new_iff _ _.
#[global] Instance AgentId_validator : Validator AgentId AgentId_new raw := id_new_iff _ _.
#[global] Instance MembershipId_validator : Validator MembershipId MembershipId_new raw := id_new_iff _ _.
#[global] Instance InstanceId_validator : Validator InstanceId InstanceId_new raw := id_new_iff _ _.
#[global] Instance MessageId_validator : Validator MessageId MessageId_new raw := id_new_iff _ _.
#[global] Instance SquadName_validator : Validator SquadName SquadName_new raw := text_new_iff _ _ _ _.
#[global] Instance MemberName_validator : Validator MemberName MemberName_new raw := text_new_iff _ _ _ _.
#[global] Instance Mission_validator : Validator Mission Mission_new raw := text_new_iff _ _ _ _.
#[global] Instance Role_validator : Validator Role Role_new raw := text_new_iff _ _ _ _.
#[global] Instance DedupeKey_validator : Validator DedupeKey DedupeKey_new raw := text_new_iff _ _ _ _.
#[global] Instance CorrelationId_validator : Validator CorrelationId CorrelationId_new raw := text_new_iff _ _ _ _.
#[global] Instance MessageBody_validator : Validator MessageBody MessageBody_new raw := MessageBody_new_iff.

Lemma new_raw `{Validator T new text} (x : T) : new (text x) = Ok x.
Proof. by apply new_iff. Qed.

Lemma UnixMillis_new_raw (x : UnixMillis) : UnixMillis_new (raw x) = Ok x.
Proof. by apply UnixMillis_new_iff. Qed.

Lemma checked_exists {A} (ok : A -> bool) a : ok a = true -> exists x : checked ok, raw x = a.
Proof. intros Hok. apply Is_true_true in Hok. by exists (Checked ok a Hok). Qed.

(** ** The sizes of validated values *)
Lemma id_len {prefix} (x : checked (id_ok prefix)) : 0 <= len (raw x) <= 128.
Proof.
  destruct x as [v Hv]. simpl. apply Is_true_true in Hv. unfold id_ok in Hv.
  destruct (strip_prefix _ _); [|done]. bool_to_prop. pose proof (len_nonneg v). lia.
Qed.
Lemma text_len {max v} (x : checked (text_ok max v)) : 0 <= len (raw x) <= max.
Proof.
  destruct x as [s Hs]. simpl. apply Is_true_true in Hs. unfold text_ok in Hs. bool_to_prop.
  pose proof (len_nonneg s). lia.
Qed.
Lemma body_len (x : MessageBody) : 0 <= len (raw x) <= 65536.
Proof.
  destruct x as [s Hs]. simpl. apply Is_true_true in Hs. unfold body_ok, MAX_BYTES in Hs. bool_to_prop.
  pose proof (len_nonneg s). lia.
Qed.
