(* ===== verification/Base64.v ===== *)
(** * Base64: a concrete instance of the cryptographic interface

    base64url without padding is computed; the digest is a stand-in with the
    interface's only promise, 32 bytes.  The examples of the development run on
    this instance. *)
From Stdlib Require Import Ascii String.
From S2P Require Import Prelude Text Core.

Definition alphabet : string := "ABCDEFGHIJKLMNOPQRSTUVWXYZabcdefghijklmnopqrstuvwxyz0123456789-_".

Definition bits_of_byte (c : ascii) : list bool :=
  let 'Ascii b0 b1 b2 b3 b4 b5 b6 b7 := c in [b7; b6; b5; b4; b3; b2; b1; b0].

Definition bits (s : string) : list bool := concat (map bits_of_byte (list_ascii_of_string s)).

Definition value (l : list bool) : nat := fold_left (fun n b => (2 * n + Nat.b2n b)%nat) l 0%nat.
Definition char_of (l : list bool) : ascii := default zero (String.get (value l) alphabet).

Fixpoint index_of (c : ascii) (s : string) : option nat :=
  match s with
  | EmptyString => None
  | String d s' => if bool_decide (c = d) then Some 0%nat else S <$> index_of c s'
  end.
Definition sextet (n : nat) : list bool :=
  map (fun k => Nat.testbit n k) [5; 4; 3; 2; 1; 0]%nat.

(** Groups of six bits, the last one padded with zeros. *)
Fixpoint sextets (l : list bool) : list (list bool) :=
  match l with
  | a :: b :: c :: d :: e :: f :: rest => [a; b; c; d; e; f] :: sextets rest
  | [] => []
  | [a] => [[a; false; false; false; false; false]]
  | [a; b] => [[a; b; false; false; false; false]]
  | [a; b; c] => [[a; b; c; false; false; false]]
  | [a; b; c; d] => [[a; b; c; d; false; false]]
  | [a; b; c; d; e] => [[a; b; c; d; e; false]]
  end.

Definition encode (s : string) : string := string_of_list_ascii (map char_of (sextets (bits s))).

(** Groups of eight bits; what is left must be fewer than six zero bits. *)
Fixpoint octets (l : list bool) : option (list ascii) :=
  match l with
  | b7 :: b6 :: b5 :: b4 :: b3 :: b2 :: b1 :: b0 :: rest =>
      cons (Ascii b0 b1 b2 b3 b4 b5 b6 b7) <$> octets rest
  | rest => if forallb negb rest && bool_decide (length rest < 6)%nat then Some [] else None
  end.

Fixpoint decode_bits (s : string) : option (list bool) :=
  match s with
  | EmptyString => Some []
  | String c s' =>
      match index_of c alphabet, decode_bits s' with
      | Some n, Some l => Some (sextet n ++ l)
      | _, _ => None
      end
  end.

Definition decode (s : string) : option string := string_of_list_ascii <$> (decode_bits s ≫= octets).

(** Thirty-two bytes: the xor of the text's blocks. *)
Definition xor_byte (a b : ascii) : ascii :=
  ascii_of_N (N.lxor (N_of_ascii a) (N_of_ascii b)).
Fixpoint absorb (state : list ascii) (s : string) : list ascii :=
  match s, state with
  | String c s', h :: t => absorb (t ++ [xor_byte h c]) s'
  | _, _ => state
  end.
Definition digest (s : string) : string := string_of_list_ascii (absorb (replicate 32 zero) s).

#[global] Instance example_crypto : Crypto :=
  {| sha256 := digest; base64url_encode := encode; base64url_decode := decode |}.

(** ** The laws *)
Lemma absorb_length s state : (0 < length state)%nat -> length (absorb state s) = length state.
Proof.
  revert state. induction s as [|c s IH]; intros [|h t] Hl; simpl in *; try lia.
  rewrite IH; rewrite length_app; simpl; lia.
Qed.

Lemma len_of_list l : len (string_of_list_ascii l) = Z.of_nat (length l).
Proof. unfold len. induction l; simpl; [done|]. lia. Qed.

Lemma digest_length s : len (digest s) = 32.
Proof. unfold digest. rewrite len_of_list, absorb_length; [done|]. rewrite length_replicate. lia. Qed.

Lemma char_of_roundtrip a b c d e f : sextet <$> index_of (char_of [a; b; c; d; e; f]) alphabet = Some [a; b; c; d; e; f].
Proof. by destruct a, b, c, d, e, f. Qed.

(** Induction six elements at a time. *)
Lemma sextets_ind (P : list bool -> Prop) :
  P [] -> (forall a, P [a]) -> (forall a b, P [a; b]) -> (forall a b c, P [a; b; c]) ->
  (forall a b c d, P [a; b; c; d]) -> (forall a b c d e, P [a; b; c; d; e]) ->
  (forall a b c d e f l, P l -> P (a :: b :: c :: d :: e :: f :: l)) -> forall l, P l.
Proof.
  intros P0 P1 P2 P3 P4 P5 P6 l. remember (length l) as n eqn:Hn. revert l Hn.
  induction (Nat.lt_wf_0 n) as [n _ IH]. intros [|a [|b [|c [|d [|e [|f l]]]]]] Hn; auto.
  apply P6. eapply IH; [|reflexivity]. simpl in Hn. lia.
Qed.

#[local] Arguments char_of : simpl never.
#[local] Arguments index_of : simpl never.

Lemma decode_bits_cons a b c d e f s :
  decode_bits (String (char_of [a; b; c; d; e; f]) s) = app [a; b; c; d; e; f] <$> decode_bits s.
Proof.
  cbn [decode_bits]. pose proof (char_of_roundtrip a b c d e f) as Hc.
  destruct (index_of _ _) as [k|]; simpl in Hc; [|done]. injection Hc as <- <- <- <- <- <-.
  by destruct (decode_bits s).
Qed.

Lemma decode_bits_encode l :
  exists n, (n < 6)%nat /\ decode_bits (string_of_list_ascii (map char_of (sextets l))) = Some (l ++ replicate n false)
            /\ (length l + n = 6 * length (sextets l))%nat.
Proof.
  induction l as [|a|a b|a b c|a b c d|a b c d e|a b c d e f l IH] using sextets_ind;
    cbn [sextets map string_of_list_ascii]; rewrite ?decode_bits_cons.
  - exists 0%nat. split; [lia|done].
  - exists 5%nat. split; [lia|done].
  - exists 4%nat. split; [lia|done].
  - exists 3%nat. split; [lia|done].
  - exists 2%nat. split; [lia|done].
  - exists 1%nat. split; [lia|done].
  - destruct IH as (n & Hn & -> & Hl). exists n. split; [done|]. split; [done|]. simpl. lia.
Qed.

Lemma octets_bits l n : (n < 6)%nat -> octets (concat (map bits_of_byte l) ++ replicate n false) = Some l.
Proof.
  intros Hn. induction l as [|c l IH]; simpl.
  - destruct n as [|[|[|[|[|[|n]]]]]]; try done. lia.
  - destruct c as [b0 b1 b2 b3 b4 b5 b6 b7]. simpl. by rewrite IH.
Qed.

Lemma decode_encode s : decode (encode s) = Some s.
Proof.
  unfold decode, encode. destruct (decode_bits_encode (bits s)) as (n & Hn & -> & _). simpl.
  unfold bits. rewrite octets_bits by done. simpl. by rewrite string_of_list_ascii_of_string.
Qed.

Lemma bits_length l : length (concat (map bits_of_byte l)) = (8 * length l)%nat.
Proof. induction l as [|[] l IH]; simpl; [done|]. lia. Qed.

Lemma encode_length s : len s = 32 -> len (encode s) = 43.
Proof.
  intros Hs. unfold encode. rewrite len_of_list, length_map.
  destruct (decode_bits_encode (bits s)) as (n & Hn & _ & Hl). unfold bits in *.
  rewrite bits_length in Hl. rewrite <- (string_of_list_ascii_of_string s), len_of_list in Hs. lia.
Qed.

Lemma char_of_alphabet a b c d e f : base64url_char (char_of [a; b; c; d; e; f]) = true.
Proof. by destruct a, b, c, d, e, f. Qed.

Lemma encode_alphabet s : forallb base64url_char (as_bytes (encode s)) = true.
Proof.
  unfold encode, as_bytes. rewrite list_ascii_of_string_of_list_ascii.
  induction (bits s) as [|a|a b|a b c|a b c d|a b c d e|a b c d e f l IH] using sextets_ind;
    cbn [sextets map forallb]; rewrite ?char_of_alphabet; done.
Qed.

#[global] Instance example_crypto_laws : CryptoLaws.
Proof.
  constructor; [apply digest_length|apply encode_length| |apply encode_alphabet]. intros s _. apply decode_encode.
Qed.
