(* ===== verification/Credential.v ===== *)
(** * Credential: session credentials on the wire (psst-protocol/src/auth.rs)

    The http crate's [HeaderValue] is a parameter, its values given by their
    bytes: [HeaderValue::from_str] and [HeaderValue::to_str]. *)
From Stdlib Require Import Ascii.
From S2P Require Import Prelude Text Core Base64.

Definition BEARER_PREFIX : string := "Bearer ".
Definition AUTHORIZATION_HEADER : string := "authorization".
Definition SESSION_CREDENTIAL_HEADER : string := "psst-session-credential".
Definition CACHE_CONTROL_HEADER : string := "cache-control".
Definition NO_STORE : string := "no-store".
Definition MAX_CREDENTIAL_LENGTH : Z := 172.
Definition SENSITIVE_HEADERS : list string := [AUTHORIZATION_HEADER; SESSION_CREDENTIAL_HEADER].

(** ** Redaction *)
Definition to_ascii_lowercase (b : ascii) : ascii :=
  if is_ascii_uppercase b then ascii_of_N (N_of_ascii b + 32) else b.
Definition eq_ignore_ascii_case (a b : string) : bool :=
  bool_decide (map to_ascii_lowercase (as_bytes a) = map to_ascii_lowercase (as_bytes b)).
Definition header_value_for_log (name value : string) : string :=
  if existsb (eq_ignore_ascii_case name) SENSITIVE_HEADERS then "[REDACTED]" else value.

(** ** Credentials *)
Record SessionCredential : Set := { cr_instance_id : InstanceId; cr_resume_token : ResumeToken }.

Definition invalid_credential : InvalidValue :=
  InvalidValue_new "authorization" "is not a valid session credential".

Definition encoded (self : SessionCredential) : string :=
  raw (cr_instance_id self) +:+ "." +:+ expose_encoded (cr_resume_token self).

(** [value.matches(c).count()] and [value.split_once(c)]. *)
Fixpoint count_char (c : ascii) (s : string) : nat :=
  match s with
  | EmptyString => 0
  | String d s' => (if bool_decide (c = d) then 1 else 0) + count_char c s'
  end.
Fixpoint split_once (c : ascii) (s : string) : option (string * string) :=
  match s with
  | EmptyString => None
  | String d s' =>
      if bool_decide (c = d) then Some (EmptyString, s')
      else match split_once c s' with Some (a, b) => Some (String d a, b) | None => None end
  end.

(** Response headers: [HeaderMap::insert] replaces the values of a name. *)
Definition Headers : Set := list (string * string).
Definition header_insert (name value : string) (h : Headers) : Headers :=
  List.filter (fun '(n, _) => negb (bool_decide (n = name))) h ++ [(name, value)].
Definition header_get_all (name : string) (h : Headers) : list string :=
  map snd (List.filter (fun '(n, _) => bool_decide (n = name)) h).

Class HttpHeaders := {
  header_from_str : string -> option string;
  header_to_str : string -> option string }.
(** [HeaderValue::from_str] accepts visible ASCII, and [to_str] gives it back. *)
Definition visible_ascii (b : ascii) : bool := (32 <=? byte_val b) && (byte_val b <? 127).
Class HttpHeadersLaws `{HttpHeaders} : Prop := {
  header_visible : forall s, forallb visible_ascii (as_bytes s) = true -> header_from_str s = Some s;
  header_text : forall s, forallb visible_ascii (as_bytes s) = true -> header_to_str s = Some s }.

Section Credentials.
Context `{Crypto} `{HttpHeaders}.

Definition authorization_header (self : SessionCredential) : Result InvalidValue string :=
  ok_or (header_from_str (BEARER_PREFIX +:+ encoded self)) invalid_credential.

Definition apply_authorization (self : SessionCredential) (h : Headers) : Result InvalidValue Headers :=
  value ← authorization_header self;
  Ok (header_insert AUTHORIZATION_HEADER value h).

(** [IssuedSessionHeaders::new] and [apply]. *)
Definition IssuedSessionHeaders_new (credential : SessionCredential) : Result InvalidValue string :=
  ok_or (header_from_str (encoded credential)) invalid_credential.
Definition IssuedSessionHeaders_apply (value : string) (h : Headers) : Headers :=
  header_insert CACHE_CONTROL_HEADER NO_STORE (header_insert SESSION_CREDENTIAL_HEADER value h).

Definition parse_session_value (value : string) : Result InvalidValue SessionCredential :=
  if is_empty value || (MAX_CREDENTIAL_LENGTH <? len value) || negb (Nat.eqb (count_char "." value) 1) then
    Err invalid_credential
  else
    '(instance, token) ← ok_or (split_once "." value) invalid_credential;
    instance_id ← map_err (fun _ => invalid_credential) (InstanceId_new instance);
    resume_token ← map_err (fun _ => invalid_credential) (ResumeToken_from_encoded token);
    Ok {| cr_instance_id := instance_id; cr_resume_token := resume_token |}.

Definition parse_authorization (value : string) : Result InvalidValue SessionCredential :=
  if len BEARER_PREFIX + MAX_CREDENTIAL_LENGTH <? len value then Err invalid_credential
  else
    encoded ← ok_or (strip_prefix BEARER_PREFIX value) invalid_credential;
    parse_session_value encoded.

(** A token that [from_encoded] accepts: the encoding of 32 bytes. *)
Definition canonical (t : ResumeToken) : Prop := ResumeToken_from_encoded (expose_encoded t) = Ok t.

(** ** Lemmas *)
Lemma from_encoded_Ok v t :
  ResumeToken_from_encoded v = Ok t ->
  expose_encoded t = v /\ len v = 43 /\ exists b, len b = 32 /\ base64url_encode b = v.
Proof.
  unfold ResumeToken_from_encoded, TOKEN_ENCODED_LENGTH, TOKEN_BYTES. repeat split_match; try done.
  intros [= <-]. bool_to_prop. simpl. split; [done|]. split; [done|]. eauto.
Qed.

Lemma count_char_app c a b : count_char c (a +:+ b) = (count_char c a + count_char c b)%nat.
Proof. induction a as [|d a IH]; simpl; [done|]. rewrite IH. lia. Qed.

Lemma count_char_none c s : forallb (fun d => negb (bool_decide (c = d))) (as_bytes s) = true -> count_char c s = 0%nat.
Proof.
  unfold as_bytes. induction s as [|d s IH]; simpl; [done|]. intros [Hd Hs]%andb_true_iff.
  apply negb_true_iff in Hd. rewrite Hd, IH; done.
Qed.

Lemma split_once_app c a b : count_char c a = 0%nat -> split_once c (a +:+ String c b) = Some (a, b).
Proof.
  induction a as [|d a IH]; simpl; [by rewrite bool_decide_eq_true_2|].
  case_bool_decide; [lia|]. intros Ha. by rewrite IH.
Qed.

Lemma split_once_Some c s a b : split_once c s = Some (a, b) -> s = a +:+ String c b.
Proof.
  revert a b. induction s as [|d s IH]; simpl; [done|]. intros a b. case_bool_decide as E.
  - intros [= <- <-]. by subst.
  - destruct (split_once c s) as [[a' b']|]; [|done]. intros [= <- <-]. by rewrite (IH a' b').
Qed.

(** Neither an instance id nor a token contains the separator, and both are visible ASCII. *)
Lemma id_chars_ok q (x : InstanceId) :
  (forall c, id_char c = true -> q c = true) -> forallb q (as_bytes "ins_") = true -> forallb q (as_bytes (raw x)) = true.
Proof.
  intros Hq Hp. destruct x as [v Hv]. simpl. apply Is_true_true in Hv. unfold id_ok in Hv.
  destruct (strip_prefix ("ins" +:+ "_") v) as [suffix|] eqn:E; [|done]. apply strip_prefix_Some in E as ->.
  bool_to_prop. rewrite as_bytes_app, forallb_app. apply andb_true_iff. split; [exact Hp|]. by eapply forallb_impl.
Qed.

Lemma token_chars_ok `{!CryptoLaws} q (t : ResumeToken) :
  (forall c, base64url_char c = true -> q c = true) -> canonical t -> forallb q (as_bytes (expose_encoded t)) = true.
Proof.
  intros Hq (_ & _ & b & _ & <-)%from_encoded_Ok. eapply forallb_impl; [exact Hq|]. apply base64url_alphabet.
Qed.

Lemma encoded_visible `{!CryptoLaws} c : canonical (cr_resume_token c) -> forallb visible_ascii (as_bytes (encoded c)) = true.
Proof.
  intros Hc. unfold encoded. rewrite !as_bytes_app, !forallb_app. solve_andb.
  - apply id_chars_ok; [|done]. by apply char_cases.
  - apply token_chars_ok; [|done]. by apply char_cases.
Qed.

Lemma instance_id_len (x : InstanceId) : 0 < len (raw x) <= 128.
Proof.
  destruct x as [v Hv]. simpl. apply Is_true_true in Hv. unfold id_ok in Hv.
  destruct (strip_prefix ("ins" +:+ "_") v) as [r|] eqn:E; [|done]. apply strip_prefix_Some in E as ->.
  bool_to_prop. rewrite len_app in *. pose proof (len_nonneg r). change (len ("ins" +:+ "_")) with 4 in *. lia.
Qed.

Lemma parse_encoded `{!CryptoLaws} c : canonical (cr_resume_token c) -> parse_session_value (encoded c) = Ok c.
Proof.
  intros Hc. destruct c as [id t]. simpl in Hc. unfold encoded. simpl.
  destruct (from_encoded_Ok _ _ Hc) as (_ & Hlen & _).
  assert (count_char "." (raw id) = 0%nat) as C1.
  { apply count_char_none, id_chars_ok; [|done]. by apply char_cases. }
  assert (count_char "." (expose_encoded t) = 0%nat) as C2.
  { apply count_char_none, token_chars_ok; [|done]. by apply char_cases. }
  pose proof (instance_id_len id) as Hid.
  unfold parse_session_value.
  assert (is_empty (raw id +:+ "." +:+ expose_encoded t) = false) as ->.
  { apply bool_decide_eq_false. intros E. apply (f_equal len) in E. rewrite !len_app in E.
    change (len ".") with 1 in E. pose proof (len_nonneg (expose_encoded t)). change (len EmptyString) with 0 in E. lia. }
  rewrite !len_app. change (len ".") with 1. unfold MAX_CREDENTIAL_LENGTH.
  rewrite (proj2 (Z.ltb_ge 172 _)) by lia.
  rewrite !count_char_app, C1, C2. simpl.
  change ("." +:+ expose_encoded t) with (String "." (expose_encoded t)).
  rewrite split_once_app by done. simpl. unfold InstanceId_new.
  rewrite (proj2 (id_new_iff "InstanceId" "ins" (raw id) id)) by done. simpl. by rewrite Hc.
Qed.

(** A session credential survives the wire: the Authorization header a client
    builds from an instance id and a canonical token parses back to the same
    credential. *)
Lemma authorization_roundtrip `{!CryptoLaws, !HttpHeadersLaws} c :
  canonical (cr_resume_token c) ->
  exists header, authorization_header c = Ok header /\ parse_authorization header = Ok c.
Proof.
  intros Hc. exists (BEARER_PREFIX +:+ encoded c). split.
  - unfold authorization_header. rewrite header_visible; [done|].
    rewrite as_bytes_app, forallb_app. by rewrite encoded_visible.
  - unfold parse_authorization. rewrite len_app.
    destruct (from_encoded_Ok _ _ Hc) as (_ & Hlen & _).
    assert (len (encoded c) <= MAX_CREDENTIAL_LENGTH) as Hl.
    { pose proof (parse_encoded c Hc) as Hp. unfold parse_session_value in Hp.
      destruct (_ || _) eqn:E in Hp; [done|]. bool_to_prop. done. }
    rewrite (proj2 (Z.ltb_ge _ _)) by lia. rewrite strip_prefix_app. simpl. by apply parse_encoded.
Qed.

(** Credentials have one text.  A value that parses is exactly the encoding of the
    credential it parses to, within the length bound, with one separator and a
    canonical token. *)
Theorem parse_session_value_canonical v c :
  parse_session_value v = Ok c ->
  encoded c = v /\ canonical (cr_resume_token c) /\ len v <= MAX_CREDENTIAL_LENGTH /\ count_char "." v = 1%nat.
Proof.
  unfold parse_session_value. destruct (_ || _) eqn:Eb; [done|]. bool_to_prop.
  destruct (split_once "." v) as [[a b]|] eqn:Es; simpl; [|done].
  unfold InstanceId_new. destruct (id_new _ _ a) as [id|] eqn:Ei; simpl; [|done].
  destruct (ResumeToken_from_encoded b) as [t|] eqn:Et; simpl; [|done]. intros [= <-]. simpl.
  apply id_new_iff in Ei. apply split_once_Some in Es. destruct (from_encoded_Ok _ _ Et) as (E2 & _).
  split; [|split; [|split; [done|by apply Nat.eqb_eq]]].
  - unfold encoded. simpl. rewrite Ei, E2. by rewrite Es.
  - unfold canonical. by rewrite E2.
Qed.

(** A generated token is canonical: what the store issues is what it accepts
    back, and distinct tokens have distinct texts. *)
Theorem generated_token_roundtrip `{!CryptoLaws} bytes :
  len bytes = 32 ->
  exists t, ResumeToken_generate (Some bytes) = Ok t /\ ResumeToken_from_encoded (expose_encoded t) = Ok t
    /\ forall bytes', len bytes' = 32 -> ResumeToken_generate (Some bytes') = Ok t -> bytes' = bytes.
Proof.
  intros Hb. exists (MkResumeToken (base64url_encode bytes)). split; [done|]. split.
  - unfold ResumeToken_from_encoded, TOKEN_ENCODED_LENGTH, TOKEN_BYTES. simpl.
    rewrite base64url_length, base64url_roundtrip by done. simpl. rewrite Hb. simpl.
    by rewrite bool_decide_eq_false_2 by auto.
  - intros bytes' Hb' [= E]. apply (f_equal base64url_decode) in E.
    rewrite !base64url_roundtrip in E by done. by injection E.
Qed.
End Credentials.

(** No case variant of a sensitive header's name reaches the log with its value. *)
Lemma sensitive_headers_are_redacted name value :
  eq_ignore_ascii_case name AUTHORIZATION_HEADER = true \/ eq_ignore_ascii_case name SESSION_CREDENTIAL_HEADER = true ->
  header_value_for_log name value = "[REDACTED]".
Proof. unfold header_value_for_log. simpl. intros [-> | ->]; [done|]. by rewrite orb_true_r. Qed.

(** ** Examples *)
#[global] Instance example_headers : HttpHeaders :=
  {| header_from_str := fun s => if forallb visible_ascii (as_bytes s) then Some s else None;
     header_to_str := fun s => if forallb visible_ascii (as_bytes s) then Some s else None |}.
#[global] Instance example_headers_laws : HttpHeadersLaws.
Proof. constructor; intros s Hs; simpl; by rewrite Hs. Qed.

Definition example_entropy : string := "0123456789abcdef0123456789abcdef".
Definition example_credential : SessionCredential :=
  {| cr_instance_id := Checked (id_ok "ins") "ins_42" I; cr_resume_token := MkResumeToken (encode example_entropy) |}.

Lemma parse_session_value_canonical_witness :
  encoded example_credential = "ins_42.MDEyMzQ1Njc4OWFiY2RlZjAxMjM0NTY3ODlhYmNkZWY"
  /\ len (encoded example_credential) <= MAX_CREDENTIAL_LENGTH.
Proof.
  split; [vm_compute; reflexivity|].
  apply (parse_session_value_canonical (encoded example_credential) example_credential).
  apply parse_encoded. vm_compute. reflexivity.
Defined.

Lemma generated_token_roundtrip_witness :
  exists t, ResumeToken_generate (Some example_entropy) = Ok t /\ ResumeToken_from_encoded (expose_encoded t) = Ok t.
Proof.
  destruct (generated_token_roundtrip example_entropy eq_refl) as (t & E & R & _). exists t. split; [exact E|exact R].
Defined.
