(* ===== verification/Dto.v ===== *)
(** * Dto: the wire data (psst-protocol/src/dto.rs, error.rs, timestamp.rs)

    The time crate's [OffsetDateTime] is modelled by its Unix nanoseconds; which
    instants it can represent is a parameter. *)
From S2P Require Import Prelude Text Core.

(** ** Enumerations *)
Inductive SquadStateDto : Set := SqActiveDto | SqArchivedDto.
Inductive MembershipStateDto : Set := JoinedDto | LeftDto.
Inductive TransportPresenceDto : Set := OnlineDto | OfflineDto.
Inductive AgentModeDto : Set := CooperativeDto | ScheduledDto | HarnessedDto.
Inductive AvailabilityDto : Set := IdleDto | BusyDto | BlockedDto | AvUnknownDto.
Inductive AvailabilitySourceDto : Set :=
| SessionLifecycleDto | McpConnectionDto | ToolActivityDto | AgentReportedDto | SrcUnknownDto.
Inductive MessagePriorityDto : Set := NormalDto | HighDto.

#[global] Instance MembershipStateDto_eq_dec : EqDecision MembershipStateDto.
Proof. solve_decision. Defined.
#[global] Instance TransportPresenceDto_eq_dec : EqDecision TransportPresenceDto.
Proof. solve_decision. Defined.
#[global] Instance AvailabilityDto_eq_dec : EqDecision AvailabilityDto.
Proof. solve_decision. Defined.
#[global] Instance AvailabilitySourceDto_eq_dec : EqDecision AvailabilitySourceDto.
Proof. solve_decision. Defined.

(** ** Sequences and timestamps *)
Definition sequence_ok (value : Z) : bool := (0 <=? value) && (value <=? i64_max).
Abbreviation MessageSequence := (checked sequence_ok).
Definition MessageSequence_new (value : Z) : Result string MessageSequence :=
  if value <? 0 then Err "sequence must be nonnegative"
  else ok_or (check sequence_ok value) "sequence must be nonnegative".

Class TimeCrate := { from_unix_timestamp_nanos : Z -> option Z }.
(** [OffsetDateTime] spans the years up to 9999 and keeps the instant. *)
Definition YEAR_10000_NANOS : Z := 253402300800 * 1000000000.
Class TimeCrateLaws `{TimeCrate} : Prop := {
  nanos_in_range : forall n, 0 <= n < YEAR_10000_NANOS -> from_unix_timestamp_nanos n = Some n;
  nanos_kept : forall n t, from_unix_timestamp_nanos n = Some t -> t = n }.

(** An [ApiTimestamp] is an instant with whole milliseconds. *)
Record ApiTimestamp : Set := { ts_nanos : Z }.
Definition ApiTimestamp_new (nanos : Z) : Result string ApiTimestamp :=
  if negb ((nanos mod 1000000000) mod 1000000 =? 0) then Err "timestamp must have exactly millisecond precision"
  else Ok {| ts_nanos := nanos |}.

(** ** Requests and responses *)
Record HealthResponse : Set := { hr_status : string }.
(** [schema_version : u32]. *)
Record ReadyResponse : Set := { rr_status : string; rr_schema_version : Z }.

Record SquadSummary : Set := {
  ss_id : string; ss_name : string; ss_mission : string; ss_state : SquadStateDto;
  ss_created_at : ApiTimestamp; ss_archived_at : option ApiTimestamp }.

Record CreateSquadRequest : Set := { csr_name : string; csr_mission : string }.

Record ArchiveSquadResponse : Set := { asr_squad : SquadSummary }.

Record ClientMetadata : Set := { cm_kind : string; cm_hostname : option string; cm_version : option string }.

Record JoinSquadRequest : Set := {
  jsr_name : string; jsr_role : string; jsr_mode : AgentModeDto; jsr_client : ClientMetadata;
  jsr_mission : option string }.

Record ResumeSquadRequest : Set := { rsr_mode : AgentModeDto; rsr_client : ClientMetadata }.

Record SessionResponse : Set := {
  sep_agent_id : string; sep_membership_id : string; sep_instance_id : string; sep_squad : SquadSummary;
  sep_member_name : string; sep_role : string; sep_heartbeat_interval_seconds : Z; sep_lease_seconds : Z;
  sep_lease_expires_at : ApiTimestamp }.

Record LeaveSquadResponse : Set := { lsr_membership_id : string; lsr_left_at : ApiTimestamp }.

Record RosterMemberDto : Set := {
  rmd_membership_id : string; rmd_name : string; rmd_role : string; rmd_membership_state : MembershipStateDto;
  rmd_presence : TransportPresenceDto; rmd_availability : AvailabilityDto;
  rmd_availability_source : AvailabilitySourceDto; rmd_availability_observed_at : ApiTimestamp;
  rmd_mode : option AgentModeDto; rmd_last_seen_at : option ApiTimestamp }.
Record RosterResponse : Set := { ror_squad : string; ror_members : list RosterMemberDto }.

Record HeartbeatRequest : Set := {
  hbr_availability : AvailabilityDto; hbr_availability_source : AvailabilitySourceDto }.
Record HeartbeatResponse : Set := {
  hbp_lease_expires_at : ApiTimestamp; hbp_heartbeat_interval_seconds : Z }.

Record SendMessageRequest : Set := {
  smr_recipient : string; smr_recipient_membership_id : option string; smr_body : string;
  smr_priority : MessagePriorityDto; smr_dedupe_key : string; smr_reply_to : option string;
  smr_correlation_id : option string }.

Record MessageDto : Set := {
  md_sequence : MessageSequence; md_id : string; md_squad : string; md_sender : string;
  md_recipient : string; md_body : string; md_priority : MessagePriorityDto;
  md_reply_to : option string; md_correlation_id : option string; md_created_at : ApiTimestamp;
  md_acknowledged_at : option ApiTimestamp }.
Record SendMessageResponse : Set := { smp_message : MessageDto; smp_idempotent_replay : bool }.

(** [limit : u16] and [wait_seconds : u8]. *)
Record InboxQueryDto : Set := { iqd_limit : Z; iqd_wait_seconds : Z }.
Record InboxResponse : Set := {
  ibr_messages : list MessageDto; ibr_pending_count : Z; ibr_highest_priority : option MessagePriorityDto;
  ibr_oldest_message_id : option string }.

Record AckMessagesRequest : Set := { amr_message_ids : list string }.
Record AckMessagesResponse : Set := { amp_acknowledged_ids : list string }.

Record TranscriptQueryDto : Set := { tqd_after : MessageSequence; tqd_limit : Z }.
Record TranscriptResponse : Set := {
  trr_messages : list MessageDto; trr_next_after : option MessageSequence }.

(** ** Errors (error.rs) *)
Inductive ApiErrorCode : Set :=
| ApiInvalidRequest | ApiNotFound | ApiSquadArchived | ApiNotMember | ApiNameInUse | ApiLeaseExpired
| ApiRecipientNotFound | ApiIdempotencyConflict | ApiPayloadTooLarge | ApiRateLimited | ApiDatabaseBusy
| ApiInternalError.
#[global] Instance ApiErrorCode_eq_dec : EqDecision ApiErrorCode.
Proof. solve_decision. Defined.

Record ErrorBody : Set := {
  eb_code : ApiErrorCode; eb_message : string; eb_retryable : bool; eb_details : list (string * string) }.

Record ErrorEnvelope : Set := { ee_error : ErrorBody }.

Definition http_status (self : ApiErrorCode) : Z :=
  match self with
  | ApiInvalidRequest => 400
  | ApiNotFound | ApiRecipientNotFound => 404
  | ApiNotMember => 403
  | ApiPayloadTooLarge => 413
  | ApiSquadArchived | ApiNameInUse | ApiLeaseExpired | ApiIdempotencyConflict => 409
  | ApiRateLimited => 429
  | ApiDatabaseBusy => 503
  | ApiInternalError => 500
  end.

(** ** Lemmas *)
Lemma MessageSequence_new_ok z : 0 <= z <= i64_max -> exists x, MessageSequence_new z = Ok x /\ raw x = z.
Proof.
  intros Hz. assert (sequence_ok z = true) as (x & <-)%checked_exists.
  { unfold sequence_ok. apply andb_true_iff. by rewrite !Z.leb_le. }
  exists x. split; [|done]. unfold MessageSequence_new. rewrite check_raw.
  by rewrite (proj2 (Z.ltb_ge _ _)) by lia.
Qed.

(** ** Example: a calendar of the years 1970 to 9999 *)
#[global] Instance example_time : TimeCrate :=
  {| from_unix_timestamp_nanos n := if (0 <=? n) && (n <? YEAR_10000_NANOS) then Some n else None |}.
#[global] Instance example_time_laws : TimeCrateLaws.
Proof.
  constructor.
  - intros n Hn. simpl. rewrite (proj2 (Z.leb_le 0 n)), (proj2 (Z.ltb_lt n _)) by lia. done.
  - intros n t. simpl. by case_match; intros [= ->].
Qed.
