(* ===== verification/Validation.v ===== *)
(** * Validation: the protocol's bounds on requests and responses
    (psst-protocol/src/validation.rs) *)
From S2P Require Import Prelude Text Core Dto.

Definition MAX_INBOX_MESSAGES_DTO : Z := 100.
Definition MAX_INBOX_BYTES : Z := 1024 * 1024.
Definition MAX_WAIT_SECONDS : Z := 30.
Definition MAX_ACK_MESSAGES_DTO : Z := 100.
Definition MAX_ERROR_MESSAGE_BYTES : Z := 512.
Definition MAX_ERROR_DETAILS : Z := 16.
Definition MAX_ERROR_DETAIL_KEY_BYTES : Z := 64.
Definition MAX_ERROR_DETAIL_VALUE_BYTES : Z := 256.

(** The trait [Validate]. *)
Class Validate (T : Type) := validate : T -> Result InvalidValue unit.

(** [new(value)?;] and [if let Some(value) = .. { new(value)?; }], keeping only the verdict. *)
Definition valid {T} (r : Result InvalidValue T) : Result InvalidValue unit :=
  match r with Ok _ => Ok tt | Err e => Err e end.
Definition valid_opt {T} (new : string -> Result InvalidValue T) (o : option string) : Result InvalidValue unit :=
  match o with Some v => valid (new v) | None => Ok tt end.
Fixpoint valid_all {A} (f : A -> Result InvalidValue unit) (l : list A) : Result InvalidValue unit :=
  match l with [] => Ok tt | a :: l' => _ ← f a; valid_all f l' end.
(** [if condition { return Err(error) }]. *)
Definition refuse (condition : bool) (error : InvalidValue) : Result InvalidValue unit :=
  if condition then Err error else Ok tt.

Definition list_len {A} (l : list A) : Z := Z.of_nat (length l).

(** ** Requests *)
#[global] Instance InboxQuery_validate : Validate InboxQueryDto := fun self =>
  _ ← refuse ((iqd_limit self =? 0) || (MAX_INBOX_MESSAGES_DTO <? iqd_limit self))
        (InvalidValue_new "limit" "must be between 1 and 100");
  refuse (MAX_WAIT_SECONDS <? iqd_wait_seconds self)
    (InvalidValue_new "wait" "must be between 0 and 30 seconds").

#[global] Instance TranscriptQuery_validate : Validate TranscriptQueryDto := fun self =>
  refuse ((tqd_limit self =? 0) || (MAX_INBOX_MESSAGES_DTO <? tqd_limit self))
    (InvalidValue_new "limit" "must be between 1 and 100").

#[global] Instance CreateSquadRequest_validate : Validate CreateSquadRequest := fun self =>
  _ ← valid (SquadName_new (csr_name self));
  valid (Mission_new (csr_mission self)).

Definition client_text_bad (o : option string) (max : Z) : bool :=
  match o with Some value => is_empty value || (max <? len value) | None => false end.

Definition validate_client_dto (client : ClientMetadata) : Result InvalidValue unit :=
  _ ← refuse (is_empty (cm_kind client) || (64 <? len (cm_kind client))
              || existsb is_control (chars (as_bytes (cm_kind client))))
        (InvalidValue_new "client.kind" "must be printable and at most 64 bytes");
  _ ← refuse (client_text_bad (cm_hostname client) 255)
        (InvalidValue_new "client.hostname" "must be between 1 and 255 bytes");
  refuse (client_text_bad (cm_version client) 64)
    (InvalidValue_new "client.version" "must be between 1 and 64 bytes").

#[global] Instance JoinSquadRequest_validate : Validate JoinSquadRequest := fun self =>
  _ ← valid (MemberName_new (jsr_name self));
  _ ← valid (Role_new (jsr_role self));
  _ ← valid_opt Mission_new (jsr_mission self);
  validate_client_dto (jsr_client self).

#[global] Instance ResumeSquadRequest_validate : Validate ResumeSquadRequest := fun self =>
  validate_client_dto (rsr_client self).

#[global] Instance HeartbeatRequest_validate : Validate HeartbeatRequest := fun self =>
  refuse (negb (eqb (bool_decide (hbr_availability self = AvUnknownDto))
                    (bool_decide (hbr_availability_source self = SrcUnknownDto))))
    (InvalidValue_new "availability" "availability and source must both be known or unknown").

#[global] Instance SendMessageRequest_validate : Validate SendMessageRequest := fun self =>
  _ ← valid (MemberName_new (smr_recipient self));
  _ ← valid_opt MembershipId_new (smr_recipient_membership_id self);
  _ ← valid (MessageBody_new (smr_body self));
  _ ← valid (DedupeKey_new (smr_dedupe_key self));
  _ ← valid_opt MessageId_new (smr_reply_to self);
  valid_opt CorrelationId_new (smr_correlation_id self).

#[global] Instance AckMessagesRequest_validate : Validate AckMessagesRequest := fun self =>
  _ ← refuse ((list_len (amr_message_ids self) =? 0) || (MAX_ACK_MESSAGES_DTO <? list_len (amr_message_ids self)))
        (InvalidValue_new "message_ids" "must contain between 1 and 100 IDs");
  valid_all (fun id => valid (MessageId_new id)) (amr_message_ids self).

(** ** Responses *)
#[global] Instance MessageDto_validate : Validate MessageDto := fun self =>
  _ ← valid (MessageId_new (md_id self));
  _ ← valid (SquadName_new (md_squad self));
  _ ← valid (MemberName_new (md_sender self));
  _ ← valid (MemberName_new (md_recipient self));
  _ ← valid (MessageBody_new (md_body self));
  _ ← valid_opt MessageId_new (md_reply_to self);
  _ ← valid_opt CorrelationId_new (md_correlation_id self);
  refuse (match md_acknowledged_at self with
          | Some value => ts_nanos value <? ts_nanos (md_created_at self)
          | None => false
          end) (InvalidValue_new "message" "has inconsistent timestamps").

(** The loop of [validate_message_page], with [previous] its state. *)
Fixpoint validate_message_page (previous : option Z) (messages : list MessageDto) : Result InvalidValue unit :=
  match messages with
  | [] => Ok tt
  | message :: rest =>
      _ ← validate message;
      _ ← refuse (match previous with Some value => raw (md_sequence message) <=? value | None => false end)
            (InvalidValue_new "messages" "sequences are not strictly increasing");
      validate_message_page (Some (raw (md_sequence message))) rest
  end.

#[global] Instance InboxResponse_validate : Validate InboxResponse := fun self =>
  _ ← refuse (MAX_INBOX_MESSAGES_DTO <? list_len (ibr_messages self))
        (InvalidValue_new "messages" "exceeds the 100-message response bound");
  _ ← validate_message_page None (ibr_messages self);
  _ ← refuse (ibr_pending_count self <? list_len (ibr_messages self))
        (InvalidValue_new "pending_count" "must include every returned message");
  if (ibr_pending_count self =? 0) && (list_len (ibr_messages self) =? 0)
     && bool_decide (ibr_highest_priority self = None) && bool_decide (ibr_oldest_message_id self = None)
  then Ok tt
  else if (1 <=? ibr_pending_count self) && negb (list_len (ibr_messages self) =? 0)
     && negb (bool_decide (ibr_highest_priority self = None))
     && bool_decide (ibr_oldest_message_id self = (md_id <$> head (ibr_messages self)))
  then valid_opt MessageId_new (ibr_oldest_message_id self)
  else Err (InvalidValue_new "inbox" "has inconsistent pending activation metadata").

#[global] Instance SquadSummary_validate : Validate SquadSummary := fun self =>
  _ ← valid (SquadId_new (ss_id self));
  _ ← valid (SquadName_new (ss_name self));
  _ ← valid (Mission_new (ss_mission self));
  let archive_consistent :=
    match ss_state self with
    | SqActiveDto => match ss_archived_at self with None => true | Some _ => false end
    | SqArchivedDto =>
        match ss_archived_at self with
        | Some value => ts_nanos (ss_created_at self) <=? ts_nanos value
        | None => false
        end
    end in
  refuse (negb archive_consistent) (InvalidValue_new "squad" "has inconsistent archive state").

#[global] Instance SquadSummaries_validate : Validate (list SquadSummary) := valid_all validate.

#[global] Instance ArchiveSquadResponse_validate : Validate ArchiveSquadResponse := fun self =>
  validate (asr_squad self).

#[global] Instance LeaveSquadResponse_validate : Validate LeaveSquadResponse := fun self =>
  valid (MembershipId_new (lsr_membership_id self)).

Definition validate_roster_member (member : RosterMemberDto) : Result InvalidValue unit :=
  _ ← valid (MembershipId_new (rmd_membership_id member));
  _ ← valid (MemberName_new (rmd_name member));
  _ ← valid (Role_new (rmd_role member));
  refuse (negb (eqb (bool_decide (rmd_availability member = AvUnknownDto))
                    (bool_decide (rmd_availability_source member = SrcUnknownDto)))
          || (bool_decide (rmd_membership_state member = LeftDto)
              && negb (bool_decide (rmd_presence member = OfflineDto))))
    (InvalidValue_new "roster" "has inconsistent member state").

#[global] Instance RosterResponse_validate : Validate RosterResponse := fun self =>
  _ ← valid (SquadName_new (ror_squad self));
  valid_all validate_roster_member (ror_members self).

#[global] Instance SendMessageResponse_validate : Validate SendMessageResponse := fun self =>
  validate (smp_message self).

#[global] Instance AckMessagesResponse_validate : Validate AckMessagesResponse := fun self =>
  _ ← refuse ((list_len (amp_acknowledged_ids self) =? 0) || (MAX_ACK_MESSAGES_DTO <? list_len (amp_acknowledged_ids self)))
        (InvalidValue_new "acknowledged_ids" "must contain between 1 and 100 IDs");
  valid_all (fun id => valid (MessageId_new id)) (amp_acknowledged_ids self).

#[global] Instance TranscriptResponse_validate : Validate TranscriptResponse := fun self =>
  _ ← refuse (MAX_INBOX_MESSAGES_DTO <? list_len (trr_messages self))
        (InvalidValue_new "messages" "exceeds the 100-message response bound");
  _ ← validate_message_page None (trr_messages self);
  refuse (negb (bool_decide (trr_next_after self = (md_sequence <$> last (trr_messages self)))))
    (InvalidValue_new "next_after" "does not match the final message").

#[global] Instance ErrorBody_validate : Validate ErrorBody := fun self =>
  _ ← refuse (is_empty (eb_message self) || (MAX_ERROR_MESSAGE_BYTES <? len (eb_message self)))
        (InvalidValue_new "error.message" "must be between 1 and 512 bytes");
  _ ← refuse (MAX_ERROR_DETAILS <? list_len (eb_details self))
        (InvalidValue_new "error.details" "must contain at most 16 entries");
  refuse (existsb (fun '(key, value) => is_empty key || (MAX_ERROR_DETAIL_KEY_BYTES <? len key)
                                        || (MAX_ERROR_DETAIL_VALUE_BYTES <? len value)) (eb_details self))
    (InvalidValue_new "error.details" "contains an invalid key or value bound").

(** [encode_bounded_inbox], on serde_json's serializer. *)
Class SerdeJson := { to_vec : InboxResponse -> option string }.
Definition encode_bounded_inbox `{SerdeJson} (response : InboxResponse) : Result InvalidValue string :=
  encoded ← ok_or (to_vec response) (InvalidValue_new "inbox" "could not serialize response");
  _ ← refuse (MAX_INBOX_BYTES <? len encoded) (InvalidValue_new "inbox" "serialized response exceeds 1 MiB");
  Ok encoded.

(** ** Lemmas *)
Lemma valid_ok `{Validator T new text} (x : T) : valid (new (text x)) = Ok tt.
Proof. by rewrite new_raw. Qed.
Lemma valid_opt_ok {ok : string -> bool} `{!Validator (checked ok) new raw} (o : option (checked ok)) :
  valid_opt new (raw <$> o) = Ok tt.
Proof. destruct o as [x|]; simpl; [|done]. apply valid_ok. Qed.
Lemma valid_all_ok {A} (f : A -> Result InvalidValue unit) l : Forall (fun a => f a = Ok tt) l -> valid_all f l = Ok tt.
Proof. induction 1 as [|a l Ha _ IH]; simpl; [done|]. by rewrite Ha. Qed.
