(* ===== verification/Notify.v ===== *)
(** * Notify: the long-poll notification registry of the relay
    (psst-relay/src/lib.rs, [NotificationRegistry])

    tokio's watch channels and semaphores are interfaces: their operations are
    parameters and their documented behaviour the laws of a class.  The registry
    is a state machine over the subscriptions alive at each moment. *)
From stdpp Require Import gmap.
From S2P Require Import Prelude Text Core.

(** ** Interfaces *)
Class Watch := {
  sender : Type;
  receiver : Type;
  channel : Z -> sender;
  watch_subscribe : sender -> receiver;
  send_modify : (Z -> Z) -> sender -> sender;
  has_changed : sender -> receiver -> bool }.

(** The states of one channel, by the values sent on it. *)
Definition sent_on `{Watch} : relation sender := rtc (fun s s' => exists f, s' = send_modify f s).

Class WatchLaws `{Watch} : Prop := {
  (** a receiver starts having seen the current value *)
  subscribe_seen : forall s, has_changed s (watch_subscribe s) = false;
  (** a value sent later is seen as a change, however many were sent *)
  modify_seen : forall s s' f, sent_on s s' -> has_changed (send_modify f s') (watch_subscribe s) = true }.

Class Semaphores := {
  semaphore : Type;
  sem_new : Z -> semaphore;
  try_acquire : semaphore -> option semaphore;
  release : semaphore -> semaphore;
  available : semaphore -> Z }.

Class SemaphoreLaws `{Semaphores} : Prop := {
  available_new : forall n, 0 <= n -> available (sem_new n) = n;
  acquire_some : forall s, 0 < available s -> exists s', try_acquire s = Some s' /\ available s' = available s - 1;
  acquire_none : forall s, available s <= 0 -> try_acquire s = None;
  available_release : forall s, available (release s) = available s + 1 }.

Definition MAX_INBOX_WAITERS : Z := 128.

(** [u64::wrapping_add(1)]. *)
Definition next_generation (value : Z) : Z := (value + 1) mod 2 ^ 64.

Section Registry.
Context `{Watch} `{Semaphores}.

Record NotificationEntry : Type := { ne_generation : sender; ne_registrations : Z }.
Record NotificationRegistry : Type := { nr_entries : gmap string NotificationEntry; nr_permits : semaphore }.
Record NotificationSubscription : Type := { su_key : string; su_receiver : receiver }.

Definition bounded : NotificationRegistry :=
  {| nr_entries := ∅; nr_permits := sem_new MAX_INBOX_WAITERS |}.

Definition subscribe (self : NotificationRegistry) (membership : MembershipId)
    : option (NotificationRegistry * NotificationSubscription) :=
  match try_acquire (nr_permits self) with
  | None => None
  | Some permits =>
      let key := raw membership in
      let entry := match nr_entries self !! key with
                   | Some entry => entry
                   | None => {| ne_generation := channel 0; ne_registrations := 0 |}
                   end in
      let entry := {| ne_generation := ne_generation entry;
                      ne_registrations := ne_registrations entry + 1 |} in
      Some ({| nr_entries := <[key := entry]> (nr_entries self); nr_permits := permits |},
            {| su_key := key; su_receiver := watch_subscribe (ne_generation entry) |})
  end.

Definition notify (self : NotificationRegistry) (membership : MembershipId) : NotificationRegistry :=
  match nr_entries self !! raw membership with
  | None => self
  | Some entry =>
      {| nr_entries := <[raw membership := {| ne_generation := send_modify next_generation (ne_generation entry);
                                              ne_registrations := ne_registrations entry |}]> (nr_entries self);
         nr_permits := nr_permits self |}
  end.

(** [Drop for NotificationSubscription]; the owned permit is released with it. *)
Definition drop_subscription (self : NotificationRegistry) (subscription : NotificationSubscription)
    : NotificationRegistry :=
  let key := su_key subscription in
  let entries :=
    match nr_entries self !! key with
    | None => nr_entries self
    | Some entry =>
        let registrations := ne_registrations entry - 1 in
        if registrations =? 0 then delete key (nr_entries self)
        else <[key := {| ne_generation := ne_generation entry; ne_registrations := registrations |}]> (nr_entries self)
    end in
  {| nr_entries := entries; nr_permits := release (nr_permits self) |}.

(** ** The machine: the registry and the subscriptions alive *)
Record State : Type := { st_registry : NotificationRegistry; st_live : list NotificationSubscription }.

Inductive step : State -> State -> Prop :=
| step_subscribe st membership registry sub :
    subscribe (st_registry st) membership = Some (registry, sub) ->
    step st {| st_registry := registry; st_live := st_live st ++ [sub] |}
| step_notify st membership :
    step st {| st_registry := notify (st_registry st) membership; st_live := st_live st |}
| step_drop st l1 sub l2 :
    st_live st = l1 ++ sub :: l2 ->
    step st {| st_registry := drop_subscription (st_registry st) sub; st_live := l1 ++ l2 |}.

Definition initial : State := {| st_registry := bounded; st_live := [] |}.
Definition reachable_state (st : State) : Prop := rtc step initial st.

Definition live_for (key : string) (l : list NotificationSubscription) : list NotificationSubscription :=
  List.filter (fun s => bool_decide (su_key s = key)) l.

(** What a live subscription's receiver was subscribed to. *)
Definition attached (registry : NotificationRegistry) (sub : NotificationSubscription) : Prop :=
  exists entry s0, nr_entries registry !! su_key sub = Some entry
    /\ su_receiver sub = watch_subscribe s0 /\ sent_on s0 (ne_generation entry).

Record consistent (st : State) : Prop := {
  co_permits : available (nr_permits (st_registry st)) + Z.of_nat (length (st_live st)) = MAX_INBOX_WAITERS;
  co_nonneg : 0 <= available (nr_permits (st_registry st));
  co_entries : forall key, match nr_entries (st_registry st) !! key with
    | Some entry => ne_registrations entry = Z.of_nat (length (live_for key (st_live st))) /\ 0 < ne_registrations entry
    | None => live_for key (st_live st) = [] end;
  co_attached : Forall (attached (st_registry st)) (st_live st) }.

(** ** The invariant *)
Context `{!WatchLaws} `{!SemaphoreLaws}.

Lemma live_for_app key l1 l2 : live_for key (l1 ++ l2) = live_for key l1 ++ live_for key l2.
Proof. apply List.filter_app. Qed.
Lemma live_for_cons key s l :
  live_for key (s :: l) = if bool_decide (su_key s = key) then s :: live_for key l else live_for key l.
Proof. done. Qed.

Lemma consistent_initial : consistent initial.
Proof.
  constructor; simpl; [by rewrite available_new|by rewrite available_new|done|done].
Qed.

Lemma consistent_subscribe st membership registry sub :
  consistent st -> subscribe (st_registry st) membership = Some (registry, sub) ->
  consistent {| st_registry := registry; st_live := st_live st ++ [sub] |}.
Proof.
  intros [Hp Hn He Ha] Hs. unfold subscribe in Hs.
  destruct (try_acquire _) as [permits|] eqn:Et; [|done]. simplify_eq/=.
  assert (0 < available (nr_permits (st_registry st))) as Hpos.
  { destruct (Z.lt_ge_cases 0 (available (nr_permits (st_registry st)))) as [|Hle]; [done|].
    apply acquire_none in Hle. congruence. }
  destruct (acquire_some _ Hpos) as (permits' & Et' & Hav). rewrite Et in Et'. injection Et' as <-.
  set (key := raw membership) in *. pose proof (He key) as Hk.
  constructor; simpl.
  - rewrite length_app. simpl. lia.
  - lia.
  - intros key'. rewrite live_for_app, live_for_cons. simpl. destruct (decide (key = key')) as [<-|Hne].
    + rewrite lookup_insert_eq, bool_decide_eq_true_2 by done. rewrite length_app. simpl.
      destruct (nr_entries (st_registry st) !! key) as [entry|]; simpl; [lia|]. rewrite Hk. simpl. lia.
    + rewrite lookup_insert_ne, bool_decide_eq_false_2, app_nil_r by done. apply He.
  - apply Forall_app. split.
    + eapply Forall_impl; [exact Ha|]. intros s (entry & s0 & Hl & Hr & Hsent). unfold attached. simpl.
      destruct (decide (key = su_key s)) as [E|Hne].
      * rewrite <- E in Hl. rewrite Hl, <- E. eexists _, s0. by rewrite lookup_insert_eq.
      * exists entry, s0. by rewrite lookup_insert_ne.
    + constructor; [|done]. eexists _, _. simpl. rewrite lookup_insert_eq. split; [done|]. split; [done|].
      simpl. apply rtc_refl.
Qed.

Lemma consistent_notify st membership :
  consistent st -> consistent {| st_registry := notify (st_registry st) membership; st_live := st_live st |}.
Proof.
  intros [Hp Hn He Ha]. unfold notify. destruct (nr_entries (st_registry st) !! raw membership) as [entry|] eqn:E;
    [|by constructor]. constructor; simpl; auto.
  - intros key. destruct (decide (raw membership = key)) as [<-|Hne].
    + rewrite lookup_insert_eq. specialize (He (raw membership)). by rewrite E in He.
    + rewrite lookup_insert_ne by done. apply He.
  - eapply Forall_impl; [exact Ha|]. intros s (entry' & s0 & Hl & Hr & Hsent). unfold attached. simpl.
    destruct (decide (raw membership = su_key s)) as [Ek|Hne].
    + rewrite <- Ek in *. rewrite E in Hl. injection Hl as <-. eexists _, s0. rewrite lookup_insert_eq.
      split; [done|]. split; [done|]. simpl. eapply rtc_r; [exact Hsent|]. by eexists.
    + exists entry', s0. by rewrite lookup_insert_ne.
Qed.

Lemma consistent_drop st l1 sub l2 :
  consistent st -> st_live st = l1 ++ sub :: l2 ->
  consistent {| st_registry := drop_subscription (st_registry st) sub; st_live := l1 ++ l2 |}.
Proof.
  intros [Hp Hn He Ha] El. rewrite El in *. set (key := su_key sub) in *.
  pose proof (He key) as Hk. rewrite live_for_app, live_for_cons, bool_decide_eq_true_2, length_app in Hk by done.
  simpl in Hk. unfold drop_subscription. fold key. destruct (nr_entries (st_registry st) !! key) as [entry|] eqn:E.
  2: { apply app_nil in Hk as [_ Hk]. done. }
  destruct Hk as [Hreg _]. constructor; simpl.
  - rewrite available_release. rewrite !length_app in *. simpl in *. lia.
  - rewrite available_release. lia.
  - intros key'. destruct (decide (key = key')) as [<-|Hne].
    + rewrite live_for_app. destruct (ne_registrations entry - 1 =? 0) eqn:Ez; bool_to_prop.
      * rewrite lookup_delete_eq. destruct (live_for key l1), (live_for key l2); simpl in *; try done; lia.
      * rewrite lookup_insert_eq. simpl. rewrite length_app. lia.
    + specialize (He key'). rewrite live_for_app, live_for_cons, bool_decide_eq_false_2 in He by done.
      rewrite live_for_app. destruct (_ =? 0); [by rewrite lookup_delete_ne|by rewrite lookup_insert_ne].
  - assert (forall s, s ∈ l1 ++ l2 -> attached (st_registry st) s) as Hin.
    { intros s Hs. rewrite Forall_forall in Ha. apply Ha. rewrite elem_of_app in *. rewrite elem_of_cons. tauto. }
    apply Forall_forall. intros s Hs. destruct (Hin s Hs) as (entry' & s0 & Hl & Hr & Hsent).
    unfold attached. simpl. destruct (decide (key = su_key s)) as [Ek|Hne].
    + rewrite <- Ek in *. rewrite E in Hl. injection Hl as <-.
      destruct (ne_registrations entry - 1 =? 0) eqn:Ez; bool_to_prop.
      * exfalso. assert (s ∈ live_for key l1 ++ live_for key l2) as Hlive.
        { rewrite <- live_for_app. apply list_elem_of_In, filter_In. split; [by apply list_elem_of_In|].
          by apply bool_decide_eq_true_2. }
        destruct (live_for key l1), (live_for key l2); simpl in *; try lia. by apply not_elem_of_nil in Hlive.
      * eexists _, s0. by rewrite lookup_insert_eq.
    + exists entry', s0. split; [|done]. destruct (_ =? 0); [by rewrite lookup_delete_ne|by rewrite lookup_insert_ne].
Qed.

Lemma consistent_step st st' : consistent st -> step st st' -> consistent st'.
Proof.
  intros Hc Hs. destruct Hs; [by eapply consistent_subscribe|by apply consistent_notify|by eapply consistent_drop].
Qed.
Lemma consistent_steps st st' : consistent st -> rtc step st st' -> consistent st'.
Proof. intros Hc. induction 1; eauto using consistent_step. Qed.
Lemma consistent_reachable st : reachable_state st -> consistent st.
Proof. apply consistent_steps, consistent_initial. Qed.

(** The registry bounds its waiters.  At most 128 subscriptions are ever alive, a
    subscription is granted exactly while fewer are, and a membership has an
    entry exactly while it has live subscriptions, counted. *)
Theorem waiters_are_bounded st membership :
  reachable_state st ->
  Z.of_nat (length (st_live st)) <= MAX_INBOX_WAITERS
  /\ (subscribe (st_registry st) membership <> None <-> Z.of_nat (length (st_live st)) < MAX_INBOX_WAITERS)
  /\ ne_registrations <$> (nr_entries (st_registry st) !! raw membership)
     = match live_for (raw membership) (st_live st) with
       | [] => None
       | l => Some (Z.of_nat (length l))
       end.
Proof.
  intros [Hp Hn He _]%consistent_reachable. split; [lia|]. split.
  - unfold subscribe. split.
    + intros Hs. destruct (Z.lt_ge_cases 0 (available (nr_permits (st_registry st)))) as [|Hle]; [lia|].
      by rewrite (acquire_none _ Hle) in Hs.
    + intros Hlt. destruct (acquire_some (nr_permits (st_registry st))) as (s' & -> & _); [lia|done].
  - specialize (He (raw membership)). destruct (nr_entries _ !! _) as [entry|]; simpl.
    + destruct (live_for _ _); simpl in *; [lia|]. f_equal. lia.
    + by rewrite He.
Qed.

(** ** Wake-ups *)
Definition woken (st : State) (sub : NotificationSubscription) : Prop :=
  exists entry s0 s1 f, nr_entries (st_registry st) !! su_key sub = Some entry
    /\ su_receiver sub = watch_subscribe s0 /\ sent_on s0 s1 /\ ne_generation entry = send_modify f s1.

Lemma generation_step st st' key e e' :
  step st st' -> nr_entries (st_registry st) !! key = Some e -> nr_entries (st_registry st') !! key = Some e' ->
  ne_generation e' = ne_generation e \/ exists f, ne_generation e' = send_modify f (ne_generation e).
Proof.
  intros Hs He. destruct Hs as [st m registry sub Hs|st m|st l1 sub l2 _]; simpl.
  - unfold subscribe in Hs. destruct (try_acquire _); [|done]. simplify_eq/=.
    destruct (decide (raw m = key)) as [<-|Hne].
    + rewrite lookup_insert_eq, He. intros [= <-]. by left.
    + rewrite lookup_insert_ne, He by done. intros [= <-]. by left.
  - unfold notify. destruct (nr_entries (st_registry st) !! raw m) as [entry|] eqn:E; simpl.
    2: { rewrite He. intros [= <-]. by left. }
    destruct (decide (raw m = key)) as [<-|Hne].
    + rewrite lookup_insert_eq. rewrite He in E. injection E as ->. intros [= <-]. right. by eexists.
    + rewrite lookup_insert_ne, He by done. intros [= <-]. by left.
  - destruct (decide (su_key sub = key)) as [Ek|Hne].
    + rewrite Ek, He. destruct (_ =? 0); [by rewrite lookup_delete_eq|].
      rewrite lookup_insert_eq. intros [= <-]. by left.
    + destruct (nr_entries (st_registry st) !! su_key sub) as [entry|]; [|rewrite He; intros [= <-]; by left].
      destruct (_ =? 0); [rewrite lookup_delete_ne by done|rewrite lookup_insert_ne by done];
        rewrite He; intros [= <-]; by left.
Qed.

Lemma woken_step st st' sub :
  consistent st -> step st st' -> sub ∈ st_live st' -> woken st sub -> woken st' sub.
Proof.
  intros Hc Hs Hin (entry & s0 & s1 & f & Hl & Hr & Hsent & Hg).
  destruct (consistent_step _ _ Hc Hs) as [_ _ _ Ha]. rewrite Forall_forall in Ha.
  destruct (Ha sub Hin) as (entry' & _ & Hl' & _).
  destruct (generation_step _ _ _ _ _ Hs Hl Hl') as [Eg|[f' Eg]].
  - exists entry', s0, s1, f. rewrite Eg. done.
  - exists entry', s0, (ne_generation entry), f'. split; [done|]. split; [done|]. split; [|done].
    rewrite Hg. eapply rtc_r; [exact Hsent|]. by eexists.
Qed.

(** The steps during which a subscription stays alive. *)
Definition step_keeping (sub : NotificationSubscription) (st st' : State) : Prop :=
  step st st' /\ sub ∈ st_live st'.

(** No lost wake-up.  A waiter that subscribed sees no stale change, and once its
    membership is notified, however long after and whatever other waiters do
    before and after, its receiver reports a change for as long as it lives. *)
Theorem no_lost_wakeup st membership registry sub st1 st2 :
  reachable_state st -> subscribe (st_registry st) membership = Some (registry, sub) ->
  rtc (step_keeping sub) {| st_registry := registry; st_live := st_live st ++ [sub] |} st1 ->
  rtc (step_keeping sub) {| st_registry := notify (st_registry st1) membership; st_live := st_live st1 |} st2 ->
  (exists entry, nr_entries registry !! raw membership = Some entry
     /\ has_changed (ne_generation entry) (su_receiver sub) = false)
  /\ exists entry, nr_entries (st_registry st2) !! raw membership = Some entry
     /\ has_changed (ne_generation entry) (su_receiver sub) = true.
Proof.
  intros Hc%consistent_reachable Hs H12 H23.
  pose proof (consistent_subscribe _ _ _ _ Hc Hs) as Hc0.
  assert (su_key sub = raw membership /\ exists entry, nr_entries registry !! raw membership = Some entry
    /\ has_changed (ne_generation entry) (su_receiver sub) = false) as [Ek Hfresh].
  { unfold subscribe in Hs. destruct (try_acquire _); [|done]. simplify_eq/=. split; [done|].
    eexists. rewrite lookup_insert_eq. split; [done|]. apply subscribe_seen. }
  split; [done|].
  assert (consistent st1 /\ sub ∈ st_live st1) as [Hc1 Hin1].
  { clear H23. assert (sub ∈ st_live {| st_registry := registry; st_live := st_live st ++ [sub] |}) as Hin
      by (simpl; rewrite elem_of_app, list_elem_of_singleton; by right).
    clear Hs Hfresh. induction H12 as [|a b c [Hab Hb] _ IH]; [done|]. apply IH; [by eapply consistent_step|done]. }
  set (stn := {| st_registry := notify (st_registry st1) membership; st_live := st_live st1 |}) in *.
  assert (consistent stn) as Hcn by (by apply consistent_notify).
  assert (woken stn sub) as Hw.
  { destruct Hc1 as [_ _ _ Ha]. rewrite Forall_forall in Ha.
    destruct (Ha sub Hin1) as (entry & s0 & Hl & Hr & Hsent).
    unfold woken, stn. simpl. unfold notify. rewrite Ek in *. rewrite Hl. simpl.
    eexists _, s0, (ne_generation entry), _. rewrite lookup_insert_eq. done. }
  clearbody stn. clear Hin1 Hc1 H12.
  assert (woken st2 sub) as (entry & s0 & s1 & f & Hl & Hr & Hsent & Hg).
  { induction H23 as [|a b c [Hab Hb] _ IH]; [done|]. apply IH; [by eapply consistent_step|by eapply woken_step]. }
  exists entry. rewrite <- Ek. split; [done|]. rewrite Hg, Hr. by apply modify_seen.
Qed.
End Registry.

(** ** Example: channels and semaphores as counters *)
#[global] Instance example_watch : Watch :=
  {| sender := Z * nat; receiver := nat; channel := fun v => (v, 0%nat); watch_subscribe := snd;
     send_modify := fun f '(v, n) => (f v, S n); has_changed := fun '(_, n) seen => negb (Nat.eqb n seen) |}.
#[global] Instance example_watch_laws : WatchLaws.
Proof.
  assert (forall s s' : sender, sent_on s s' -> (s.2 <= s'.2)%nat) as Hmono.
  { induction 1 as [|a b c [f ->] _ IH]; [done|]. destruct a as [v n]. simpl in *. lia. }
  constructor.
  - intros [v n]. simpl. by rewrite Nat.eqb_refl.
  - intros [v n] [v' n'] f Hle%Hmono. simpl in Hle. apply negb_true_iff, Nat.eqb_neq. simpl. lia.
Qed.
#[global] Instance example_semaphores : Semaphores :=
  {| semaphore := Z; sem_new := fun n => n; try_acquire := fun n => if n <=? 0 then None else Some (n - 1);
     release := fun n => n + 1; available := fun n => n |}.
#[global] Instance example_semaphore_laws : SemaphoreLaws.
Proof.
  constructor; simpl; intros s; try done.
  - intros Hs. exists (s - 1). by rewrite (proj2 (Z.leb_gt s 0)).
  - intros Hs. by rewrite (proj2 (Z.leb_le s 0)).
Qed.

Definition waiter_id : MembershipId := Checked (id_ok "mem") "mem_b" I.

Lemma waiters_are_bounded_witness :
  subscribe (st_registry initial) waiter_id <> None.
Proof.
  apply (waiters_are_bounded initial waiter_id); [apply rtc_refl|]. reflexivity.
Defined.

Lemma no_lost_wakeup_witness :
  match subscribe (st_registry initial) waiter_id with
  | Some (registry, sub) =>
      exists entry, nr_entries (notify registry waiter_id) !! raw waiter_id = Some entry
        /\ has_changed (ne_generation entry) (su_receiver sub) = true
  | None => False
  end.
Proof.
  destruct (subscribe (st_registry initial) waiter_id) as [[registry sub]|] eqn:E; [|discriminate E].
  apply (no_lost_wakeup initial waiter_id registry sub
    {| st_registry := registry; st_live := [sub] |}
    {| st_registry := notify registry waiter_id; st_live := [sub] |}).
  - apply rtc_refl.
  - exact E.
  - apply rtc_refl.
  - apply rtc_refl.
Defined.
