(* ===== verification/Sql.v ===== *)
(** * Sql: the SQLite schema of [psst-store] and the SQL statements it runs

    The tables are lists of rows with the columns of migrations/*.sql, in rowid
    order.  An INSERT evaluates the CHECK, UNIQUE, partial-index and FOREIGN KEY
    constraints of the schema against the whole database; an UPDATE rewrites the
    rows of its WHERE clause.  A statement that fails changes nothing. *)
From S2P Require Import Prelude Text Core.

(** ** Rows *)
Record SquadRow : Set := {
  sq_id : string; sq_name : string; sq_mission : string; sq_state : string;
  sq_created_at : Z; sq_archived_at : option Z }.

Record AgentRow : Set := { ag_id : string; ag_created_at : Z }.

Record MembershipRow : Set := {
  mb_id : string; mb_squad_id : string; mb_agent_id : string; mb_name : string;
  mb_normalized_name : string; mb_role : string; mb_joined_at : Z; mb_left_at : option Z }.

Record InstanceRow : Set := {
  in_id : string; in_membership_id : string; in_mode : string; in_client_kind : string;
  in_hostname : option string; in_resume_token_hash : string; in_availability : string;
  in_availability_source : string; in_availability_observed_at : Z; in_lease_expires_at : Z;
  in_last_seen_at : Z; in_created_at : Z; in_closed_at : option Z }.

Record MessageRow : Set := {
  ms_sequence : Z; ms_id : string; ms_squad_id : string; ms_sender : string;
  ms_recipient : string; ms_body : string; ms_body_hash : string; ms_priority : string;
  ms_reply_to : option string; ms_correlation_id : option string;
  ms_dedupe_key : option string; ms_created_at : Z; ms_acknowledged_at : option Z }.

(** [message_seq] is the AUTOINCREMENT high-water mark kept in [sqlite_sequence]. *)
Record Database : Set := {
  squads : list SquadRow; agents : list AgentRow; memberships : list MembershipRow;
  instances : list InstanceRow; messages : list MessageRow; message_seq : Z }.

Definition empty_database : Database :=
  {| squads := []; agents := []; memberships := []; instances := []; messages := [];
     message_seq := 0 |}.

Definition set_squads (db : Database) (l : list SquadRow) : Database :=
  {| squads := l; agents := agents db; memberships := memberships db;
     instances := instances db; messages := messages db; message_seq := message_seq db |}.
Definition set_agents (db : Database) (l : list AgentRow) : Database :=
  {| squads := squads db; agents := l; memberships := memberships db;
     instances := instances db; messages := messages db; message_seq := message_seq db |}.
Definition set_memberships (db : Database) (l : list MembershipRow) : Database :=
  {| squads := squads db; agents := agents db; memberships := l;
     instances := instances db; messages := messages db; message_seq := message_seq db |}.
Definition set_instances (db : Database) (l : list InstanceRow) : Database :=
  {| squads := squads db; agents := agents db; memberships := memberships db;
     instances := l; messages := messages db; message_seq := message_seq db |}.
Definition set_messages (db : Database) (l : list MessageRow) (seq : Z) : Database :=
  {| squads := squads db; agents := agents db; memberships := memberships db;
     instances := instances db; messages := l; message_seq := seq |}.

(** ** SQL vocabulary *)

(** [a = b] on TEXT. *)
Definition eqs (a b : string) : bool := bool_decide (a = b).
(** [c IS NULL]. *)
Definition is_null {A} (c : option A) : bool := match c with None => true | Some _ => false end.

(** [length(X)] on TEXT: the characters before the first NUL. *)
Fixpoint until_nul (s : string) : string :=
  match s with
  | EmptyString => EmptyString
  | String c s' => if bool_decide (c = Ascii.zero) then EmptyString else String c (until_nul s')
  end.
Definition sql_length (s : string) : Z := Z.of_nat (length (chars (as_bytes (until_nul s)))).

(** Rows that an UPDATE ... WHERE matches, and its effect. *)
Definition update_where {R} (p : R -> bool) (f : R -> R) (rows : list R) : list R :=
  map (fun r => if p r then f r else r) rows.
Definition count_where {R} (p : R -> bool) (rows : list R) : Z :=
  Z.of_nat (length (List.filter p rows)).
Definition where_ {R} (p : R -> bool) (rows : list R) : list R := List.filter p rows.
(** [SELECT EXISTS(SELECT 1 FROM ... WHERE p)]. *)
Definition exists_where {R} (p : R -> bool) (rows : list R) : bool := existsb p rows.

(** ** Errors of the SQLite binding *)
Inductive SqliteCode : Set :=
| SqDatabaseBusy | SqDatabaseLocked | SqConstraintViolation | SqDiskFull | SqOther (code : Z).
Inductive SqlError : Set :=
| SqliteFailure (code : SqliteCode)
| InvalidQuery
| QueryReturnedNoRows
| InvalidColumnType (index : Z).

Definition constraint_failed {A} : Result SqlError A := Err (SqliteFailure SqConstraintViolation).

Definition is_busy (error : SqlError) : bool :=
  match error with
  | SqliteFailure SqDatabaseBusy | SqliteFailure SqDatabaseLocked => true
  | _ => false
  end.

(** [Connection::query_row]: the first row through the closure. *)
Definition query_row {R A} (rows : list R) (f : R -> Result SqlError A) : Result SqlError A :=
  match rows with [] => Err QueryReturnedNoRows | r :: _ => f r end.

(** [OptionalExtension::optional]. *)
Definition optional {A} (r : Result SqlError A) : Result SqlError (option A) :=
  match r with
  | Ok a => Ok (Some a)
  | Err QueryReturnedNoRows => Ok None
  | Err e => Err e
  end.

(** ** CHECK constraints (migrations/001_initial.sql) *)
Definition squad_checks (r : SquadRow) : bool :=
  (0 <? sql_length (sq_mission r))
  && (eqs (sq_state r) "active" || eqs (sq_state r) "archived")
  && ((eqs (sq_state r) "active" && is_null (sq_archived_at r))
      || (eqs (sq_state r) "archived" && negb (is_null (sq_archived_at r)))).

Definition membership_checks (r : MembershipRow) : bool := 0 <? sql_length (mb_role r).

Definition instance_checks (r : InstanceRow) : bool :=
  (eqs (in_mode r) "cooperative" || eqs (in_mode r) "scheduled" || eqs (in_mode r) "harnessed")
  && (0 <? sql_length (in_client_kind r))
  && (len (in_resume_token_hash r) =? 32)
  && (eqs (in_availability r) "idle" || eqs (in_availability r) "busy"
      || eqs (in_availability r) "blocked" || eqs (in_availability r) "unknown")
  && (0 <? sql_length (in_availability_source r)).

Definition message_checks (r : MessageRow) : bool :=
  (1 <=? len (ms_body r)) && (len (ms_body r) <=? 65536)
  && (len (ms_body_hash r) =? 32)
  && (eqs (ms_priority r) "normal" || eqs (ms_priority r) "high").

(** ** INSERT statements

    The value is the number of changed rows.  With ON CONFLICT DO NOTHING a
    conflict on the target changes no row; every other violation is an error. *)
Definition insert_squad (r : SquadRow) (db : Database) : Result SqlError (Z * Database) :=
  if negb (squad_checks r) then constraint_failed
  else if exists_where (fun s => eqs (sq_id s) (sq_id r) || eqs (sq_name s) (sq_name r)) (squads db)
  then constraint_failed
  else Ok (1, set_squads db (squads db ++ [r])).

(** INSERT INTO squads ... ON CONFLICT(name) DO NOTHING. *)
Definition insert_squad_or_nothing (r : SquadRow) (db : Database) : Result SqlError (Z * Database) :=
  if negb (squad_checks r) then constraint_failed
  else if exists_where (fun s => eqs (sq_name s) (sq_name r)) (squads db) then Ok (0, db)
  else insert_squad r db.

Definition insert_agent (r : AgentRow) (db : Database) : Result SqlError (Z * Database) :=
  if exists_where (fun a => eqs (ag_id a) (ag_id r)) (agents db) then constraint_failed
  else Ok (1, set_agents db (agents db ++ [r])).

(** INSERT INTO memberships ...
    ON CONFLICT(squad_id, normalized_name) WHERE left_at IS NULL DO NOTHING. *)
Definition insert_membership_or_nothing (r : MembershipRow) (db : Database)
    : Result SqlError (Z * Database) :=
  if negb (membership_checks r) then constraint_failed
  else if is_null (mb_left_at r)
          && exists_where (fun m => eqs (mb_squad_id m) (mb_squad_id r)
                                    && eqs (mb_normalized_name m) (mb_normalized_name r)
                                    && is_null (mb_left_at m)) (memberships db)
  then Ok (0, db)
  else if exists_where (fun m => eqs (mb_id m) (mb_id r)) (memberships db) then constraint_failed
  else if negb (exists_where (fun s => eqs (sq_id s) (mb_squad_id r)) (squads db))
          || negb (exists_where (fun a => eqs (ag_id a) (mb_agent_id r)) (agents db))
  then constraint_failed
  else Ok (1, set_memberships db (memberships db ++ [r])).

Definition insert_instance_row (r : InstanceRow) (db : Database) : Result SqlError (Z * Database) :=
  if negb (instance_checks r) then constraint_failed
  else if exists_where (fun i => eqs (in_id i) (in_id r)) (instances db) then constraint_failed
  else if is_null (in_closed_at r)
          && exists_where (fun i => eqs (in_membership_id i) (in_membership_id r)
                                    && is_null (in_closed_at i)) (instances db)
  then constraint_failed
  else if negb (exists_where (fun m => eqs (mb_id m) (in_membership_id r)) (memberships db))
  then constraint_failed
  else Ok (1, set_instances db (instances db ++ [r])).

Definition same_dedupe (a b : MessageRow) : bool :=
  match ms_dedupe_key a, ms_dedupe_key b with
  | Some k, Some k' =>
      eqs (ms_squad_id a) (ms_squad_id b) && eqs (ms_sender a) (ms_sender b) && eqs k k'
  | _, _ => false
  end.

Definition is_member (db : Database) (membership squad : string) : bool :=
  exists_where (fun m => eqs (mb_id m) membership && eqs (mb_squad_id m) squad) (memberships db).

Definition set_sequence (r : MessageRow) (sequence : Z) : MessageRow :=
  {| ms_sequence := sequence; ms_id := ms_id r; ms_squad_id := ms_squad_id r;
     ms_sender := ms_sender r; ms_recipient := ms_recipient r; ms_body := ms_body r;
     ms_body_hash := ms_body_hash r; ms_priority := ms_priority r; ms_reply_to := ms_reply_to r;
     ms_correlation_id := ms_correlation_id r; ms_dedupe_key := ms_dedupe_key r;
     ms_created_at := ms_created_at r; ms_acknowledged_at := ms_acknowledged_at r |}.

(** INSERT INTO messages: the sequence is assigned by AUTOINCREMENT, which
    fails with SQLITE_FULL after the largest rowid; the value is the rowid. *)
Definition insert_message (r : MessageRow) (db : Database) : Result SqlError (Z * Database) :=
  let sequence := message_seq db + 1 in
  if negb (message_checks r) then constraint_failed
  else if i64_max <? sequence then Err (SqliteFailure SqDiskFull)
  else if exists_where (fun m => eqs (ms_id m) (ms_id r)) (messages db) then constraint_failed
  else if exists_where (fun m => same_dedupe m r) (messages db) then constraint_failed
  else if negb (is_member db (ms_sender r) (ms_squad_id r))
          || negb (is_member db (ms_recipient r) (ms_squad_id r))
  then constraint_failed
  else if match ms_reply_to r with
          | None => false
          | Some parent =>
              negb (eqs parent (ms_id r)
                    || exists_where (fun m => eqs (ms_id m) parent
                                              && eqs (ms_squad_id m) (ms_squad_id r)) (messages db))
          end
  then constraint_failed
  else Ok (sequence, set_messages db (messages db ++ [set_sequence r sequence]) sequence).

(** ** UPDATE statements *)
Definition archive_row (now : Z) (r : SquadRow) : SquadRow :=
  {| sq_id := sq_id r; sq_name := sq_name r; sq_mission := sq_mission r; sq_state := "archived";
     sq_created_at := sq_created_at r; sq_archived_at := Some now |}.

(** UPDATE squads SET state = 'archived', archived_at = now WHERE p AND state = 'active'. *)
Definition archive_squads_where (p : SquadRow -> bool) (now : Z) (db : Database)
    : Result SqlError (Z * Database) :=
  let q r := p r && eqs (sq_state r) "active" in
  Ok (count_where q (squads db), set_squads db (update_where q (archive_row now) (squads db))).

Definition leave_row (now : Z) (r : MembershipRow) : MembershipRow :=
  {| mb_id := mb_id r; mb_squad_id := mb_squad_id r; mb_agent_id := mb_agent_id r;
     mb_name := mb_name r; mb_normalized_name := mb_normalized_name r; mb_role := mb_role r;
     mb_joined_at := mb_joined_at r; mb_left_at := Some now |}.

(** UPDATE memberships SET left_at = now WHERE id = id AND left_at IS NULL. *)
Definition leave_membership_row (id : string) (now : Z) (db : Database)
    : Result SqlError (Z * Database) :=
  let q r := eqs (mb_id r) id && is_null (mb_left_at r) in
  Ok (count_where q (memberships db),
      set_memberships db (update_where q (leave_row now) (memberships db))).

Definition close_row (now : Z) (r : InstanceRow) : InstanceRow :=
  {| in_id := in_id r; in_membership_id := in_membership_id r; in_mode := in_mode r;
     in_client_kind := in_client_kind r; in_hostname := in_hostname r;
     in_resume_token_hash := in_resume_token_hash r; in_availability := in_availability r;
     in_availability_source := in_availability_source r;
     in_availability_observed_at := in_availability_observed_at r;
     in_lease_expires_at := in_lease_expires_at r; in_last_seen_at := in_last_seen_at r;
     in_created_at := in_created_at r; in_closed_at := Some now |}.

(** UPDATE instances SET closed_at = now WHERE p AND closed_at IS NULL. *)
Definition close_instances_where (p : InstanceRow -> bool) (now : Z) (db : Database)
    : Result SqlError (Z * Database) :=
  let q r := p r && is_null (in_closed_at r) in
  Ok (count_where q (instances db), set_instances db (update_where q (close_row now) (instances db))).

Definition heartbeat_row (availability source : string) (observed expiry : Z) (r : InstanceRow)
    : InstanceRow :=
  {| in_id := in_id r; in_membership_id := in_membership_id r; in_mode := in_mode r;
     in_client_kind := in_client_kind r; in_hostname := in_hostname r;
     in_resume_token_hash := in_resume_token_hash r; in_availability := availability;
     in_availability_source := source; in_availability_observed_at := observed;
     in_lease_expires_at := expiry; in_last_seen_at := observed;
     in_created_at := in_created_at r; in_closed_at := in_closed_at r |}.

(** UPDATE instances SET availability.., lease_expires_at, last_seen_at WHERE p. *)
Definition heartbeat_instances_where (p : InstanceRow -> bool) (availability source : string)
    (observed expiry : Z) (db : Database) : Result SqlError (Z * Database) :=
  Ok (count_where p (instances db),
      set_instances db
        (update_where p (heartbeat_row availability source observed expiry) (instances db))).

Definition ack_row (now : Z) (r : MessageRow) : MessageRow :=
  {| ms_sequence := ms_sequence r; ms_id := ms_id r; ms_squad_id := ms_squad_id r;
     ms_sender := ms_sender r; ms_recipient := ms_recipient r; ms_body := ms_body r;
     ms_body_hash := ms_body_hash r; ms_priority := ms_priority r; ms_reply_to := ms_reply_to r;
     ms_correlation_id := ms_correlation_id r; ms_dedupe_key := ms_dedupe_key r;
     ms_created_at := ms_created_at r; ms_acknowledged_at := Some now |}.

(** UPDATE messages SET acknowledged_at = now
    WHERE id = id AND recipient_membership_id = recipient AND acknowledged_at IS NULL. *)
Definition acknowledge_row (id recipient : string) (now : Z) (db : Database)
    : Result SqlError (Z * Database) :=
  let q r := eqs (ms_id r) id && eqs (ms_recipient r) recipient && is_null (ms_acknowledged_at r) in
  Ok (count_where q (messages db),
      set_messages db (update_where q (ack_row now) (messages db)) (message_seq db)).

(** ** ORDER BY

    TEXT compares byte by byte (the BINARY collation). *)
Fixpoint text_leb (a b : string) : bool :=
  match a, b with
  | EmptyString, _ => true
  | String _ _, EmptyString => false
  | String x a', String y b' =>
      if byte_val x <? byte_val y then true
      else if byte_val y <? byte_val x then false
      else text_leb a' b'
  end.

Definition order_by {R} (leb : R -> R -> bool) (rows : list R) : list R :=
  merge_sort (fun a b => Is_true (leb a b)) rows.

Definition by_sequence (a b : MessageRow) : bool := ms_sequence a <=? ms_sequence b.
Definition by_squad_name (a b : SquadRow) : bool := text_leb (sq_name a) (sq_name b).

(** ORDER BY joined_at, id. *)
Definition by_joined (a b : MembershipRow) : bool :=
  if mb_joined_at a <? mb_joined_at b then true
  else if mb_joined_at b <? mb_joined_at a then false
  else text_leb (mb_id a) (mb_id b).

(** ORDER BY created_at DESC, id DESC. *)
Definition by_newest (a b : InstanceRow) : bool :=
  if in_created_at b <? in_created_at a then true
  else if in_created_at a <? in_created_at b then false
  else text_leb (in_id b) (in_id a).

(** LIMIT n. *)
Definition limit {R} (n : Z) (rows : list R) : list R := take (Z.to_nat n) rows.

(** ** Lemmas on WHERE, UPDATE and ORDER BY *)
Lemma eqs_true a b : eqs a b = true <-> a = b.
Proof. unfold eqs. apply bool_decide_eq_true. Qed.
Lemma eqs_refl a : eqs a a = true.
Proof. by apply eqs_true. Qed.
Lemma eqs_false a b : eqs a b = false <-> a <> b.
Proof. unfold eqs. apply bool_decide_eq_false. Qed.
Lemma is_null_true {A} (o : option A) : is_null o = true <-> o = None.
Proof. destruct o; naive_solver. Qed.
Lemma is_null_false {A} (o : option A) : is_null o = false <-> is_Some o.
Proof. destruct o; simpl; split; done. Qed.

Section Where.
Context {R K : Type}.
Implicit Types (p q : R -> bool) (rows : list R) (f : R -> R) (key : R -> K).

Lemma elem_of_where p rows r : r ∈ where_ p rows <-> r ∈ rows /\ p r = true.
Proof. unfold where_. rewrite !list_elem_of_In. apply filter_In. Qed.

Lemma exists_where_true p rows : exists_where p rows = true <-> exists r, r ∈ rows /\ p r = true.
Proof.
  unfold exists_where. rewrite existsb_exists.
  split; intros (r & Hr & Hp); exists r; by rewrite list_elem_of_In in *.
Qed.

Lemma exists_where_false p rows :
  exists_where p rows = false <-> forall r, r ∈ rows -> p r = false.
Proof.
  split.
  - intros Hf r Hr. destruct (p r) eqn:E; [|done].
    assert (exists_where p rows = true) by (apply exists_where_true; eauto). congruence.
  - intros Hall. destruct (exists_where p rows) eqn:E; [|done].
    apply exists_where_true in E as (r & Hr & Hp). rewrite Hall in Hp; done.
Qed.

Lemma elem_of_update p f rows r :
  r ∈ update_where p f rows <-> exists r0, r0 ∈ rows /\ r = if p r0 then f r0 else r0.
Proof. unfold update_where. rewrite list_elem_of_fmap. split; intros (x & ? & ?); eauto. Qed.

Lemma update_where_keys (key : R -> K) p f rows :
  (forall r, key (f r) = key r) -> map key (update_where p f rows) = map key rows.
Proof.
  intros Hk. unfold update_where. rewrite map_map. apply map_ext. intros r. by destruct (p r).
Qed.

Lemma update_where_Forall (P : R -> Prop) p f rows :
  (forall r, P r -> p r = true -> P (f r)) -> Forall P rows -> Forall P (update_where p f rows).
Proof.
  intros Hf HP. unfold update_where. apply Forall_map. eapply Forall_impl; [exact HP|].
  intros r Hr. simpl. destruct (p r) eqn:E; auto.
Qed.

Lemma update_where_length p f rows : length (update_where p f rows) = length rows.
Proof. apply length_map. Qed.

(** A partial unique index survives an UPDATE that only removes rows from it. *)
Lemma update_where_index (key : R -> K) p q f rows :
  (forall r, p (f r) = true -> p r = true /\ key (f r) = key r) ->
  NoDup (map key (where_ p rows)) -> NoDup (map key (where_ p (update_where q f rows))).
Proof.
  intros Hf Hnd. eapply sublist_NoDup; [exact Hnd|]. clear Hnd. unfold where_, update_where.
  induction rows as [|r rows IH]; simpl; [constructor|].
  destruct (q r) eqn:Eq.
  - destruct (p (f r)) eqn:Ef.
    + destruct (Hf _ Ef) as [Hp Hk]. rewrite Hp. simpl. rewrite Hk. by constructor.
    + destruct (p r); simpl; [by constructor|done].
  - destruct (p r); simpl; [by constructor|done].
Qed.

Lemma where_app p l1 l2 : where_ p (l1 ++ l2) = where_ p l1 ++ where_ p l2.
Proof. apply List.filter_app. Qed.

Lemma where_In_key (key : R -> K) p rows r :
  r ∈ rows -> p r = true -> key r ∈ map key (where_ p rows).
Proof. intros Hr Hp. apply list_elem_of_fmap. exists r. by rewrite elem_of_where. Qed.

Lemma NoDup_key_eq (key : R -> K) rows r r' :
  NoDup (map key rows) -> r ∈ rows -> r' ∈ rows -> key r = key r' -> r = r'.
Proof.
  induction rows as [|x rows IH]; simpl; [by intros _ ?%not_elem_of_nil|].
  intros [Hx Hnd]%NoDup_cons [->|Hr]%elem_of_cons [->|Hr']%elem_of_cons Hk; auto.
  - destruct Hx. rewrite Hk. by apply list_elem_of_fmap_2.
  - destruct Hx. rewrite <- Hk. by apply list_elem_of_fmap_2.
Qed.

Lemma NoDup_snoc {A} (l : list A) x : NoDup l -> x ∉ l -> NoDup (l ++ [x]).
Proof.
  intros Hl Hx. apply NoDup_app. split; [done|]. split.
  - intros y Hy ->%list_elem_of_singleton. done.
  - apply NoDup_singleton.
Qed.

(** Selecting by a unique key gives at most one row. *)
Lemma where_unique (key : R -> K) p rows r :
  NoDup (map key rows) -> r ∈ rows -> (forall x, p x = true <-> key x = key r) ->
  where_ p rows = [r].
Proof.
  unfold where_. induction rows as [|x rows IH]; simpl; [by intros _ ?%not_elem_of_nil|].
  intros [Hx Hnd]%NoDup_cons Hin Hp. destruct (p x) eqn:E.
  - apply Hp in E. assert (x = r) as ->.
    { apply elem_of_cons in Hin as [->|Hin]; [done|]. destruct Hx. rewrite E.
      by apply list_elem_of_fmap_2. }
    f_equal. destruct (List.filter p rows) as [|y l] eqn:Ef; [done|].
    assert (y ∈ rows /\ p y = true) as [Hy Hpy].
    { rewrite list_elem_of_In, <- filter_In, Ef. by left. }
    destruct Hx. apply Hp in Hpy. rewrite <- Hpy. by apply list_elem_of_fmap_2.
  - apply elem_of_cons in Hin as [->|Hin]; [|by apply IH].
    assert (p x = true) by (by apply Hp). congruence.
Qed.

Lemma NoDup_where (key : R -> K) p rows : NoDup (map key rows) -> NoDup (map key (where_ p rows)).
Proof.
  unfold where_. induction rows as [|x rows IH]; simpl; [done|]. intros [Hx Hnd]%NoDup_cons.
  destruct (p x); simpl; [|by apply IH]. apply NoDup_cons. split; [|by apply IH].
  intros (y & Ey & [Hy _]%elem_of_where)%list_elem_of_fmap. apply Hx. rewrite Ey.
  by apply list_elem_of_fmap_2.
Qed.

Lemma count_where_0 p f rows : count_where p rows = 0 -> update_where p f rows = rows.
Proof.
  unfold count_where, update_where. induction rows as [|r rows IH]; simpl; [done|].
  destruct (p r); simpl; [lia|]. intros E. by rewrite IH.
Qed.

Lemma count_where_unique (key : R -> K) p rows :
  NoDup (map key rows) -> (forall x y, p x = true -> p y = true -> key x = key y) -> count_where p rows <= 1.
Proof.
  intros Hnd%(NoDup_where key p) Hp. unfold count_where. fold (where_ p rows) in *.
  destruct (where_ p rows) as [|x [|y l]] eqn:E; simpl; try lia. exfalso.
  simpl in Hnd. apply NoDup_cons in Hnd as [Hn _]. apply Hn.
  assert (x ∈ where_ p rows /\ y ∈ where_ p rows) as [Hx Hy].
  { rewrite E. split; apply elem_of_cons; [by left|]. right. apply elem_of_cons. by left. }
  apply elem_of_where in Hx as [_ Hx], Hy as [_ Hy]. rewrite (Hp x y Hx Hy). apply elem_of_cons. by left.
Qed.

Lemma where_none p rows : (forall r, r ∈ rows -> p r = false) -> where_ p rows = [].
Proof.
  intros Hn. unfold where_. induction rows as [|x rows IH]; simpl; [done|].
  rewrite (Hn x) by set_solver. apply IH. set_solver.
Qed.
End Where.

Lemma text_leb_total a b : text_leb a b = true \/ text_leb b a = true.
Proof.
  revert b. induction a as [|x a IH]; intros [|y b]; simpl; auto.
  destruct (Z.ltb_spec (byte_val x) (byte_val y)), (Z.ltb_spec (byte_val y) (byte_val x)); auto; lia.
Qed.

Lemma text_leb_trans a b c : text_leb a b = true -> text_leb b c = true -> text_leb a c = true.
Proof.
  revert b c. induction a as [|x a IH]; intros [|y b] [|z c]; simpl; try done.
  destruct (Z.ltb_spec (byte_val x) (byte_val y)), (Z.ltb_spec (byte_val y) (byte_val x)),
    (Z.ltb_spec (byte_val y) (byte_val z)), (Z.ltb_spec (byte_val z) (byte_val y)),
    (Z.ltb_spec (byte_val x) (byte_val z)), (Z.ltb_spec (byte_val z) (byte_val x));
    try done; try lia; apply IH.
Qed.

Lemma byte_val_inj x y : byte_val x = byte_val y -> x = y.
Proof.
  unfold byte_val. intros E%N2Z.inj.
  by rewrite <- (Ascii.ascii_N_embedding x), E, Ascii.ascii_N_embedding.
Qed.

Lemma text_leb_antisymm a b : text_leb a b = true -> text_leb b a = true -> a = b.
Proof.
  revert b. induction a as [|x a IH]; intros [|y b]; simpl; try done.
  destruct (Z.ltb_spec (byte_val x) (byte_val y)), (Z.ltb_spec (byte_val y) (byte_val x));
    try done; try lia.
  intros L1 L2. f_equal; [apply byte_val_inj; lia|auto].
Qed.

#[global] Instance by_sequence_total : Total (fun a b => Is_true (by_sequence a b)).
Proof. intros a b. rewrite !Is_true_true. unfold by_sequence. lia. Qed.
#[global] Instance by_sequence_trans : Transitive (fun a b => Is_true (by_sequence a b)).
Proof. intros a b c. rewrite !Is_true_true. unfold by_sequence. lia. Qed.

#[global] Instance by_newest_total : Total (fun a b => Is_true (by_newest a b)).
Proof.
  intros a b. rewrite !Is_true_true. unfold by_newest.
  destruct (Z.ltb_spec (in_created_at a) (in_created_at b)),
    (Z.ltb_spec (in_created_at b) (in_created_at a)); auto using text_leb_total.
Qed.
#[global] Instance by_newest_trans : Transitive (fun a b => Is_true (by_newest a b)).
Proof.
  intros a b c. rewrite !Is_true_true. unfold by_newest.
  destruct (Z.ltb_spec (in_created_at b) (in_created_at a)),
    (Z.ltb_spec (in_created_at a) (in_created_at b)),
    (Z.ltb_spec (in_created_at c) (in_created_at b)),
    (Z.ltb_spec (in_created_at b) (in_created_at c)),
    (Z.ltb_spec (in_created_at c) (in_created_at a)),
    (Z.ltb_spec (in_created_at a) (in_created_at c)); try done; try lia.
  intros L1 L2. by eapply text_leb_trans.
Qed.

Section OrderBy.
Context {R : Type} (leb : R -> R -> bool).

Lemma order_by_perm rows : order_by leb rows ≡ₚ rows.
Proof. apply merge_sort_Permutation. Qed.

Lemma elem_of_order_by rows r : r ∈ order_by leb rows <-> r ∈ rows.
Proof. by rewrite order_by_perm. Qed.

Lemma order_by_head `{!Total (fun a b => Is_true (leb a b)), !Transitive (fun a b => Is_true (leb a b))}
    rows r : head (order_by leb rows) = Some r -> r ∈ rows /\ forall x, x ∈ rows -> x <> r -> leb r x = true.
Proof.
  intros Hh. pose proof (StronglySorted_merge_sort (fun a b => Is_true (leb a b)) rows) as Hs.
  fold (order_by leb rows) in Hs. setoid_rewrite <- (elem_of_order_by rows).
  destruct (order_by leb rows) as [|y l]; [done|]. simpl in Hh. injection Hh as ->.
  inversion Hs as [|? ? _ Hf]; subst. split; [set_solver|].
  intros x [->|Hx]%elem_of_cons Hn; [done|].
  rewrite Forall_forall in Hf. by apply Is_true_true, Hf.
Qed.

Lemma order_by_head_None rows : head (order_by leb rows) = None -> rows = [].
Proof.
  intros Hh. assert (order_by leb rows = []) as Hn by (by destruct (order_by leb rows)).
  apply Permutation_nil_r. rewrite <- (order_by_perm rows). by rewrite Hn.
Qed.
End OrderBy.

(** The messages table is kept in sequence order, so ORDER BY sequence is free. *)
Definition seq_lt (a b : MessageRow) : Prop := ms_sequence a < ms_sequence b.

Lemma StronglySorted_where {R} (P : relation R) p rows :
  StronglySorted P rows -> StronglySorted P (where_ p rows).
Proof.
  unfold where_. induction 1 as [|x rows Hs IH Hf]; simpl; [constructor|].
  destruct (p x); [constructor; [done|]|done].
  rewrite Forall_forall in *. intros y Hy. apply Hf. by apply elem_of_where in Hy as [? _].
Qed.

Lemma order_by_sequence_sorted rows : StronglySorted seq_lt rows -> order_by by_sequence rows = rows.
Proof.
  intros Hs. apply (StronglySorted_unique_strong (fun a b => Is_true (by_sequence a b))).
  - intros a b Ha Hb. rewrite !Is_true_true. unfold by_sequence. intros H1 H2.
    rewrite elem_of_order_by in Ha. assert (ms_sequence a = ms_sequence b) as He by lia.
    clear H1 H2. induction Hs as [|x rows Hs IH Hf]; [set_solver|].
    rewrite Forall_forall in Hf. unfold seq_lt in Hf.
    apply elem_of_cons in Ha as [->|Ha], Hb as [->|Hb]; auto.
    + apply Hf in Hb. lia.
    + apply Hf in Ha. lia.
  - apply StronglySorted_merge_sort; apply _.
  - induction Hs as [|x rows Hs IH Hf]; constructor; [done|].
    eapply List.Forall_impl; [|exact Hf]. intros y Hy. apply Is_true_true.
    unfold by_sequence, seq_lt in *. lia.
  - apply order_by_perm.
Qed.

(** ** Lemmas on [query_row] and [optional] *)
Lemma optional_query_Some {R A} (rows : list R) (f : R -> Result SqlError A) a :
  optional (query_row rows f) = Ok (Some a) -> exists r, r ∈ rows /\ head rows = Some r /\ f r = Ok a.
Proof.
  destruct rows as [|r rows]; simpl; [done|]. intros Hf. exists r.
  split; [set_solver|]. split; [done|]. destruct (f r) as [|[]]; simpl in *; by simplify_eq.
Qed.

Lemma optional_query_None {R A} (rows : list R) (f : R -> Result SqlError A) :
  optional (query_row rows f) = Ok None -> rows = [] \/ exists r, r ∈ rows /\ f r = Err QueryReturnedNoRows.
Proof.
  destruct rows as [|r rows]; simpl; [auto|]. intros Hf. right. exists r.
  split; [set_solver|]. destruct (f r) as [|[]]; simpl in *; by simplify_eq.
Qed.

Lemma optional_query_None_ok {R A} (rows : list R) (g : R -> A) :
  optional (query_row rows (fun r => Ok (g r))) = Ok None -> rows = [].
Proof. intros [->|(r & _ & [=])]%optional_query_None. done. Qed.

Lemma where_nil {R} (p : R -> bool) rows : where_ p rows = [] -> forall r, r ∈ rows -> p r = false.
Proof.
  intros Hn r Hr. destruct (p r) eqn:E; [|done].
  assert (r ∈ where_ p rows) as Hw by (by apply elem_of_where). rewrite Hn in Hw. set_solver.
Qed.
