(* ===== verification/Migrate.v ===== *)
(** * Migrate: opening and migrating the database file (psst-store/src/lib.rs)

    The file is its application id, its ledger of migrations, and its schema with the rows,
    of which only the engine that runs the migrations' SQL knows more.  Every call of SQLite
    can fail; a transaction that does not commit leaves the file as it was. *)
From stdpp Require Import pretty.
From S2P Require Import Prelude Text Core Sql.

(** ** The embedded migrations *)
Record Migration : Set := { mg_version : Z; mg_sql : string }.
Definition INITIAL_SQL : string := "CREATE TABLE squads (
    id TEXT PRIMARY KEY,
    name TEXT NOT NULL UNIQUE,
    mission TEXT NOT NULL CHECK(length(mission) > 0),
    state TEXT NOT NULL CHECK(state IN ('active', 'archived')),
    created_at INTEGER NOT NULL,
    archived_at INTEGER,
    CHECK (
        (state = 'active' AND archived_at IS NULL)
        OR (state = 'archived' AND archived_at IS NOT NULL)
    )
) STRICT;

CREATE TABLE agents (
    id TEXT PRIMARY KEY,
    created_at INTEGER NOT NULL
) STRICT;

CREATE TABLE memberships (
    id TEXT PRIMARY KEY,
    squad_id TEXT NOT NULL REFERENCES squads(id),
    agent_id TEXT NOT NULL REFERENCES agents(id),
    name TEXT NOT NULL,
    normalized_name TEXT NOT NULL,
    role TEXT NOT NULL CHECK(length(role) > 0),
    joined_at INTEGER NOT NULL,
    left_at INTEGER,
    UNIQUE(id, squad_id)
) STRICT;

CREATE TABLE instances (
    id TEXT PRIMARY KEY,
    membership_id TEXT NOT NULL REFERENCES memberships(id),
    mode TEXT NOT NULL CHECK(mode IN ('cooperative', 'scheduled', 'harnessed')),
    client_kind TEXT NOT NULL CHECK(length(client_kind) > 0),
    hostname TEXT,
    resume_token_hash BLOB NOT NULL CHECK(length(resume_token_hash) = 32),
    availability TEXT NOT NULL CHECK(availability IN ('idle', 'busy', 'blocked', 'unknown')),
    availability_source TEXT NOT NULL CHECK(length(availability_source) > 0),
    availability_observed_at INTEGER NOT NULL,
    lease_expires_at INTEGER NOT NULL,
    last_seen_at INTEGER NOT NULL,
    created_at INTEGER NOT NULL,
    closed_at INTEGER
) STRICT;

CREATE TABLE messages (
    sequence INTEGER PRIMARY KEY AUTOINCREMENT,
    id TEXT NOT NULL,
    squad_id TEXT NOT NULL,
    sender_membership_id TEXT NOT NULL,
    recipient_membership_id TEXT NOT NULL,
    body TEXT NOT NULL CHECK(length(CAST(body AS BLOB)) BETWEEN 1 AND 65536),
    body_hash BLOB NOT NULL CHECK(length(body_hash) = 32),
    priority TEXT NOT NULL CHECK(priority IN ('normal', 'high')),
    reply_to TEXT,
    correlation_id TEXT,
    dedupe_key TEXT,
    created_at INTEGER NOT NULL,
    acknowledged_at INTEGER,
    UNIQUE(id),
    UNIQUE(id, squad_id),
    FOREIGN KEY(sender_membership_id, squad_id) REFERENCES memberships(id, squad_id),
    FOREIGN KEY(recipient_membership_id, squad_id) REFERENCES memberships(id, squad_id),
    FOREIGN KEY(reply_to, squad_id) REFERENCES messages(id, squad_id)
) STRICT;
".
Definition INDEXES_SQL : string := "CREATE UNIQUE INDEX memberships_active_name
    ON memberships(squad_id, normalized_name)
    WHERE left_at IS NULL;

CREATE UNIQUE INDEX messages_dedupe
    ON messages(squad_id, sender_membership_id, dedupe_key)
    WHERE dedupe_key IS NOT NULL;

CREATE INDEX messages_inbox
    ON messages(recipient_membership_id, acknowledged_at, priority, sequence);

CREATE INDEX memberships_roster
    ON memberships(squad_id, left_at);

CREATE INDEX instances_lease_expiry
    ON instances(lease_expires_at, closed_at);
".
Definition INSTANCE_OWNER_SQL : string := "CREATE UNIQUE INDEX instances_unclosed_owner
    ON instances(membership_id)
    WHERE closed_at IS NULL;
".
Definition INBOX_ORDER_SQL : string := "CREATE INDEX messages_inbox_order
    ON messages(recipient_membership_id, acknowledged_at, sequence);
".
Definition MIGRATIONS : list Migration :=
  [{| mg_version := 1; mg_sql := INITIAL_SQL |}; {| mg_version := 2; mg_sql := INDEXES_SQL |};
   {| mg_version := 3; mg_sql := INSTANCE_OWNER_SQL |}; {| mg_version := 4; mg_sql := INBOX_ORDER_SQL |}].

(** [migrations.last().map_or(0, |migration| migration.version)]. *)
Definition last_version (migrations : list Migration) : Z :=
  match last migrations with Some migration => mg_version migration | None => 0 end.
Definition current_schema_version : Z := last_version MIGRATIONS.

Definition APPLICATION_ID : Z := 1347638100.
Definition BUSY_TIMEOUT : Duration := Duration_from_millis 2000.
Definition OPEN_BUSY_TIMEOUT : Duration := Duration_from_secs 8.
Definition JOURNAL_RETRY_INTERVAL : Duration := Duration_from_millis 10.
Definition WAL_AUTOCHECKPOINT_PAGES : Z := 256.

Inductive StoreError : Set :=
| StDatabase (error : SqlError)
| StUnexpectedApplicationId (actual : Z)
| StFutureSchema (database supported : Z)
| StMigrationChecksumMismatch (version : Z)
| StInvalidMigrationLedger (expected actual : Z)
| StInvalidMigrationPlan (message : string)
| StWorkerUnavailable.
(** An error, or a panic. *)
Inductive StoreFault : Set := Failed (e : StoreError) | Panicked.

Definition StoreError_fmt (e : StoreError) : string :=
  match e with
  | StDatabase _ => "SQLite store operation failed"
  | StUnexpectedApplicationId actual => "database belongs to another application (" +:+ pretty actual +:+ ")"
  | StFutureSchema database supported =>
      "database schema version " +:+ pretty database +:+ " is newer than supported version " +:+ pretty supported
  | StMigrationChecksumMismatch version => "migration " +:+ pretty version +:+ " checksum does not match"
  | StInvalidMigrationLedger expected actual =>
      "migration ledger expected version " +:+ pretty expected +:+ " but found " +:+ pretty actual
  | StInvalidMigrationPlan message => message
  | StWorkerUnavailable => "store worker could not start"
  end.

(** ** The file and the connection *)
Record LedgerRow : Set := { lr_version : Z; lr_applied_at : Z; lr_checksum : string }.
Record DbFile (T : Type) : Type := {
  fl_application_id : Z;
  (** The table schema_migrations, in the order of its integer key, when it exists. *)
  fl_ledger : option (list LedgerRow);
  fl_schema : T; fl_wal : bool }.
Arguments fl_application_id {T} d.
Arguments fl_ledger {T} d.
Arguments fl_schema {T} d.
Arguments fl_wal {T} d.

Record Connection : Set := {
  cn_busy_timeout : Duration; cn_foreign_keys : bool; cn_synchronous_full : bool; cn_wal_autocheckpoint : Z;
  cn_trusted_schema : bool }.
Definition fresh_connection : Connection :=
  {| cn_busy_timeout := 0%N; cn_foreign_keys := false; cn_synchronous_full := false; cn_wal_autocheckpoint := 1000;
     cn_trusted_schema := true |}.

(** What running a batch of SQL does to the schema and its rows. *)
Class Engine (T : Type) := run_batch : string -> T -> Result SqlError T.

Record Opening (T : Type) : Type := {
  op_file : DbFile T; op_connection : Connection;
  op_faults : list (option SqliteCode);
  (** The clock, and how long each attempt to change the journal mode takes. *)
  op_now : Duration; op_delays : list Duration; op_unixepoch : Z }.
Arguments op_file {T} o.
Arguments op_connection {T} o.
Arguments op_faults {T} o.
Arguments op_now {T} o.
Arguments op_delays {T} o.
Arguments op_unixepoch {T} o.

Section Opening.
Context `{Crypto} {T : Type} `{Engine T}.

Definition set_file (o : Opening T) (f : DbFile T) : Opening T :=
  {| op_file := f; op_connection := op_connection o; op_faults := op_faults o; op_now := op_now o;
     op_delays := op_delays o; op_unixepoch := op_unixepoch o |}.
Definition set_connection (o : Opening T) (c : Connection) : Opening T :=
  {| op_file := op_file o; op_connection := c; op_faults := op_faults o; op_now := op_now o;
     op_delays := op_delays o; op_unixepoch := op_unixepoch o |}.

Definition Mig (A : Type) : Type := Opening T -> Result StoreFault A * Opening T.
#[global] Instance Mig_ret : MRet Mig := fun A a o => (Ok a, o).
#[global] Instance Mig_bind : MBind Mig := fun A B k m o =>
  match m o with (Ok a, o') => k a o' | (Err e, o') => (Err e, o') end.
Definition o_fail {A} (e : StoreError) : Mig A := fun o => (Err (Failed e), o).
Definition o_panic {A} : Mig A := fun o => (Err Panicked, o).

(** One call of SQLite. *)
Definition call {A} (act : Opening T -> Result SqlError (A * Opening T)) : Mig A := fun o =>
  let '(fault, faults) := match op_faults o with [] => (None, []) | f :: fs => (f, fs) end in
  let o := {| op_file := op_file o; op_connection := op_connection o; op_faults := faults; op_now := op_now o;
              op_delays := op_delays o; op_unixepoch := op_unixepoch o |} in
  match fault with
  | Some code => (Err (Failed (StDatabase (SqliteFailure code))), o)
  | None => match act o with
            | Ok (a, o') => (Ok a, o')
            | Err e => (Err (Failed (StDatabase e)), o)
            end
  end.
Definition step : Mig unit := call (fun o => Ok (tt, o)).
Definition pragma (f : Connection -> Connection) : Mig unit := call (fun o => Ok (tt, set_connection o (f (op_connection o)))).

Definition busy_timeout (d : Duration) : Mig unit :=
  pragma (fun c => {| cn_busy_timeout := d; cn_foreign_keys := cn_foreign_keys c; cn_synchronous_full := cn_synchronous_full c;
                      cn_wal_autocheckpoint := cn_wal_autocheckpoint c; cn_trusted_schema := cn_trusted_schema c |}).

(** ** Configuring *)
Definition verify_application_id : Mig unit :=
  application_id ← call (fun o => Ok (fl_application_id (op_file o), o));
  if negb (application_id =? 0) && negb (application_id =? APPLICATION_ID)
  then o_fail (StUnexpectedApplicationId application_id)
  else mret tt.

(** Changing the journal mode takes time, whatever it returns. *)
Definition journal_mode_wal : Mig unit := fun o =>
  let '(delay, delays) := match op_delays o with [] => (0%N, []) | d :: ds => (d, ds) end in
  call (fun o => Ok (tt, set_file o {| fl_application_id := fl_application_id (op_file o); fl_ledger := fl_ledger (op_file o);
                                       fl_schema := fl_schema (op_file o); fl_wal := true |}))
    {| op_file := op_file o; op_connection := op_connection o; op_faults := op_faults o;
       op_now := (op_now o + delay)%N; op_delays := delays; op_unixepoch := op_unixepoch o |}.
Definition sleep (d : Duration) : Mig unit := fun o =>
  (Ok tt, {| op_file := op_file o; op_connection := op_connection o; op_faults := op_faults o;
             op_now := (op_now o + d)%N; op_delays := op_delays o; op_unixepoch := op_unixepoch o |}).
Definition busy_fault (e : StoreFault) : bool := match e with Failed (StDatabase error) => is_busy error | _ => false end.

Fixpoint wal_loop (fuel : nat) (deadline : Duration) : Mig unit := fun o =>
  match fuel with
  | 0%nat => o_panic o
  | S fuel =>
      match journal_mode_wal o with
      | (Ok _, o') => (Ok tt, o')
      | (Err error, o') =>
          if busy_fault error && (op_now o' <? deadline)%N
          then (sleep JOURNAL_RETRY_INTERVAL ≫= fun _ => wal_loop fuel deadline) o'
          else (Err error, o')
      end
  end.
(** Attempts are at least ten milliseconds apart. *)
Definition wal_attempts (open_busy_timeout : Duration) : nat := S (N.to_nat (open_busy_timeout / JOURNAL_RETRY_INTERVAL + 1)).
Definition enable_wal_with_bounded_retry (open_busy_timeout : Duration) : Mig unit := fun o =>
  wal_loop (wal_attempts open_busy_timeout) (op_now o + open_busy_timeout)%N o.

Definition configure_connection (open_busy_timeout : Duration) : Mig unit :=
  _ ← pragma (fun c => {| cn_busy_timeout := cn_busy_timeout c; cn_foreign_keys := true; cn_synchronous_full := cn_synchronous_full c;
                          cn_wal_autocheckpoint := cn_wal_autocheckpoint c; cn_trusted_schema := cn_trusted_schema c |});
  _ ← enable_wal_with_bounded_retry open_busy_timeout;
  _ ← pragma (fun c => {| cn_busy_timeout := cn_busy_timeout c; cn_foreign_keys := cn_foreign_keys c; cn_synchronous_full := true;
                          cn_wal_autocheckpoint := cn_wal_autocheckpoint c; cn_trusted_schema := cn_trusted_schema c |});
  _ ← pragma (fun c => {| cn_busy_timeout := cn_busy_timeout c; cn_foreign_keys := cn_foreign_keys c;
                          cn_synchronous_full := cn_synchronous_full c; cn_wal_autocheckpoint := WAL_AUTOCHECKPOINT_PAGES;
                          cn_trusted_schema := cn_trusted_schema c |});
  pragma (fun c => {| cn_busy_timeout := cn_busy_timeout c; cn_foreign_keys := cn_foreign_keys c;
                      cn_synchronous_full := cn_synchronous_full c; cn_wal_autocheckpoint := cn_wal_autocheckpoint c;
                      cn_trusted_schema := false |}).

(** ** Migrating *)
Definition checksum (sql : string) : string := hex (sha256 sql).

Fixpoint plan_from (expected : Z) (migrations : list Migration) : bool :=
  match migrations with
  | [] => true
  | migration :: rest => (mg_version migration =? expected) && plan_from (expected + 1) rest
  end.
Definition validate_migration_plan (migrations : list Migration) : Result StoreError unit :=
  if plan_from 1 migrations then Ok tt
  else Err (StInvalidMigrationPlan "embedded migrations must be contiguous and start at version 1").

Definition with_ledger (f : DbFile T) (rows : list LedgerRow) : DbFile T :=
  {| fl_application_id := fl_application_id f; fl_ledger := Some rows; fl_schema := fl_schema f; fl_wal := fl_wal f |}.
Definition with_schema (f : DbFile T) (s : T) : DbFile T :=
  {| fl_application_id := fl_application_id f; fl_ledger := fl_ledger f; fl_schema := s; fl_wal := fl_wal f |}.
Definition with_application_id (f : DbFile T) (id : Z) : DbFile T :=
  {| fl_application_id := id; fl_ledger := fl_ledger f; fl_schema := fl_schema f; fl_wal := fl_wal f |}.

Definition create_ledger : Mig unit := call (fun o =>
  Ok (tt, match fl_ledger (op_file o) with Some _ => o | None => set_file o (with_ledger (op_file o) []) end)).

(** The loop over the rows of the ledger; fetching a row can fail. *)
Fixpoint verify_rows (migrations : list Migration) (supported : Z) (rows : list LedgerRow) (applied : Z) : Mig Z :=
  _ ← step;
  match rows with
  | [] => mret applied
  | row :: rest =>
      let version := lr_version row in
      let expected := applied + 1 in
      if supported <? version then o_fail (StFutureSchema version supported)
      else if negb (version =? expected) then o_fail (StInvalidMigrationLedger expected version)
      else if version - 1 <? 0 then o_fail (StInvalidMigrationLedger expected version)
      else match migrations !! Z.to_nat (version - 1) with
           | None => o_panic
           | Some migration =>
               if bool_decide (lr_checksum row <> checksum (mg_sql migration))
               then o_fail (StMigrationChecksumMismatch version)
               else verify_rows migrations supported rest version
           end
  end.
Definition verify_migration_ledger (migrations : list Migration) (supported : Z) : Mig Z :=
  rows ← call (fun o => Ok (default [] (fl_ledger (op_file o)), o));
  verify_rows migrations supported rows 0.

(** INSERT INTO schema_migrations: at the place of its key, which must be new. *)
Fixpoint insert_row (row : LedgerRow) (rows : list LedgerRow) : option (list LedgerRow) :=
  match rows with
  | [] => Some [row]
  | r :: rest =>
      if lr_version row <? lr_version r then Some (row :: rows)
      else if lr_version row =? lr_version r then None
      else rest' ← insert_row row rest; Some (r :: rest')
  end.
Definition record_migration (migration : Migration) : Mig unit := call (fun o =>
  let row := {| lr_version := mg_version migration; lr_applied_at := op_unixepoch o; lr_checksum := checksum (mg_sql migration) |} in
  match insert_row row (default [] (fl_ledger (op_file o))) with
  | Some rows => Ok (tt, set_file o (with_ledger (op_file o) rows))
  | None => constraint_failed
  end).
Definition apply_migration (migration : Migration) : Mig unit :=
  _ ← call (fun o => s ← run_batch (mg_sql migration) (fl_schema (op_file o)); Ok (tt, set_file o (with_schema (op_file o) s)));
  record_migration migration.
Fixpoint apply_all (migrations : list Migration) : Mig unit :=
  match migrations with
  | [] => mret tt
  | migration :: rest => _ ← apply_migration migration; apply_all rest
  end.

(** BEGIN EXCLUSIVE, the body, COMMIT; dropping an uncommitted transaction rolls it back. *)
Definition exclusive {A} (body : Mig A) : Mig A := fun o =>
  match step o with
  | (Err e, o1) => (Err e, o1)
  | (Ok _, o1) =>
      match (a ← body; _ ← step; mret a) o1 with
      | (Err e, o2) => (Err e, set_file o2 (op_file o1))
      | (Ok a, o2) => (Ok a, o2)
      end
  end.
Definition migrate (migrations : list Migration) : Mig unit :=
  exclusive (
    _ ← verify_application_id;
    _ ← create_ledger;
    let supported := last_version migrations in
    database ← verify_migration_ledger migrations supported;
    _ ← apply_all (filter (fun item => Is_true (database <? mg_version item)) migrations);
    call (fun o => Ok (tt, set_file o (with_application_id (op_file o) APPLICATION_ID)))).

(** ** The store *)
Definition open_with_migrations (migrations : list Migration) : Mig unit :=
  match validate_migration_plan migrations with
  | Err e => o_fail e
  | Ok _ =>
      _ ← step;
      _ ← busy_timeout OPEN_BUSY_TIMEOUT;
      _ ← verify_application_id;
      _ ← configure_connection OPEN_BUSY_TIMEOUT;
      _ ← migrate migrations;
      busy_timeout BUSY_TIMEOUT
  end.
Definition Store_open : Mig unit := open_with_migrations MIGRATIONS.

Definition current_version : Mig (option Z) :=
  exists_ ← call (fun o => Ok (negb (is_null (fl_ledger (op_file o))), o));
  if negb exists_ then mret None
  else call (fun o => Ok (lr_version <$> last (default [] (fl_ledger (op_file o))), o)).
Definition schema_version : Mig Z := version ← current_version; mret (default 0 version).
Definition readiness : Mig unit :=
  version ← schema_version;
  let supported := last_version MIGRATIONS in
  if negb (version =? supported) then o_fail (StFutureSchema version supported)
  else step.
Definition checkpoint : Mig unit := step.
End Opening.
