(* ===== verification/Upgrade.v ===== *)
(** * Upgrade: opening a database migrates it atomically, or leaves it alone

    A weakest precondition over the calls of SQLite, the plan and the ledger it is recorded
    in, and what opening does with and without failures. *)
From stdpp Require Import pretty.
From S2P Require Import Prelude Text Core Base64 Sql Migrate.

Section Upgrade.
Context `{Crypto} {T : Type} `{Engine T}.
Implicit Types (o : Opening T) (f : DbFile T).

(** ** The logic *)
Definition mwp {A} (m : Mig A) (Q : A -> Opening T -> Prop) (E : StoreFault -> Opening T -> Prop) o : Prop :=
  match m o with (Ok a, o') => Q a o' | (Err e, o') => E e o' end.
Lemma mwp_bind {A B} (m : Mig A) (k : A -> Mig B) Q E o : mwp m (fun a => mwp (k a) Q E) E o -> mwp (m ≫= k) Q E o.
Proof. unfold mwp, mbind, Mig_bind. by destruct (m o) as [[a|e] o']. Qed.
Lemma mwp_ret {A} (a : A) (Q : A -> Opening T -> Prop) E o : Q a o -> mwp (mret a) Q E o.
Proof. done. Qed.
Lemma mwp_fail {A} e (Q : A -> Opening T -> Prop) (E : StoreFault -> Opening T -> Prop) o : E (Failed e) o -> mwp (o_fail e) Q E o.
Proof. done. Qed.
Lemma mwp_mono {A} (m : Mig A) (Q Q' : A -> Opening T -> Prop) (E E' : StoreFault -> Opening T -> Prop) o :
  mwp m Q E o -> (forall a o', Q a o' -> Q' a o') -> (forall e o', E e o' -> E' e o') -> mwp m Q' E' o.
Proof. unfold mwp. destruct (m o) as [[a|e] o']; auto. Qed.

Definition set_faults o (faults : list (option SqliteCode)) : Opening T :=
  {| op_file := op_file o; op_connection := op_connection o; op_faults := faults; op_now := op_now o;
     op_delays := op_delays o; op_unixepoch := op_unixepoch o |}.
Lemma set_faults_file o fs : op_file (set_faults o fs) = op_file o.
Proof. done. Qed.
Lemma set_faults_faults o fs : op_faults (set_faults o fs) = fs.
Proof. done. Qed.
Lemma mwp_call {A} (act : Opening T -> Result SqlError (A * Opening T)) Q (E : StoreFault -> Opening T -> Prop) o :
  (forall fs, match act (set_faults o fs) with Ok (a, o') => Q a o' | Err e => E (Failed (StDatabase e)) (set_faults o fs) end) ->
  (forall code fs, E (Failed (StDatabase (SqliteFailure code))) (set_faults o fs)) -> mwp (call act) Q E o.
Proof.
  intros HQ HE. unfold mwp, call. destruct (op_faults o) as [|[code|] fs]; fold (set_faults o []) || fold (set_faults o fs); auto.
  - specialize (HQ []). destruct (act (set_faults o [])) as [[a o']|e]; auto.
  - specialize (HQ fs). destruct (act (set_faults o fs)) as [[a o']|e]; auto.
Qed.

(** Calls that leave the file alone. *)
Definition tame {A} (m : Mig A) : Prop :=
  forall o, mwp m (fun _ o' => op_file o' = op_file o) (fun e o' => op_file o' = op_file o /\ e <> Panicked) o.
Lemma tame_call {A} (act : Opening T -> Result SqlError (A * Opening T)) :
  (forall o a o', act o = Ok (a, o') -> op_file o' = op_file o) -> tame (call act).
Proof.
  intros Ha o. apply mwp_call; [|done]. intros fs. destruct (act _) as [[a o']|e] eqn:E; [|done]. by apply Ha in E.
Qed.
Lemma tame_bind {A B} (m : Mig A) (k : A -> Mig B) : tame m -> (forall a, tame (k a)) -> tame (m ≫= k).
Proof.
  intros Hm Hk o. apply mwp_bind. eapply mwp_mono; [apply Hm|simpl|done]. intros a o' Ho. rewrite <- Ho. apply Hk.
Qed.
Lemma tame_step : tame step.
Proof. apply tame_call. by intros ? ? ? [= _ <-]. Qed.
Lemma tame_pragma g : tame (pragma g).
Proof. apply tame_call. by intros ? ? ? [= _ <-]. Qed.
Lemma tame_verify_application_id : tame verify_application_id.
Proof.
  apply tame_bind; [apply tame_call; by intros ? ? ? [= _ <-]|]. intros id. by destruct (_ && _).
Qed.
Lemma mwp_tame {A} (m : Mig A) (Q : A -> Opening T -> Prop) (E : StoreFault -> Opening T -> Prop) o :
  tame m -> (forall a o', op_file o' = op_file o -> Q a o') -> (forall e o', op_file o' = op_file o -> e <> Panicked -> E e o') ->
  mwp m Q E o.
Proof. intros Hm HQ HE. eapply mwp_mono; [apply Hm|auto|]. intros e o' [? ?]. auto. Qed.

Lemma mwp_exclusive {A} (body : Mig A) (Q : A -> Opening T -> Prop) (E : StoreFault -> Opening T -> Prop) o :
  (forall o1, op_file o1 = op_file o ->
     mwp (a ← body; _ ← step; mret a) Q (fun e o2 => E e (set_file o2 (op_file o1))) o1) ->
  (forall e o1, op_file o1 = op_file o -> e <> Panicked -> E e o1) -> mwp (exclusive body) Q E o.
Proof.
  intros HQ HE. pose proof (tame_step o) as Hs. unfold mwp, exclusive in *. destruct (step o) as [[[]|e] o1]; [|by apply HE; apply Hs].
  specialize (HQ o1 Hs). by destruct ((a ← body; _ ← step; mret a) o1) as [[a|e] o2].
Qed.

(** ** The journal mode *)

(** Everything but the journal mode. *)
Definition content f : Z * option (list LedgerRow) * T := (fl_application_id f, fl_ledger f, fl_schema f).

Lemma wal_loop_wp fuel deadline o :
  (1 <= fuel)%nat -> (deadline <= op_now o + N.of_nat (fuel - 1) * JOURNAL_RETRY_INTERVAL)%N ->
  mwp (wal_loop fuel deadline) (fun _ o' => content (op_file o') = content (op_file o) /\ fl_wal (op_file o') = true)
    (fun e o' => content (op_file o') = content (op_file o) /\ e <> Panicked) o.
Proof.
  revert o. induction fuel as [|fuel IH]; intros o Hf Hd; [lia|]. unfold mwp. simpl. unfold journal_mode_wal.
  destruct (match op_delays o with [] => _ | d :: ds => _ end) as [delay delays].
  set (o1 := {| op_file := op_file o; op_connection := _; op_faults := _; op_now := _; op_delays := _; op_unixepoch := _ |}).
  assert (mwp (call (fun o => Ok (tt, set_file o {| fl_application_id := fl_application_id (op_file o); fl_ledger := fl_ledger (op_file o);
                                       fl_schema := fl_schema (op_file o); fl_wal := true |})))
    (fun _ o' => content (op_file o') = content (op_file o) /\ fl_wal (op_file o') = true)
    (fun e o' => op_file o' = op_file o /\ op_now o' = op_now o1 /\ e <> Panicked) o1) as Hc by (by apply mwp_call).
  unfold mwp in Hc. destruct (call _ o1) as [[[]|e] o2]; [done|]. destruct Hc as (Hc & Hn & He).
  destruct (busy_fault e && _) eqn:Eb; [|by rewrite Hc]. apply andb_true_iff in Eb as [_ Eb%N.ltb_lt]. rewrite Hn in Eb. simpl in Eb.
  unfold mbind, Mig_bind, sleep.
  set (o3 := {| op_file := op_file o2; op_connection := _; op_faults := _; op_now := _; op_delays := _; op_unixepoch := _ |}).
  assert (op_now o3 = op_now o + delay + JOURNAL_RETRY_INTERVAL)%N as Hn3 by (simpl; by rewrite Hn).
  assert ((1 <= fuel)%nat /\ (deadline <= op_now o3 + N.of_nat (fuel - 1) * JOURNAL_RETRY_INTERVAL)%N) as [H1 H2].
  { rewrite Hn3. unfold JOURNAL_RETRY_INTERVAL, Duration_from_millis in *. change (10 * 1000000)%N with 10000000%N in *. clear -Eb Hd. destruct fuel; lia. }
  specialize (IH o3 H1 H2). unfold mwp in IH. simpl in IH. rewrite Hc in IH. by destruct (wal_loop fuel deadline o3).
Qed.
Lemma enable_wal_wp d o :
  mwp (enable_wal_with_bounded_retry d) (fun _ o' => content (op_file o') = content (op_file o) /\ fl_wal (op_file o') = true)
    (fun e o' => content (op_file o') = content (op_file o) /\ e <> Panicked) o.
Proof.
  apply wal_loop_wp; unfold wal_attempts; [apply le_n_S, Nat.le_0_l|]. rewrite Nat.sub_succ, Nat.sub_0_r, N2Nat.id.
  pose proof (N.div_mod d JOURNAL_RETRY_INTERVAL ltac:(done)) as Hdm. pose proof (N.mod_lt d JOURNAL_RETRY_INTERVAL ltac:(done)). lia.
Qed.
Lemma configure_wp d o :
  mwp (configure_connection d) (fun _ o' => content (op_file o') = content (op_file o) /\ fl_wal (op_file o') = true)
    (fun e o' => content (op_file o') = content (op_file o) /\ e <> Panicked) o.
Proof.
  apply mwp_bind, mwp_tame; [apply tame_pragma| |intros e o1 ->; done]. intros _ o1 E1.
  apply mwp_bind. eapply mwp_mono; [apply enable_wal_wp|simpl; rewrite E1..|simpl; by rewrite E1]. intros _ o2 [E2 W2].
  apply mwp_bind, mwp_tame; [apply tame_pragma| |intros e o3 ->; done]. intros _ o3 E3.
  apply mwp_bind, mwp_tame; [apply tame_pragma| |intros e o4 ->; by rewrite E3]. intros _ o4 E4.
  apply mwp_tame; [apply tame_pragma| |intros e o5 ->; by rewrite E4, E3]. intros _ o5 ->. by rewrite E4, E3.
Qed.

(** ** The plan *)
Lemma plan_version k migrations i m : plan_from k migrations = true -> migrations !! i = Some m -> mg_version m = k + Z.of_nat i.
Proof.
  revert k i. induction migrations as [|x l IH]; intros k i; simpl; [done|]. intros [Hx Hl]%andb_true_iff. apply Z.eqb_eq in Hx.
  destruct i as [|i]; simpl; [intros [= <-]; lia|]. intros Hi. rewrite (IH _ _ Hl Hi). lia.
Qed.
Lemma plan_last migrations : plan_from 1 migrations = true -> last_version migrations = Z.of_nat (length migrations).
Proof.
  intros Hp. unfold last_version. rewrite last_lookup. destruct migrations as [|x l]; [done|].
  destruct ((x :: l) !! pred (length (x :: l))) as [m|] eqn:E; [rewrite (plan_version _ _ _ _ Hp E); simpl; lia|].
  apply lookup_ge_None in E. simpl in E. lia.
Qed.
Lemma plan_drop k migrations n : plan_from k migrations = true -> plan_from (k + Z.of_nat n) (drop n migrations) = true.
Proof.
  revert k n. induction migrations as [|x l IH]; intros k [|n]; simpl; try done; [by rewrite Z.add_0_r|].
  intros [Hx Hl]%andb_true_iff. replace (k + Z.of_nat (S n)) with (k + 1 + Z.of_nat n) by lia. by apply IH.
Qed.
Lemma plan_filter_all d k migrations :
  d < k -> plan_from k migrations = true -> filter (fun item => Is_true (d <? mg_version item)) migrations = migrations.
Proof.
  revert k. induction migrations as [|x l IH]; intros k Hd; simpl; [done|]. intros [Hx Hl]%andb_true_iff. apply Z.eqb_eq in Hx.
  rewrite filter_cons_True by (rewrite Hx; apply Is_true_true, Z.ltb_lt; lia). f_equal. apply (IH (k + 1)); [lia|done].
Qed.
Lemma plan_filter k n migrations :
  plan_from (k + 1) migrations = true ->
  filter (fun item => Is_true (k + Z.of_nat n <? mg_version item)) migrations = drop n migrations.
Proof.
  revert k n. induction migrations as [|x l IH]; intros k n; simpl; [by rewrite filter_nil, drop_nil|].
  intros [Hx Hl]%andb_true_iff. apply Z.eqb_eq in Hx. destruct n as [|n].
  - rewrite filter_cons_True by (rewrite Hx; apply Is_true_true, Z.ltb_lt; lia). simpl. f_equal.
    apply (plan_filter_all _ (k + 1 + 1)); [lia|done].
  - rewrite filter_cons_False by (rewrite Hx; intros Hb%Is_true_true; apply Z.ltb_lt in Hb; lia). simpl.
    rewrite <- (IH (k + 1) n Hl). by replace (k + 1 + Z.of_nat n) with (k + Z.of_nat (S n)) by lia.
Qed.

(** ** The ledger *)

(** A row records a migration. *)
Definition records (row : LedgerRow) (m : Migration) : Prop := lr_version row = mg_version m /\ lr_checksum row = checksum (mg_sql m).

Section Plan.
Variable migrations : list Migration.
Hypothesis Hplan : plan_from 1 migrations = true.

Lemma verify_rows_wp rows k o :
  mwp (verify_rows migrations (last_version migrations) rows (Z.of_nat k))
    (fun database o' => op_file o' = op_file o /\ database = Z.of_nat (k + length rows)
       /\ Forall2 records rows (take (length rows) (drop k migrations)))
    (fun e o' => op_file o' = op_file o /\ e <> Panicked) o.
Proof using Hplan.
  revert k o. induction rows as [|row rows IH]; intros k o; simpl; apply mwp_bind, mwp_tame; try apply tame_step; try done; intros _ o1 E1.
  { apply mwp_ret. split_and!; [done|lia|constructor]. }
  rewrite plan_last by done. destruct (_ <? _) eqn:Es; [by apply mwp_fail|]. apply Z.ltb_ge in Es.
  destruct (lr_version row =? _) eqn:Ev; simpl; [|by apply mwp_fail]. apply Z.eqb_eq in Ev.
  destruct (_ <? 0); [by apply mwp_fail|]. replace (Z.to_nat (lr_version row - 1)) with k by lia.
  destruct (migrations !! k) as [m|] eqn:Em; [|apply lookup_ge_None in Em; lia].
  case_bool_decide as Ec; [by apply mwp_fail|].
  replace (lr_version row) with (Z.of_nat (S k)) by lia. rewrite <- plan_last by done.
  eapply mwp_mono; [apply IH|simpl..]; rewrite E1; [|done]. intros database o2 (E2 & -> & Hf). split_and!; [done|lia|].
  rewrite (drop_S _ _ _ Em). simpl. constructor; [|done]. split; [|done]. rewrite (plan_version _ _ _ _ Hplan Em). lia.
Qed.

Fixpoint run_all (l : list Migration) (s : T) : Result SqlError T :=
  match l with
  | [] => Ok s
  | m :: l => s ← run_batch (mg_sql m) s; run_all l s
  end.

Lemma insert_row_last rows row : Forall (fun r => lr_version r < lr_version row) rows -> insert_row row rows = Some (rows ++ [row]).
Proof.
  induction rows as [|r rows IH]; simpl; [done|]. intros [Hr Hf]%Forall_cons.
  rewrite (proj2 (Z.ltb_ge _ _)), (proj2 (Z.eqb_neq _ _)) by lia. by rewrite IH.
Qed.
Lemma recorded_below rows k : Forall2 records rows (take k migrations) -> Forall (fun r => lr_version r < 1 + Z.of_nat k) rows.
Proof using Hplan.
  intros Hf. apply Forall_lookup. intros i r Hr. destruct (Forall2_lookup_l _ _ _ _ _ Hf Hr) as (m & Hm & Hv & _).
  apply lookup_take_Some in Hm as [Hm Hi]. rewrite Hv, (plan_version _ _ _ _ Hplan Hm). lia.
Qed.

(** The rows after the first [k] migrations. *)
Definition ledger_at (k : nat) (f : DbFile T) : Prop :=
  exists rows, fl_ledger f = Some rows /\ Forall2 records rows (take k migrations).

Lemma apply_all_wp k o :
  ledger_at k (op_file o) ->
  mwp (apply_all (drop k migrations))
    (fun _ o' => ledger_at (length migrations) (op_file o') /\ fl_application_id (op_file o') = fl_application_id (op_file o)
       /\ fl_wal (op_file o') = fl_wal (op_file o) /\ run_all (drop k migrations) (fl_schema (op_file o)) = Ok (fl_schema (op_file o'))
       /\ exists rows new, fl_ledger (op_file o) = Some rows /\ fl_ledger (op_file o') = Some (rows ++ new))
    (fun e _ => e <> Panicked) o.
Proof using Hplan.
  remember (drop k migrations) as rest eqn:Er. revert k Er o. induction rest as [|m rest IH]; intros k Er o (rows & Hl & Hf); simpl.
  { apply mwp_ret. assert (length migrations <= k)%nat as Hk by (apply (f_equal length) in Er; rewrite length_drop in Er; simpl in Er; lia).
    rewrite take_ge in Hf by done. split_and!; try done; [exists rows; by rewrite take_ge by done|]. exists rows, []. by rewrite app_nil_r. }
  assert (migrations !! k = Some m) as Hm by (rewrite <- (Nat.add_0_r k), <- lookup_drop, <- Er; done).
  assert (rest = drop (S k) migrations) as Er' by (rewrite (drop_S _ _ _ Hm) in Er; congruence).
  pose proof (plan_version _ _ _ _ Hplan Hm) as Hv.
  apply mwp_bind, mwp_bind, mwp_call; [|done]. intros fs. simpl.
  destruct (run_batch (mg_sql m) (fl_schema (op_file o))) as [s|e] eqn:Eb; simpl; [|done].
  apply mwp_call; [|done]. intros fs'. simpl. rewrite Hl. simpl. rewrite insert_row_last; simpl.
  2: { rewrite Hv. by apply recorded_below. }
  set (row := {| lr_version := _; lr_applied_at := _; lr_checksum := _ |}).
  eapply mwp_mono; [apply (IH (S k) Er')|simpl..|done].
  - exists (rows ++ [row]). split; [done|]. rewrite (take_S_r _ _ _ Hm). apply Forall2_app; [done|]. by constructor.
  - intros _ o' (Ha & Hi & Hw & Hr & rows' & new & Hrows & Hnew). simpl in *. split_and!; try done.
    injection Hrows as <-. exists rows, (row :: new). by rewrite <- app_assoc in Hnew.
Qed.

(** ** Opening *)

(** [f'] is [f] with every migration it lacked, in order. *)
Definition migrated (f f' : DbFile T) : Prop :=
  (fl_application_id f = 0 \/ fl_application_id f = APPLICATION_ID) /\ fl_application_id f' = APPLICATION_ID
  /\ let rows := default [] (fl_ledger f) in
     Forall2 records rows (take (length rows) migrations)
     /\ run_all (drop (length rows) migrations) (fl_schema f) = Ok (fl_schema f')
     /\ exists new, fl_ledger f' = Some (rows ++ new) /\ Forall2 records (rows ++ new) migrations.

Lemma migrated_content f1 f2 f' : content f1 = content f2 -> migrated f1 f' -> migrated f2 f'.
Proof. unfold content, migrated. by intros [= -> -> ->]. Qed.
Lemma migrate_wp o :
  mwp (migrate migrations) (fun _ o' => migrated (op_file o) (op_file o') /\ fl_wal (op_file o') = fl_wal (op_file o))
    (fun e o' => op_file o' = op_file o /\ e <> Panicked) o.
Proof using Hplan.
  apply mwp_exclusive; [|done]. intros o1 E1. rewrite <- E1.
  apply (mwp_mono _ (fun _ o' => migrated (op_file o1) (op_file o') /\ fl_wal (op_file o') = fl_wal (op_file o1)) _ (fun e _ => e <> Panicked));
    [|done|by intros e o2 He; split]. clear E1 o.
  apply mwp_bind, mwp_bind. unfold verify_application_id. apply mwp_bind, mwp_call; [|done]. intros fs. simpl.
  destruct (negb _ && negb _) eqn:Ea; [by apply mwp_fail|]. apply mwp_ret, mwp_bind, mwp_call; [|done]. intros fs'. simpl.
  assert (fl_application_id (op_file o1) = 0 \/ fl_application_id (op_file o1) = APPLICATION_ID) as Hid
    by (apply andb_false_iff in Ea as [Ea%negb_false_iff|Ea%negb_false_iff]; apply Z.eqb_eq in Ea; auto).
  set (o2 := match fl_ledger (op_file o1) with Some _ => _ | None => _ end).
  assert (fl_ledger (op_file o2) = Some (default [] (fl_ledger (op_file o1))) /\ fl_schema (op_file o2) = fl_schema (op_file o1)
    /\ fl_wal (op_file o2) = fl_wal (op_file o1)) as (El & Es & Ew) by (unfold o2; by destruct (fl_ledger (op_file o1)) eqn:E; simpl; rewrite ?E).
  clearbody o2. set (rows := default [] (fl_ledger (op_file o1))) in *.
  apply mwp_bind, mwp_bind, mwp_call; [|done]. intros fs2. simpl. rewrite El. simpl.
  eapply mwp_mono; [apply (verify_rows_wp rows 0)|simpl|by intros e o3 [_ ?]].
  intros database o3 (E3 & -> & Hf). replace (Z.of_nat (length rows)) with (0 + Z.of_nat (length rows)) by lia. rewrite (plan_filter 0) by done. apply mwp_bind.
  eapply mwp_mono; [apply (apply_all_wp (length rows))|simpl|done].
  { exists rows. rewrite E3. done. }
  intros _ o4 ((all & Hall & Hrec) & Hi & Hw & Hr & old & new & Hold & Hnew). rewrite E3 in *. simpl in *.
  apply mwp_call; [|done]. intros fs4. simpl. apply mwp_bind, mwp_tame; [apply tame_step| |done]. intros _ o5 E5. apply mwp_ret. rewrite E5. simpl.
  split; [|by rewrite Hw]. split; [done|]. split; [done|]. cbv zeta. fold rows. split; [done|]. split; [by rewrite <- Es|]. exists new. rewrite El in Hold. injection Hold as <-.
  split; [done|]. rewrite Hnew in Hall. injection Hall as <-. by rewrite take_ge in Hrec by done.
Qed.
End Plan.

Lemma open_cases migrations o r o' :
  open_with_migrations migrations o = (r, o') ->
  match r with
  | Ok _ => plan_from 1 migrations = true /\ migrated migrations (op_file o) (op_file o') /\ fl_wal (op_file o') = true
  | Err (Failed _) => content (op_file o') = content (op_file o) \/ migrated migrations (op_file o) (op_file o')
  | Err Panicked => False
  end.
Proof.
  intros Ho. unfold open_with_migrations, validate_migration_plan in Ho.
  destruct (plan_from 1 migrations) eqn:Hp; [|injection Ho as <- <-; by left].
  assert (mwp (_ ← step; _ ← busy_timeout OPEN_BUSY_TIMEOUT; _ ← verify_application_id; _ ← configure_connection OPEN_BUSY_TIMEOUT;
    _ ← migrate migrations; busy_timeout BUSY_TIMEOUT)
    (fun _ o' => migrated migrations (op_file o) (op_file o') /\ fl_wal (op_file o') = true)
    (fun e o' => (content (op_file o') = content (op_file o) \/ migrated migrations (op_file o) (op_file o')) /\ e <> Panicked) o) as Hw.
  2: { unfold mwp in Hw. rewrite Ho in Hw. destruct r as [[]|[e|]]; [done|apply Hw|]. by destruct Hw as [_ ?]. }
  assert (forall o1 e o2, op_file o1 = op_file o -> op_file o2 = op_file o1 -> e <> Panicked ->
    (content (op_file o2) = content (op_file o) \/ migrated migrations (op_file o) (op_file o2)) /\ e <> Panicked) as HE
    by (intros o1 e o2 -> ->; auto).
  apply mwp_bind, mwp_tame; [apply tame_step| |by eauto]. intros _ o1 E1.
  apply mwp_bind, mwp_tame; [apply tame_pragma| |by eauto]. intros _ o2 E2. rewrite E1 in E2.
  apply mwp_bind, mwp_tame; [apply tame_verify_application_id| |by eauto]. intros _ o3 E3. rewrite E2 in E3.
  apply mwp_bind. eapply mwp_mono; [apply configure_wp|simpl; rewrite E3..]; [|by intros e o4 [? ?]; auto]. intros _ o4 [E4 W4].
  apply mwp_bind. eapply mwp_mono; [by apply migrate_wp|simpl..].
  - intros _ o5 [Hm Hw]. apply (migrated_content _ _ _ _ E4) in Hm. rewrite W4 in Hw.
    apply mwp_tame; [apply tame_pragma| |]; [intros _ o6 ->|intros e o6 -> ?]; auto.
  - intros e o5 [-> He]. auto.
Qed.

(** ** Without failures *)
Definition clean o : Prop := op_faults o = [].
Lemma mwp_clean {A} (act : Opening T -> Result SqlError (A * Opening T)) Q E o :
  clean o -> match act o with Ok (a, o') => Q a o' | Err e => E (Failed (StDatabase e)) o end -> mwp (call act) Q E o.
Proof.
  unfold clean, mwp, call. intros Ho. rewrite Ho. fold (set_faults o []).
  assert (set_faults o [] = o) as -> by (unfold set_faults; rewrite <- Ho; by destruct o). by destruct (act o) as [[a o']|e].
Qed.
Lemma clean_step (Q : unit -> Opening T -> Prop) E o : clean o -> Q tt o -> mwp step Q E o.
Proof. intros. by apply mwp_clean. Qed.
Lemma clean_pragma g (Q : unit -> Opening T -> Prop) E o :
  clean o -> (forall o', clean o' -> op_file o' = op_file o -> Q tt o') -> mwp (pragma g) Q E o.
Proof. intros Ho HQ. apply mwp_clean; [done|]. by apply HQ. Qed.
Lemma clean_verify_id (Q : unit -> Opening T -> Prop) E o :
  clean o -> fl_application_id (op_file o) = 0 \/ fl_application_id (op_file o) = APPLICATION_ID -> Q tt o ->
  mwp verify_application_id Q E o.
Proof.
  intros Ho Hid HQ. apply mwp_bind, mwp_clean; [done|].
  assert (negb (fl_application_id (op_file o) =? 0) && negb (fl_application_id (op_file o) =? APPLICATION_ID) = false) as -> by (by destruct Hid as [-> | ->]).
  by apply mwp_ret.
Qed.
Lemma clean_configure d (Q : unit -> Opening T -> Prop) E o :
  clean o -> (forall o', clean o' -> content (op_file o') = content (op_file o) -> Q tt o') -> mwp (configure_connection d) Q E o.
Proof.
  intros Ho HQ. apply mwp_bind, clean_pragma; [done|]. intros o1 Ho1 E1. apply mwp_bind.
  unfold mwp, enable_wal_with_bounded_retry, wal_attempts. simpl. unfold journal_mode_wal.
  destruct (match op_delays o1 with [] => _ | _ => _ end) as [delay delays]. unfold call. simpl. unfold clean in Ho1. rewrite Ho1. simpl.
  apply HQ; [done|]. simpl. by rewrite E1.
Qed.

Definition openable migrations f : Prop :=
  (fl_application_id f = 0 \/ fl_application_id f = APPLICATION_ID)
  /\ let rows := default [] (fl_ledger f) in
     Forall2 records rows (take (length rows) migrations)
     /\ exists s, run_all (drop (length rows) migrations) (fl_schema f) = Ok s.

Lemma clean_verify_rows migrations rows k (Q : Z -> Opening T -> Prop) E o :
  clean o -> plan_from 1 migrations = true -> Forall2 records rows (take (length rows) (drop k migrations)) ->
  Q (Z.of_nat (k + length rows)) o -> mwp (verify_rows migrations (last_version migrations) rows (Z.of_nat k)) Q E o.
Proof.
  intros Ho Hp. revert k. induction rows as [|row rows IH]; intros k Hf HQ; simpl; apply mwp_bind, clean_step; try done.
  { apply mwp_ret. by rewrite Nat.add_0_r in HQ. }
  destruct (migrations !! k) as [m|] eqn:Em; [|apply lookup_ge_None in Em; rewrite drop_ge in Hf by done; simpl in Hf; inversion Hf].
  rewrite (drop_S _ _ _ Em) in Hf. simpl in Hf. apply Forall2_cons in Hf as [[Hv Hc] Hf].
  pose proof (plan_version _ _ _ _ Hp Em) as Hm. pose proof (lookup_lt_Some _ _ _ Em) as Hk. rewrite Hm in Hv.
  rewrite plan_last by done. rewrite (proj2 (Z.ltb_ge _ _)), (proj2 (Z.eqb_eq _ _)) by lia. simpl.
  rewrite (proj2 (Z.ltb_ge _ _)) by lia. replace (Z.to_nat (lr_version row - 1)) with k by lia. rewrite Em.
  rewrite bool_decide_eq_false_2 by auto. replace (lr_version row) with (Z.of_nat (S k)) by lia. rewrite <- plan_last by done.
  apply IH; [done|]. by replace (S k + length rows)%nat with (k + length (row :: rows))%nat by (simpl; lia).
Qed.
Lemma clean_apply_all migrations k s (Q : unit -> Opening T -> Prop) E o :
  clean o -> plan_from 1 migrations = true -> ledger_at migrations k (op_file o) -> run_all (drop k migrations) (fl_schema (op_file o)) = Ok s ->
  (forall o', clean o' -> Q tt o') -> mwp (apply_all (drop k migrations)) Q E o.
Proof.
  intros Ho Hp Hl Hr HQ. remember (drop k migrations) as rest eqn:Er. revert k Er o Ho Hl Hr.
  induction rest as [|m rest IH]; intros k Er o Ho (rows & Hl & Hf) Hr; simpl; [by apply mwp_ret, HQ|].
  assert (migrations !! k = Some m) as Hm by (rewrite <- (Nat.add_0_r k), <- lookup_drop, <- Er; done).
  assert (rest = drop (S k) migrations) as Er' by (rewrite (drop_S _ _ _ Hm) in Er; congruence).
  apply mwp_bind, mwp_bind, mwp_clean; [done|]. simpl in Hr. unfold mbind, result_bind in Hr |- *.
  destruct (run_batch (mg_sql m) (fl_schema (op_file o))) as [s'|e] eqn:Eb; [|done].
  apply mwp_clean; [done|]. simpl. rewrite Hl. simpl. rewrite insert_row_last; simpl.
  2: { rewrite (plan_version _ _ _ _ Hp Hm). by apply (recorded_below migrations). }
  apply (IH (S k)); [done|done| |done]. exists (rows ++ [{| lr_version := mg_version m; lr_applied_at := op_unixepoch o; lr_checksum := checksum (mg_sql m) |}]).
  split; [done|]. rewrite (take_S_r _ _ _ Hm). apply Forall2_app; [done|]. by constructor.
Qed.

Lemma clean_exclusive {A} (body : Mig A) (Q : A -> Opening T -> Prop) E o :
  clean o -> mwp body (fun a o' => clean o' /\ Q a o') (fun _ _ => False) o -> mwp (exclusive body) Q E o.
Proof.
  intros Ho Hb. unfold mwp, exclusive. assert (step o = (Ok tt, o)) as -> by (unfold step, call; rewrite Ho; unfold clean in Ho; destruct o; simpl in *; by rewrite Ho).
  assert (mwp (a ← body; _ ← step; mret a) Q (fun _ _ => False) o) as Hw.
  2: { unfold mwp in Hw. by destruct ((a ← body; _ ← step; mret a) o) as [[a|e] o2]. }
  apply mwp_bind. eapply mwp_mono; [exact Hb|simpl|done]. intros a o' [Ho' HQ]. by apply mwp_bind, clean_step.
Qed.
Lemma clean_migrate migrations (Q : unit -> Opening T -> Prop) E o :
  clean o -> plan_from 1 migrations = true -> openable migrations (op_file o) -> (forall o', clean o' -> Q tt o') ->
  mwp (migrate migrations) Q E o.
Proof.
  intros Ho Hp (Hid & Hf & s & Hr) HQ. apply clean_exclusive; [done|].
  apply mwp_bind, clean_verify_id; [done|done|]. apply mwp_bind, mwp_clean; [done|].
  set (o2 := match fl_ledger (op_file o) with Some _ => _ | None => _ end).
  assert (clean o2 /\ fl_ledger (op_file o2) = Some (default [] (fl_ledger (op_file o))) /\ fl_schema (op_file o2) = fl_schema (op_file o))
    as (Ho2 & El & Es) by (unfold o2; by destruct (fl_ledger (op_file o)) eqn:E0; simpl; rewrite ?E0).
  clearbody o2. apply mwp_bind, mwp_bind, mwp_clean; [done|]. rewrite El. simpl. apply (clean_verify_rows _ _ 0); [done|done|done|].
  simpl. replace (Z.of_nat (length _)) with (0 + Z.of_nat (length (default [] (fl_ledger (op_file o))))) by lia.
  rewrite (plan_filter 0) by done. apply mwp_bind, (clean_apply_all _ _ s); [done|done| |by rewrite Es|].
  { eexists. split; [exact El|done]. }
  intros o3 Ho3. apply mwp_clean; [done|]. split; [done|by apply HQ].
Qed.

Lemma clean_open_succeeds migrations o :
  clean o -> plan_from 1 migrations = true -> openable migrations (op_file o) ->
  exists o', open_with_migrations migrations o = (Ok tt, o') /\ clean o'.
Proof.
  intros Ho Hp Hop.
  assert (mwp (open_with_migrations migrations) (fun _ o' => clean o') (fun _ _ => False) o) as Hw.
  2: { unfold mwp in Hw. destruct (open_with_migrations migrations o) as [[[]|e] o']; [by exists o'|done]. }
  unfold open_with_migrations, validate_migration_plan. rewrite Hp.
  apply mwp_bind, clean_step; [done|]. apply mwp_bind, clean_pragma; [done|]. intros o1 Ho1 E1.
  apply mwp_bind, clean_verify_id; [done|rewrite E1; apply Hop|]. apply mwp_bind, clean_configure; [done|]. intros o2 Ho2 E2.
  apply mwp_bind, clean_migrate; [done|done| |].
  - rewrite E1 in E2. unfold content in E2. unfold openable in *. injection E2 as -> -> ->. done.
  - intros o3 Ho3. by apply clean_pragma.
Qed.

Lemma recorded_all_new migrations rows new :
  Forall2 records rows migrations -> Forall2 records (rows ++ new) migrations -> new = [].
Proof.
  intros H1%Forall2_length H2%Forall2_length. rewrite length_app in H2. destruct new; [done|simpl in H2; lia].
Qed.
Lemma migrated_openable migrations f f' : migrated migrations f f' -> openable migrations f'.
Proof.
  intros (_ & Hi & _ & _ & new & Hl & Hf). split; [by right|]. rewrite Hl. simpl. pose proof (Forall2_length _ _ _ Hf) as Hn.
  rewrite take_ge, drop_ge by lia. split; [done|]. by exists (fl_schema f').
Qed.
Lemma migrated_again migrations f f' f'' :
  migrated migrations f f' -> migrated migrations f' f'' -> content f'' = content f'.
Proof.
  intros (_ & Hi & _ & _ & new & Hl & Hf) (_ & Hi' & _ & Hr & new' & Hl' & Hf'). rewrite Hl in Hr, Hl', Hf'. simpl in *.
  pose proof (recorded_all_new _ _ _ Hf Hf') as ->. rewrite app_nil_r in Hl'.
  rewrite drop_ge in Hr by (rewrite (Forall2_length _ _ _ Hf); lia). simpl in Hr. injection Hr as Hs. unfold content. congruence.
Qed.
Lemma migrated_version migrations f f' o :
  plan_from 1 migrations = true -> (0 < length migrations)%nat -> migrated migrations f f' -> clean o -> op_file o = f' ->
  schema_version o = (Ok (last_version migrations), o).
Proof.
  intros Hp Hn (_ & _ & _ & _ & new & Hl & Hf) Ho E. set (rows := default [] (fl_ledger f) ++ new) in *.
  assert (default 0 (lr_version <$> last rows) = last_version migrations) as Hv.
  { unfold last_version. rewrite !last_lookup, (Forall2_length _ _ _ Hf).
    destruct (migrations !! pred (length migrations)) as [m|] eqn:Em; [|apply lookup_ge_None in Em; lia].
    destruct (Forall2_lookup_r _ _ _ _ _ Hf Em) as (row & -> & Hr & _). simpl. by rewrite Hr. }
  assert (mwp schema_version (fun v o' => v = last_version migrations /\ o' = o) (fun _ _ => False) o) as Hw.
  2: { unfold mwp in Hw. destruct (schema_version o) as [[v|e] o']; [|done]. by destruct Hw as [-> ->]. }
  apply mwp_bind, mwp_bind, mwp_clean; [done|]. rewrite E, Hl. simpl. apply mwp_clean; [done|]. rewrite E, Hl. simpl. by apply mwp_ret.
Qed.

(** C8: Opening a database migrates it atomically, or leaves it alone.  With any failures of
    SQLite, opening never panics; when it succeeds, the file belonged to the application or
    to none, its ledger recorded the first migrations of the plan with their checksums, and
    now it has every migration of the plan, applied in order, with the ledger extended; when it
    fails, application id, ledger and schema are as they were, or completely migrated. *)
Theorem opening_migrates_atomically migrations o r o' :
  open_with_migrations migrations o = (r, o') ->
  match r with
  | Ok _ => plan_from 1 migrations = true /\ migrated migrations (op_file o) (op_file o') /\ fl_wal (op_file o') = true
  | Err (Failed _) => content (op_file o') = content (op_file o) \/ migrated migrations (op_file o) (op_file o')
  | Err Panicked => False
  end.
Proof. apply open_cases. Qed.

(** A database that was opened opens again.  Without failures, whoever opens the migrated
    file next succeeds, finds it ready, and changes neither its ledger nor its schema. *)
Theorem opened_database_reopens o o1 o2 :
  Store_open o = (Ok tt, o1) -> op_file o2 = op_file o1 -> op_faults o2 = [] ->
  exists o3, Store_open o2 = (Ok tt, o3) /\ op_file o3 = op_file o2 /\ (readiness o3).1 = Ok tt.
Proof.
  intros (Hp & Hm & Hw)%open_cases E Hc. rewrite <- E in Hm, Hw.
  destruct (clean_open_succeeds MIGRATIONS o2 Hc Hp (migrated_openable _ _ _ Hm)) as (o3 & Ho3 & Hc3).
  destruct (open_cases _ _ _ _ Ho3) as (_ & Hm3 & Hw3). pose proof (migrated_again _ _ _ _ Hm Hm3) as Hs.
  assert (op_file o3 = op_file o2) as E3.
  { unfold content in Hs. injection Hs as ? ? ?. destruct (op_file o3), (op_file o2). simpl in *. congruence. }
  exists o3. split; [exact Ho3|]. split; [done|]. unfold readiness, mbind, Mig_bind.
  rewrite (migrated_version MIGRATIONS _ _ _ Hp ltac:(compute; lia) Hm Hc3 E3). rewrite Z.eqb_refl. simpl. unfold step, call. by rewrite Hc3.
Qed.
End Upgrade.

(** ** A run *)

(** An engine that keeps the batches it ran, and a new file on a busy disk: two attempts
    to change the journal mode find it locked. *)
#[local] Instance log_engine : Engine (list string) := fun sql log => Ok (log ++ [sql]).
Definition new_file (faults : list (option SqliteCode)) : Opening (list string) :=
  {| op_file := {| fl_application_id := 0; fl_ledger := None; fl_schema := []; fl_wal := false |};
     op_connection := fresh_connection; op_faults := faults; op_now := 5%N; op_delays := [3000; 2000000]%N; op_unixepoch := 1700000000 |}.
Definition busy_disk : Opening (list string) := new_file [None; None; None; None; Some SqDatabaseBusy; Some SqDatabaseLocked].
Lemma opening_migrates_atomically_witness :
  (open_with_migrations MIGRATIONS busy_disk).1 = Ok tt
  /\ migrated MIGRATIONS (op_file busy_disk) (op_file (open_with_migrations MIGRATIONS busy_disk).2)
  /\ fl_schema (op_file (open_with_migrations MIGRATIONS busy_disk).2) = [INITIAL_SQL; INDEXES_SQL; INSTANCE_OWNER_SQL; INBOX_ORDER_SQL].
Proof.
  assert ((open_with_migrations MIGRATIONS busy_disk).1 = Ok tt) as Hr by (vm_compute; reflexivity).
  assert (open_with_migrations MIGRATIONS busy_disk = (Ok tt, (open_with_migrations MIGRATIONS busy_disk).2)) as Ho by (rewrite <- Hr; apply surjective_pairing).
  split; [exact Hr|]. split; [exact (proj1 (proj2 (opening_migrates_atomically _ _ _ _ Ho)))|vm_compute; reflexivity].
Defined.
Lemma opened_database_reopens_witness :
  exists o3, Store_open (set_faults (Store_open busy_disk).2 []) = (Ok tt, o3) /\ (readiness o3).1 = Ok tt.
Proof.
  assert ((Store_open busy_disk).1 = Ok tt) as Hr by (vm_compute; reflexivity).
  assert (Store_open busy_disk = (Ok tt, (Store_open busy_disk).2)) as Ho by (rewrite <- Hr; apply surjective_pairing).
  destruct (opened_database_reopens busy_disk _ (set_faults (Store_open busy_disk).2 []) Ho (set_faults_file _ _) (set_faults_faults _ _)) as (o3 & H1 & _ & H3).
  exists o3. split; [exact H1|exact H3].
Defined.
