(* ===== verification/Store.v ===== *)
(** * Store: connections, transactions and the repository's error surface

    A store operation runs in [M], a state and error monad over a [World]: the
    committed (or, inside a transaction, working) database, the outcomes the
    environment still has in stock for SQL calls, and the bytes the CSPRNG still
    has in stock.  Every SQL call, BEGIN and COMMIT included, may fail with any
    SQLite code; the theorems quantify over these schedules. *)
From S2P Require Import Prelude Text Core Sql.

(** ** RepositoryError (repository.rs) *)
Inductive RepositoryError : Set :=
| InvalidRequest | NotFound | SquadArchived | NotMember | NameInUse | LeaseExpired
| RecipientNotFound | IdempotencyConflict | PayloadTooLarge | DatabaseBusy
| Internal (error : SqlError) | InvalidStoredData | EntropyUnavailable | InjectedFailure.

Definition RepositoryError_code (e : RepositoryError) : ErrorCode :=
  match e with
  | InvalidRequest => EcInvalidRequest
  | NotFound => EcNotFound
  | SquadArchived => EcSquadArchived
  | NotMember => EcNotMember
  | NameInUse => EcNameInUse
  | LeaseExpired => EcLeaseExpired
  | RecipientNotFound => EcRecipientNotFound
  | IdempotencyConflict => EcIdempotencyConflict
  | PayloadTooLarge => EcPayloadTooLarge
  | DatabaseBusy => EcDatabaseBusy
  | Internal _ | InvalidStoredData | EntropyUnavailable | InjectedFailure => EcInternalError
  end.

(** [impl From<rusqlite::Error> for RepositoryError], applied by [?]. *)
Definition repository_error_from (error : SqlError) : RepositoryError :=
  if is_busy error then DatabaseBusy else Internal error.

(** ** The world and the monad *)
Record World : Set := {
  w_db : Database;
  w_faults : list (option SqliteCode);
  w_entropy : list (option string) }.

Definition set_db (w : World) (db : Database) : World :=
  {| w_db := db; w_faults := w_faults w; w_entropy := w_entropy w |}.

(** The next SQL call fails when the schedule says so; an exhausted schedule has
    no more failures. *)
Definition next_fault (w : World) : option SqliteCode * World :=
  match w_faults w with
  | [] => (None, w)
  | f :: fs => (f, {| w_db := w_db w; w_faults := fs; w_entropy := w_entropy w |})
  end.

Definition M (A : Type) : Type := World -> Result RepositoryError A * World.

#[global] Instance M_ret : MRet M := fun A a w => (Ok a, w).
#[global] Instance M_bind : MBind M := fun A B k m w =>
  match m w with
  | (Ok a, w') => k a w'
  | (Err e, w') => (Err e, w')
  end.

Definition fail {A} (e : RepositoryError) : M A := fun w => (Err e, w).
(** A pure computation whose error type is already RepositoryError. *)
Definition lift {A} (r : Result RepositoryError A) : M A := fun w => (r, w).

(** One SQL call followed by the error conversion of [?] ([conv]). *)
Definition exec_conv {A} (conv : SqlError -> RepositoryError)
    (stmt : Database -> Result SqlError (A * Database)) : M A := fun w =>
  match next_fault w with
  | (Some code, w') => (Err (conv (SqliteFailure code)), w')
  | (None, w') =>
      match stmt (w_db w') with
      | Ok (a, db') => (Ok a, set_db w' db')
      | Err e => (Err (conv e), w')
      end
  end.

Definition execute {A} (stmt : Database -> Result SqlError (A * Database)) : M A :=
  exec_conv repository_error_from stmt.

Definition query_conv {A} (conv : SqlError -> RepositoryError)
    (q : Database -> Result SqlError A) : M A :=
  exec_conv conv (fun db => match q db with Ok a => Ok (a, db) | Err e => Err e end).
Definition query {A} (q : Database -> Result SqlError A) : M A :=
  query_conv repository_error_from q.

(** BEGIN and COMMIT have no effect of their own on the rows. *)
Definition begin_ : M unit := query (fun _ => Ok tt).
Definition commit : M unit := query (fun _ => Ok tt).

(** [connection.transaction_with_behavior(..)?; body; transaction.commit()?]:
    dropping an uncommitted transaction rolls it back. *)
Definition transaction {A} (body : M A) : M A := fun w =>
  match begin_ w with
  | (Err e, w1) => (Err e, w1)
  | (Ok _, w1) =>
      match body w1 with
      | (Err e, w2) => (Err e, set_db w2 (w_db w1))
      | (Ok a, w2) =>
          match commit w2 with
          | (Err e, w3) => (Err e, set_db w3 (w_db w1))
          | (Ok _, w3) => (Ok a, w3)
          end
      end
  end.

(** [getrandom::fill] inside [ResumeToken::generate], with its [map_err]. *)
Definition generate_token `{Crypto} : M ResumeToken := fun w =>
  let '(random, rest) :=
    match w_entropy w with [] => (None, []) | r :: rest => (r, rest) end in
  let w' := {| w_db := w_db w; w_faults := w_faults w; w_entropy := rest |} in
  match ResumeToken_generate random with
  | Ok token => (Ok token, w')
  | Err _ => (Err EntropyUnavailable, w')
  end.

(** A call in a world without scheduled faults. *)
Definition quiet (db : Database) : World := {| w_db := db; w_faults := []; w_entropy := [] |}.

(** ** Runs

    [runs m db r db']: in some environment (faults, randomness), running [m] on
    the database [db] gives the result [r] and leaves the database [db']. *)
Definition runs {A} (m : M A) (db : Database) (r : Result RepositoryError A) (db' : Database) : Prop :=
  exists w w', w_db w = db /\ m w = (r, w') /\ w_db w' = db'.

Section Runs.
Implicit Types db : Database.

Lemma runs_ret {A} (a : A) db r db' : runs (mret a) db r db' -> r = Ok a /\ db' = db.
Proof. intros (w & w' & <- & [= <- <-] & <-). done. Qed.

Lemma runs_lift {A} (x : Result RepositoryError A) db r db' :
  runs (lift x) db r db' -> x = r /\ db' = db.
Proof. intros (w & w' & <- & [= <- <-] & <-). done. Qed.

Lemma runs_fail {A} e db (r : Result _ A) db' : runs (fail e) db r db' -> r = Err e /\ db' = db.
Proof. intros (w & w' & <- & [= <- <-] & <-). done. Qed.

Lemma runs_bind {A B} (m : M A) (k : A -> M B) db r db' :
  runs (m ≫= k) db r db' ->
  (exists e, runs m db (Err e) db' /\ r = Err e)
  \/ (exists a db1, runs m db (Ok a) db1 /\ runs (k a) db1 r db').
Proof.
  intros (w & w' & <- & Hm & <-). unfold mbind, M_bind in Hm.
  destruct (m w) as [[a|e] w1] eqn:E.
  - right. exists a, (w_db w1). split; [by exists w, w1 | by exists w1, w'].
  - left. injection Hm as <- <-. exists e. split; [by exists w, w1 | done].
Qed.

Lemma runs_bind_ok {A B} (m : M A) (k : A -> M B) db b db' :
  runs (m ≫= k) db (Ok b) db' ->
  exists a db1, runs m db (Ok a) db1 /\ runs (k a) db1 (Ok b) db'.
Proof. intros [(e & _ & [=])|H]%runs_bind; done. Qed.

Lemma next_fault_db w : w_db (next_fault w).2 = w_db w.
Proof. unfold next_fault. destruct (w_faults w); done. Qed.

Lemma runs_exec_conv {A} conv (stmt : Database -> Result SqlError (A * Database)) db r db' :
  runs (exec_conv conv stmt) db r db' ->
  (exists a, r = Ok a /\ stmt db = Ok (a, db'))
  \/ (exists e, r = Err (conv e) /\ db' = db /\ (stmt db = Err e \/ exists c, e = SqliteFailure c)).
Proof.
  intros (w & w' & <- & Hm & <-). unfold exec_conv in Hm.
  pose proof (next_fault_db w) as Hn.
  destruct (next_fault w) as [[c|] w1]; simpl in *.
  - injection Hm as <- <-. right. eauto 10.
  - rewrite Hn in Hm. destruct (stmt (w_db w)) as [[a db2]|e] eqn:E;
      injection Hm as <- <-; [left | right]; simpl; eauto 10.
Qed.

Lemma runs_execute_ok {A} (stmt : Database -> Result SqlError (A * Database)) db a db' :
  runs (execute stmt) db (Ok a) db' -> stmt db = Ok (a, db').
Proof. intros [(? & [= ->] & ?)|(? & [=] & _)]%runs_exec_conv; done. Qed.

Lemma runs_query_conv_ok {A} conv (q : Database -> Result SqlError A) db a db' :
  runs (query_conv conv q) db (Ok a) db' -> q db = Ok a /\ db' = db.
Proof.
  intros [(? & [= ->] & Hq)|(? & [=] & _)]%runs_exec_conv.
  by destruct (q db); simplify_eq.
Qed.

Lemma runs_query_ok {A} (q : Database -> Result SqlError A) db a db' :
  runs (query q) db (Ok a) db' -> q db = Ok a /\ db' = db.
Proof. apply runs_query_conv_ok. Qed.

Lemma runs_execute_err {A} (stmt : Database -> Result SqlError (A * Database)) db e db' :
  runs (execute stmt) db (Err e) db' -> db' = db.
Proof. by intros [(? & [=] & ?)|(? & _ & -> & _)]%runs_exec_conv. Qed.

Lemma runs_query_conv_db {A} conv (q : Database -> Result SqlError A) db r db' :
  runs (query_conv conv q) db r db' -> db' = db.
Proof.
  intros [(? & -> & Hq)|(? & -> & -> & _)]%runs_exec_conv; [|done].
  by destruct (q db); simplify_eq.
Qed.

Lemma begin_db w r w' : begin_ w = (r, w') -> w_db w' = w_db w.
Proof.
  intros E. assert (runs begin_ (w_db w) r (w_db w')) as Hr by (by exists w, w').
  by apply runs_query_conv_db in Hr.
Qed.
Lemma commit_db w r w' : commit w = (r, w') -> w_db w' = w_db w.
Proof. apply begin_db. Qed.

(** Atomicity: a transaction that fails, for whatever reason, changes nothing. *)
Lemma runs_transaction_err {A} (body : M A) db e db' :
  runs (transaction body) db (Err e) db' -> db' = db.
Proof.
  intros (w & w' & <- & Hm & <-). unfold transaction in Hm.
  destruct (begin_ w) as [[[]|e1] w1] eqn:E1; pose proof (begin_db _ _ _ E1) as H1.
  - destruct (body w1) as [[a|e2] w2] eqn:E2.
    + destruct (commit w2) as [[[]|e3] w3] eqn:E3; [done|]. by injection Hm as _ <-.
    + by injection Hm as _ <-.
  - by injection Hm as _ <-.
Qed.

Lemma runs_transaction_ok {A} (body : M A) db a db' :
  runs (transaction body) db (Ok a) db' -> runs body db (Ok a) db'.
Proof.
  intros (w & w' & <- & Hm & <-). unfold transaction in Hm.
  destruct (begin_ w) as [[[]|e1] w1] eqn:E1; [|done].
  destruct (body w1) as [[b|e2] w2] eqn:E2; [|done].
  destruct (commit w2) as [[[]|e3] w3] eqn:E3; [|done].
  injection Hm as -> <-. exists w1, w2.
  by rewrite (begin_db _ _ _ E1), (commit_db _ _ _ E3).
Qed.

Lemma runs_generate_token `{Crypto} db r db' : runs generate_token db r db' -> db' = db.
Proof.
  intros (w & w' & <- & Hm & <-). unfold generate_token in Hm.
  destruct (w_entropy w) as [|[b|] l]; simpl in Hm; by injection Hm as <- <-.
Qed.
End Runs.

(** [inv_runs]: peel a successful run into the facts of its steps, splitting on
    the branches the code takes. *)
Ltac inv_runs_step :=
  match goal with
  | H : runs (transaction _) _ (Ok _) _ |- _ => apply runs_transaction_ok in H
  | H : runs (mret _) _ _ _ |- _ => apply runs_ret in H; destruct H as [H ?]
  | H : runs (lift _) _ _ _ |- _ => apply runs_lift in H; destruct H as [H ?]
  | H : runs (fail _) _ _ _ |- _ => apply runs_fail in H; destruct H as [H ?]
  | H : runs (execute _) _ (Ok _) _ |- _ => apply runs_execute_ok in H
  | H : runs (query _) _ (Ok _) _ |- _ => apply runs_query_ok in H; destruct H as [H ?]
  | H : runs (query_conv _ _) _ (Ok _) _ |- _ => apply runs_query_conv_ok in H; destruct H as [H ?]
  | H : runs (_ ≫= _) _ (Ok _) _ |- _ =>
      let a := fresh "a" in let db := fresh "db" in let R := fresh "R" in
      apply runs_bind_ok in H; destruct H as (a & db & R & H)
  | H : runs generate_token _ _ _ |- _ => apply runs_generate_token in H
  | H : Ok _ = Ok _ |- _ => injection H as H
  | H : Ok _ = Err _ |- _ => discriminate H
  | H : Err _ = Ok _ |- _ => discriminate H
  | H : (_, _) = (_, _) |- _ => injection H; clear H; intros
  | a : unit |- _ => destruct a
  | H : runs (match ?x with _ => _ end) _ (Ok _) _ |- _ => let E := fresh "E" in destruct x eqn:E
  end; subst; cbn beta iota in *.
Ltac inv_runs := repeat inv_runs_step.

(** ** Read-only computations *)
Class ReadOnly {A} (m : M A) : Prop :=
  read_only : forall db r db', runs m db r db' -> db' = db.

#[global] Instance read_only_ret {A} (a : A) : ReadOnly (mret a).
Proof. intros db r db' H. by apply runs_ret in H as [_ ->]. Qed.
#[global] Instance read_only_lift {A} (x : Result RepositoryError A) : ReadOnly (lift x).
Proof. intros db r db' H. by apply runs_lift in H as [_ ->]. Qed.
#[global] Instance read_only_fail {A} e : ReadOnly (@fail A e).
Proof. intros db r db' H. by apply runs_fail in H as [_ ->]. Qed.
#[global] Instance read_only_query_conv {A} conv (q : Database -> Result SqlError A) :
  ReadOnly (query_conv conv q).
Proof. intros db r db'. apply runs_query_conv_db. Qed.
#[global] Instance read_only_query {A} (q : Database -> Result SqlError A) : ReadOnly (query q).
Proof. apply read_only_query_conv. Qed.
#[global] Instance read_only_token `{Crypto} : ReadOnly generate_token.
Proof. intros db r db'. apply runs_generate_token. Qed.
#[global] Instance read_only_bind {A B} (m : M A) (k : A -> M B) :
  ReadOnly m -> (forall a, ReadOnly (k a)) -> ReadOnly (m ≫= k).
Proof.
  intros Hm Hk db r db' [(e & H & _)|(a & db1 & H1 & H2)]%runs_bind.
  - by apply Hm in H.
  - apply Hm in H1 as ->. by eapply Hk.
Qed.
#[global] Instance read_only_transaction {A} (m : M A) : ReadOnly m -> ReadOnly (transaction m).
Proof.
  intros Hm db [a|e] db' H.
  - apply runs_transaction_ok in H. by eapply Hm.
  - by apply runs_transaction_err in H.
Qed.
#[global] Hint Extern 5 (ReadOnly (match ?x with _ => _ end)) => destruct x : typeclass_instances.
#[global] Hint Extern 5 (ReadOnly (let '(_, _) := ?x in _)) => destruct x : typeclass_instances.

(** Peel a run, replacing the databases that read-only steps leave unchanged. *)
Ltac drop_reads :=
  repeat match goal with
  | H : runs ?m ?db ?r ?db' |- _ =>
      is_var db'; tryif constr_eq db db' then fail else idtac;
      let e := constr:(read_only (m := m) db r db' H) in
      let E := fresh "E" in
      pose proof e as E; first [subst db' | subst db | (clear E; fail 1)]
  end.

(** ** Quiet runs: an environment without faults *)
Section Quiet.
Implicit Types db : Database.

Lemma bind_ok {A B} (m : M A) (k : A -> M B) w a w' : m w = (Ok a, w') -> (m ≫= k) w = k a w'.
Proof. intros E. unfold mbind, M_bind. by rewrite E. Qed.
Lemma bind_err {A B} (m : M A) (k : A -> M B) w e w' : m w = (Err e, w') -> (m ≫= k) w = (Err e, w').
Proof. intros E. unfold mbind, M_bind. by rewrite E. Qed.

Lemma execute_quiet {A} (stmt : Database -> Result SqlError (A * Database)) db a db' :
  stmt db = Ok (a, db') -> execute stmt (quiet db) = (Ok a, quiet db').
Proof. intros E. unfold execute, exec_conv. simpl. by rewrite E. Qed.
Lemma query_conv_quiet {A} conv (q : Database -> Result SqlError A) db a :
  q db = Ok a -> query_conv conv q (quiet db) = (Ok a, quiet db).
Proof. intros E. unfold query_conv, exec_conv. simpl. by rewrite E. Qed.
Lemma query_quiet {A} (q : Database -> Result SqlError A) db a :
  q db = Ok a -> query q (quiet db) = (Ok a, quiet db).
Proof. apply query_conv_quiet. Qed.
Lemma transaction_quiet {A} (m : M A) db r db' :
  m (quiet db) = (r, quiet db') -> transaction m (quiet db) = (r, quiet (if is_ok r then db' else db)).
Proof. intros E. unfold transaction. simpl. unfold set_db at 1. simpl. fold (quiet db). rewrite E. by destruct r. Qed.
End Quiet.
