(* ===== verification/Repository.v ===== *)
(** * Repository: squads, memberships and the roster (psst-store/src/repository.rs) *)
From S2P Require Import Prelude Text Core Sql Store.

(** ** Requests and records *)
Record CreateSquad : Set := {
  cs_id : SquadId; cs_name : SquadName; cs_mission : Mission; cs_created_at : UnixMillis }.

Record JoinMembership : Set := {
  jm_squad_name : SquadName; jm_mission_if_missing : option Mission;
  jm_squad_id_if_missing : SquadId; jm_agent_id : AgentId; jm_membership_id : MembershipId;
  jm_member_name : MemberName; jm_role : Role; jm_joined_at : UnixMillis }.

Record SquadRecord : Set := {
  sr_id : SquadId; sr_name : SquadName; sr_mission : Mission; sr_state : SquadState;
  sr_created_at : UnixMillis; sr_archived_at : option UnixMillis }.

Record MembershipRecord : Set := {
  mr_id : MembershipId; mr_squad_id : SquadId; mr_agent_id : AgentId; mr_name : MemberName;
  mr_role : Role; mr_joined_at : UnixMillis; mr_left_at : option UnixMillis }.

Inductive TransportPresence : Set := PresenceOnline | PresenceOffline.

Record RosterMember : Set := {
  rm_membership : MembershipRecord; rm_presence : TransportPresence; rm_mode : option AgentMode;
  rm_availability : AvailabilityObservation; rm_last_seen_at : option UnixMillis }.

(** ** Decoding stored values *)
Definition invalid_data {A} : Result SqlError A := Err InvalidQuery.

Definition parse {T} (new : string -> Result InvalidValue T) (value : string) : Result SqlError T :=
  map_err (fun _ => InvalidQuery) (new value).
Definition timestamp (value : Z) : Result SqlError UnixMillis :=
  map_err (fun _ => InvalidQuery) (UnixMillis_new value).
Definition optional_timestamp (value : option Z) : Result SqlError (option UnixMillis) :=
  opt_try timestamp value.

Definition squad_state_of_text (value : string) : Result SqlError SquadState :=
  if eqs value "active" then Ok SqActive
  else if eqs value "archived" then Ok SqArchived
  else invalid_data.

Definition map_squad (row : SquadRow) : Result SqlError SquadRecord :=
  id ← parse SquadId_new (sq_id row);
  name ← parse SquadName_new (sq_name row);
  mission ← parse Mission_new (sq_mission row);
  state ← squad_state_of_text (sq_state row);
  created_at ← timestamp (sq_created_at row);
  archived_at ← optional_timestamp (sq_archived_at row);
  Ok {| sr_id := id; sr_name := name; sr_mission := mission; sr_state := state;
        sr_created_at := created_at; sr_archived_at := archived_at |}.

Definition parse_availability (value : option string) : Result SqlError Availability :=
  match value with
  | None => Ok AvUnknown
  | Some v =>
      if eqs v "idle" then Ok Idle
      else if eqs v "busy" then Ok Busy
      else if eqs v "blocked" then Ok Blocked
      else if eqs v "unknown" then Ok AvUnknown
      else invalid_data
  end.

Definition parse_availability_source (value : option string) : Result SqlError AvailabilitySource :=
  match value with
  | None => Ok SrcUnknown
  | Some v =>
      if eqs v "session_lifecycle" then Ok SessionLifecycle
      else if eqs v "mcp_connection" then Ok McpConnection
      else if eqs v "tool_activity" then Ok ToolActivity
      else if eqs v "agent_reported" then Ok AgentReported
      else if eqs v "unknown" then Ok SrcUnknown
      else invalid_data
  end.

Definition parse_mode (value : option string) : Result SqlError (option AgentMode) :=
  match value with
  | None => Ok None
  | Some v =>
      if eqs v "cooperative" then Ok (Some Cooperative)
      else if eqs v "scheduled" then Ok (Some Scheduled)
      else if eqs v "harnessed" then Ok (Some Harnessed)
      else invalid_data
  end.

(** ** Squads *)
Definition new_squad_row (id : SquadId) (name : SquadName) (mission : Mission) (at_ : UnixMillis)
    : SquadRow :=
  {| sq_id := raw id; sq_name := raw name; sq_mission := raw mission; sq_state := "active";
     sq_created_at := raw at_; sq_archived_at := None |}.

Definition create_squad (request : CreateSquad) : M SquadRecord :=
  _ ← transaction (
    changed ← execute (insert_squad_or_nothing
      (new_squad_row (cs_id request) (cs_name request) (cs_mission request) (cs_created_at request)));
    if changed =? 0 then fail NameInUse else mret tt);
  mret {| sr_id := cs_id request; sr_name := cs_name request; sr_mission := cs_mission request;
          sr_state := SqActive; sr_created_at := cs_created_at request; sr_archived_at := None |}.

Definition list_squads : M (list SquadRecord) :=
  query (fun db => try_collect map_squad (order_by by_squad_name (squads db))).

Definition describe_squad (name : SquadName) : M SquadRecord :=
  found ← query (fun db => optional (query_row
    (where_ (fun s => eqs (sq_name s) (raw name)) (squads db)) map_squad));
  lift (ok_or found NotFound).

(** The UPDATE runs outside an explicit transaction. *)
Definition archive_squad (name : SquadName) (archived_at : UnixMillis) : M unit :=
  changed ← execute (archive_squads_where (fun s => eqs (sq_name s) (raw name)) (raw archived_at));
  if changed =? 1 then mret tt
  else fun w =>
    match describe_squad name w with
    | (Ok _, w') => (Err SquadArchived, w')
    | (Err NotFound, w') => (Err NotFound, w')
    | (Err error, w') => (Err error, w')
    end.

(** ** Joining *)
Inductive JoinFault : Set := FaultSquad | FaultAgent | FaultMembership.
#[global] Instance JoinFault_eq_dec : EqDecision JoinFault.
Proof. solve_decision. Defined.

Definition inject (actual : option JoinFault) (point : JoinFault) : M unit :=
  if bool_decide (actual = Some point) then fail InjectedFailure else mret tt.

Definition find_or_create_squad (request : JoinMembership) : M SquadId :=
  existing ← query (fun db => optional (query_row
    (where_ (fun s => eqs (sq_name s) (raw (jm_squad_name request))) (squads db))
    (fun row => Ok (sq_id row, sq_state row))));
  match existing with
  | Some (id, state) =>
      if eqs state "archived" then fail SquadArchived
      else lift (map_err repository_error_from (parse SquadId_new id))
  | None =>
      mission ← lift (ok_or (jm_mission_if_missing request) NotFound);
      _ ← execute (insert_squad (new_squad_row (jm_squad_id_if_missing request)
            (jm_squad_name request) mission (jm_joined_at request)));
      mret (jm_squad_id_if_missing request)
  end.

Definition new_membership_row (request : JoinMembership) (squad_id : SquadId) : MembershipRow :=
  {| mb_id := raw (jm_membership_id request); mb_squad_id := raw squad_id;
     mb_agent_id := raw (jm_agent_id request); mb_name := raw (jm_member_name request);
     mb_normalized_name := raw (jm_member_name request); mb_role := raw (jm_role request);
     mb_joined_at := raw (jm_joined_at request); mb_left_at := None |}.

Definition new_membership_record (request : JoinMembership) (squad_id : SquadId) : MembershipRecord :=
  {| mr_id := jm_membership_id request; mr_squad_id := squad_id;
     mr_agent_id := jm_agent_id request; mr_name := jm_member_name request;
     mr_role := jm_role request; mr_joined_at := jm_joined_at request; mr_left_at := None |}.

Definition join_with_fault (request : JoinMembership) (fault : option JoinFault) : M MembershipRecord :=
  transaction (
    squad_id ← find_or_create_squad request;
    _ ← inject fault FaultSquad;
    _ ← execute (insert_agent {| ag_id := raw (jm_agent_id request);
                                 ag_created_at := raw (jm_joined_at request) |});
    _ ← inject fault FaultAgent;
    changed ← execute (insert_membership_or_nothing (new_membership_row request squad_id));
    if changed =? 0 then fail NameInUse
    else
      _ ← inject fault FaultMembership;
      mret (new_membership_record request squad_id)).

Definition join (request : JoinMembership) : M MembershipRecord := join_with_fault request None.

(** ** Roster *)

(** The instance the LEFT JOIN selects: the newest one of the membership. *)
Definition newest_instance (db : Database) (membership : string) : option InstanceRow :=
  head (order_by by_newest (where_ (fun i => eqs (in_membership_id i) membership) (instances db))).

Definition map_roster_row (db : Database) (squad_id : SquadId) (now : UnixMillis) (m : MembershipRow)
    : Result SqlError RosterMember :=
  let i := newest_instance db (mb_id m) in
  id ← parse MembershipId_new (mb_id m);
  agent_id ← parse AgentId_new (mb_agent_id m);
  name ← parse MemberName_new (mb_name m);
  role ← parse Role_new (mb_role m);
  joined_at ← timestamp (mb_joined_at m);
  left_at ← optional_timestamp (mb_left_at m);
  mode ← parse_mode (in_mode <$> i);
  last_seen_at ← optional_timestamp (in_last_seen_at <$> i);
  let closed_at := i ≫= in_closed_at in
  let online := is_null left_at && is_null closed_at
    && match i with Some i => raw now <? in_lease_expires_at i | None => false end in
  availability ←
    (if online then
       a ← parse_availability (in_availability <$> i);
       s ← parse_availability_source (in_availability_source <$> i);
       at_ ← match i with
             | Some i => timestamp (in_availability_observed_at i)
             | None => Err (InvalidColumnType 12)
             end;
       map_err (fun _ => InvalidQuery) (AvailabilityObservation_new a s at_)
     else map_err (fun _ => InvalidQuery) (AvailabilityObservation_new AvUnknown SrcUnknown now));
  Ok {| rm_membership := {| mr_id := id; mr_squad_id := squad_id; mr_agent_id := agent_id;
                            mr_name := name; mr_role := role; mr_joined_at := joined_at;
                            mr_left_at := left_at |};
        rm_presence := if online then PresenceOnline else PresenceOffline;
        rm_mode := mode; rm_availability := availability; rm_last_seen_at := last_seen_at |}.

Definition roster (squad_name : SquadName) (now : UnixMillis) : M (list RosterMember) :=
  squad ← describe_squad squad_name;
  query (fun db => try_collect (map_roster_row db (sr_id squad) now)
    (order_by by_joined
      (where_ (fun m => eqs (mb_squad_id m) (raw (sr_id squad))) (memberships db)))).

(** ** Leaving *)
Definition active_member (membership squad : string) (m : MembershipRow) : bool :=
  eqs (mb_id m) membership && eqs (mb_squad_id m) squad && is_null (mb_left_at m).

Definition leave_with_fault (squad_id : SquadId) (membership_id : MembershipId)
    (left_at : UnixMillis) (fail_after_instance_close : bool) : M unit :=
  transaction (
    active ← query (fun db =>
      Ok (exists_where (active_member (raw membership_id) (raw squad_id)) (memberships db)));
    if negb active then fail NotMember
    else
      _ ← execute (close_instances_where
            (fun i => eqs (in_membership_id i) (raw membership_id)) (raw left_at));
      if fail_after_instance_close then fail InjectedFailure
      else
        _ ← execute (leave_membership_row (raw membership_id) (raw left_at));
        mret tt).

Definition leave (squad_id : SquadId) (membership_id : MembershipId) (left_at : UnixMillis) : M unit :=
  leave_with_fault squad_id membership_id left_at false.

(** ** Read-only operations *)
#[global] Instance describe_squad_read_only name : ReadOnly (describe_squad name).
Proof. unfold describe_squad. apply _. Qed.
#[global] Instance list_squads_read_only : ReadOnly list_squads.
Proof. unfold list_squads. apply _. Qed.
#[global] Instance roster_read_only name now : ReadOnly (roster name now).
Proof. unfold roster. apply _. Qed.
#[global] Instance inject_read_only a p : ReadOnly (inject a p).
Proof. unfold inject. apply _. Qed.
