(* ===== verification/Instance.v ===== *)
(** * Instance: leased ownership of a membership (psst-store/src/instance.rs) *)
From S2P Require Import Prelude Text Core Sql Store.

Definition DEFAULT_HEARTBEAT_INTERVAL : Duration := Duration_from_secs 10.
Definition DEFAULT_LEASE_DURATION : Duration := Duration_from_secs 30.

(** ** Lease policy *)
Record LeasePolicy : Set := { lp_heartbeat_interval : Duration; lp_lease_duration : Duration }.

Definition LeasePolicy_new (heartbeat_interval lease_duration : Duration)
    : Result RepositoryError LeasePolicy :=
  if (heartbeat_interval =? 0)%N
     || (lease_duration <=? heartbeat_interval)%N
     || (i64_max <? as_millis lease_duration)
  then Err InvalidRequest
  else Ok {| lp_heartbeat_interval := heartbeat_interval; lp_lease_duration := lease_duration |}.

Definition LeasePolicy_default : LeasePolicy :=
  {| lp_heartbeat_interval := DEFAULT_HEARTBEAT_INTERVAL; lp_lease_duration := DEFAULT_LEASE_DURATION |}.

(** ** Requests and records *)
Record ClaimInstance : Set := {
  ci_id : InstanceId; ci_membership_id : MembershipId; ci_mode : AgentMode; ci_client_kind : string;
  ci_hostname : option string; ci_availability : Availability;
  ci_availability_source : AvailabilitySource; ci_now : UnixMillis; ci_lease_policy : LeasePolicy }.

Record ResumeInstance : Set := {
  ri_id : InstanceId; ri_membership_id : MembershipId; ri_mode : AgentMode; ri_client_kind : string;
  ri_hostname : option string; ri_resume_token : ResumeToken; ri_availability : Availability;
  ri_availability_source : AvailabilitySource; ri_now : UnixMillis; ri_lease_policy : LeasePolicy }.

Record HeartbeatInstance : Set := {
  hi_id : InstanceId; hi_resume_token : ResumeToken; hi_availability : Availability;
  hi_availability_source : AvailabilitySource; hi_now : UnixMillis; hi_lease_policy : LeasePolicy }.

Record InstanceRecord : Set := {
  ir_id : InstanceId; ir_membership_id : MembershipId; ir_mode : AgentMode;
  ir_availability : Availability; ir_availability_source : AvailabilitySource;
  ir_availability_observed_at : UnixMillis; ir_lease_expires_at : UnixMillis;
  ir_last_seen_at : UnixMillis; ir_created_at : UnixMillis; ir_closed_at : option UnixMillis;
  ir_heartbeat_interval : Duration; ir_lease_duration : Duration }.

Record ClaimOutcome : Set := { co_instance : InstanceRecord; co_resume_token : ResumeToken }.

(** ** Text of the enumerations *)
Definition mode_name (value : AgentMode) : string :=
  match value with
  | Cooperative => "cooperative" | Scheduled => "scheduled" | Harnessed => "harnessed"
  end.

Definition parse_mode (value : string) : Result RepositoryError AgentMode :=
  if eqs value "cooperative" then Ok Cooperative
  else if eqs value "scheduled" then Ok Scheduled
  else if eqs value "harnessed" then Ok Harnessed
  else Err InvalidStoredData.

Definition availability (value : Availability) : string :=
  match value with
  | Idle => "idle" | Busy => "busy" | Blocked => "blocked" | AvUnknown => "unknown"
  end.

Definition availability_source (value : AvailabilitySource) : string :=
  match value with
  | SessionLifecycle => "session_lifecycle" | McpConnection => "mcp_connection"
  | ToolActivity => "tool_activity" | AgentReported => "agent_reported" | SrcUnknown => "unknown"
  end.

Definition stored_timestamp (value : Z) : Result RepositoryError UnixMillis :=
  map_err (fun _ => InvalidStoredData) (UnixMillis_new value).
Definition parse_id (value : string) : Result RepositoryError MembershipId :=
  map_err (fun _ => InvalidStoredData) (MembershipId_new value).

(** ** Validation *)
Definition validate_observation (a : Availability) (source : AvailabilitySource)
    (observed_at : UnixMillis) : Result RepositoryError unit :=
  match AvailabilityObservation_new a source observed_at with
  | Ok _ => Ok tt
  | Err _ => Err InvalidRequest
  end.

Definition validate_client (client_kind : string) (hostname : option string)
    : Result RepositoryError unit :=
  if is_empty (trim client_kind)
     || match hostname with Some value => is_empty (trim value) | None => false end
  then Err InvalidRequest else Ok tt.

Definition require_active_membership (membership_id : MembershipId) : M unit :=
  active ← query (fun db => Ok (exists_where (fun m =>
      eqs (mb_id m) (raw membership_id) && is_null (mb_left_at m)
      && exists_where (fun s => eqs (sq_id s) (mb_squad_id m) && eqs (sq_state s) "active") (squads db))
    (memberships db)));
  if active : bool then mret tt else fail NotMember.

Section Instance.
Context `{Crypto}.

(** ** Token authentication *)
Definition TOKEN_HASH_DOMAIN : string := "psst/resume-token/v1" +:+ String Ascii.zero EmptyString.

Definition token_hash (token : ResumeToken) : string :=
  sha256 (TOKEN_HASH_DOMAIN +:+ expose_encoded token).

Definition authenticate (stored : string) (supplied : ResumeToken) : Result RepositoryError unit :=
  let supplied := token_hash supplied in
  if (len stored =? len supplied) && eqs stored supplied then Ok tt else Err NotMember.

(** ** Inserting an owner *)
Definition new_instance_row (id : InstanceId) (membership_id : MembershipId) (mode : AgentMode)
    (client_kind : string) (hostname : option string) (token : ResumeToken)
    (observed : Availability) (source : AvailabilitySource) (now expiry : UnixMillis)
    : InstanceRow :=
  {| in_id := raw id; in_membership_id := raw membership_id; in_mode := mode_name mode;
     in_client_kind := client_kind; in_hostname := hostname;
     in_resume_token_hash := token_hash token; in_availability := availability observed;
     in_availability_source := availability_source source;
     in_availability_observed_at := raw now; in_lease_expires_at := raw expiry;
     in_last_seen_at := raw now; in_created_at := raw now; in_closed_at := None |}.

Definition insert_instance (id : InstanceId) (membership_id : MembershipId) (mode : AgentMode)
    (client_kind : string) (hostname : option string) (resume_token : ResumeToken)
    (observed : Availability) (source : AvailabilitySource) (now : UnixMillis)
    (policy : LeasePolicy) : M InstanceRecord :=
  expiry ← lift (ok_or (UnixMillis_checked_add now (lp_lease_duration policy)) InvalidRequest);
  _ ← execute (insert_instance_row (new_instance_row id membership_id mode client_kind hostname
        resume_token observed source now expiry));
  mret {| ir_id := id; ir_membership_id := membership_id; ir_mode := mode;
          ir_availability := observed; ir_availability_source := source;
          ir_availability_observed_at := now; ir_lease_expires_at := expiry;
          ir_last_seen_at := now; ir_created_at := now; ir_closed_at := None;
          ir_heartbeat_interval := lp_heartbeat_interval policy;
          ir_lease_duration := lp_lease_duration policy |}.

(** ** Claiming *)
Definition claim_instance (request : ClaimInstance) : M ClaimOutcome :=
  _ ← lift (validate_observation (ci_availability request) (ci_availability_source request)
              (ci_now request));
  _ ← lift (validate_client (ci_client_kind request) (ci_hostname request));
  resume_token ← generate_token;
  record ← transaction (
    _ ← require_active_membership (ci_membership_id request);
    has_history ← query (fun db => Ok (exists_where
      (fun i => eqs (in_membership_id i) (raw (ci_membership_id request))) (instances db)));
    if has_history : bool then fail NameInUse
    else insert_instance (ci_id request) (ci_membership_id request) (ci_mode request)
           (ci_client_kind request) (ci_hostname request) resume_token (ci_availability request)
           (ci_availability_source request) (ci_now request) (ci_lease_policy request));
  mret {| co_instance := record; co_resume_token := resume_token |}.

(** ** Heartbeats *)
Definition heartbeat_error (error : DomainError) : RepositoryError :=
  match error with DeLeaseExpired => LeaseExpired | _ => InvalidRequest end.

(** The JOIN of instances and memberships; the first row of the result. *)
Definition owner_row (db : Database) (id : InstanceId) : list InstanceRow :=
  where_ (fun i => eqs (in_id i) (raw id) && is_null (in_closed_at i)
                   && exists_where (fun m => eqs (mb_id m) (in_membership_id i)
                                             && is_null (mb_left_at m)) (memberships db))
    (instances db).

(** The record is built after the commit, from the row read before the update. *)
Definition heartbeat_instance (request : HeartbeatInstance) : M InstanceRecord :=
  _ ← lift (validate_observation (hi_availability request) (hi_availability_source request)
              (hi_now request));
  '(row, effective_now, renewed) ← transaction (
    stored ← query (fun db => optional (query_row (owner_row db (hi_id request)) Ok));
    match stored with
    | None => fail NotMember
    | Some row =>
        _ ← lift (authenticate (in_resume_token_hash row) (hi_resume_token request));
        expiry ← lift (stored_timestamp (in_lease_expires_at row));
        last_seen ← lift (stored_timestamp (in_last_seen_at row));
        let effective_now := UnixMillis_max (hi_now request) last_seen in
        let state := InstanceState_at None expiry effective_now in
        renewed ← lift (map_err heartbeat_error (renew_lease state expiry effective_now
                          (lp_lease_duration (hi_lease_policy request))));
        _ ← execute (heartbeat_instances_where
              (fun i => eqs (in_id i) (raw (hi_id request)) && is_null (in_closed_at i))
              (availability (hi_availability request))
              (availability_source (hi_availability_source request))
              (raw effective_now) (raw renewed));
        mret (row, effective_now, renewed)
    end);
  membership ← lift (parse_id (in_membership_id row));
  mode ← lift (parse_mode (in_mode row));
  created_at ← lift (stored_timestamp (in_created_at row));
  mret {| ir_id := hi_id request; ir_membership_id := membership; ir_mode := mode;
          ir_availability := hi_availability request;
          ir_availability_source := hi_availability_source request;
          ir_availability_observed_at := effective_now; ir_lease_expires_at := renewed;
          ir_last_seen_at := effective_now; ir_created_at := created_at; ir_closed_at := None;
          ir_heartbeat_interval := lp_heartbeat_interval (hi_lease_policy request);
          ir_lease_duration := lp_lease_duration (hi_lease_policy request) |}.

(** ** Resuming *)
Definition predecessor (db : Database) (membership : MembershipId) : list InstanceRow :=
  limit 1 (order_by by_newest
    (where_ (fun i => eqs (in_membership_id i) (raw membership)) (instances db))).

Definition resume_instance_with_fault (request : ResumeInstance) (fail_after_close : bool)
    : M InstanceRecord :=
  _ ← lift (validate_observation (ri_availability request) (ri_availability_source request)
              (ri_now request));
  _ ← lift (validate_client (ri_client_kind request) (ri_hostname request));
  transaction (
    _ ← require_active_membership (ri_membership_id request);
    found ← query (fun db => optional (query_row (predecessor db (ri_membership_id request)) Ok));
    match found with
    | None => fail NotMember
    | Some row =>
        _ ← lift (authenticate (in_resume_token_hash row) (ri_resume_token request));
        if is_null (in_closed_at row) && (raw (ri_now request) <? in_lease_expires_at row) then
          fail NameInUse
        else
          _ ← execute (close_instances_where
                (fun i => eqs (in_membership_id i) (raw (ri_membership_id request)))
                (raw (ri_now request)));
          if fail_after_close then fail InjectedFailure
          else insert_instance (ri_id request) (ri_membership_id request) (ri_mode request)
                 (ri_client_kind request) (ri_hostname request) (ri_resume_token request)
                 (ri_availability request) (ri_availability_source request) (ri_now request)
                 (ri_lease_policy request)
    end).

Definition resume_instance (request : ResumeInstance) : M InstanceRecord :=
  resume_instance_with_fault request false.
End Instance.

(** ** Read-only operations *)
#[global] Instance require_active_membership_read_only id : ReadOnly (require_active_membership id).
Proof. unfold require_active_membership. apply _. Qed.
