(* ===== verification/Message.v ===== *)
(** * Message: idempotent direct messages (psst-store/src/message.rs) *)
From S2P Require Import Prelude Text Core Sql Store Repository.

Record SendMessage : Set := {
  sm_id : MessageId; sm_semantics : MessageSemantics; sm_dedupe_key : DedupeKey;
  sm_created_at : UnixMillis }.

Record MessageRecord : Set := {
  me_sequence : Z; me_id : MessageId; me_semantics : MessageSemantics; me_dedupe_key : DedupeKey;
  me_created_at : UnixMillis }.

Definition priority_text (priority : MessagePriority) : string :=
  match priority with Normal => "normal" | High => "high" end.

Definition parse_priority (value : string) : Result SqlError MessagePriority :=
  if eqs value "normal" then Ok Normal
  else if eqs value "high" then Ok High
  else invalid_data.

(** [rusqlite::Error::InvalidQuery] marks undecodable rows. *)
Definition map_decode_error (error : SqlError) : RepositoryError :=
  match error with InvalidQuery => InvalidStoredData | _ => repository_error_from error end.

Section Message.
Context `{Crypto}.

(** ** Retry lookup *)
Definition dedupe_match (squad sender key : string) (m : MessageRow) : bool :=
  eqs (ms_squad_id m) squad && eqs (ms_sender m) sender
  && match ms_dedupe_key m with Some k => eqs k key | None => false end.

Definition map_dedupe_row (request : SendMessage) (row : MessageRow) : Result SqlError MessageRecord :=
  if negb (eqs (ms_body_hash row) (sha256 (ms_body row))) then invalid_data
  else
    id ← parse MessageId_new (ms_id row);
    recipient ← parse MembershipId_new (ms_recipient row);
    body ← parse MessageBody_new (ms_body row);
    priority ← parse_priority (ms_priority row);
    reply_to ← opt_try (parse MessageId_new) (ms_reply_to row);
    correlation_id ← opt_try (parse CorrelationId_new) (ms_correlation_id row);
    created_at ← timestamp (ms_created_at row);
    Ok {| me_sequence := ms_sequence row; me_id := id;
          me_semantics := {| sem_squad := sem_squad (sm_semantics request);
                             sem_sender := sem_sender (sm_semantics request);
                             sem_recipient := recipient; sem_body := body;
                             sem_priority := priority; sem_reply_to := reply_to;
                             sem_correlation_id := correlation_id |};
          me_dedupe_key := sm_dedupe_key request; me_created_at := created_at |}.

Definition find_by_dedupe (request : SendMessage) : M (option MessageRecord) :=
  query_conv map_decode_error (fun db => optional (query_row
    (where_ (dedupe_match (raw (sem_squad (sm_semantics request)))
               (raw (sem_sender (sm_semantics request))) (raw (sm_dedupe_key request)))
       (messages db))
    (map_dedupe_row request))).

Definition resolve_retry (request : SendMessage)
    : M (option (Result RepositoryError MessageRecord)) :=
  found ← find_by_dedupe request;
  mret ((fun existing =>
    if bool_decide (me_semantics existing = sm_semantics request) then Ok existing
    else Err IdempotencyConflict) <$> found).

(** ** Authorization *)
Definition authorize_squad_and_members (semantics : MessageSemantics) : M unit :=
  state ← query (fun db => optional (query_row
    (where_ (fun s => eqs (sq_id s) (raw (sem_squad semantics))) (squads db))
    (fun row => Ok (sq_state row))));
  _ ← match state with
      | None => fail NotFound
      | Some state =>
          if eqs state "archived" then fail SquadArchived
          else if eqs state "active" then mret tt
          else fail InvalidStoredData
      end;
  sender_active ← query (fun db => Ok (exists_where
    (active_member (raw (sem_sender semantics)) (raw (sem_squad semantics))) (memberships db)));
  if negb sender_active then fail NotMember
  else
    recipient_active ← query (fun db => Ok (exists_where
      (active_member (raw (sem_recipient semantics)) (raw (sem_squad semantics))) (memberships db)));
    if negb recipient_active then fail RecipientNotFound else mret tt.

Definition authorize_reply (semantics : MessageSemantics) : M unit :=
  match sem_reply_to semantics with
  | None => mret tt
  | Some reply_to =>
      valid ← query (fun db => Ok (exists_where
        (fun m => eqs (ms_id m) (raw reply_to) && eqs (ms_squad_id m) (raw (sem_squad semantics)))
        (messages db)));
      if valid : bool then mret tt else fail InvalidRequest
  end.

(** ** Sending *)
Definition new_message_row (request : SendMessage) : MessageRow :=
  let semantics := sm_semantics request in
  {| ms_sequence := 0; ms_id := raw (sm_id request); ms_squad_id := raw (sem_squad semantics);
     ms_sender := raw (sem_sender semantics); ms_recipient := raw (sem_recipient semantics);
     ms_body := raw (sem_body semantics); ms_body_hash := sha256 (raw (sem_body semantics));
     ms_priority := priority_text (sem_priority semantics);
     ms_reply_to := raw <$> sem_reply_to semantics;
     ms_correlation_id := raw <$> sem_correlation_id semantics;
     ms_dedupe_key := Some (raw (sm_dedupe_key request));
     ms_created_at := raw (sm_created_at request); ms_acknowledged_at := None |}.

Definition record_of_request (request : SendMessage) (sequence : Z) : MessageRecord :=
  {| me_sequence := sequence; me_id := sm_id request; me_semantics := sm_semantics request;
     me_dedupe_key := sm_dedupe_key request; me_created_at := sm_created_at request |}.

Definition send_in_transaction (request : SendMessage) : M MessageRecord :=
  retry ← resolve_retry request;
  match retry with
  | Some result => lift result
  | None =>
      _ ← authorize_squad_and_members (sm_semantics request);
      _ ← authorize_reply (sm_semantics request);
      sequence ← execute (insert_message (new_message_row request));
      mret (record_of_request request sequence)
  end.

Definition send_message_with_commit_fault (request : SendMessage) (fail_after_commit : bool)
    : M MessageRecord :=
  result ← transaction (send_in_transaction request);
  if fail_after_commit then fail InjectedFailure else mret result.

Definition send_message (request : SendMessage) : M MessageRecord :=
  send_message_with_commit_fault request false.
End Message.

(** ** Read-only operations *)
Section ReadOnlyOperations.
Context `{Crypto}.
#[global] Instance find_by_dedupe_read_only r : ReadOnly (find_by_dedupe r).
Proof. unfold find_by_dedupe. apply _. Qed.
#[global] Instance resolve_retry_read_only r : ReadOnly (resolve_retry r).
Proof. unfold resolve_retry. apply _. Qed.
#[global] Instance authorize_squad_and_members_read_only s : ReadOnly (authorize_squad_and_members s).
Proof. unfold authorize_squad_and_members. apply _. Qed.
#[global] Instance authorize_reply_read_only s : ReadOnly (authorize_reply s).
Proof. unfold authorize_reply. apply _. Qed.
End ReadOnlyOperations.
