(* ===== verification/Inbox.v ===== *)
(** * Inbox: bounded reads and atomic acknowledgement (psst-store/src/inbox.rs) *)
From S2P Require Import Prelude Text Core Sql Store Repository Message.

Definition MAX_INBOX_MESSAGES : Z := 100.
Definition MAX_INBOX_OUTPUT_BYTES : Z := 1024 * 1024.
Definition MAX_ACK_MESSAGES : Z := 100.

Record InboxQuery : Set := { iq_recipient : MembershipId; iq_limit : Z }.
Record AcknowledgeMessages : Set := {
  am_recipient : MembershipId; am_message_ids : list MessageId; am_acknowledged_at : UnixMillis }.

(** [(lo..=hi).contains(&n)]. *)
Definition contains (lo hi n : Z) : bool := (lo <=? n) && (n <=? hi).

(** ** Decoding *)
Definition map_message `{Crypto} (row : MessageRow) : Result SqlError MessageRecord :=
  if negb (eqs (ms_body_hash row) (sha256 (ms_body row))) then invalid_data
  else
    id ← parse MessageId_new (ms_id row);
    squad ← parse SquadId_new (ms_squad_id row);
    sender ← parse MembershipId_new (ms_sender row);
    recipient ← parse MembershipId_new (ms_recipient row);
    body ← parse MessageBody_new (ms_body row);
    priority ← parse_priority (ms_priority row);
    reply_to ← opt_try (parse MessageId_new) (ms_reply_to row);
    correlation_id ← opt_try (parse CorrelationId_new) (ms_correlation_id row);
    dedupe_text ← ok_or (ms_dedupe_key row) (InvalidColumnType 10);
    dedupe_key ← parse DedupeKey_new dedupe_text;
    created_at ← timestamp (ms_created_at row);
    Ok {| me_sequence := ms_sequence row; me_id := id;
          me_semantics := {| sem_squad := squad; sem_sender := sender; sem_recipient := recipient;
                             sem_body := body; sem_priority := priority; sem_reply_to := reply_to;
                             sem_correlation_id := correlation_id |};
          me_dedupe_key := dedupe_key; me_created_at := created_at |}.

(** ** The conservative JSON size *)
Definition STRUCTURAL_OVERHEAD : Z := 512.
Definition opt_len {ok : string -> bool} (o : option (checked ok)) : Z :=
  match o with None => 0 | Some v => len (raw v) end.

Definition variable_bytes (message : MessageRecord) : Z :=
  let s := me_semantics message in
  len (raw (me_id message)) + len (raw (sem_squad s)) + len (raw (sem_sender s))
  + len (raw (sem_recipient s)) + len (raw (sem_body s)) + len (raw (me_dedupe_key message))
  + opt_len (sem_reply_to s) + opt_len (sem_correlation_id s).

Definition conservative_serialized_size (message : MessageRecord) : Z :=
  usize_saturating_add (usize_saturating_mul (variable_bytes message) 6) STRUCTURAL_OVERHEAD.

(** ** Reading *)
Definition pending_row (recipient : string) (m : MessageRow) : bool :=
  eqs (ms_recipient m) recipient && is_null (ms_acknowledged_at m).

(** The loop over the rows: [estimated] and whether a message was already taken
    are the loop's state, and rows after the break are never decoded. *)
Fixpoint take_bounded `{Crypto} (estimated_bytes : Z) (first : bool) (rows : list MessageRow)
    : Result RepositoryError (list MessageRecord) :=
  match rows with
  | [] => Ok []
  | row :: rest =>
      match map_message row with
      | Err e => Err (map_decode_error e)
      | Ok message =>
          let item_bytes := conservative_serialized_size message in
          let separator := if first then 0 else 1 in
          match usize_checked_add estimated_bytes separator
                ≫= (fun size => usize_checked_add size item_bytes) with
          | None => Ok []
          | Some size =>
              if MAX_INBOX_OUTPUT_BYTES <? size then Ok []
              else cons message <$> take_bounded (estimated_bytes + (separator + item_bytes)) false rest
          end
      end
  end.

Definition pending_inbox_on `{Crypto} (q : InboxQuery) : M (list MessageRecord) :=
  if negb (contains 1 MAX_INBOX_MESSAGES (iq_limit q)) then fail InvalidRequest
  else
    rows ← query (fun db => Ok (limit (iq_limit q) (order_by by_sequence
      (where_ (pending_row (raw (iq_recipient q))) (messages db)))));
    lift (take_bounded 2 true rows).

Definition pending_inbox `{Crypto} (q : InboxQuery) : M (list MessageRecord) := pending_inbox_on q.

(** ** Acknowledging *)

(** The first loop: [HashSet::insert] answers whether the id is new; every new
    id must name a message owned by the recipient. *)
Fixpoint collect_owned (recipient : MembershipId) (distinct : list MessageId)
    (ids : list MessageId) : M (list MessageId) :=
  match ids with
  | [] => mret distinct
  | id :: rest =>
      if bool_decide (id ∈ distinct) then collect_owned recipient distinct rest
      else
        owned ← query (fun db => Ok (exists_where
          (fun m => eqs (ms_id m) (raw id) && eqs (ms_recipient m) (raw recipient)) (messages db)));
        if negb owned then fail NotFound
        else collect_owned recipient (distinct ++ [id]) rest
  end.

(** The second loop, over the set in its iteration order. *)
Fixpoint acknowledge_each (recipient : MembershipId) (now : UnixMillis) (fault : bool)
    (ids : list MessageId) : M unit :=
  match ids with
  | [] => mret tt
  | id :: rest =>
      _ ← execute (acknowledge_row (raw id) (raw recipient) (raw now));
      if fault then fail InjectedFailure else acknowledge_each recipient now false rest
  end.

(** [order] is the unspecified iteration order of the [HashSet]. *)
Definition acknowledge_on (order : list MessageId -> list MessageId)
    (request : AcknowledgeMessages) (fail_after_first_update : bool) : M unit :=
  distinct ← collect_owned (am_recipient request) [] (am_message_ids request);
  acknowledge_each (am_recipient request) (am_acknowledged_at request) fail_after_first_update
    (order distinct).

Definition acknowledge_messages_with_fault (order : list MessageId -> list MessageId)
    (request : AcknowledgeMessages) (fail_after_first_update : bool) : M unit :=
  if negb (contains 1 MAX_ACK_MESSAGES (Z.of_nat (length (am_message_ids request)))) then
    fail InvalidRequest
  else transaction (acknowledge_on order request fail_after_first_update).

Definition acknowledge_messages (order : list MessageId -> list MessageId)
    (request : AcknowledgeMessages) : M unit :=
  acknowledge_messages_with_fault order request false.

(** ** Read-only operations *)
#[global] Instance pending_inbox_on_read_only `{Crypto} q : ReadOnly (pending_inbox_on q).
Proof. unfold pending_inbox_on. apply _. Qed.
#[global] Instance pending_inbox_read_only `{Crypto} q : ReadOnly (pending_inbox q).
Proof. unfold pending_inbox. apply _. Qed.
#[global] Instance collect_owned_read_only r d ids : ReadOnly (collect_owned r d ids).
Proof. revert d. induction ids as [|id ids IH]; intros d; simpl; apply _. Qed.
