(* ===== verification/Authenticated.v ===== *)
(** * Authenticated: the credential-checked command surface
    (psst-store/src/authenticated.rs) *)
From S2P Require Import Prelude Text Core Sql Store Repository Instance Message Inbox.

(** ** Requests and results *)
Record SendByName : Set := {
  sn_id : MessageId; sn_recipient : MemberName; sn_recipient_membership_id : option MembershipId;
  sn_body : MessageBody; sn_priority : MessagePriority; sn_dedupe_key : DedupeKey;
  sn_reply_to : option MessageId; sn_correlation_id : option CorrelationId }.

Record MessageView : Set := {
  mv_message : MessageRecord; mv_squad : SquadName; mv_sender : MemberName;
  mv_recipient : MemberName; mv_acknowledged_at : option UnixMillis }.

Record SendOutcome : Set := { so_message : MessageView; so_idempotent_replay : bool }.

Record InboxPage : Set := {
  ip_messages : list MessageView; ip_pending_count : Z;
  ip_highest_priority : option MessagePriority; ip_oldest_message_id : option MessageId;
  ip_recipient_membership : MembershipId }.

Record TranscriptByName : Set := { tn_squad : SquadName; tn_after : Z; tn_limit : Z }.
Record TranscriptQuery : Set := { tq_squad : SquadId; tq_after : Z; tq_limit : Z }.

Record AuthenticatedSession : Set := {
  as_instance_id : InstanceId; as_resume_token : ResumeToken; as_now : UnixMillis }.

Record JoinAndClaim : Set := {
  jc_membership : JoinMembership; jc_instance_id : InstanceId; jc_mode : AgentMode;
  jc_client_kind : string; jc_hostname : option string; jc_availability : Availability;
  jc_availability_source : AvailabilitySource; jc_lease_policy : LeasePolicy }.

Record JoinAndClaimOutcome : Set := {
  jo_membership : MembershipRecord; jo_squad : SquadRecord; jo_claim : ClaimOutcome }.

Record SessionContext : Set := {
  sc_membership : MembershipRecord; sc_squad : SquadRecord; sc_instance : InstanceRecord }.

Record LeaveOutcome : Set := { lo_membership_id : MembershipId; lo_left_at : UnixMillis }.

Record Identity : Set := {
  id_membership : MembershipId; id_squad : SquadId; id_mode : AgentMode; id_expiry : UnixMillis;
  id_last_seen : UnixMillis; id_created_at : UnixMillis }.

(** ** Row decoding *)
Definition map_squad_row (row : SquadRow) : Result SqlError SquadRecord :=
  id ← parse SquadId_new (sq_id row);
  name ← parse SquadName_new (sq_name row);
  mission ← parse Mission_new (sq_mission row);
  state ← squad_state_of_text (sq_state row);
  created_at ← timestamp (sq_created_at row);
  archived_at ← optional_timestamp (sq_archived_at row);
  Ok {| sr_id := id; sr_name := name; sr_mission := mission; sr_state := state;
        sr_created_at := created_at; sr_archived_at := archived_at |}.

Definition squad_by_name (name : SquadName) : M SquadRecord :=
  found ← query (fun db => optional (query_row
    (where_ (fun s => eqs (sq_name s) (raw name)) (squads db)) map_squad_row));
  lift (ok_or found NotFound).

Definition squad_by_id (id : SquadId) : M SquadRecord :=
  found ← query (fun db => optional (query_row
    (where_ (fun s => eqs (sq_id s) (raw id)) (squads db)) map_squad_row));
  lift (ok_or found NotFound).

Definition map_membership_row (r : MembershipRow) : Result SqlError MembershipRecord :=
  id ← parse MembershipId_new (mb_id r);
  squad_id ← parse SquadId_new (mb_squad_id r);
  agent_id ← parse AgentId_new (mb_agent_id r);
  name ← parse MemberName_new (mb_name r);
  role ← parse Role_new (mb_role r);
  joined_at ← timestamp (mb_joined_at r);
  left_at ← optional_timestamp (mb_left_at r);
  Ok {| mr_id := id; mr_squad_id := squad_id; mr_agent_id := agent_id; mr_name := name;
        mr_role := role; mr_joined_at := joined_at; mr_left_at := left_at |}.

Definition membership_by_id (id : MembershipId) : M MembershipRecord :=
  found ← query (fun db => optional (query_row
    (where_ (fun m => eqs (mb_id m) (raw id)) (memberships db)) map_membership_row));
  lift (ok_or found NotFound).

(** The rows of [messages m JOIN squads s JOIN memberships sm JOIN memberships rm
    WHERE m.id = id], in the nesting order of the joins. *)
Definition message_view_rows (db : Database) (id : MessageId)
    : list (SquadRow * MembershipRow * MembershipRow * MessageRow) :=
  m ← where_ (fun m => eqs (ms_id m) (raw id)) (messages db);
  s ← where_ (fun s => eqs (sq_id s) (ms_squad_id m)) (squads db);
  sm ← where_ (fun x => eqs (mb_id x) (ms_sender m)) (memberships db);
  rm ← where_ (fun x => eqs (mb_id x) (ms_recipient m)) (memberships db);
  [(s, sm, rm, m)].

Definition message_view_on (message : MessageRecord) : M MessageView :=
  found ← query (fun db => optional (query_row (message_view_rows db (me_id message))
    (fun '(s, sm, rm, m) =>
       squad ← parse SquadName_new (sq_name s);
       sender ← parse MemberName_new (mb_name sm);
       recipient ← parse MemberName_new (mb_name rm);
       acknowledged_at ← optional_timestamp (ms_acknowledged_at m);
       Ok (squad, sender, recipient, acknowledged_at))));
  '(squad, sender, recipient, acknowledged_at) ← lift (ok_or found InvalidStoredData);
  mret {| mv_message := message; mv_squad := squad; mv_sender := sender; mv_recipient := recipient;
          mv_acknowledged_at := acknowledged_at |}.

(** [records.into_iter().map(|r| message_view_on(&tx, r)).collect()]. *)
Fixpoint message_views_on (records : list MessageRecord) : M (list MessageView) :=
  match records with
  | [] => mret []
  | record :: rest =>
      view ← message_view_on record;
      views ← message_views_on rest;
      mret (view :: views)
  end.

Definition send_from_name (request : SendByName) (squad : SquadId) (sender : MembershipId)
    (recipient : MembershipId) (created_at : UnixMillis) : SendMessage :=
  {| sm_id := sn_id request;
     sm_semantics := {| sem_squad := squad; sem_sender := sender; sem_recipient := recipient;
                        sem_body := sn_body request; sem_priority := sn_priority request;
                        sem_reply_to := sn_reply_to request;
                        sem_correlation_id := sn_correlation_id request |};
     sm_dedupe_key := sn_dedupe_key request; sm_created_at := created_at |}.

(** ** Joining *)
Inductive JoinClaimFault : Set := JcSquad | JcAgent | JcMembership | JcInstance.
#[global] Instance JoinClaimFault_eq_dec : EqDecision JoinClaimFault.
Proof. solve_decision. Defined.

Definition inject_join_claim_fault (actual : option JoinClaimFault) (point : JoinClaimFault) : M unit :=
  if bool_decide (actual = Some point) then fail InjectedFailure else mret tt.

Definition find_or_create_squad (request : JoinMembership) : M SquadId :=
  existing ← query (fun db => optional (query_row
    (where_ (fun s => eqs (sq_name s) (raw (jm_squad_name request))) (squads db))
    (fun r => Ok (sq_id r, sq_state r))));
  match existing with
  | Some (id, state) =>
      if negb (eqs state "active") then fail SquadArchived
      else lift (map_err (fun _ => InvalidStoredData) (SquadId_new id))
  | None =>
      mission ← lift (ok_or (jm_mission_if_missing request) NotFound);
      _ ← execute (insert_squad (new_squad_row (jm_squad_id_if_missing request)
            (jm_squad_name request) mission (jm_joined_at request)));
      mret (jm_squad_id_if_missing request)
  end.

Section Authenticated.
Context `{Crypto}.

Definition join_and_claim_inner (request : JoinAndClaim) (fault : option JoinClaimFault)
    : M JoinAndClaimOutcome :=
  let m := jc_membership request in
  _ ← lift (validate_client (jc_client_kind request) (jc_hostname request));
  _ ← lift (validate_observation (jc_availability request) (jc_availability_source request)
              (jm_joined_at m));
  token ← generate_token;
  '(squad, squad_record, instance) ← transaction (
    squad ← find_or_create_squad m;
    _ ← inject_join_claim_fault fault JcSquad;
    _ ← execute (insert_agent {| ag_id := raw (jm_agent_id m); ag_created_at := raw (jm_joined_at m) |});
    _ ← inject_join_claim_fault fault JcAgent;
    changed ← execute (insert_membership_or_nothing (new_membership_row m squad));
    if changed =? 0 then fail NameInUse
    else
      _ ← inject_join_claim_fault fault JcMembership;
      instance ← insert_instance (jc_instance_id request) (jm_membership_id m) (jc_mode request)
        (jc_client_kind request) (jc_hostname request) token (jc_availability request)
        (jc_availability_source request) (jm_joined_at m) (jc_lease_policy request);
      _ ← inject_join_claim_fault fault JcInstance;
      squad_record ← squad_by_id squad;
      mret (squad, squad_record, instance));
  mret {| jo_membership := new_membership_record m squad; jo_squad := squad_record;
          jo_claim := {| co_instance := instance; co_resume_token := token |} |}.

Definition join_and_claim (request : JoinAndClaim) : M JoinAndClaimOutcome :=
  join_and_claim_inner request None.

(** ** Authentication *)

(** [instances i JOIN memberships m ON m.id = i.membership_id WHERE i.id = id]. *)
Definition session_rows (db : Database) (id : InstanceId) : list (InstanceRow * MembershipRow) :=
  i ← where_ (fun i => eqs (in_id i) (raw id)) (instances db);
  m ← where_ (fun m => eqs (mb_id m) (in_membership_id i)) (memberships db);
  [(i, m)].

Definition authenticate_historical (session : AuthenticatedSession) : M Identity :=
  row ← query (fun db => optional (query_row (session_rows db (as_instance_id session)) Ok));
  match row with
  | None => fail NotFound
  | Some (i, m) =>
      _ ← lift (map_err (fun _ => NotFound)
                  (authenticate (in_resume_token_hash i) (as_resume_token session)));
      membership ← lift (map_err (fun _ => InvalidStoredData) (MembershipId_new (mb_id m)));
      squad ← lift (map_err (fun _ => InvalidStoredData) (SquadId_new (mb_squad_id m)));
      mode ← lift (Instance.parse_mode (in_mode i));
      expiry ← lift (stored_timestamp (in_lease_expires_at i));
      last_seen ← lift (stored_timestamp (in_last_seen_at i));
      created_at ← lift (stored_timestamp (in_created_at i));
      mret {| id_membership := membership; id_squad := squad; id_mode := mode;
              id_expiry := expiry; id_last_seen := last_seen; id_created_at := created_at |}
  end.

(** ... JOIN squads s ON s.id = m.squad_id. *)
Definition authority_rows (db : Database) (id : InstanceId)
    : list (InstanceRow * MembershipRow * SquadRow) :=
  '(i, m) ← session_rows db id;
  s ← where_ (fun s => eqs (sq_id s) (mb_squad_id m)) (squads db);
  [(i, m, s)].

Definition authorize_current (session : AuthenticatedSession) : M Identity :=
  identity ← authenticate_historical session;
  if raw (id_expiry identity) <=? raw (as_now session) then fail LeaseExpired
  else
    '(i, m, s) ← query (fun db => query_row (authority_rows db (as_instance_id session)) Ok);
    if eqs (sq_state s) "archived" then fail SquadArchived
    else if negb (eqs (sq_state s) "active") then fail InvalidStoredData
    else if negb (is_null (in_closed_at i)) || negb (is_null (mb_left_at m)) then fail NotMember
    else mret identity.

(** ** Heartbeats and the roster *)
Definition authenticated_heartbeat (session : AuthenticatedSession) (a : Availability)
    (source : AvailabilitySource) (policy : LeasePolicy) : M InstanceRecord :=
  _ ← lift (validate_observation a source (as_now session));
  '(identity, effective_now, expiry) ← transaction (
    identity ← authorize_current session;
    let effective_now := UnixMillis_max (as_now session) (id_last_seen identity) in
    expiry ← lift (map_err (fun _ => LeaseExpired)
      (renew_lease (InstanceState_at None (id_expiry identity) effective_now) (id_expiry identity)
         effective_now (lp_lease_duration policy)));
    _ ← execute (heartbeat_instances_where (fun i => eqs (in_id i) (raw (as_instance_id session)))
          (availability a) (availability_source source) (raw effective_now) (raw expiry));
    mret (identity, effective_now, expiry));
  mret {| ir_id := as_instance_id session; ir_membership_id := id_membership identity;
          ir_mode := id_mode identity; ir_availability := a; ir_availability_source := source;
          ir_availability_observed_at := effective_now; ir_lease_expires_at := expiry;
          ir_last_seen_at := effective_now; ir_created_at := id_created_at identity;
          ir_closed_at := None; ir_heartbeat_interval := lp_heartbeat_interval policy;
          ir_lease_duration := lp_lease_duration policy |}.

Definition authenticated_roster (session : AuthenticatedSession) (expected_squad : SquadName)
    : M (list RosterMember) :=
  _ ← transaction (
    identity ← authenticate_historical session;
    squad ← squad_by_id (id_squad identity);
    if bool_decide (sr_name squad <> expected_squad) then fail NotFound else mret tt);
  roster expected_squad (as_now session).

(** ** Sending *)
Definition authenticated_send (session : AuthenticatedSession) (request : SendMessage)
    : M MessageRecord :=
  transaction (
    identity ← authenticate_historical session;
    if bool_decide (sem_sender (sm_semantics request) <> id_membership identity)
       || bool_decide (sem_squad (sm_semantics request) <> id_squad identity)
    then fail NotMember
    else
      retry ← resolve_retry request;
      match retry with
      | Some result => lift result
      | None =>
          _ ← authorize_current session;
          send_in_transaction request
      end).

(** [pin.is_some_and(|pin| pin != &recipient)]. *)
Definition pin_differs (pin : option MembershipId) (recipient : MembershipId) : bool :=
  match pin with Some pin => bool_decide (pin <> recipient) | None => false end.

Definition existing_recipient (identity : Identity) (key : DedupeKey) : M (option MembershipId) :=
  found ← query (fun db => optional (query_row
    (where_ (dedupe_match (raw (id_squad identity)) (raw (id_membership identity)) (raw key))
       (messages db))
    (fun row => Ok (ms_recipient row))));
  lift (opt_try (fun value => map_err (fun _ => InvalidStoredData) (MembershipId_new value)) found).

(** The replay branch: the stored message must have the same semantics, and
    its recipient must still be addressed by the requested name. *)
Definition replay_by_name (session : AuthenticatedSession) (request : SendByName)
    (identity : Identity) (recipient_id : MembershipId) : M SendOutcome :=
  if pin_differs (sn_recipient_membership_id request) recipient_id then fail IdempotencyConflict
  else
    let candidate := send_from_name request (id_squad identity) (id_membership identity)
                       recipient_id (as_now session) in
    found ← find_by_dedupe candidate;
    existing ← lift (ok_or found InvalidStoredData);
    if bool_decide (me_semantics existing <> sm_semantics candidate) then fail IdempotencyConflict
    else
      view ← message_view_on existing;
      if bool_decide (mv_recipient view <> sn_recipient request) then fail IdempotencyConflict
      else mret {| so_message := view; so_idempotent_replay := true |}.

Definition fresh_by_name (session : AuthenticatedSession) (request : SendByName)
    (identity : Identity) : M SendOutcome :=
  _ ← authorize_current session;
  found ← query (fun db => optional (query_row
    (where_ (fun m => eqs (mb_squad_id m) (raw (id_squad identity))
                      && eqs (mb_normalized_name m) (raw (sn_recipient request))
                      && is_null (mb_left_at m)) (memberships db))
    (fun row => Ok (mb_id row))));
  text ← lift (ok_or found RecipientNotFound);
  recipient_id ← lift (map_err (fun _ => InvalidStoredData) (MembershipId_new text));
  if pin_differs (sn_recipient_membership_id request) recipient_id then fail RecipientNotFound
  else
    record ← send_in_transaction (send_from_name request (id_squad identity)
               (id_membership identity) recipient_id (as_now session));
    view ← message_view_on record;
    mret {| so_message := view; so_idempotent_replay := false |}.

Definition authenticated_send_by_name (session : AuthenticatedSession) (request : SendByName)
    : M SendOutcome :=
  transaction (
    identity ← authenticate_historical session;
    existing ← existing_recipient identity (sn_dedupe_key request);
    match existing with
    | Some recipient_id => replay_by_name session request identity recipient_id
    | None => fresh_by_name session request identity
    end).

(** ** Reading the inbox *)

(** ORDER BY CASE priority WHEN 'high' THEN 1 ELSE 0 END DESC. *)
Definition by_priority (a b : MessageRow) : bool :=
  eqs (ms_priority a) "high" || negb (eqs (ms_priority b) "high").

Definition highest_priority (membership : MembershipId) : M (option MessagePriority) :=
  found ← query (fun db => optional (query_row
    (limit 1 (order_by by_priority (where_ (pending_row (raw membership)) (messages db))))
    (fun row => Ok (ms_priority row))));
  lift (opt_try (fun value =>
    if eqs value "normal" then Ok Normal
    else if eqs value "high" then Ok High
    else Err InvalidStoredData) found).

Definition oldest_message_id (membership : MembershipId) : M (option MessageId) :=
  found ← query (fun db => optional (query_row
    (limit 1 (order_by by_sequence (where_ (pending_row (raw membership)) (messages db))))
    (fun row => Ok (ms_id row))));
  lift (opt_try (fun value => map_err (fun _ => InvalidStoredData) (MessageId_new value)) found).

Definition authenticated_pending_page (session : AuthenticatedSession) (max : Z) : M InboxPage :=
  transaction (
    identity ← authorize_current session;
    pending_count ← query (fun db =>
      Ok (count_where (pending_row (raw (id_membership identity))) (messages db)));
    highest ← highest_priority (id_membership identity);
    oldest ← oldest_message_id (id_membership identity);
    records ← pending_inbox_on {| iq_recipient := id_membership identity; iq_limit := max |};
    views ← message_views_on records;
    mret {| ip_messages := views; ip_pending_count := pending_count;
            ip_highest_priority := highest; ip_oldest_message_id := oldest;
            ip_recipient_membership := id_membership identity |}).

Definition authenticated_pending (session : AuthenticatedSession) (max : Z)
    : M (list MessageRecord) :=
  transaction (
    identity ← authorize_current session;
    pending_inbox_on {| iq_recipient := id_membership identity; iq_limit := max |}).

Definition authenticated_acknowledge (order : list MessageId -> list MessageId)
    (session : AuthenticatedSession) (message_ids : list MessageId) : M unit :=
  transaction (
    identity ← authorize_current session;
    acknowledge_on order {| am_recipient := id_membership identity;
      am_message_ids := message_ids; am_acknowledged_at := as_now session |} false).

(** ** Transcripts *)
Definition transcript_rows (db : Database) (squad : SquadId) (after max : Z) : list MessageRow :=
  limit max (order_by by_sequence
    (where_ (fun m => eqs (ms_squad_id m) (raw squad) && (after <? ms_sequence m)) (messages db))).

Definition authenticated_transcript (session : AuthenticatedSession) (q : TranscriptQuery)
    : M (list MessageRecord) :=
  if negb (contains 1 100 (tq_limit q)) || (tq_after q <? 0) then fail InvalidRequest
  else transaction (
    identity ← authorize_current session;
    if bool_decide (id_squad identity <> tq_squad q) then fail NotMember
    else query (fun db => try_collect map_message
           (transcript_rows db (tq_squad q) (tq_after q) (tq_limit q)))).

Definition authenticated_transcript_views (session : AuthenticatedSession) (q : TranscriptByName)
    : M (list MessageView) :=
  if negb (contains 1 100 (tn_limit q)) || (tn_after q <? 0) then fail InvalidRequest
  else transaction (
    identity ← authorize_current session;
    squad ← squad_by_id (id_squad identity);
    if bool_decide (sr_name squad <> tn_squad q) then fail NotMember
    else
      records ← query (fun db => try_collect map_message
        (transcript_rows db (id_squad identity) (tn_after q) (tn_limit q)));
      message_views_on records).

(** ** Leaving and archiving *)
Definition authenticated_leave (session : AuthenticatedSession) (expected_squad : SquadName)
    : M LeaveOutcome :=
  transaction (
    identity ← authorize_current session;
    squad ← squad_by_id (id_squad identity);
    if bool_decide (sr_name squad <> expected_squad) then fail NotFound
    else
      _ ← execute (close_instances_where (fun i => eqs (in_id i) (raw (as_instance_id session)))
            (raw (as_now session)));
      _ ← execute (leave_membership_row (raw (id_membership identity)) (raw (as_now session)));
      mret {| lo_membership_id := id_membership identity; lo_left_at := as_now session |}).

Definition authenticated_archive (session : AuthenticatedSession) (squad : SquadId) : M unit :=
  transaction (
    identity ← authorize_current session;
    if bool_decide (id_squad identity <> squad) then fail NotMember
    else
      changed ← execute (archive_squads_where (fun s => eqs (sq_id s) (raw squad))
                  (raw (as_now session)));
      if changed =? 0 then fail SquadArchived else mret tt).

Definition authenticated_archive_by_name (session : AuthenticatedSession) (squad_name : SquadName)
    : M SquadRecord :=
  transaction (
    identity ← authorize_current session;
    squad ← squad_by_name squad_name;
    if bool_decide (id_squad identity <> sr_id squad) then fail NotMember
    else if bool_decide (sr_state squad = SqArchived) then fail SquadArchived
    else
      _ ← execute (archive_squads_where (fun s => eqs (sq_id s) (raw (sr_id squad)))
            (raw (as_now session)));
      mret {| sr_id := sr_id squad; sr_name := sr_name squad; sr_mission := sr_mission squad;
              sr_state := SqArchived; sr_created_at := sr_created_at squad;
              sr_archived_at := Some (as_now session) |}).

(** ** Resuming *)

(** ... WHERE i.id = id AND m.left_at IS NULL. *)
Definition resume_rows (db : Database) (id : InstanceId)
    : list (InstanceRow * MembershipRow * SquadRow) :=
  where_ (fun '(_, m, _) => is_null (mb_left_at m)) (authority_rows db id).

Definition live_at (membership : string) (now : Z) (i : InstanceRow) : bool :=
  eqs (in_membership_id i) membership && is_null (in_closed_at i) && (now <? in_lease_expires_at i).

Definition authenticated_resume (prior_instance : InstanceId) (token : ResumeToken)
    (new_instance : InstanceId) (mode : AgentMode) (client_kind : string)
    (hostname : option string) (a : Availability) (source : AvailabilitySource)
    (now : UnixMillis) (policy : LeasePolicy) (expected_squad : SquadName) : M SessionContext :=
  _ ← lift (validate_client client_kind hostname);
  _ ← lift (validate_observation a source now);
  transaction (
    prior ← query (fun db => optional (query_row (resume_rows db prior_instance) Ok));
    match prior with
    | None => fail NotFound
    | Some (i, m, s) =>
        _ ← lift (map_err (fun _ => NotFound) (authenticate (in_resume_token_hash i) token));
        if negb (eqs (sq_name s) (raw expected_squad)) then fail NotFound
        else if eqs (sq_state s) "archived" then fail SquadArchived
        else if negb (eqs (sq_state s) "active") then fail InvalidStoredData
        else if is_null (in_closed_at i) && (raw now <? in_lease_expires_at i) then fail NameInUse
        else
          membership ← lift (map_err (fun _ => InvalidStoredData)
                               (MembershipId_new (in_membership_id i)));
          has_live_owner ← query (fun db =>
            Ok (exists_where (live_at (raw membership) (raw now)) (instances db)));
          if has_live_owner : bool then fail NameInUse
          else
            _ ← execute (close_instances_where
                  (fun i => eqs (in_membership_id i) (raw membership)) (raw now));
            membership_record ← membership_by_id membership;
            squad ← squad_by_id (mr_squad_id membership_record);
            result ← insert_instance new_instance membership mode client_kind hostname token
                       a source now policy;
            mret {| sc_membership := membership_record; sc_squad := squad; sc_instance := result |}
    end).
End Authenticated.

(** ** Read-only operations *)
#[global] Instance squad_by_name_read_only n : ReadOnly (squad_by_name n).
Proof. unfold squad_by_name. apply _. Qed.
#[global] Instance squad_by_id_read_only n : ReadOnly (squad_by_id n).
Proof. unfold squad_by_id. apply _. Qed.
#[global] Instance membership_by_id_read_only n : ReadOnly (membership_by_id n).
Proof. unfold membership_by_id. apply _. Qed.
#[global] Instance message_view_on_read_only m : ReadOnly (message_view_on m).
Proof. unfold message_view_on. apply _. Qed.
#[global] Instance message_views_on_read_only ms : ReadOnly (message_views_on ms).
Proof. induction ms as [|m ms IH]; simpl; apply _. Qed.
#[global] Instance inject_join_claim_fault_read_only a p : ReadOnly (inject_join_claim_fault a p).
Proof. unfold inject_join_claim_fault. apply _. Qed.

Section ReadOnlyOperations.
Context `{Crypto}.
#[global] Instance authenticate_historical_read_only s : ReadOnly (authenticate_historical s).
Proof. unfold authenticate_historical. apply _. Qed.
#[global] Instance authorize_current_read_only s : ReadOnly (authorize_current s).
Proof. unfold authorize_current. apply _. Qed.
#[global] Instance existing_recipient_read_only i k : ReadOnly (existing_recipient i k).
Proof. unfold existing_recipient. apply _. Qed.
#[global] Instance highest_priority_read_only m : ReadOnly (highest_priority m).
Proof. unfold highest_priority. apply _. Qed.
#[global] Instance oldest_message_id_read_only m : ReadOnly (oldest_message_id m).
Proof. unfold oldest_message_id. apply _. Qed.
#[global] Instance replay_by_name_read_only s r i m : ReadOnly (replay_by_name s r i m).
Proof. unfold replay_by_name. apply _. Qed.
#[global] Instance pending_page_read_only s n : ReadOnly (authenticated_pending_page s n).
Proof. unfold authenticated_pending_page. apply _. Qed.
#[global] Instance pending_read_only s n : ReadOnly (authenticated_pending s n).
Proof. unfold authenticated_pending. apply _. Qed.
#[global] Instance transcript_read_only s q : ReadOnly (authenticated_transcript s q).
Proof. unfold authenticated_transcript. apply _. Qed.
#[global] Instance transcript_views_read_only s q : ReadOnly (authenticated_transcript_views s q).
Proof. unfold authenticated_transcript_views. apply _. Qed.
#[global] Instance authenticated_roster_read_only s n : ReadOnly (authenticated_roster s n).
Proof. unfold authenticated_roster. apply _. Qed.
End ReadOnlyOperations.
