(* ===== verification/Relay.v ===== *)
(** * Relay: the HTTP handlers and the store worker (psst-relay/src/lib.rs)

    A handler runs in [R], a state and error monad over the relay: the store's
    world, the notification registry, the clock, and what the environment has in
    stock (deliveries of commands to the worker, random bytes).  Requests arrive
    already decoded from JSON. *)
From Stdlib Require Import Ascii.
From S2P Require Import Prelude Text Core Credential Dto Validation Notify Sql Store Repository Instance Message Inbox Authenticated.

(** ** Configuration *)
Record RelayConfig : Set := {
  rc_bind_is_loopback : bool; rc_allow_lan : bool; rc_queue_capacity : Z; rc_request_timeout : Duration;
  rc_shutdown_timeout : Duration; rc_max_body_bytes : Z; rc_max_connections : Z;
  rc_max_in_flight_requests : Z; rc_log_level : string }.

Inductive ConfigError : Set := LanRequiresOptIn | OutOfBounds | InvalidLogLevel.

(** [EnvFilter::try_new(..).is_ok()] is a parameter. *)
Definition RelayConfig_validate (filter_ok : string -> bool) (self : RelayConfig) : Result ConfigError unit :=
  if negb (rc_bind_is_loopback self) && negb (rc_allow_lan self) then Err LanRequiresOptIn
  else if (rc_queue_capacity self =? 0) || (4096 <? rc_queue_capacity self)
     || (rc_request_timeout self =? 0)%N || (rc_shutdown_timeout self =? 0)%N
     || (rc_max_body_bytes self =? 0) || (1024 * 1024 <? rc_max_body_bytes self)
     || (rc_max_connections self =? 0) || (10000 <? rc_max_connections self)
     || (rc_max_in_flight_requests self =? 0) || (10000 <? rc_max_in_flight_requests self)
  then Err OutOfBounds
  else if filter_ok (rc_log_level self) then Ok tt else Err InvalidLogLevel.

(** ** Errors *)
Inductive DispatchError : Set := DiRateLimited | DiUnavailable | DiTimeout | DiStore (e : RepositoryError).

(** [impl From<DispatchError> for ApiFailure]. *)
Definition ApiFailure_from (error : DispatchError) : ApiErrorCode :=
  match error with
  | DiRateLimited => ApiRateLimited
  | DiUnavailable | DiTimeout => ApiDatabaseBusy
  | DiStore error =>
      match RepositoryError_code error with
      | EcInvalidRequest => ApiInvalidRequest
      | EcNotFound => ApiNotFound
      | EcSquadArchived => ApiSquadArchived
      | EcNotMember => ApiNotMember
      | EcNameInUse => ApiNameInUse
      | EcLeaseExpired => ApiLeaseExpired
      | EcRecipientNotFound => ApiRecipientNotFound
      | EcIdempotencyConflict => ApiIdempotencyConflict
      | EcPayloadTooLarge => ApiPayloadTooLarge
      | EcRateLimited => ApiRateLimited
      | EcDatabaseBusy => ApiDatabaseBusy
      | _ => ApiInternalError
      end
  end.

Definition failure_message (code : ApiErrorCode) : string :=
  match code with
  | ApiInvalidRequest => "The request is invalid."
  | ApiNotFound => "The requested resource was not found."
  | ApiSquadArchived => "The squad is archived."
  | ApiNotMember => "The session is not an active member."
  | ApiNameInUse => "The requested name is in use."
  | ApiLeaseExpired => "The session lease has expired."
  | ApiRecipientNotFound => "The recipient was not found."
  | ApiIdempotencyConflict => "The idempotency key conflicts."
  | ApiPayloadTooLarge => "The payload is too large."
  | ApiRateLimited => "The relay is busy; retry later."
  | ApiDatabaseBusy => "The database is busy; retry later."
  | ApiInternalError => "The relay encountered an internal error."
  end.

(** [impl IntoResponse for ApiFailure]: the status and the body. *)
Definition into_response (self : ApiErrorCode) : Z * ErrorBody :=
  let retryable := match self with ApiRateLimited | ApiDatabaseBusy => true | _ => false end in
  (http_status self,
   {| eb_code := self; eb_message := failure_message self; eb_retryable := retryable; eb_details := [] |}).

(** ** Long-poll allowance

    [path] and [query] are the parts of the request's URI. *)
(** [str::parse::<u8>] on ASCII digits. *)
Definition parse_digits (s : string) : Z := fold_left (fun n b => 10 * n + (byte_val b - 48)) (as_bytes s) 0.
Definition parse_u8 (s : string) : option Z :=
  let n := parse_digits s in if n <=? 255 then Some n else None.

Fixpoint scan_wait (wait : option Z) (pairs : list string) : option (option Z) :=
  match pairs with
  | [] => Some wait
  | item :: rest =>
      '(name, value) ← split_once "=" item;
      if bool_decide (name = "wait") then
        if negb (bool_decide (wait = None)) || is_empty value || negb (forallb is_ascii_digit (as_bytes value))
        then None
        else
          seconds ← parse_u8 value;
          if 30 <? seconds then None else scan_wait (Some seconds) rest
      else scan_wait wait rest
  end.

Definition inbox_wait_allowance (path : string) (query : option string) : option Duration :=
  if bool_decide (path <> "/v1/inbox") then None
  else
    q ← query;
    wait ← scan_wait None (split_on "&" q);
    (fun seconds => Duration_from_secs (Z.to_N seconds)) <$> wait.

(** ** The relay and its monad *)

(** The fate of a command sent to the worker's bounded queue: answered; refused by a
    full or closed queue; cancelled at shutdown; or answered too late, before or
    after it ran.  The queue is first-in first-out, so a command that is answered
    too late still runs before every command sent after it. *)
Inductive Delivery : Set := Replied | QueueFull | QueueClosed | Cancelled | TimedOut (ran : bool).

Section Relay.
Context `{Crypto} `{HttpHeaders} `{TimeCrate} `{Watch} `{Semaphores} `{SerdeJson}.

Record Relay : Type := {
  rl_world : World; rl_registry : NotificationRegistry; rl_clock : nat -> UnixMillis; rl_tick : nat;
  rl_deliveries : list Delivery; rl_random : list (option string) }.

Definition set_world (r : Relay) (w : World) : Relay :=
  {| rl_world := w; rl_registry := rl_registry r; rl_clock := rl_clock r; rl_tick := rl_tick r;
     rl_deliveries := rl_deliveries r; rl_random := rl_random r |}.
Definition set_registry (r : Relay) (registry : NotificationRegistry) : Relay :=
  {| rl_world := rl_world r; rl_registry := registry; rl_clock := rl_clock r; rl_tick := rl_tick r;
     rl_deliveries := rl_deliveries r; rl_random := rl_random r |}.

Definition R (A : Type) : Type := Relay -> Result ApiErrorCode A * Relay.
#[global] Instance R_ret : MRet R := fun A a r => (Ok a, r).
#[global] Instance R_bind : MBind R := fun A B k m r =>
  match m r with (Ok a, r') => k a r' | (Err e, r') => (Err e, r') end.
Definition refuse_with {A} (code : ApiErrorCode) : R A := fun r => (Err code, r).
Definition pure {A} (x : Result ApiErrorCode A) : R A := fun r => (x, r).

(** ** The worker *)
Definition Job (A : Type) : Type := Relay -> Result RepositoryError A * Relay.

Definition on_store {A} (m : M A) : Job A := fun r =>
  let '(x, w) := m (rl_world r) in (x, set_world r w).
(** [clock.now()]. *)
Definition at_now {A} (k : UnixMillis -> Job A) : Job A := fun r =>
  k (rl_clock r (rl_tick r))
    {| rl_world := rl_world r; rl_registry := rl_registry r; rl_clock := rl_clock r; rl_tick := S (rl_tick r);
       rl_deliveries := rl_deliveries r; rl_random := rl_random r |}.

(** [StoreWorker::dispatch] and the worker's loop, for one command. *)
Definition dispatch {A} (job : Job A) : R A := fun r =>
  let '(delivery, rest) := match rl_deliveries r with [] => (Replied, []) | d :: ds => (d, ds) end in
  let r := {| rl_world := rl_world r; rl_registry := rl_registry r; rl_clock := rl_clock r; rl_tick := rl_tick r;
              rl_deliveries := rest; rl_random := rl_random r |} in
  match delivery with
  | QueueFull => (Err (ApiFailure_from DiRateLimited), r)
  | QueueClosed | Cancelled => (Err (ApiFailure_from DiUnavailable), r)
  | TimedOut ran => (Err (ApiFailure_from DiTimeout), if ran : bool then (job r).2 else r)
  | Replied =>
      match job r with
      | (Ok a, r') => (Ok a, r')
      | (Err e, r') => (Err (ApiFailure_from (DiStore e)), r')
      end
  end.

Definition session_at (credential : SessionCredential) (now : UnixMillis) : AuthenticatedSession :=
  {| as_instance_id := cr_instance_id credential; as_resume_token := cr_resume_token credential; as_now := now |}.

Record WorkerJoin : Set := {
  wj_membership : JoinMembership; wj_instance_id : InstanceId; wj_mode : AgentMode; wj_client_kind : string;
  wj_hostname : option string; wj_availability : Availability; wj_availability_source : AvailabilitySource;
  wj_lease_policy : LeasePolicy }.
Record WorkerCreateSquad : Set := { wc_id : SquadId; wc_name : SquadName; wc_mission : Mission }.
Record WorkerResume : Set := {
  wr_prior : SessionCredential; wr_squad : SquadName; wr_new_instance : InstanceId; wr_mode : AgentMode;
  wr_client_kind : string; wr_hostname : option string; wr_availability : Availability;
  wr_availability_source : AvailabilitySource; wr_lease_policy : LeasePolicy }.

Definition with_joined_at (m : JoinMembership) (now : UnixMillis) : JoinMembership :=
  {| jm_squad_name := jm_squad_name m; jm_mission_if_missing := jm_mission_if_missing m;
     jm_squad_id_if_missing := jm_squad_id_if_missing m; jm_agent_id := jm_agent_id m;
     jm_membership_id := jm_membership_id m; jm_member_name := jm_member_name m; jm_role := jm_role m;
     jm_joined_at := now |}.

Definition work_join (request : WorkerJoin) : Job JoinAndClaimOutcome := at_now (fun now =>
  on_store (join_and_claim {| jc_membership := with_joined_at (wj_membership request) now;
    jc_instance_id := wj_instance_id request; jc_mode := wj_mode request;
    jc_client_kind := wj_client_kind request; jc_hostname := wj_hostname request;
    jc_availability := wj_availability request; jc_availability_source := wj_availability_source request;
    jc_lease_policy := wj_lease_policy request |})).
Definition work_list_squads : Job (list SquadRecord) := on_store list_squads.
Definition work_create_squad (request : WorkerCreateSquad) : Job SquadRecord := at_now (fun now =>
  on_store (create_squad {| cs_id := wc_id request; cs_name := wc_name request;
    cs_mission := wc_mission request; cs_created_at := now |})).
Definition work_describe_squad (name : SquadName) : Job SquadRecord := on_store (describe_squad name).
Definition work_roster (c : SessionCredential) (name : SquadName) : Job (list RosterMember) :=
  at_now (fun now => on_store (authenticated_roster (session_at c now) name)).
Definition work_heartbeat (c : SessionCredential) (a : Availability) (source : AvailabilitySource)
    (policy : LeasePolicy) : Job InstanceRecord :=
  at_now (fun now => on_store (authenticated_heartbeat (session_at c now) a source policy)).
(** A successful send notifies the waiters of its recipient. *)
Definition work_send (c : SessionCredential) (request : SendByName) : Job SendOutcome := at_now (fun now r =>
  match on_store (authenticated_send_by_name (session_at c now) request) r with
  | (Ok outcome, r') =>
      (Ok outcome, set_registry r' (notify (rl_registry r')
         (sem_recipient (me_semantics (mv_message (so_message outcome))))))
  | (Err e, r') => (Err e, r')
  end).
Definition work_pending (c : SessionCredential) (max : Z) : Job InboxPage :=
  at_now (fun now => on_store (authenticated_pending_page (session_at c now) max)).
Definition work_acknowledge (order : list MessageId -> list MessageId) (c : SessionCredential)
    (ids : list MessageId) : Job unit :=
  at_now (fun now => on_store (authenticated_acknowledge order (session_at c now) ids)).
Definition work_transcript (c : SessionCredential) (q : TranscriptByName) : Job (list MessageView) :=
  at_now (fun now => on_store (authenticated_transcript_views (session_at c now) q)).
Definition work_leave (c : SessionCredential) (squad : SquadName) : Job LeaveOutcome :=
  at_now (fun now => on_store (authenticated_leave (session_at c now) squad)).
Definition work_archive (c : SessionCredential) (squad : SquadName) : Job SquadRecord :=
  at_now (fun now => on_store (authenticated_archive_by_name (session_at c now) squad)).
Definition work_resume (q : WorkerResume) : Job SessionContext := at_now (fun now =>
  on_store (authenticated_resume (cr_instance_id (wr_prior q)) (cr_resume_token (wr_prior q))
    (wr_new_instance q) (wr_mode q) (wr_client_kind q) (wr_hostname q) (wr_availability q)
    (wr_availability_source q) now (wr_lease_policy q) (wr_squad q))).

(** ** Requests *)
Definition parsed {T} (value : Result InvalidValue T) : Result ApiErrorCode T :=
  map_err (fun _ => ApiInvalidRequest) value.

(** [request.validate().map_err(..)?] *)
Definition validated `{Validate T} (request : T) : R unit :=
  pure (map_err (fun _ => ApiInvalidRequest) (validate request)).

Definition credential (headers : Headers) : Result ApiErrorCode SessionCredential :=
  match header_get_all AUTHORIZATION_HEADER headers with
  | [value] =>
      text ← ok_or (header_to_str value) ApiNotFound;
      map_err (fun _ => ApiNotFound) (parse_authorization text)
  | _ => Err ApiNotFound
  end.

Definition identifier {T} (prefix : string) (make : string -> Result InvalidValue T) : R T := fun r =>
  let '(random, rest) := match rl_random r with [] => (None, []) | x :: xs => (x, xs) end in
  let r := {| rl_world := rl_world r; rl_registry := rl_registry r; rl_clock := rl_clock r; rl_tick := rl_tick r;
              rl_deliveries := rl_deliveries r; rl_random := rest |} in
  match random with
  | None => (Err ApiInternalError, r)
  | Some bytes => (parsed (make (prefix +:+ "_" +:+ hex bytes)), r)
  end.

(** ** Data transfer *)
Definition timestamp_dto (value : UnixMillis) : Result ApiErrorCode ApiTimestamp :=
  time ← ok_or (from_unix_timestamp_nanos (raw value * 1000000)) ApiInternalError;
  map_err (fun _ => ApiInternalError) (ApiTimestamp_new time).

Definition squad_dto (value : SquadRecord) : Result ApiErrorCode SquadSummary :=
  created_at ← timestamp_dto (sr_created_at value);
  archived_at ← opt_try timestamp_dto (sr_archived_at value);
  Ok {| ss_id := raw (sr_id value); ss_name := raw (sr_name value); ss_mission := raw (sr_mission value);
        ss_state := match sr_state value with SqActive => SqActiveDto | SqArchived => SqArchivedDto end;
        ss_created_at := created_at; ss_archived_at := archived_at |}.

Definition mode_of (value : AgentModeDto) : AgentMode :=
  match value with CooperativeDto => Cooperative | ScheduledDto => Scheduled | HarnessedDto => Harnessed end.
Definition mode_dto (value : AgentMode) : AgentModeDto :=
  match value with Cooperative => CooperativeDto | Scheduled => ScheduledDto | Harnessed => HarnessedDto end.
Definition availability_of (value : AvailabilityDto) : Availability :=
  match value with IdleDto => Idle | BusyDto => Busy | BlockedDto => Blocked | AvUnknownDto => AvUnknown end.
Definition availability_dto (value : Availability) : AvailabilityDto :=
  match value with Idle => IdleDto | Busy => BusyDto | Blocked => BlockedDto | AvUnknown => AvUnknownDto end.
Definition source_of (value : AvailabilitySourceDto) : AvailabilitySource :=
  match value with
  | SessionLifecycleDto => SessionLifecycle | McpConnectionDto => McpConnection
  | ToolActivityDto => ToolActivity | AgentReportedDto => AgentReported | SrcUnknownDto => SrcUnknown
  end.
Definition source_dto (value : AvailabilitySource) : AvailabilitySourceDto :=
  match value with
  | SessionLifecycle => SessionLifecycleDto | McpConnection => McpConnectionDto
  | ToolActivity => ToolActivityDto | AgentReported => AgentReportedDto | SrcUnknown => SrcUnknownDto
  end.
Definition priority_of (value : MessagePriorityDto) : MessagePriority :=
  match value with NormalDto => Normal | HighDto => High end.
Definition priority_dto (value : MessagePriority) : MessagePriorityDto :=
  match value with Normal => NormalDto | High => HighDto end.

(** [u32::try_from(value.as_secs())]. *)
Definition seconds (value : Duration) : Result ApiErrorCode Z :=
  if as_secs value <=? 2 ^ 32 - 1 then Ok (as_secs value) else Err ApiInternalError.

Definition session_response (membership : MembershipRecord) (squad : SquadRecord) (instance : InstanceRecord)
    : Result ApiErrorCode SessionResponse :=
  squad ← squad_dto squad;
  heartbeat ← seconds (ir_heartbeat_interval instance);
  lease ← seconds (ir_lease_duration instance);
  expires ← timestamp_dto (ir_lease_expires_at instance);
  Ok {| sep_agent_id := raw (mr_agent_id membership); sep_membership_id := raw (mr_id membership);
        sep_instance_id := raw (ir_id instance); sep_squad := squad; sep_member_name := raw (mr_name membership);
        sep_role := raw (mr_role membership); sep_heartbeat_interval_seconds := heartbeat;
        sep_lease_seconds := lease; sep_lease_expires_at := expires |}.

Definition issued_response (body : SessionResponse) (instance : InstanceId) (token : ResumeToken)
    : Result ApiErrorCode (Headers * SessionResponse) :=
  authority ← map_err (fun _ => ApiInternalError)
    (parse_session_value (raw instance +:+ "." +:+ expose_encoded token));
  issued ← map_err (fun _ => ApiInternalError) (IssuedSessionHeaders_new authority);
  Ok (IssuedSessionHeaders_apply issued [], body).

Definition message_dto (value : MessageView) : Result ApiErrorCode MessageDto :=
  let m := mv_message value in
  let s := me_semantics m in
  sequence ← map_err (fun _ => ApiInternalError) (MessageSequence_new (me_sequence m));
  created_at ← timestamp_dto (me_created_at m);
  acknowledged_at ← opt_try timestamp_dto (mv_acknowledged_at value);
  Ok {| md_sequence := sequence; md_id := raw (me_id m); md_squad := raw (mv_squad value);
        md_sender := raw (mv_sender value); md_recipient := raw (mv_recipient value);
        md_body := raw (sem_body s); md_priority := priority_dto (sem_priority s);
        md_reply_to := raw <$> sem_reply_to s; md_correlation_id := raw <$> sem_correlation_id s;
        md_created_at := created_at; md_acknowledged_at := acknowledged_at |}.

Definition roster_member_dto (value : RosterMember) : Result ApiErrorCode RosterMemberDto :=
  let m := rm_membership value in
  let a := rm_availability value in
  observed ← timestamp_dto (obs_observed_at a);
  last_seen ← opt_try timestamp_dto (rm_last_seen_at value);
  Ok {| rmd_membership_id := raw (mr_id m); rmd_name := raw (mr_name m); rmd_role := raw (mr_role m);
        rmd_membership_state := match mr_left_at m with Some _ => LeftDto | None => JoinedDto end;
        rmd_presence := match rm_presence value with PresenceOnline => OnlineDto | PresenceOffline => OfflineDto end;
        rmd_availability := availability_dto (obs_availability a);
        rmd_availability_source := source_dto (obs_source a);
        rmd_availability_observed_at := observed; rmd_mode := mode_dto <$> rm_mode value;
        rmd_last_seen_at := last_seen |}.

(** The response body of [encode_inbox]. *)
Definition inbox_response (page : InboxPage) : Result ApiErrorCode InboxResponse :=
  messages ← try_collect message_dto (ip_messages page);
  Ok {| ibr_messages := messages; ibr_pending_count := ip_pending_count page;
        ibr_highest_priority := priority_dto <$> ip_highest_priority page;
        ibr_oldest_message_id := raw <$> ip_oldest_message_id page |}.
Definition encode_inbox (page : InboxPage) : Result ApiErrorCode string :=
  response ← inbox_response page;
  map_err (fun _ => ApiPayloadTooLarge) (encode_bounded_inbox response).

(** ** Handlers *)
Definition handle_list_squads : R (list SquadSummary) :=
  values ← dispatch work_list_squads;
  pure (try_collect squad_dto values).

Definition handle_create_squad (request : CreateSquadRequest) : R SquadSummary :=
  _ ← validated request;
  id ← identifier "sqd" SquadId_new;
  name ← pure (parsed (SquadName_new (csr_name request)));
  mission ← pure (parsed (Mission_new (csr_mission request)));
  result ← dispatch (work_create_squad {| wc_id := id; wc_name := name; wc_mission := mission |});
  pure (squad_dto result).

Definition handle_describe_squad (squad : string) : R SquadSummary :=
  name ← pure (parsed (SquadName_new squad));
  result ← dispatch (work_describe_squad name);
  pure (squad_dto result).

Definition epoch : UnixMillis := Checked millis_ok 0 I.

Definition handle_join_squad (squad : string) (request : JoinSquadRequest) : R (Headers * SessionResponse) :=
  _ ← validated request;
  squad_name ← pure (parsed (SquadName_new squad));
  mission ← pure (map_err (fun _ => ApiInvalidRequest) (opt_try Mission_new (jsr_mission request)));
  squad_id ← identifier "sqd" SquadId_new;
  agent_id ← identifier "agt" AgentId_new;
  membership_id ← identifier "mem" MembershipId_new;
  member_name ← pure (parsed (MemberName_new (jsr_name request)));
  role ← pure (parsed (Role_new (jsr_role request)));
  instance_id ← identifier "ins" InstanceId_new;
  outcome ← dispatch (work_join {|
    wj_membership := {| jm_squad_name := squad_name; jm_mission_if_missing := mission;
      jm_squad_id_if_missing := squad_id; jm_agent_id := agent_id; jm_membership_id := membership_id;
      jm_member_name := member_name; jm_role := role; jm_joined_at := epoch |};
    wj_instance_id := instance_id; wj_mode := mode_of (jsr_mode request);
    wj_client_kind := cm_kind (jsr_client request); wj_hostname := cm_hostname (jsr_client request);
    wj_availability := AvUnknown; wj_availability_source := SrcUnknown; wj_lease_policy := LeasePolicy_default |});
  let instance := co_instance (jo_claim outcome) in
  body ← pure (session_response (jo_membership outcome) (jo_squad outcome) instance);
  pure (issued_response body (ir_id instance) (co_resume_token (jo_claim outcome))).

Definition handle_resume_squad (squad : string) (headers : Headers) (request : ResumeSquadRequest)
    : R (Headers * SessionResponse) :=
  _ ← validated request;
  prior ← pure (credential headers);
  name ← pure (parsed (SquadName_new squad));
  new_instance ← identifier "ins" InstanceId_new;
  context ← dispatch (work_resume {| wr_prior := prior; wr_squad := name; wr_new_instance := new_instance;
    wr_mode := mode_of (rsr_mode request); wr_client_kind := cm_kind (rsr_client request);
    wr_hostname := cm_hostname (rsr_client request); wr_availability := AvUnknown;
    wr_availability_source := SrcUnknown; wr_lease_policy := LeasePolicy_default |});
  body ← pure (session_response (sc_membership context) (sc_squad context) (sc_instance context));
  pure (issued_response body (ir_id (sc_instance context)) (cr_resume_token prior)).

Definition handle_leave_squad (squad : string) (headers : Headers) : R LeaveSquadResponse :=
  c ← pure (credential headers);
  name ← pure (parsed (SquadName_new squad));
  result ← dispatch (work_leave c name);
  left_at ← pure (timestamp_dto (lo_left_at result));
  mret {| lsr_membership_id := raw (lo_membership_id result); lsr_left_at := left_at |}.

Definition handle_archive_squad (squad : string) (headers : Headers) : R ArchiveSquadResponse :=
  c ← pure (credential headers);
  name ← pure (parsed (SquadName_new squad));
  result ← dispatch (work_archive c name);
  squad ← pure (squad_dto result);
  mret {| asr_squad := squad |}.

Definition handle_roster (squad : string) (headers : Headers) : R RosterResponse :=
  name ← pure (parsed (SquadName_new squad));
  c ← pure (credential headers);
  members ← dispatch (work_roster c name);
  members ← pure (try_collect roster_member_dto members);
  mret {| ror_squad := raw name; ror_members := members |}.

Definition handle_heartbeat (headers : Headers) (request : HeartbeatRequest) : R HeartbeatResponse :=
  _ ← validated request;
  c ← pure (credential headers);
  record ← dispatch (work_heartbeat c (availability_of (hbr_availability request))
                       (source_of (hbr_availability_source request)) LeasePolicy_default);
  expires ← pure (timestamp_dto (ir_lease_expires_at record));
  interval ← pure (seconds (ir_heartbeat_interval record));
  mret {| hbp_lease_expires_at := expires; hbp_heartbeat_interval_seconds := interval |}.

Definition handle_send_message (headers : Headers) (request : SendMessageRequest) : R SendMessageResponse :=
  if MAX_BYTES <? len (smr_body request) then refuse_with ApiPayloadTooLarge
  else
    _ ← validated request;
    c ← pure (credential headers);
    id ← identifier "msg" MessageId_new;
    recipient ← pure (parsed (MemberName_new (smr_recipient request)));
    pin ← pure (map_err (fun _ => ApiInvalidRequest) (opt_try MembershipId_new (smr_recipient_membership_id request)));
    body ← pure (parsed (MessageBody_new (smr_body request)));
    key ← pure (parsed (DedupeKey_new (smr_dedupe_key request)));
    reply_to ← pure (map_err (fun _ => ApiInvalidRequest) (opt_try MessageId_new (smr_reply_to request)));
    correlation ← pure (map_err (fun _ => ApiInvalidRequest) (opt_try CorrelationId_new (smr_correlation_id request)));
    outcome ← dispatch (work_send c {| sn_id := id; sn_recipient := recipient; sn_recipient_membership_id := pin;
      sn_body := body; sn_priority := priority_of (smr_priority request); sn_dedupe_key := key;
      sn_reply_to := reply_to; sn_correlation_id := correlation |});
    message ← pure (message_dto (so_message outcome));
    mret {| smp_message := message; smp_idempotent_replay := so_idempotent_replay outcome |}.

(** *** The inbox and its long poll *)

(** What ends one wait of the loop, in the bias order of [select!]: shutdown, the
    deadline, or the subscription's receiver (changed, or its channel closed);
    and what the rest of the relay did in the meantime. *)
Inductive Wake : Set := WakeShutdown | WakeDeadline | WakeChanged | WakeClosed.
Definition Schedule : Type := list ((Relay -> Relay) * Wake).

(** The schedule is finite because the deadline is: an exhausted one is the deadline. *)
Fixpoint wait_for_mail (c : SessionCredential) (max : Z) (page : InboxPage) (schedule : Schedule) : R InboxPage :=
  if negb (ip_pending_count page =? 0) then mret page
  else match schedule with
  | [] => mret page
  | (others, wake) :: rest => fun r =>
      match wake with
      | WakeShutdown | WakeClosed => (Err ApiDatabaseBusy, others r)
      | WakeDeadline => (Ok page, others r)
      | WakeChanged => (page ← dispatch (work_pending c max); wait_for_mail c max page rest) (others r)
      end
  end.

(** A subscription is dropped on every way out of the scope that holds it. *)
Definition with_subscription {A} (membership : MembershipId) (body : R A) : R A := fun r =>
  match subscribe (rl_registry r) membership with
  | None => (Err ApiRateLimited, r)
  | Some (registry, subscription) =>
      let '(result, r') := body (set_registry r registry) in
      (result, set_registry r' (drop_subscription (rl_registry r') subscription))
  end.

Definition handle_inbox (headers : Headers) (query : InboxQueryDto) (schedule : Schedule) : R string :=
  if negb (contains 1 100 (iqd_limit query)) || (30 <? iqd_wait_seconds query) then refuse_with ApiInvalidRequest
  else
    c ← pure (credential headers);
    page ← dispatch (work_pending c (iqd_limit query));
    page ← (if (ip_pending_count page =? 0) && (0 <? iqd_wait_seconds query) then
              with_subscription (ip_recipient_membership page) (
                page ← dispatch (work_pending c (iqd_limit query));
                wait_for_mail c (iqd_limit query) page schedule)
            else mret page);
    pure (encode_inbox page).

(** The loop over the ids: the first occurrence of each, as text and parsed. *)
Fixpoint distinct_ids (seen : list MessageId) (values : list string)
    : Result ApiErrorCode (list string * list MessageId) :=
  match values with
  | [] => Ok ([], [])
  | value :: rest =>
      id ← parsed (MessageId_new value);
      if bool_decide (id ∈ seen) then distinct_ids seen rest
      else
        '(texts, ids) ← distinct_ids (id :: seen) rest;
        Ok (value :: texts, id :: ids)
  end.

Definition handle_acknowledge_messages (order : list MessageId -> list MessageId) (headers : Headers)
    (request : AckMessagesRequest) : R AckMessagesResponse :=
  _ ← validated request;
  '(acknowledged_ids, ids) ← pure (distinct_ids [] (amr_message_ids request));
  c ← pure (credential headers);
  _ ← dispatch (work_acknowledge order c ids);
  mret {| amp_acknowledged_ids := acknowledged_ids |}.

Definition handle_transcript (squad : string) (headers : Headers) (query : TranscriptQueryDto) : R TranscriptResponse :=
  if negb (contains 1 100 (tqd_limit query)) then refuse_with ApiInvalidRequest
  else
    c ← pure (credential headers);
    name ← pure (parsed (SquadName_new squad));
    views ← dispatch (work_transcript c {| tn_squad := name; tn_after := raw (tqd_after query); tn_limit := tqd_limit query |});
    messages ← pure (try_collect message_dto views);
    mret {| trr_messages := messages; trr_next_after := md_sequence <$> last messages |}.
End Relay.
