(* ===== verification/Invariant.v ===== *)
(** * Invariant: well-formed databases, and that every SQL statement keeps them so

    [wf] collects the schema's constraints (keys, foreign keys, partial unique
    indexes, CHECKs) and what the store's own writers add: every column decodes,
    message bodies match their hash, sequences increase, leases are ordered. *)
From S2P Require Import Prelude Text Core Sql Store Repository Instance Message Inbox Authenticated.

(** ** Rows *)
Definition opt_ok {A} (ok : A -> bool) (o : option A) : bool :=
  match o with None => true | Some a => ok a end.

Definition squad_ok (r : SquadRow) : bool :=
  squad_checks r && id_ok "sqd" (sq_id r) && text_ok 64 valid_squad_name (sq_name r)
  && text_ok 4096 trimmed_nonempty (sq_mission r)
  && millis_ok (sq_created_at r) && opt_ok millis_ok (sq_archived_at r).

Definition membership_ok (r : MembershipRow) : bool :=
  membership_checks r && id_ok "mem" (mb_id r) && id_ok "sqd" (mb_squad_id r)
  && id_ok "agt" (mb_agent_id r) && text_ok 64 valid_member_name (mb_name r)
  && eqs (mb_normalized_name r) (mb_name r) && text_ok 256 trimmed_nonempty (mb_role r)
  && millis_ok (mb_joined_at r) && opt_ok millis_ok (mb_left_at r).

(** The availability and its source decode, and are both known or both unknown. *)
Definition observation_ok (a source : string) : bool :=
  match parse_availability (Some a), parse_availability_source (Some source) with
  | Ok a, Ok s => eqb (bool_decide (a = AvUnknown)) (bool_decide (s = SrcUnknown))
  | _, _ => false
  end.

Definition instance_ok (r : InstanceRow) : bool :=
  instance_checks r && id_ok "ins" (in_id r) && id_ok "mem" (in_membership_id r)
  && observation_ok (in_availability r) (in_availability_source r)
  && millis_ok (in_availability_observed_at r) && millis_ok (in_lease_expires_at r)
  && millis_ok (in_last_seen_at r) && millis_ok (in_created_at r)
  && opt_ok millis_ok (in_closed_at r)
  && (in_created_at r <=? in_last_seen_at r) && (in_last_seen_at r <=? in_lease_expires_at r).

Definition message_ok `{Crypto} (r : MessageRow) : bool :=
  message_checks r && eqs (ms_body_hash r) (sha256 (ms_body r))
  && id_ok "msg" (ms_id r) && id_ok "sqd" (ms_squad_id r) && id_ok "mem" (ms_sender r)
  && id_ok "mem" (ms_recipient r) && body_ok (ms_body r)
  && opt_ok (id_ok "msg") (ms_reply_to r)
  && opt_ok (text_ok 256 printable) (ms_correlation_id r)
  && match ms_dedupe_key r with Some k => text_ok 256 printable k | None => false end
  && millis_ok (ms_created_at r) && opt_ok millis_ok (ms_acknowledged_at r)
  && (1 <=? ms_sequence r).

(** ** Keys and indexes *)
Definition active_row (m : MembershipRow) : bool := is_null (mb_left_at m).
Definition open_row (i : InstanceRow) : bool := is_null (in_closed_at i).
Definition name_key (m : MembershipRow) : string * string := (mb_squad_id m, mb_normalized_name m).
Definition member_key (m : MembershipRow) : string * string := (mb_id m, mb_squad_id m).
Definition dedupe_key (m : MessageRow) : string * string * option string :=
  (ms_squad_id m, ms_sender m, ms_dedupe_key m).
Definition message_key (m : MessageRow) : string * string := (ms_id m, ms_squad_id m).

Record wf `{Crypto} (db : Database) : Prop := {
  wf_squads : Forall (fun r => squad_ok r = true) (squads db);
  wf_memberships : Forall (fun r => membership_ok r = true) (memberships db);
  wf_instances : Forall (fun r => instance_ok r = true) (instances db);
  wf_messages : Forall (fun r => message_ok r = true) (messages db);
  wf_squad_ids : NoDup (map sq_id (squads db));
  wf_squad_names : NoDup (map sq_name (squads db));
  wf_membership_ids : NoDup (map mb_id (memberships db));
  wf_active_names : NoDup (map name_key (where_ active_row (memberships db)));
  wf_instance_ids : NoDup (map in_id (instances db));
  wf_single_owner : NoDup (map in_membership_id (where_ open_row (instances db)));
  wf_message_ids : NoDup (map ms_id (messages db));
  wf_dedupe : NoDup (map dedupe_key (messages db));
  wf_fk_squad : Forall (fun m => mb_squad_id m ∈ map sq_id (squads db)) (memberships db);
  wf_fk_membership : Forall (fun i => in_membership_id i ∈ map mb_id (memberships db)) (instances db);
  wf_fk_sender : Forall (fun m => (ms_sender m, ms_squad_id m) ∈ map member_key (memberships db)) (messages db);
  wf_fk_recipient : Forall (fun m => (ms_recipient m, ms_squad_id m) ∈ map member_key (memberships db)) (messages db);
  wf_fk_reply : Forall (fun m => match ms_reply_to m with
                                 | Some p => (p, ms_squad_id m) ∈ map message_key (messages db)
                                 | None => True end) (messages db);
  wf_sorted : StronglySorted seq_lt (messages db);
  wf_seq : Forall (fun m => ms_sequence m <= message_seq db) (messages db);
  wf_seq_bound : 0 <= message_seq db <= i64_max }.

Section Preservation.
Context `{Crypto}.
Implicit Types db : Database.

Lemma wf_empty : wf empty_database.
Proof. constructor; simpl; try constructor; unfold i64_max; lia. Qed.

(** ** INSERT *)
Lemma wf_insert_squad r db n db' :
  wf db -> squad_ok r = true -> insert_squad r db = Ok (n, db') ->
  wf db' /\ n = 1 /\ db' = set_squads db (squads db ++ [r]).
Proof.
  intros Hwf Hr. unfold insert_squad. split_match; [done|]. split_match; [done|].
  intros [= <- <-]. split; [|done]. rewrite exists_where_false in E0.
  assert (forall s, s ∈ squads db -> sq_id s <> sq_id r /\ sq_name s <> sq_name r) as Hnew.
  { intros s Hs. specialize (E0 s Hs). bool_to_prop. by rewrite !eqs_false in *. }
  destruct Hwf; constructor; simpl; rewrite ?map_app; auto with psst.
  - apply Forall_app. auto.
  - apply NoDup_snoc; [done|]. intros (s & Hs & ?)%list_elem_of_fmap.
    by destruct (Hnew s).
  - apply NoDup_snoc; [done|]. intros (s & Hs & ?)%list_elem_of_fmap.
    by destruct (Hnew s).
Qed.

Lemma wf_insert_squad_or_nothing r db n db' :
  wf db -> squad_ok r = true -> insert_squad_or_nothing r db = Ok (n, db') ->
  wf db' /\ (n = 0 /\ db' = db \/ n = 1 /\ db' = set_squads db (squads db ++ [r])).
Proof.
  intros Hwf Hr. unfold insert_squad_or_nothing. split_match; [done|]. split_match.
  - intros [= <- <-]. auto.
  - intros Hi. destruct (wf_insert_squad _ _ _ _ Hwf Hr Hi) as (? & ? & ?). auto.
Qed.

Lemma insert_agent_db r db n db' :
  insert_agent r db = Ok (n, db') -> db' = set_agents db (agents db ++ [r]).
Proof. unfold insert_agent. split_match; [done|]. by intros [= _ <-]. Qed.

Lemma wf_set_agents db l : wf db -> wf (set_agents db l).
Proof. intros []; constructor; done. Qed.

(** What a successful INSERT INTO memberships establishes. *)
Lemma wf_insert_membership r db n db' :
  wf db -> membership_ok r = true -> mb_left_at r = None ->
  insert_membership_or_nothing r db = Ok (n, db') ->
  (n = 0 /\ db' = db)
  \/ (n = 1 /\ wf db' /\ db' = set_memberships db (memberships db ++ [r])
     /\ (mb_id r ∉ map mb_id (memberships db))
     /\ forall m, m ∈ memberships db -> mb_squad_id m = mb_squad_id r ->
           mb_normalized_name m = mb_normalized_name r -> mb_left_at m <> None).
Proof.
  intros Hwf Hr Hleft. unfold insert_membership_or_nothing. rewrite Hleft. simpl.
  split_match; [done|]. split_match; [intros [= <- <-]; auto|].
  split_match; [done|]. split_match; [done|]. intros [= <- <-]. right.
  rewrite exists_where_false in E0, E1. bool_to_prop.
  apply exists_where_true in H0 as (s & Hs & ?%eqs_true).
  assert (mb_id r ∉ map mb_id (memberships db)) as Hid.
  { intros (m & Hm & Hin)%list_elem_of_fmap. specialize (E1 m Hin).
    by rewrite eqs_false in E1. }
  assert (forall m, m ∈ memberships db -> mb_squad_id m = mb_squad_id r ->
           mb_normalized_name m = mb_normalized_name r -> mb_left_at m <> None) as Hname.
  { intros m Hm Hs1 Hn1 Hl. specialize (E0 m Hm). simpl in E0.
    rewrite Hs1, Hn1, !eqs_refl, Hl in E0. done. }
  split; [done|]. split; [|done].
  destruct Hwf; constructor; simpl; rewrite ?map_app; auto with psst.
  - apply Forall_app. auto.
  - by apply NoDup_snoc.
  - rewrite where_app. assert (where_ active_row [r] = [r]) as ->.
    { unfold where_, active_row. simpl. by rewrite Hleft. }
    rewrite map_app. apply NoDup_snoc; [done|].
    intros (m & Hk & Hin)%list_elem_of_fmap. apply elem_of_where in Hin as [Hin Ha].
    injection Hk as ? ?. apply (Hname m); auto. by apply is_null_true.
  - apply Forall_app. split; [done|]. constructor; [|done].
    apply list_elem_of_fmap. eauto.
Qed.

Lemma wf_insert_instance r db n db' :
  wf db -> instance_ok r = true -> in_closed_at r = None ->
  insert_instance_row r db = Ok (n, db') ->
  wf db' /\ db' = set_instances db (instances db ++ [r])
  /\ (in_id r ∉ map in_id (instances db))
  /\ (in_membership_id r ∉ map in_membership_id (where_ open_row (instances db))).
Proof.
  intros Hwf Hr Hclosed. unfold insert_instance_row. rewrite Hclosed. simpl.
  split_match; [done|]. split_match; [done|]. split_match; [done|]. split_match; [done|].
  intros [= <- <-]. rewrite exists_where_false in E0, E1. bool_to_prop.
  apply exists_where_true in E2 as (m & Hm & ?%eqs_true).
  assert (in_id r ∉ map in_id (instances db)) as Hid.
  { intros (i & Hi & Hin)%list_elem_of_fmap. specialize (E0 i Hin).
    by rewrite eqs_false in E0. }
  assert (in_membership_id r ∉ map in_membership_id (where_ open_row (instances db))) as Hopen.
  { intros (i & Hi & [Hin Ho]%elem_of_where)%list_elem_of_fmap. specialize (E1 i Hin).
    unfold open_row in Ho. rewrite Ho, Hi, eqs_refl in E1. done. }
  split; [|done].
  destruct Hwf; constructor; simpl; rewrite ?map_app; auto with psst.
  - apply Forall_app. auto.
  - by apply NoDup_snoc.
  - rewrite where_app. assert (where_ open_row [r] = [r]) as ->.
    { unfold where_, open_row. simpl. by rewrite Hclosed. }
    rewrite map_app. by apply NoDup_snoc.
  - apply Forall_app. split; [done|]. constructor; [|done].
    apply list_elem_of_fmap. eauto.
Qed.

(** INSERT INTO messages appends one row with the next sequence. *)
Lemma wf_insert_message r db n db' :
  wf db -> (forall q, 1 <= q -> message_ok (set_sequence r q) = true) ->
  insert_message r db = Ok (n, db') ->
  wf db' /\ n = message_seq db + 1
  /\ db' = set_messages db (messages db ++ [set_sequence r n]) n.
Proof.
  intros Hwf Hr. unfold insert_message. do 5 (split_match; [done|]).
  match goal with |- (if ?b then _ else _) = _ -> _ => destruct b eqn:E4; [done|] end.
  intros [= <- <-]. split; [|done].
  rewrite exists_where_false in E1, E2. bool_to_prop.
  unfold is_member in *. apply exists_where_true in H0 as (ms & Hms & Es).
  apply exists_where_true in H1 as (mr & Hmr & Er). bool_to_prop. rewrite eqs_true in *.
  set (n := message_seq db + 1) in *. set (r' := set_sequence r n).
  pose proof (wf_seq_bound _ Hwf) as Hb.
  assert (message_ok r' = true) as Hok by (apply Hr; lia).
  assert (is_Some (ms_dedupe_key r)) as [k Hk].
  { unfold message_ok in Hok. bool_to_prop. simpl in *. destruct (ms_dedupe_key r); [eauto|done]. }
  destruct Hwf; constructor; simpl; rewrite ?map_app; auto with psst.
  - apply Forall_app. auto.
  - apply NoDup_snoc; [done|]. intros (m & Hi & Hin)%list_elem_of_fmap.
    specialize (E1 m Hin). by rewrite eqs_false in E1.
  - apply NoDup_snoc; [done|]. intros (m & Hi & Hin)%list_elem_of_fmap.
    specialize (E2 m Hin). injection Hi as Hi1 Hi2 Hi3. unfold same_dedupe in E2.
    rewrite <- Hi3, Hk, <- Hi1, <- Hi2, !eqs_refl in E2. done.
  - apply Forall_app. split; [done|]. constructor; [|done].
    apply list_elem_of_fmap. exists ms. unfold member_key. simpl. split; [congruence|done].
  - apply Forall_app. split; [done|]. constructor; [|done].
    apply list_elem_of_fmap. exists mr. unfold member_key. simpl. split; [congruence|done].
  - apply Forall_app. split.
    + eapply Forall_impl; [exact wf_fk_reply0|]. intros m; simpl. destruct (ms_reply_to m); [|done].
      intros ?. apply elem_of_app. by left.
    + constructor; [|done]. simpl. destruct (ms_reply_to r) as [p|]; [|done].
      apply negb_false_iff, orb_true_iff in E4 as [Ep%eqs_true|E4]; apply elem_of_app.
      * right. subst p. by apply list_elem_of_singleton.
      * left. apply exists_where_true in E4 as (m & Hm & Em). bool_to_prop.
        rewrite eqs_true in *. apply list_elem_of_fmap. exists m. unfold message_key. split; [congruence|done].
  - apply StronglySorted_app_2; [|done|repeat constructor].
    intros a b Ha ->%list_elem_of_singleton. unfold seq_lt. simpl.
    rewrite Forall_forall in wf_seq0. specialize (wf_seq0 a Ha). lia.
  - apply Forall_app. split; [|by constructor].
    eapply Forall_impl; [exact wf_seq0|]. intros m; simpl; lia.
  - lia.
Qed.

(** ** UPDATE *)
Lemma wf_archive p now db n db' :
  wf db -> millis_ok now = true -> archive_squads_where p now db = Ok (n, db') -> wf db'.
Proof.
  intros Hwf Hnow [= _ <-]. destruct Hwf; constructor; simpl;
    rewrite ?update_where_keys by done; auto.
  eapply update_where_Forall; [|done]. intros r Hr _.
  unfold squad_ok, squad_checks in *. simpl. split_andb. solve_andb.
Qed.

Lemma wf_leave id now db n db' :
  wf db -> millis_ok now = true -> leave_membership_row id now db = Ok (n, db') -> wf db'.
Proof.
  intros Hwf Hnow [= _ <-]. destruct Hwf; constructor; simpl;
    rewrite ?update_where_keys by done; auto.
  - eapply update_where_Forall; [|done]. intros r Hr _.
    unfold membership_ok, membership_checks in *. simpl. split_andb. solve_andb.
  - by apply update_where_index.
  - by eapply update_where_Forall.
Qed.

Lemma wf_close p now db n db' :
  wf db -> millis_ok now = true -> close_instances_where p now db = Ok (n, db') -> wf db'.
Proof.
  intros Hwf Hnow [= _ <-]. destruct Hwf; constructor; simpl;
    rewrite ?update_where_keys by done; auto.
  - eapply update_where_Forall; [|done]. intros r Hr _.
    unfold instance_ok, instance_checks in *. simpl. split_andb. solve_andb.
  - by apply update_where_index.
  - by eapply update_where_Forall.
Qed.

(** The texts the writers produce satisfy the CHECKs and decode again. *)
Lemma observation_text_ok (a : Availability) (s : AvailabilitySource) now o :
  AvailabilityObservation_new a s now = Ok o ->
  observation_ok (availability a) (availability_source s) = true.
Proof. destruct a, s; intros Ho; (reflexivity || discriminate Ho). Qed.

Lemma availability_text_check (a : Availability) :
  (eqs (availability a) "idle" || eqs (availability a) "busy"
   || eqs (availability a) "blocked" || eqs (availability a) "unknown") = true.
Proof. by destruct a. Qed.
Lemma source_text_check (s : AvailabilitySource) : (0 <? sql_length (availability_source s)) = true.
Proof. by destruct s. Qed.
Lemma mode_text_check (m : AgentMode) :
  (eqs (mode_name m) "cooperative" || eqs (mode_name m) "scheduled"
   || eqs (mode_name m) "harnessed") = true.
Proof. by destruct m. Qed.

Lemma wf_heartbeat p a source now o observed expiry db n db' :
  wf db -> AvailabilityObservation_new a source now = Ok o ->
  millis_ok observed = true -> millis_ok expiry = true -> observed <= expiry ->
  (forall i, i ∈ instances db -> p i = true -> in_created_at i <= observed) ->
  heartbeat_instances_where p (availability a) (availability_source source) observed expiry db
    = Ok (n, db') -> wf db'.
Proof.
  intros Hwf Ho Hobs Hexp Hle Hcr [= _ <-]. destruct Hwf; constructor; simpl;
    rewrite ?update_where_keys by done; auto.
  - rewrite Forall_forall in *. intros r (r0 & Hr0 & ->)%elem_of_update.
    specialize (wf_instances0 r0 Hr0). destruct (p r0) eqn:Ep; [|done].
    specialize (Hcr r0 Hr0 Ep). unfold instance_ok, instance_checks in *. simpl. split_andb.
    solve_andb;
      first [apply availability_text_check | apply source_text_check
            | by eapply observation_text_ok | by apply Z.leb_le].
  - by apply update_where_index.
  - by eapply update_where_Forall.
Qed.

Lemma wf_ack id recipient now db n db' :
  wf db -> millis_ok now = true -> acknowledge_row id recipient now db = Ok (n, db') -> wf db'.
Proof.
  intros Hwf Hnow [= _ <-]. destruct Hwf; constructor; simpl;
    rewrite ?update_where_keys by done; auto.
  - eapply update_where_Forall; [|done]. intros r Hr _.
    unfold message_ok, message_checks in *. simpl. split_andb. solve_andb.
  - by eapply update_where_Forall.
  - by eapply update_where_Forall.
  - by eapply update_where_Forall.
  - assert (forall q l, StronglySorted seq_lt l ->
      StronglySorted seq_lt (update_where q (ack_row now) l)) as Hs; [|by apply Hs].
    intros q l. induction 1 as [|x l Hs IH Hf]; simpl; constructor; [done|].
    rewrite Forall_forall in *. intros y (y0 & Hy0 & ->)%elem_of_update.
    specialize (Hf y0 Hy0). unfold seq_lt in *. destruct (q x), (q y0); done.
  - by eapply update_where_Forall.
Qed.
End Preservation.
