(* ===== verification/Effects.v ===== *)
(** * Effects: what each store operation does to the database

    For every operation that writes, in every environment: on success, which
    statements took effect on which authority; on failure, nothing. *)
From S2P Require Import Prelude Text Core Sql Store Repository Instance Message Inbox Authenticated Invariant.

(** ** Decoding *)
Lemma map_err_Ok {E E' A} (f : E -> E') (r : Result E A) a : map_err f r = Ok a -> r = Ok a.
Proof. by destruct r; simpl; intros [= ->]. Qed.
Lemma ok_or_Ok {E A} (o : option A) (e : E) a : ok_or o e = Ok a -> o = Some a.
Proof. by destruct o; simpl; intros [= ->]. Qed.
Lemma map_err_new_Ok {E} `{Validator T new text} (f : InvalidValue -> E) v x :
  map_err f (new v) = Ok x -> text x = v.
Proof. intros Hx%map_err_Ok. by apply new_iff. Qed.
Lemma parse_Ok {E} `{Validator T new text} (f : SqlError -> E) v x :
  map_err f (parse new v) = Ok x -> text x = v.
Proof. intros Hx%map_err_Ok%map_err_Ok. by apply new_iff. Qed.

(** ** Squads and memberships *)
Lemma create_squad_effect req db rec db' :
  runs (create_squad req) db (Ok rec) db' ->
  exists n, insert_squad_or_nothing
    (new_squad_row (cs_id req) (cs_name req) (cs_mission req) (cs_created_at req)) db = Ok (n, db')
    /\ n <> 0.
Proof.
  intros H. unfold create_squad in H. inv_runs. bool_to_prop. eauto.
Qed.

Lemma archive_squad_effect name now db a db' :
  runs (archive_squad name now) db (Ok a) db' ->
  archive_squads_where (fun s => eqs (sq_name s) (raw name)) (raw now) db = Ok (1, db').
Proof.
  intros H. unfold archive_squad in H. inv_runs.
  - bool_to_prop. by subst.
  - destruct H as (w & w' & _ & Hm & _). destruct (describe_squad name w) as [[]]; [done|].
    by destruct e.
Qed.

(** The squad a join lands in exists after it. *)
Lemma repo_find_or_create_effect req db id db' :
  runs (Repository.find_or_create_squad req) db (Ok id) db' ->
  (db' = db /\ exists s, s ∈ squads db /\ sq_name s = raw (jm_squad_name req)
               /\ sq_id s = raw id /\ sq_state s <> "archived")
  \/ (exists mission n, jm_mission_if_missing req = Some mission /\ id = jm_squad_id_if_missing req
      /\ insert_squad (new_squad_row id (jm_squad_name req) mission (jm_joined_at req)) db = Ok (n, db')).
Proof.
  intros H. unfold Repository.find_or_create_squad in H. inv_runs.
  - left. split; [done|].
    apply optional_query_Some in R as (sq & [Hs Hn]%elem_of_where & _ & [= <- <-]). exists sq.
    rewrite eqs_true in Hn. match goal with E : eqs _ "archived" = false |- _ => rewrite eqs_false in E end. by apply parse_Ok in H.
  - right. destruct (jm_mission_if_missing req) as [m|]; simplify_eq/=. eauto.
Qed.

Lemma auth_find_or_create_effect req db id db' :
  runs (Authenticated.find_or_create_squad req) db (Ok id) db' ->
  (db' = db /\ exists s, s ∈ squads db /\ sq_name s = raw (jm_squad_name req)
               /\ sq_id s = raw id /\ sq_state s = "active")
  \/ (exists mission n, jm_mission_if_missing req = Some mission /\ id = jm_squad_id_if_missing req
      /\ insert_squad (new_squad_row id (jm_squad_name req) mission (jm_joined_at req)) db = Ok (n, db')).
Proof.
  intros H. unfold Authenticated.find_or_create_squad in H. inv_runs.
  - left. split; [done|].
    apply optional_query_Some in R as (sq & [Hs Hn]%elem_of_where & _ & [= <- <-]). exists sq.
    bool_to_prop. rewrite eqs_true in *. by apply map_err_new_Ok in H.
  - right. destruct (jm_mission_if_missing req) as [m|]; simplify_eq/=. eauto.
Qed.

Lemma join_effect req fault db rec db' :
  runs (join_with_fault req fault) db (Ok rec) db' ->
  exists id db1 db2 n, runs (Repository.find_or_create_squad req) db (Ok id) db1
    /\ db2 = set_agents db1 (agents db1 ++ [{| ag_id := raw (jm_agent_id req);
                                               ag_created_at := raw (jm_joined_at req) |}])
    /\ insert_membership_or_nothing (new_membership_row req id) db2 = Ok (n, db') /\ n <> 0
    /\ rec = new_membership_record req id.
Proof.
  intros H. unfold join_with_fault in H. inv_runs. drop_reads. bool_to_prop.
  match goal with Hi : insert_agent _ _ = _ |- _ => apply insert_agent_db in Hi end.
  subst. do 4 eexists. split; [eassumption|]. split; [reflexivity|]. by split; [eassumption|].
Qed.

Lemma leave_effect squad member now fault db a db' :
  runs (leave_with_fault squad member now fault) db (Ok a) db' ->
  exists n1 n2 db1,
    exists_where (active_member (raw member) (raw squad)) (memberships db) = true
    /\ close_instances_where (fun i => eqs (in_membership_id i) (raw member)) (raw now) db = Ok (n1, db1)
    /\ leave_membership_row (raw member) (raw now) db1 = Ok (n2, db').
Proof.
  intros H. unfold leave_with_fault in H. inv_runs. bool_to_prop. eauto 10.
Qed.

(** ** Owners *)
Section Owners.
Context `{Crypto}.

Lemma insert_instance_effect id member mode kind host token obs src now policy db rec db' :
  runs (insert_instance id member mode kind host token obs src now policy) db (Ok rec) db' ->
  exists expiry n, UnixMillis_checked_add now (lp_lease_duration policy) = Some expiry
    /\ insert_instance_row (new_instance_row id member mode kind host token obs src now expiry) db
       = Ok (n, db')
    /\ ir_id rec = id /\ ir_membership_id rec = member /\ ir_lease_expires_at rec = expiry
    /\ ir_created_at rec = now /\ ir_closed_at rec = None.
Proof.
  intros H1. unfold insert_instance in H1. inv_runs.
  destruct (UnixMillis_checked_add _ _) as [e|]; simplify_eq/=. eauto 10.
Qed.

Lemma claim_effect req db out db' :
  runs (claim_instance req) db (Ok out) db' ->
  validate_observation (ci_availability req) (ci_availability_source req) (ci_now req) = Ok tt
  /\ runs (require_active_membership (ci_membership_id req)) db (Ok tt) db
  /\ exists_where (fun i => eqs (in_membership_id i) (raw (ci_membership_id req))) (instances db) = false
  /\ runs (insert_instance (ci_id req) (ci_membership_id req) (ci_mode req)
             (ci_client_kind req) (ci_hostname req) (co_resume_token out) (ci_availability req)
             (ci_availability_source req) (ci_now req) (ci_lease_policy req)) db (Ok (co_instance out)) db'.
Proof.
  intros H1. unfold claim_instance in H1. inv_runs. drop_reads.
  auto.
Qed.

Lemma authenticate_iff stored token :
  authenticate stored token = Ok tt <-> stored = token_hash token.
Proof.
  unfold authenticate. split.
  - destruct (_ && _) eqn:E; [|done]. intros _. bool_to_prop. by apply eqs_true.
  - intros ->. by rewrite Z.eqb_refl, eqs_refl.
Qed.

Lemma stored_timestamp_Ok z (t : UnixMillis) : stored_timestamp z = Ok t -> raw t = z.
Proof.
  unfold stored_timestamp. destruct (UnixMillis_new z) eqn:E; simpl; [|done].
  intros [= <-]. by apply UnixMillis_new_iff.
Qed.

Lemma query_row_Ok_Some {R} (rows : list R) r :
  optional (query_row rows Ok) = Ok (Some r) -> r ∈ rows /\ head rows = Some r.
Proof. by intros (r' & Hr & Hh & [= ->])%optional_query_Some. Qed.
End Owners.

(** [decode]: turn the successful decodings of a run into facts on the stored values. *)
Ltac decode :=
  repeat match goal with
  | H : optional (query_row _ Ok) = Ok (Some _) |- _ => apply query_row_Ok_Some in H; destruct H
  | H : ok_or _ _ = Ok _ |- _ => apply ok_or_Ok in H; try subst
  | H : authenticate _ _ = Ok _ |- _ => apply authenticate_iff in H
  | H : stored_timestamp _ = Ok _ |- _ => apply stored_timestamp_Ok in H
  | H : map_err _ (authenticate _ _) = Ok _ |- _ => apply map_err_Ok in H
  | H : map_err _ (renew_lease _ _ _ _) = Ok _ |- _ => apply map_err_Ok in H
  | H : map_err _ (parse ?new _) = Ok _ |- _ => apply parse_Ok in H
  | H : map_err _ (?new _) = Ok _ |- _ => apply map_err_new_Ok in H
  end.

Section Commands.
Context `{Crypto}.

Lemma heartbeat_effect req db rec db' :
  runs (heartbeat_instance req) db (Ok rec) db' ->
  exists row expiry last_seen renewed n,
    validate_observation (hi_availability req) (hi_availability_source req) (hi_now req) = Ok tt
    /\ row ∈ owner_row db (hi_id req)
    /\ in_resume_token_hash row = token_hash (hi_resume_token req)
    /\ raw expiry = in_lease_expires_at row /\ raw last_seen = in_last_seen_at row
    /\ let now := UnixMillis_max (hi_now req) last_seen in
       renew_lease (InstanceState_at None expiry now) expiry now
         (lp_lease_duration (hi_lease_policy req)) = Ok renewed
    /\ heartbeat_instances_where
         (fun i => eqs (in_id i) (raw (hi_id req)) && is_null (in_closed_at i))
         (availability (hi_availability req)) (availability_source (hi_availability_source req))
         (raw now) (raw renewed) db = Ok (n, db')
    /\ ir_lease_expires_at rec = renewed /\ ir_last_seen_at rec = now.
Proof.
  intros H1. unfold heartbeat_instance in H1. inv_runs.
  decode. do 5 eexists. repeat (split; [eassumption|]). done.
Qed.

Lemma resume_effect req fault db rec db' :
  runs (resume_instance_with_fault req fault) db (Ok rec) db' ->
  exists row n db1,
    validate_observation (ri_availability req) (ri_availability_source req) (ri_now req) = Ok tt
    /\ runs (require_active_membership (ri_membership_id req)) db (Ok tt) db
    /\ head (predecessor db (ri_membership_id req)) = Some row
    /\ in_resume_token_hash row = token_hash (ri_resume_token req)
    /\ (in_closed_at row <> None \/ in_lease_expires_at row <= raw (ri_now req))
    /\ close_instances_where (fun i => eqs (in_membership_id i) (raw (ri_membership_id req)))
         (raw (ri_now req)) db = Ok (n, db1)
    /\ runs (insert_instance (ri_id req) (ri_membership_id req) (ri_mode req)
               (ri_client_kind req) (ri_hostname req) (ri_resume_token req) (ri_availability req)
               (ri_availability_source req) (ri_now req) (ri_lease_policy req)) db1 (Ok rec) db'.
Proof.
  intros H1. unfold resume_instance_with_fault in H1. inv_runs. drop_reads.
  decode.
  match goal with E : _ && _ = false |- _ =>
    apply andb_false_iff in E; rewrite is_null_false, Z.ltb_ge in E; rename E into Ex end.
  eexists _, _, _. do 4 (split; [eassumption|]). split; [|by split; [eassumption|]].
  destruct Ex as [[c ->]|]; [by left | by right].
Qed.

(** ** Messages *)

(** A successful send is an exact retry, which changes nothing, or one new row. *)
Inductive sent (req : SendMessage) (db : Database) (rec : MessageRecord) : Database -> Prop :=
| sent_replay :
    runs (find_by_dedupe req) db (Ok (Some rec)) db ->
    me_semantics rec = sm_semantics req -> sent req db rec db
| sent_fresh db' sequence :
    runs (find_by_dedupe req) db (Ok None) db ->
    runs (authorize_squad_and_members (sm_semantics req)) db (Ok tt) db ->
    insert_message (new_message_row req) db = Ok (sequence, db') ->
    rec = record_of_request req sequence -> sent req db rec db'.

Lemma resolve_retry_effect req db r db' :
  runs (resolve_retry req) db (Ok r) db' ->
  db' = db /\ exists found, runs (find_by_dedupe req) db (Ok found) db
    /\ match found with
       | None => r = None
       | Some rec => r <> None /\
           forall rec', r = Some (Ok rec') -> rec' = rec /\ me_semantics rec = sm_semantics req
       end.
Proof.
  intros H1. unfold resolve_retry in H1. inv_runs. drop_reads. split; [done|].
  eexists. split; [eassumption|]. destruct a as [rec|]; [|done]. simpl.
  split; [done|]. intros rec'. case_bool_decide; intros [= <-]; auto.
Qed.

Lemma send_in_transaction_effect req db rec db' :
  runs (send_in_transaction req) db (Ok rec) db' -> sent req db rec db'.
Proof.
  intros H1. unfold send_in_transaction in H1. inv_runs; drop_reads;
    apply resolve_retry_effect in R as (_ & [found|] & Hf & Hr); simplify_eq.
  - destruct Hr as [_ Hr]. destruct (Hr _ eq_refl) as [-> ?]. by apply sent_replay.
  - by destruct Hr.
  - by eapply sent_fresh.
Qed.

Lemma send_message_effect req db rec db' :
  runs (send_message req) db (Ok rec) db' -> sent req db rec db'.
Proof.
  intros H1. unfold send_message, send_message_with_commit_fault in H1. inv_runs.
  by apply send_in_transaction_effect.
Qed.

Lemma authorize_squad_and_members_effect sem db u db' :
  runs (authorize_squad_and_members sem) db (Ok u) db' ->
  (exists s, s ∈ squads db /\ sq_id s = raw (sem_squad sem) /\ sq_state s = "active")
  /\ exists_where (active_member (raw (sem_sender sem)) (raw (sem_squad sem))) (memberships db) = true
  /\ exists_where (active_member (raw (sem_recipient sem)) (raw (sem_squad sem))) (memberships db) = true.
Proof.
  intros H1. unfold authorize_squad_and_members in H1. inv_runs. bool_to_prop.
  split; [|done]. apply optional_query_Some in R as (sq & [Hs Es]%elem_of_where & _ & [= <-]).
  rewrite eqs_true in *. eauto.
Qed.

(** The ids that pass the ownership loop: the distinct ones, all owned. *)
Lemma collect_owned_effect recipient distinct ids db out db' :
  runs (collect_owned recipient distinct ids) db (Ok out) db' ->
  db' = db /\ (forall x, x ∈ out <-> x ∈ distinct \/ x ∈ ids)
  /\ (forall x, x ∈ out -> x ∈ distinct
       \/ exists m, m ∈ messages db /\ ms_id m = raw x /\ ms_recipient m = raw recipient).
Proof.
  revert distinct. induction ids as [|id ids IH]; intros distinct H1; simpl in H1.
  - inv_runs. split; [done|]. split; [|auto].
    intros x. split; [auto|]. by intros [|?%not_elem_of_nil].
  - case_bool_decide as Hd.
    + apply IH in H1 as (-> & Hin & Ho). split; [done|]. split; [|done].
      intros x. rewrite Hin, elem_of_cons. split; [tauto|]. by intros [?|[->|?]]; auto.
    + inv_runs. apply IH in H1 as (-> & Hin & Ho). split; [done|]. split.
      { intros x. rewrite Hin, elem_of_app, list_elem_of_singleton, elem_of_cons. tauto. }
      intros x [Hx|]%Ho; [|by right].
      apply elem_of_app in Hx as [?| ->%list_elem_of_singleton]; [by left|]. right.
      bool_to_prop. apply exists_where_true in E as (m & Hm & Em). bool_to_prop.
      rewrite eqs_true in *. eauto.
Qed.

(** Every listed id is acknowledged, whatever the order. *)
Definition ack_where (ids : list MessageId) (recipient : MembershipId) (now : Z) (m : MessageRow)
    : MessageRow :=
  if bool_decide (ms_id m ∈ map raw ids) && eqs (ms_recipient m) (raw recipient)
     && is_null (ms_acknowledged_at m)
  then ack_row now m else m.

Lemma ack_where_cons id ids recipient now db :
  set_messages db (map (ack_where (id :: ids) recipient now) (messages db)) (message_seq db)
  = (let db1 := set_messages db (update_where (fun r => eqs (ms_id r) (raw id)
                    && eqs (ms_recipient r) (raw recipient) && is_null (ms_acknowledged_at r))
                  (ack_row now) (messages db)) (message_seq db) in
     set_messages db1 (map (ack_where ids recipient now) (messages db1)) (message_seq db1)).
Proof.
  unfold set_messages, update_where. simpl. f_equal. rewrite map_map. apply map_ext. intros m.
  unfold ack_where. simpl.
  destruct (eqs (ms_id m) (raw id)) eqn:E1, (eqs (ms_recipient m) (raw recipient)) eqn:E2,
    (is_null (ms_acknowledged_at m)) eqn:E3; simpl; rewrite ?E2, ?E3, ?andb_false_r; simpl; try done.
  - rewrite eqs_true in E1. rewrite bool_decide_eq_true_2; [done|]. rewrite E1. apply elem_of_cons. by left.
  - rewrite eqs_false in E1. rewrite !andb_true_r.
    erewrite bool_decide_ext; [reflexivity|]. rewrite elem_of_cons. intuition.
Qed.

Lemma acknowledge_each_effect recipient now ids db a db' :
  runs (acknowledge_each recipient now false ids) db (Ok a) db' ->
  db' = set_messages db (map (ack_where ids recipient (raw now)) (messages db)) (message_seq db).
Proof.
  revert db. induction ids as [|id ids IH]; intros db H1; simpl in H1.
  - inv_runs. unfold ack_where. simpl. destruct db as [? ? ? ? ms ?]. unfold set_messages. simpl.
    f_equal. induction ms as [|m ms IHm]; simpl; [done|]. by rewrite <- IHm.
  - inv_runs. apply IH in H1 as ->. rewrite ack_where_cons.
    unfold acknowledge_row in R. by injection R as _ <-.
Qed.

Lemma acknowledge_effect order req db a db' :
  runs (acknowledge_on order req false) db (Ok a) db' ->
  exists distinct,
    (forall x, x ∈ distinct <-> x ∈ am_message_ids req)
    /\ (forall x, x ∈ distinct ->
         exists m, m ∈ messages db /\ ms_id m = raw x /\ ms_recipient m = raw (am_recipient req))
    /\ db' = set_messages db
         (map (ack_where (order distinct) (am_recipient req) (raw (am_acknowledged_at req)))
            (messages db)) (message_seq db).
Proof.
  intros H1. unfold acknowledge_on in H1. inv_runs.
  apply collect_owned_effect in R as (-> & Hin & Ho). apply acknowledge_each_effect in H1.
  exists a0. split; [|split; [|done]].
  - intros x. rewrite Hin. split; [|tauto]. by intros [?%not_elem_of_nil|].
  - by intros x [?%not_elem_of_nil|]%Ho.
Qed.

(** ** Sessions *)

(** What a session that authenticates proves: the token of the instance row. *)
Lemma authenticate_historical_effect s db id db' :
  runs (authenticate_historical s) db (Ok id) db' ->
  exists i m, (i, m) ∈ session_rows db (as_instance_id s)
    /\ in_resume_token_hash i = token_hash (as_resume_token s)
    /\ raw (id_membership id) = mb_id m /\ raw (id_squad id) = mb_squad_id m
    /\ raw (id_expiry id) = in_lease_expires_at i /\ raw (id_last_seen id) = in_last_seen_at i
    /\ raw (id_created_at id) = in_created_at i /\ Instance.parse_mode (in_mode i) = Ok (id_mode id).
Proof.
  intros H1. unfold authenticate_historical in H1. inv_runs. decode. simpl. eauto 20.
Qed.

Lemma elem_of_session_rows db id i m :
  (i, m) ∈ session_rows db id <->
  i ∈ instances db /\ in_id i = raw id /\ m ∈ memberships db /\ mb_id m = in_membership_id i.
Proof.
  unfold session_rows. rewrite list_elem_of_bind. setoid_rewrite list_elem_of_bind.
  setoid_rewrite elem_of_where. setoid_rewrite list_elem_of_singleton.
  setoid_rewrite eqs_true. split.
  - intros (i' & (m' & [= -> ->] & ? & ?) & ? & ?). auto.
  - intros (? & ? & ? & ?). eauto 10.
Qed.

Lemma elem_of_authority_rows db id i m s :
  (i, m, s) ∈ authority_rows db id <->
  (i, m) ∈ session_rows db id /\ s ∈ squads db /\ sq_id s = mb_squad_id m.
Proof.
  unfold authority_rows. rewrite list_elem_of_bind. split.
  - intros ((i' & m') & Hs & ?). apply list_elem_of_bind in Hs as (s' & Hs & Hw).
    apply list_elem_of_singleton in Hs as [= -> -> ->].
    by apply elem_of_where in Hw as [? ?%eqs_true].
  - intros (? & ? & ?). exists (i, m). split; [|done].
    apply list_elem_of_bind. exists s. rewrite elem_of_where, eqs_true, list_elem_of_singleton. auto.
Qed.

(** The rows behind a current session: its instance is open and unexpired, its
    membership has not left, its squad is active. *)
Record authorized (db : Database) (session : AuthenticatedSession) (id : Identity)
    (i : InstanceRow) (m : MembershipRow) (s : SquadRow) : Prop := {
  au_instance : i ∈ instances db;
  au_membership : m ∈ memberships db;
  au_squad : s ∈ squads db;
  au_id : in_id i = raw (as_instance_id session);
  au_member : mb_id m = in_membership_id i;
  au_squad_id : sq_id s = mb_squad_id m;
  au_token : in_resume_token_hash i = token_hash (as_resume_token session);
  au_lease : raw (as_now session) < in_lease_expires_at i;
  au_open : in_closed_at i = None;
  au_not_left : mb_left_at m = None;
  au_active : sq_state s = "active";
  au_identity : raw (id_membership id) = mb_id m /\ raw (id_squad id) = mb_squad_id m
    /\ raw (id_expiry id) = in_lease_expires_at i /\ raw (id_last_seen id) = in_last_seen_at i
    /\ raw (id_created_at id) = in_created_at i }.

Lemma session_rows_unique db id i m i' m' :
  wf db -> (i, m) ∈ session_rows db id -> (i', m') ∈ session_rows db id -> i' = i /\ m' = m.
Proof.
  intros Hwf (Hi & Ei & Hm & Em)%elem_of_session_rows (Hi' & Ei' & Hm' & Em')%elem_of_session_rows.
  assert (i' = i) as ->.
  { eapply (NoDup_key_eq in_id); [apply (wf_instance_ids _ Hwf)|done|done|congruence]. }
  split; [done|].
  eapply (NoDup_key_eq mb_id); [apply (wf_membership_ids _ Hwf)|done|done|congruence].
Qed.

Lemma query_row_Ok {R} (rows : list R) r : query_row rows Ok = Ok r -> r ∈ rows.
Proof. destruct rows; simpl; [done|]. intros [= ->]. apply elem_of_cons. by left. Qed.

Lemma authorize_current_effect session db id db' :
  wf db -> runs (authorize_current session) db (Ok id) db' ->
  db' = db /\ exists i m s, authorized db session id i m s.
Proof.
  intros Hwf H1. unfold authorize_current in H1. inv_runs. drop_reads. split; [done|].
  apply authenticate_historical_effect in R as (i' & m' & Hs & Ht & R).
  match goal with Hq : query_row (authority_rows _ _) Ok = Ok (?i, ?m, ?s) |- _ =>
    apply query_row_Ok, elem_of_authority_rows in Hq as (Hs' & Hsq & Es); exists i, m, s;
    pose proof (session_rows_unique _ _ _ _ _ _ Hwf Hs Hs') as [-> ->] end.
  apply elem_of_session_rows in Hs as (Hi & Ei & Hm & Em). bool_to_prop. rewrite is_null_true, eqs_true in *.
  destruct R as (? & ? & ? & ? & ? & ?). constructor; auto. congruence.
Qed.

(** ** The authenticated commands *)
Lemma authenticated_heartbeat_effect session a source policy db rec db' :
  wf db -> runs (authenticated_heartbeat session a source policy) db (Ok rec) db' ->
  exists id i m s renewed n,
    validate_observation a source (as_now session) = Ok tt
    /\ authorized db session id i m s
    /\ let now := UnixMillis_max (as_now session) (id_last_seen id) in
       renew_lease (InstanceState_at None (id_expiry id) now) (id_expiry id) now
         (lp_lease_duration policy) = Ok renewed
    /\ heartbeat_instances_where (fun i => eqs (in_id i) (raw (as_instance_id session)))
         (availability a) (availability_source source) (raw now) (raw renewed) db = Ok (n, db')
    /\ ir_lease_expires_at rec = renewed /\ ir_last_seen_at rec = now.
Proof.
  intros Hwf H1. unfold authenticated_heartbeat in H1. inv_runs.
  apply authorize_current_effect in R1 as (-> & i & m & s & Ha); [|done]. decode.
  do 6 eexists. split; [done|]. split; [eassumption|]. by split; [eassumption|].
Qed.

(** Both identities of a session, the historical and the current one, are its rows'. *)
Lemma historical_is_current session db id id' db' i m s :
  wf db -> runs (authenticate_historical session) db (Ok id') db' ->
  authorized db session id i m s -> raw (id_membership id') = mb_id m /\ raw (id_squad id') = mb_squad_id m.
Proof.
  intros Hwf (i' & m' & Hs & _ & ? & ? & _)%authenticate_historical_effect [].
  destruct (session_rows_unique _ _ _ _ i m Hwf Hs) as [-> ->]; [|done].
  apply elem_of_session_rows. auto.
Qed.

Definition sends_as (db : Database) (session : AuthenticatedSession) (req : SendMessage) : Prop :=
  exists id i m s, authorized db session id i m s
    /\ raw (sem_sender (sm_semantics req)) = mb_id m
    /\ raw (sem_squad (sm_semantics req)) = mb_squad_id m.

Lemma authenticated_send_effect session req db rec db' :
  wf db -> runs (authenticated_send session req) db (Ok rec) db' ->
  sent req db rec db' /\ (db' = db \/ sends_as db session req).
Proof.
  intros Hwf H1. unfold authenticated_send in H1. inv_runs; drop_reads.
  - apply resolve_retry_effect in R0 as (_ & [found|] & Hf & Hr); simplify_eq.
    destruct Hr as [_ Hr]. destruct (Hr _ eq_refl) as [-> ?]. split; [by apply sent_replay|by left].
  - apply authorize_current_effect in R1 as (_ & i & m & s & Ha); [|done].
    apply send_in_transaction_effect in H1. split; [done|]. right.
    bool_to_prop. destruct (historical_is_current _ _ _ _ _ _ _ _ Hwf R Ha).
    do 4 eexists. split; [done|]. split; congruence.
Qed.

Lemma message_view_on_effect rec db v db' :
  runs (message_view_on rec) db (Ok v) db' -> db' = db /\ mv_message v = rec.
Proof. intros H1. unfold message_view_on in H1. by inv_runs. Qed.

Lemma find_by_dedupe_Some req db rec db' :
  runs (find_by_dedupe req) db (Ok (Some rec)) db' ->
  exists row, row ∈ messages db
    /\ dedupe_match (raw (sem_squad (sm_semantics req))) (raw (sem_sender (sm_semantics req)))
         (raw (sm_dedupe_key req)) row = true
    /\ map_dedupe_row req row = Ok rec.
Proof.
  intros H1. unfold find_by_dedupe in H1. inv_runs.
  apply optional_query_Some in H1 as (row & [? ?]%elem_of_where & _ & ?). eauto.
Qed.

Lemma existing_recipient_None id key db db' :
  runs (existing_recipient id key) db (Ok None) db' ->
  forall row, row ∈ messages db ->
    dedupe_match (raw (id_squad id)) (raw (id_membership id)) (raw key) row <> true.
Proof.
  intros H1 row Hrow Hd. unfold existing_recipient in H1. inv_runs.
  destruct a as [r|]; simpl in H1; [by destruct (map_err _ _)|].
  apply optional_query_None_ok in R. rewrite (where_nil _ _ R row Hrow) in Hd. done.
Qed.

Lemma authenticated_send_by_name_effect session req db out db' :
  wf db -> runs (authenticated_send_by_name session req) db (Ok out) db' ->
  exists sm, sent sm db (mv_message (so_message out)) db'
    /\ sm_dedupe_key sm = sn_dedupe_key req /\ sem_body (sm_semantics sm) = sn_body req
    /\ ((so_idempotent_replay out = true /\ db' = db)
       \/ (so_idempotent_replay out = false /\ sends_as db session sm
           /\ exists sequence, insert_message (new_message_row sm) db = Ok (sequence, db'))).
Proof.
  intros Hwf H1. unfold authenticated_send_by_name in H1. inv_runs; drop_reads.
  - unfold replay_by_name in H1. inv_runs; drop_reads.
    apply message_view_on_effect in R3 as [_ Hv]. decode.
    bool_to_prop. eexists. split; [by apply sent_replay|]. auto.
  - unfold fresh_by_name in H1. inv_runs; drop_reads.
    apply message_view_on_effect in R6 as [_ Hv].
    match goal with Hc : runs (authorize_current _) _ _ _ |- _ =>
      apply authorize_current_effect in Hc as (_ & i & m & s & Ha); [|done] end.
    destruct (historical_is_current _ _ _ _ _ _ _ _ Hwf R Ha).
    match goal with Hc : runs (send_in_transaction _) _ _ _ |- _ =>
      apply send_in_transaction_effect in Hc; rename Hc into Hsent end.
    eexists. simpl. split; [by rewrite Hv|]. split; [done|]. split; [done|]. right.
    split; [done|]. split; [do 4 eexists; split; [done|]; done|].
    inversion Hsent as [Hf _|? ? _ _ Hi _]; subst; [|eauto].
    apply find_by_dedupe_Some in Hf as (row & Hrow & Hd & _). exfalso.
    by apply (existing_recipient_None _ _ _ _ R0 row Hrow).
Qed.


Lemma authenticated_acknowledge_effect order session ids db a db' :
  wf db -> runs (authenticated_acknowledge order session ids) db (Ok a) db' ->
  exists id i m s, authorized db session id i m s
    /\ runs (acknowledge_on order {| am_recipient := id_membership id; am_message_ids := ids;
               am_acknowledged_at := as_now session |} false) db (Ok a) db'.
Proof.
  intros Hwf H1. unfold authenticated_acknowledge in H1. inv_runs.
  apply authorize_current_effect in R as (-> & i & m & s & Ha); [|done]. eauto 10.
Qed.

Lemma authenticated_leave_effect session expected db out db' :
  wf db -> runs (authenticated_leave session expected) db (Ok out) db' ->
  exists id i m s n1 n2 db1, authorized db session id i m s
    /\ close_instances_where (fun i => eqs (in_id i) (raw (as_instance_id session)))
         (raw (as_now session)) db = Ok (n1, db1)
    /\ leave_membership_row (raw (id_membership id)) (raw (as_now session)) db1 = Ok (n2, db')
    /\ lo_membership_id out = id_membership id.
Proof.
  intros Hwf H1. unfold authenticated_leave in H1. inv_runs.
  apply authorize_current_effect in R as (-> & i & m & s & Ha); [|done]. drop_reads. eauto 20.
Qed.

Lemma authenticated_archive_effect session squad db a db' :
  wf db -> runs (authenticated_archive session squad) db (Ok a) db' ->
  exists id i m s n, authorized db session id i m s /\ raw squad = sq_id s
    /\ archive_squads_where (fun s => eqs (sq_id s) (raw squad)) (raw (as_now session)) db
       = Ok (n, db') /\ n <> 0.
Proof.
  intros Hwf H1. unfold authenticated_archive in H1. inv_runs.
  apply authorize_current_effect in R as (-> & i & m & s & Ha); [|done]. bool_to_prop. subst.
  do 5 eexists. split; [done|]. split; [|done]. destruct Ha. intuition congruence.
Qed.

Lemma squad_by_name_effect name db rec db' :
  runs (squad_by_name name) db (Ok rec) db' ->
  db' = db /\ exists s, s ∈ squads db /\ sq_name s = raw name /\ map_squad_row s = Ok rec.
Proof.
  intros H1. unfold squad_by_name in H1. inv_runs. decode.
  apply optional_query_Some in R as (s & [? ?%eqs_true]%elem_of_where & _ & ?). eauto.
Qed.

Lemma authenticated_archive_by_name_effect session name db rec db' :
  wf db -> runs (authenticated_archive_by_name session name) db (Ok rec) db' ->
  exists id i m s n, authorized db session id i m s /\ raw (sr_id rec) = sq_id s
    /\ archive_squads_where (fun s => eqs (sq_id s) (raw (sr_id rec))) (raw (as_now session)) db
       = Ok (n, db').
Proof.
  intros Hwf H1. unfold authenticated_archive_by_name in H1. inv_runs.
  apply authorize_current_effect in R as (-> & i & m & s & Ha); [|done].
  apply squad_by_name_effect in R0 as (-> & _). bool_to_prop. simpl.
  exists a, i, m, s. eexists. split; [done|]. split; [|done]. destruct Ha. intuition congruence.
Qed.

Lemma authenticated_resume_effect prior token new mode kind host a source now policy expected db out db' :
  runs (authenticated_resume prior token new mode kind host a source now policy expected) db (Ok out) db' ->
  exists i m s membership n db1,
    validate_observation a source now = Ok tt
    /\ (i, m, s) ∈ authority_rows db prior
    /\ in_resume_token_hash i = token_hash token
    /\ mb_left_at m = None /\ sq_state s = "active"
    /\ raw membership = in_membership_id i
    /\ exists_where (live_at (raw membership) (raw now)) (instances db) = false
    /\ close_instances_where (fun i => eqs (in_membership_id i) (raw membership)) (raw now) db
       = Ok (n, db1)
    /\ runs (insert_instance new membership mode kind host token a source now policy) db1
         (Ok (sc_instance out)) db'.
Proof.
  intros H1. unfold authenticated_resume in H1. inv_runs. drop_reads. decode. bool_to_prop.
  match goal with Hr : _ ∈ resume_rows _ _ |- _ =>
    apply elem_of_where in Hr as [Hr ?%is_null_true] end.
  rewrite eqs_true in *. do 6 eexists. repeat (split; [eassumption || done|]). done.
Qed.

Lemma join_and_claim_effect req db out db' :
  runs (join_and_claim req) db (Ok out) db' ->
  let m := jc_membership req in
  exists id db1 db2 db3 n,
    validate_observation (jc_availability req) (jc_availability_source req) (jm_joined_at m) = Ok tt
    /\ runs (Authenticated.find_or_create_squad m) db (Ok id) db1
    /\ db2 = set_agents db1 (agents db1 ++ [{| ag_id := raw (jm_agent_id m);
                                               ag_created_at := raw (jm_joined_at m) |}])
    /\ insert_membership_or_nothing (new_membership_row m id) db2 = Ok (n, db3) /\ n <> 0
    /\ runs (insert_instance (jc_instance_id req) (jm_membership_id m) (jc_mode req)
               (jc_client_kind req) (jc_hostname req) (co_resume_token (jo_claim out))
               (jc_availability req) (jc_availability_source req) (jm_joined_at m)
               (jc_lease_policy req)) db3 (Ok (co_instance (jo_claim out))) db'.
Proof.
  intros H1. unfold join_and_claim, join_and_claim_inner in H1. inv_runs. drop_reads. bool_to_prop.
  match goal with Hi : insert_agent _ _ = _ |- _ => apply insert_agent_db in Hi end.
  subst. do 5 eexists. split; [done|]. split; [eassumption|]. split; [reflexivity|].
  split; [eassumption|]. by split; [|eassumption].
Qed.
End Commands.
