(* ===== verification/Events.v ===== *)
(** * Events: the abstract transition system of the store, and its invariants

    An [event] is one durable fact the store can record.  [inv] is the invariant
    of the system (well-formedness and the ownership discipline), [evolves] what
    never changes once recorded.  Commands.v shows that every store operation is
    a sequence of events. *)
From S2P Require Import Prelude Text Core Sql Store Repository Instance Message Inbox Authenticated Invariant Effects.

Section Events.
Context `{Crypto}.

Definition squad_active (db : Database) (squad : string) : Prop :=
  exists s, s ∈ squads db /\ sq_id s = squad /\ sq_state s = "active".
(** A membership that has not left an active squad, and whether it was ever owned. *)
Definition current_member (db : Database) (membership : string) : Prop :=
  exists m, m ∈ memberships db /\ mb_id m = membership /\ mb_left_at m = None
    /\ squad_active db (mb_squad_id m).
Definition has_history (db : Database) (membership : string) : bool :=
  exists_where (fun i => eqs (in_membership_id i) membership) (instances db).
Definition live_owner (db : Database) (membership : string) (now : Z) : bool :=
  exists_where (live_at membership now) (instances db).

Definition close_all (membership : string) (now : Z) (db : Database) : Database :=
  set_instances db (update_where (fun i => eqs (in_membership_id i) membership && is_null (in_closed_at i))
                      (close_row now) (instances db)).
Definition mark_left (membership : string) (now : Z) (db : Database) : Database :=
  set_memberships db (update_where (fun m => eqs (mb_id m) membership && is_null (mb_left_at m))
                        (leave_row now) (memberships db)).

Inductive event (db : Database) : Database -> Prop :=
| ev_create_squad id name mission (at_ : UnixMillis) db' :
    insert_squad (new_squad_row id name mission at_) db = Ok (1, db') -> event db db'
| ev_archive p (now : UnixMillis) n db' :
    archive_squads_where p (raw now) db = Ok (n, db') -> event db db'
| ev_agent row : event db (set_agents db (agents db ++ [row]))
| ev_join req (squad : SquadId) db' :
    squad_active db (raw squad) ->
    insert_membership_or_nothing (new_membership_row req squad) db = Ok (1, db') -> event db db'
| ev_claim id (membership : MembershipId) mode kind host token a source (now expiry : UnixMillis) n db' :
    current_member db (raw membership) -> has_history db (raw membership) = false ->
    validate_observation a source now = Ok tt -> raw now < raw expiry ->
    insert_instance_row (new_instance_row id membership mode kind host token a source now expiry) db
      = Ok (n, db') -> event db db'
| ev_resume id (membership : MembershipId) mode kind host token a source (now expiry : UnixMillis) n db' :
    current_member db (raw membership) -> has_history db (raw membership) = true ->
    live_owner db (raw membership) (raw now) = false ->
    validate_observation a source now = Ok tt -> raw now < raw expiry ->
    insert_instance_row (new_instance_row id membership mode kind host token a source now expiry)
      (close_all (raw membership) (raw now) db) = Ok (n, db') -> event db db'
| ev_heartbeat i a source (now observed expiry : UnixMillis) :
    i ∈ instances db -> in_closed_at i = None -> validate_observation a source now = Ok tt ->
    in_last_seen_at i <= raw observed -> raw observed < in_lease_expires_at i ->
    in_lease_expires_at i <= raw expiry ->
    event db (set_instances db (update_where (fun x => eqs (in_id x) (in_id i))
      (heartbeat_row (availability a) (availability_source source) (raw observed) (raw expiry))
      (instances db)))
| ev_leave (membership : MembershipId) (now : UnixMillis) :
    event db (mark_left (raw membership) (raw now) (close_all (raw membership) (raw now) db))
| ev_send req sequence db' :
    let sem := sm_semantics req in
    squad_active db (raw (sem_squad sem)) ->
    exists_where (active_member (raw (sem_sender sem)) (raw (sem_squad sem))) (memberships db) = true ->
    exists_where (active_member (raw (sem_recipient sem)) (raw (sem_squad sem))) (memberships db) = true ->
    insert_message (new_message_row req) db = Ok (sequence, db') -> event db db'
| ev_ack ids recipient (now : UnixMillis) :
    event db (set_messages db (map (ack_where ids recipient (raw now)) (messages db)) (message_seq db)).

(** ** The ownership discipline *)
Record own (db : Database) : Prop := {
  own_left : forall i m, i ∈ instances db -> m ∈ memberships db -> mb_id m = in_membership_id i ->
    mb_left_at m <> None -> in_closed_at i <> None;
  own_open : forall i m, i ∈ instances db -> m ∈ memberships db -> mb_id m = in_membership_id i ->
    mb_left_at m = None ->
    exists o, o ∈ instances db /\ in_membership_id o = in_membership_id i /\ in_closed_at o = None;
  own_newest : forall i o, i ∈ instances db -> o ∈ instances db ->
    in_membership_id i = in_membership_id o -> in_closed_at o = None ->
    i = o \/ in_created_at i < in_created_at o;
  own_lease : forall i, i ∈ instances db -> in_created_at i < in_lease_expires_at i }.

Definition inv (db : Database) : Prop := wf db /\ own db.

Lemma own_empty : own empty_database.
Proof. constructor; simpl; intros i; intros; exfalso; by eapply not_elem_of_nil. Qed.
Lemma inv_empty : inv empty_database.
Proof. split; [apply wf_empty|apply own_empty]. Qed.

(** Ownership only depends on the two tables. *)
Lemma own_same db db' :
  instances db' = instances db -> memberships db' = memberships db -> own db -> own db'.
Proof. intros E1 E2 []. constructor; rewrite ?E1, ?E2; done. Qed.

(** *** The rows the operations write *)
Lemma new_squad_row_ok id name mission (at_ : UnixMillis) db n db' :
  insert_squad (new_squad_row id name mission at_) db = Ok (n, db') ->
  squad_ok (new_squad_row id name mission at_) = true.
Proof.
  unfold insert_squad. split_match; [done|]. intros _. apply negb_false_iff in E.
  unfold squad_ok. rewrite E. simpl. solve_andb; apply raw_true.
Qed.

Lemma new_membership_row_ok req squad db n db' :
  insert_membership_or_nothing (new_membership_row req squad) db = Ok (n, db') -> n <> 0 ->
  membership_ok (new_membership_row req squad) = true.
Proof.
  unfold insert_membership_or_nothing. split_match; [done|]. intros _ _. apply negb_false_iff in E.
  unfold membership_ok. rewrite E. unfold new_membership_row. simpl.
  rewrite eqs_refl. solve_andb; apply raw_true.
Qed.

Lemma new_instance_row_ok id membership mode kind host token a source (now expiry : UnixMillis) db n db' :
  validate_observation a source now = Ok tt -> raw now <= raw expiry ->
  insert_instance_row (new_instance_row id membership mode kind host token a source now expiry) db
    = Ok (n, db') ->
  instance_ok (new_instance_row id membership mode kind host token a source now expiry) = true.
Proof.
  intros Hv Hle. unfold insert_instance_row. split_match; [done|]. intros _. apply negb_false_iff in E.
  unfold validate_observation in Hv. destruct (AvailabilityObservation_new _ _ _) as [o|] eqn:Eo; [|done].
  unfold instance_ok. rewrite E. simpl. rewrite (observation_text_ok _ _ _ _ Eo).
  solve_andb; try apply raw_true; by apply Z.leb_le.
Qed.

Lemma new_message_row_ok req db n db' :
  insert_message (new_message_row req) db = Ok (n, db') ->
  forall q, 1 <= q -> message_ok (set_sequence (new_message_row req) q) = true.
Proof.
  unfold insert_message. split_match; [done|]. intros _ q Hq. apply negb_false_iff in E.
  unfold message_ok, message_checks in *. simpl in *. rewrite E, eqs_refl.
  destruct (sem_reply_to _), (sem_correlation_id _); solve_andb; simpl; try apply raw_true; by apply Z.leb_le.
Qed.

(** *** Well-formedness *)
Lemma wf_close_all membership (now : UnixMillis) db : wf db -> wf (close_all membership (raw now) db).
Proof. intros Hwf. eapply wf_close; [done|apply raw_true|reflexivity]. Qed.

Lemma wf_mark_left membership (now : UnixMillis) db : wf db -> wf (mark_left membership (raw now) db).
Proof. intros Hwf. eapply wf_leave; [done|apply raw_true|reflexivity]. Qed.

Lemma ack_where_keys {K} (key : MessageRow -> K) ids recipient now rows :
  (forall r, key (ack_row now r) = key r) -> map key (map (ack_where ids recipient now) rows) = map key rows.
Proof.
  intros Hk. rewrite map_map. apply map_ext. intros r. unfold ack_where. by destruct (_ && _ && _).
Qed.

Lemma wf_ack_where ids recipient (now : UnixMillis) db :
  wf db -> wf (set_messages db (map (ack_where ids recipient (raw now)) (messages db)) (message_seq db)).
Proof.
  revert db. induction ids as [|id ids IH]; intros db Hwf.
  - replace (map _ (messages db)) with (messages db); [by destruct Hwf; constructor|].
    induction (messages db) as [|m ms IHm]; simpl; [done|]. by rewrite <- IHm.
  - rewrite ack_where_cons. cbv zeta. apply IH. eapply wf_ack; [done|apply raw_true|reflexivity].
Qed.

(** A membership joins: its row is appended, and its id is new. *)
Lemma join_rows req squad db db' :
  wf db -> insert_membership_or_nothing (new_membership_row req squad) db = Ok (1, db') ->
  wf db' /\ db' = set_memberships db (memberships db ++ [new_membership_row req squad])
  /\ raw (jm_membership_id req) ∉ map mb_id (memberships db).
Proof.
  intros Hwf Hi. assert (membership_ok (new_membership_row req squad) = true) as Hok
    by (by eapply new_membership_row_ok).
  destruct (wf_insert_membership _ _ _ _ Hwf Hok eq_refl Hi) as [[? _]|(_ & ? & ? & ? & _)]; done.
Qed.

(** An owner is inserted: its row is appended, its id is new, no other is open. *)
Lemma owner_rows id membership mode kind host token a source (now expiry : UnixMillis) db n db' :
  wf db -> validate_observation a source now = Ok tt -> raw now < raw expiry ->
  insert_instance_row (new_instance_row id membership mode kind host token a source now expiry) db
    = Ok (n, db') ->
  wf db' /\ db' = set_instances db
    (instances db ++ [new_instance_row id membership mode kind host token a source now expiry]).
Proof.
  intros Hwf Hv Hlt Hi.
  assert (instance_ok (new_instance_row id membership mode kind host token a source now expiry) = true)
    as Hok by (eapply new_instance_row_ok; [done|lia|done]).
  by destruct (wf_insert_instance _ _ _ _ Hwf Hok eq_refl Hi) as (? & ? & _).
Qed.

Lemma wf_event db db' : wf db -> event db db' -> wf db'.
Proof.
  intros Hwf He. destruct He.
  - eapply wf_insert_squad; [done| |done]. by eapply new_squad_row_ok.
  - eapply wf_archive; [done|apply raw_true|done].
  - by apply wf_set_agents.
  - by eapply join_rows.
  - by eapply owner_rows.
  - eapply owner_rows; [by apply (wf_close_all (raw membership) now)|done|done|done].
  - unfold validate_observation in *.
    destruct (AvailabilityObservation_new _ _ _) as [o|] eqn:Eo; [|done].
    eapply (wf_heartbeat (fun x => eqs (in_id x) (in_id i)));
      [done|done|apply (raw_true _ observed)|apply (raw_true _ expiry)|lia| |reflexivity].
    intros x Hx Ex%eqs_true. assert (x = i) as ->.
    { by eapply (NoDup_key_eq in_id); [apply (wf_instance_ids _ Hwf)| | |]. }
    pose proof (wf_instances _ Hwf) as Hall. rewrite Forall_forall in Hall.
    specialize (Hall i Hx). unfold instance_ok in Hall. bool_to_prop. lia.
  - by apply wf_mark_left, wf_close_all.
  - eapply wf_insert_message; [done| |done]. by eapply new_message_row_ok.
  - by apply wf_ack_where.
Qed.

(** *** Ownership *)
Lemma elem_of_close_all membership now db i :
  i ∈ instances (close_all membership now db) <->
  exists i0, i0 ∈ instances db /\
    i = if eqs (in_membership_id i0) membership && is_null (in_closed_at i0) then close_row now i0 else i0.
Proof. apply elem_of_update. Qed.

Lemma close_all_closed membership now db i :
  i ∈ instances (close_all membership now db) -> in_membership_id i = membership -> in_closed_at i <> None.
Proof.
  intros (i0 & Hi0 & ->)%elem_of_close_all. destruct (_ && _) eqn:E; [done|]. intros Em.
  rewrite Em, eqs_refl in E. simpl in E. apply is_null_false in E as [? ->]. done.
Qed.

Lemma close_all_other membership now db i :
  in_membership_id i <> membership -> i ∈ instances (close_all membership now db) <-> i ∈ instances db.
Proof.
  intros E. rewrite elem_of_close_all. split.
  - intros (i0 & Hi0 & ->). destruct (_ && _) eqn:Eb; [|done]. bool_to_prop.
    rewrite eqs_true in *. done.
  - intros Hi. exists i. split; [done|]. apply eqs_false in E. by rewrite E.
Qed.

(** Inserting an owner for a membership that has no open one left. *)
Lemma own_insert (membership : MembershipId) row db db0 :
  wf db -> own db0 -> memberships db = memberships db0 ->
  current_member db0 (raw membership) ->
  in_membership_id row = raw membership -> in_closed_at row = None ->
  in_created_at row < in_lease_expires_at row ->
  (forall i, i ∈ instances db -> in_membership_id i = raw membership ->
     in_closed_at i <> None /\ in_created_at i < in_created_at row) ->
  (forall i, in_membership_id i <> raw membership -> i ∈ instances db <-> i ∈ instances db0) ->
  (forall i, i ∈ instances db -> in_created_at i < in_lease_expires_at i) ->
  own (set_instances db (instances db ++ [row])).
Proof.
  intros Hwf Ho Em (mc & Hmc & Emc & Lmc & _) Er Cr Lr Hold Hsame Hlease.
  assert (forall i, i ∈ instances db ++ [row] <-> i ∈ instances db \/ i = row) as Happ.
  { intros i. by rewrite elem_of_app, list_elem_of_singleton. }
  constructor; simpl; setoid_rewrite Happ; rewrite ?Em.
  - intros i m [Hi| ->] Hm Emi Hl.
    + destruct (decide (in_membership_id i = raw membership)) as [E|E]; [by apply Hold|].
      eapply (own_left db0); [done| |done|done|done]. by apply Hsame.
    + assert (m = mc) as ->; [|done]. eapply (NoDup_key_eq mb_id); [|done|done|congruence].
      rewrite <- Em. apply (wf_membership_ids _ Hwf).
  - intros i m [Hi| ->] Hm Emi Hl; [|by eauto].
    destruct (decide (in_membership_id i = raw membership)) as [E|E].
    { exists row. split; [by right|]. split; [congruence|done]. }
    destruct (own_open db0 Ho i m) as (o & Hoo & Eo & Co); [by apply Hsame|done|done|done|].
    exists o. split; [left; apply Hsame; [congruence|done]|done].
  - intros i o [Hi| ->] [Hi'| ->] E Co; [|right|exfalso|by left].
    + destruct (decide (in_membership_id o = raw membership)) as [E'|E'].
      { destruct (Hold o Hi' E') as [? _]. done. }
      eapply (own_newest db0 Ho); try done; apply Hsame; [congruence|done|done|done].
    + apply Hold; [done|congruence].
    + destruct (Hold o Hi') as [? _]; [congruence|done].
  - intros i [Hi| ->]; auto.
Qed.

Lemma own_join req squad db db' :
  wf db -> own db -> insert_membership_or_nothing (new_membership_row req squad) db = Ok (1, db') -> own db'.
Proof.
  intros Hwf [] (_ & -> & Hid)%join_rows; [|done].
  assert (forall i, i ∈ instances db -> raw (jm_membership_id req) <> in_membership_id i) as Hno.
  { intros i Hi E. apply Hid. rewrite E. pose proof (wf_fk_membership _ Hwf) as Hf.
    rewrite Forall_forall in Hf. by apply Hf. }
  assert (forall m, m ∈ memberships db ++ [new_membership_row req squad] ->
    forall i, i ∈ instances db -> mb_id m = in_membership_id i -> m ∈ memberships db) as Hm.
  { intros m [?| ->%list_elem_of_singleton]%elem_of_app i Hi E; [done|]. by destruct (Hno i Hi). }
  constructor; simpl; eauto.
Qed.

Lemma own_claim db (membership : MembershipId) row :
  wf db -> own db -> current_member db (raw membership) -> has_history db (raw membership) = false ->
  in_membership_id row = raw membership -> in_closed_at row = None ->
  in_created_at row < in_lease_expires_at row -> own (set_instances db (instances db ++ [row])).
Proof.
  intros Hwf Ho Hc Hh Er Cr Lr. apply (own_insert membership row db db); auto; [|by apply own_lease].
  intros i Hi E. unfold has_history in Hh. rewrite exists_where_false in Hh. specialize (Hh i Hi).
  by rewrite eqs_false in Hh.
Qed.

(** Every earlier owner was created before a resume that finds no live owner. *)
Lemma resume_is_newest db membership now i :
  wf db -> own db -> current_member db membership -> live_owner db membership now = false ->
  i ∈ instances db -> in_membership_id i = membership -> in_created_at i < now.
Proof.
  intros Hwf Ho (m & Hm & Em & Lm & _) Hl Hi Ei.
  destruct (own_open _ Ho i m) as (o & Hoo & Eo & Co); [done|done|congruence|done|].
  unfold live_owner in Hl. rewrite exists_where_false in Hl. specialize (Hl o Hoo).
  unfold live_at in Hl. rewrite Eo, Ei, eqs_refl, Co in Hl. simpl in Hl. bool_to_prop.
  pose proof (own_lease _ Ho o Hoo). destruct (own_newest _ Ho i o) as [->|?]; auto; lia.
Qed.

Lemma own_resume db (membership : MembershipId) (now : Z) row :
  wf db -> wf (close_all (raw membership) now db) -> own db -> current_member db (raw membership) ->
  live_owner db (raw membership) now = false ->
  in_membership_id row = raw membership -> in_closed_at row = None -> in_created_at row = now ->
  now < in_lease_expires_at row ->
  let db1 := close_all (raw membership) now db in own (set_instances db1 (instances db1 ++ [row])).
Proof.
  intros Hwf Hwf1 Ho Hc Hl Er Cr Nr Lr db1. apply (own_insert membership row db1 db); auto; [lia| | |].
  - intros i Hi E. split; [by eapply close_all_closed|].
    apply elem_of_close_all in Hi as (i0 & Hi0 & ->).
    assert (in_membership_id i0 = raw membership) as E0 by (revert E; by destruct (_ && _)).
    pose proof (resume_is_newest db (raw membership) now i0 Hwf Ho Hc Hl Hi0 E0).
    destruct (_ && _); simpl; lia.
  - intros i E. by apply close_all_other.
  - intros i (i0 & Hi0 & ->)%elem_of_close_all. pose proof (own_lease _ Ho i0 Hi0).
    by destruct (_ && _).
Qed.

(** An UPDATE of instances that keeps ids, owners, creation and closing times. *)
Lemma own_renew p f db :
  (forall i, in_membership_id (f i) = in_membership_id i /\ in_created_at (f i) = in_created_at i
             /\ in_closed_at (f i) = in_closed_at i) ->
  (forall i, i ∈ instances db -> p i = true -> in_created_at i < in_lease_expires_at (f i)) ->
  own db -> own (set_instances db (update_where p f (instances db))).
Proof.
  intros Hf Hl []. set (g := fun i => if p i then f i else i).
  assert (forall i, in_membership_id (g i) = in_membership_id i /\ in_created_at (g i) = in_created_at i
             /\ in_closed_at (g i) = in_closed_at i) as Hg by (intros i; unfold g; by destruct (p i)).
  constructor; simpl; intros i; setoid_rewrite elem_of_update.
  - intros m (i0 & Hi & ->). fold (g i0). destruct (Hg i0) as (-> & _ & ->). eauto.
  - intros m (i0 & Hi & ->). fold (g i0). destruct (Hg i0) as (-> & _ & _). intros Hm Em Lm.
    destruct (own_open0 i0 m) as (o & Ho & Eo & Co); auto. exists (g o).
    destruct (Hg o) as (-> & _ & ->). eauto.
  - intros o (i0 & Hi & ->) (o0 & Ho & ->). fold (g i0) (g o0).
    destruct (Hg i0) as (-> & -> & _), (Hg o0) as (-> & -> & ->). intros E Co.
    destruct (own_newest0 i0 o0) as [->|?]; auto.
  - intros (i0 & Hi & ->). destruct (p i0) eqn:Ep; [|auto].
    destruct (Hf i0) as (_ & -> & _). auto.
Qed.

Lemma elem_of_mark_left membership now db m :
  m ∈ memberships (mark_left membership now db) ->
  (mb_id m = membership -> mb_left_at m <> None) /\ (mb_id m <> membership -> m ∈ memberships db).
Proof.
  intros (m0 & Hm & ->)%elem_of_update. destruct (_ && _) eqn:E.
  - bool_to_prop. rewrite eqs_true in *. simpl. by split.
  - split; [|done]. intros Em. rewrite Em, eqs_refl in E. simpl in E.
    by apply is_null_false in E as [? ->].
Qed.

Lemma own_leave membership now db :
  own db -> own (mark_left membership now (close_all membership now db)).
Proof.
  intros Ho. constructor;
    change (instances (mark_left _ _ _)) with (instances (close_all membership now db)).
  - intros i m Hi [_ Hm]%elem_of_mark_left E L.
    destruct (decide (in_membership_id i = membership)) as [|Hn]; [by eapply close_all_closed|].
    eapply (own_left _ Ho); [by eapply close_all_other| |done|done]. apply Hm. congruence.
  - intros i m Hi [Hl Hm]%elem_of_mark_left E L.
    destruct (decide (mb_id m = membership)) as [Em|Hn]; [by destruct (Hl Em)|].
    destruct (own_open _ Ho i m) as (o & Hoo & Eo & Co);
      [eapply close_all_other; [|done]; congruence|by apply Hm|done|done|].
    exists o. split; [|done]. apply close_all_other; [congruence|done].
  - intros i o Hi Hoo E Co. destruct (decide (in_membership_id o = membership)) as [Eo|Hn].
    { by destruct (close_all_closed _ _ _ _ Hoo Eo). }
    apply (own_newest _ Ho); auto; eapply close_all_other; [|done| |done]; congruence.
  - intros i (i0 & Hi0 & ->)%elem_of_close_all. pose proof (own_lease _ Ho i0 Hi0).
    by destruct (_ && _).
Qed.

Lemma own_event db db' : inv db -> event db db' -> own db'.
Proof.
  intros [Hwf Ho] He. pose proof (wf_event _ _ Hwf He) as Hwf'. destruct He.
  - unfold insert_squad in *. repeat split_match_in H0; try done. by eapply own_same; [| |exact Ho].
  - unfold archive_squads_where in *. simplify_eq. by eapply own_same; [| |exact Ho].
  - by eapply own_same; [| |exact Ho].
  - by eapply own_join; [exact Hwf|exact Ho|].
  - match goal with Hi : insert_instance_row _ _ = _ |- _ => apply owner_rows in Hi as [_ ->]; [|done..] end.
    by eapply (own_claim db membership).
  - match goal with Hi : insert_instance_row _ _ = _ |- _ =>
      apply owner_rows in Hi as [_ ->]; [|by apply wf_close_all|done..] end.
    apply (own_resume db membership (raw now)); auto. by apply wf_close_all.
  - apply own_renew; [done| |done]. intros x Hx Ex%eqs_true. simpl.
    assert (x = i) as -> by (by eapply (NoDup_key_eq in_id); [apply (wf_instance_ids _ Hwf)| | |]).
    pose proof (own_lease _ Ho i Hx). lia.
  - by apply own_leave.
  - match goal with Hi : insert_message _ _ = _ |- _ =>
      eapply wf_insert_message in Hi as (_ & _ & ->); [|exact Hwf|by eapply new_message_row_ok] end.
    by eapply own_same; [| |exact Ho].
  - by eapply own_same; [| |exact Ho].
Qed.

Lemma inv_event db db' : inv db -> event db db' -> inv db'.
Proof. intros Hi He. split; [by eapply wf_event; [apply Hi|]|by eapply own_event]. Qed.

Lemma inv_events db db' : inv db -> rtc event db db' -> inv db'.
Proof. intros Hi. induction 1; eauto using inv_event. Qed.
End Events.
