(* ===== verification/History.v ===== *)
(** * History: what a store never forgets or rewrites

    Rows are only appended; a squad is archived once, a membership left once, a
    message acknowledged once; a closed owner is immutable and an open one keeps
    its identity while its lease and its clock only advance. *)
From S2P Require Import Prelude Text Core Sql Store Repository Instance Message Inbox Authenticated Invariant Effects Events.

Definition squad_le (s s' : SquadRow) : Prop :=
  s' = s \/ (sq_state s = "active" /\ exists t, s' = archive_row t s).
Definition membership_le (m m' : MembershipRow) : Prop :=
  m' = m \/ (mb_left_at m = None /\ exists t, m' = leave_row t m).
Record instance_le (i i' : InstanceRow) : Prop := {
  ile_id : in_id i' = in_id i;
  ile_membership : in_membership_id i' = in_membership_id i;
  ile_mode : in_mode i' = in_mode i;
  ile_token : in_resume_token_hash i' = in_resume_token_hash i;
  ile_created : in_created_at i' = in_created_at i;
  ile_seen : in_last_seen_at i <= in_last_seen_at i';
  ile_lease : in_lease_expires_at i <= in_lease_expires_at i';
  ile_closed : in_closed_at i <> None -> i' = i }.
Definition message_le (m m' : MessageRow) : Prop :=
  m' = m \/ (ms_acknowledged_at m = None /\ exists t, m' = ack_row t m).

(** A table grows: the old rows, each related to its successor, then new ones. *)
Definition grows {R} (le : relation R) (rows rows' : list R) : Prop :=
  exists kept new, rows' = kept ++ new /\ Forall2 le rows kept.

Record evolves (db db' : Database) : Prop := {
  evolves_squads : grows squad_le (squads db) (squads db');
  evolves_agents : agents db `prefix_of` agents db';
  evolves_memberships : grows membership_le (memberships db) (memberships db');
  evolves_instances : grows instance_le (instances db) (instances db');
  evolves_messages : grows message_le (messages db) (messages db');
  evolves_seq : message_seq db <= message_seq db' }.

(** ** Preorders *)
#[global] Instance squad_le_preorder : PreOrder squad_le.
Proof.
  split; [by left|]. intros s1 s2 s3 [->|[A [t ->]]]; [done|].
  intros [->|[B _]]; [by right; eauto|done].
Qed.
#[global] Instance membership_le_preorder : PreOrder membership_le.
Proof.
  split; [by left|]. intros s1 s2 s3 [->|[A [t ->]]]; [done|].
  intros [->|[B _]]; [by right; eauto|done].
Qed.
#[global] Instance message_le_preorder : PreOrder message_le.
Proof.
  split; [by left|]. intros s1 s2 s3 [->|[A [t ->]]]; [done|].
  intros [->|[B _]]; [by right; eauto|done].
Qed.
#[global] Instance instance_le_preorder : PreOrder instance_le.
Proof.
  split; [by intros i; constructor|]. intros i1 i2 i3 [] []. constructor; try congruence; try lia.
  intros Hc. rewrite ile_closed1; [by apply ile_closed0|]. by rewrite ile_closed0.
Qed.

Section Grows.
Context {R : Type} (le : relation R) `{!PreOrder le}.

#[global] Instance grows_preorder : PreOrder (grows le).
Proof.
  split.
  - intros l. exists l, []. by rewrite app_nil_r.
  - intros l1 l2 l3 (k & n & -> & Hk) (k' & n' & -> & Hk').
    apply Forall2_app_inv_l in Hk' as (k1 & k2 & H1 & H2 & ->).
    exists k1, (k2 ++ n'). rewrite <- app_assoc. split; [done|]. by eapply transitivity.
Qed.

Lemma grows_snoc l r : grows le l (l ++ [r]).
Proof. exists l, [r]. done. Qed.

Lemma grows_map (f : R -> R) l : (forall r, r ∈ l -> le r (f r)) -> grows le l (map f l).
Proof.
  intros Hf. exists (map f l), []. rewrite app_nil_r. split; [done|].
  apply Forall2_fmap_r. apply Forall_Forall2_diag. apply Forall_forall. auto.
Qed.

Lemma grows_update p f l :
  (forall r, r ∈ l -> p r = true -> le r (f r)) -> grows le l (update_where p f l).
Proof. intros Hf. apply grows_map. intros r Hr. destruct (p r) eqn:E; [auto|reflexivity]. Qed.

Lemma grows_elem l l' r : grows le l l' -> r ∈ l -> exists r', r' ∈ l' /\ le r r'.
Proof.
  intros (k & n & -> & Hk) Hr. apply list_elem_of_lookup in Hr as [x Hx].
  destruct (Forall2_lookup_l _ _ _ _ _ Hk Hx) as (r' & Hr' & Hle).
  exists r'. split; [|done]. apply elem_of_app. left. by eapply list_elem_of_lookup_2.
Qed.
End Grows.

#[global] Instance evolves_preorder : PreOrder evolves.
Proof.
  split.
  - intros db. constructor; try reflexivity.
  - intros a b c [] []. constructor; try (by etrans); lia.
Qed.

Section Evolution.
Context `{Crypto}.

Lemma grows_close p now rows :
  grows instance_le rows (update_where (fun i => p i && is_null (in_closed_at i)) (close_row now) rows).
Proof.
  apply grows_update; [apply _|]. intros i _ [_ Hc%is_null_true]%andb_true_iff.
  by constructor; try reflexivity.
Qed.

Lemma evolves_event db db' : wf db -> event db db' -> evolves db db'.
Proof.
  intros Hwf He. destruct He.
  - unfold insert_squad in *. repeat split_match_in H0; try done.
    constructor; simpl; try reflexivity. apply grows_snoc, _.
  - unfold archive_squads_where in *. simplify_eq. constructor; simpl; try reflexivity.
    apply grows_update; [apply _|]. intros s _ [_ E%eqs_true]%andb_true_iff. right. eauto.
  - constructor; simpl; try reflexivity. by eexists.
  - apply join_rows in H1 as (_ & -> & _); [|done]. constructor; simpl; try reflexivity.
    apply grows_snoc, _.
  - apply owner_rows in H4 as [_ ->]; [|done..]. constructor; simpl; try reflexivity.
    apply grows_snoc, _.
  - apply owner_rows in H5 as [_ ->]; [|by apply wf_close_all|done..].
    constructor; simpl; try reflexivity. etrans; [apply grows_close|apply grows_snoc, _].
  - constructor; simpl; try reflexivity. apply grows_update; [apply _|].
    intros x Hx Ex%eqs_true.
    assert (x = i) as -> by (by eapply (NoDup_key_eq in_id); [apply (wf_instance_ids _ Hwf)| | |]).
    by constructor; simpl; try lia.
  - constructor; simpl; try reflexivity; [|apply grows_close].
    apply grows_update; [apply _|]. intros m _ [_ E%is_null_true]%andb_true_iff. right. eauto.
  - eapply wf_insert_message in H3 as (_ & -> & ->); [|done|by eapply new_message_row_ok].
    constructor; simpl; try reflexivity; [apply grows_snoc, _|lia].
  - constructor; simpl; try reflexivity. apply grows_map. intros m _.
    unfold ack_where. destruct (_ && _ && _) eqn:E; [|by left]. bool_to_prop.
    right. rewrite is_null_true in *. eauto.
Qed.

Lemma evolves_events db db' : inv db -> rtc event db db' -> evolves db db'.
Proof.
  intros Hi. induction 1 as [|db db1 db' He Hr IH]; [reflexivity|].
  etrans; [by eapply evolves_event; [apply Hi|]|]. apply IH. by eapply inv_event.
Qed.
End Evolution.
