(* ===== verification/Commands.v ===== *)
(** * Commands: every store operation as a command, and the refinement to events

    [perform] runs one public operation of the store.  A command that fails, in
    any environment, changes nothing; a command that succeeds is a sequence of
    abstract events. *)
From S2P Require Import Prelude Text Core Sql Store Repository Instance Message Inbox Authenticated Invariant Effects Events History.

Inductive Command : Type :=
| CCreateSquad (req : CreateSquad)
| CListSquads
| CDescribeSquad (name : SquadName)
| CArchiveSquad (name : SquadName) (now : UnixMillis)
| CJoin (req : JoinMembership)
| CRoster (name : SquadName) (now : UnixMillis)
| CLeave (squad : SquadId) (membership : MembershipId) (now : UnixMillis)
| CClaim (req : ClaimInstance)
| CHeartbeat (req : HeartbeatInstance)
| CResume (req : ResumeInstance)
| CSend (req : SendMessage)
| CPending (q : InboxQuery)
| CAcknowledge (order : list MessageId -> list MessageId) (req : AcknowledgeMessages)
| CJoinAndClaim (req : JoinAndClaim)
| CAuthHeartbeat (s : AuthenticatedSession) (a : Availability) (source : AvailabilitySource) (p : LeasePolicy)
| CAuthRoster (s : AuthenticatedSession) (squad : SquadName)
| CAuthSend (s : AuthenticatedSession) (req : SendMessage)
| CAuthSendByName (s : AuthenticatedSession) (req : SendByName)
| CAuthPage (s : AuthenticatedSession) (max : Z)
| CAuthPending (s : AuthenticatedSession) (max : Z)
| CAuthAcknowledge (order : list MessageId -> list MessageId) (s : AuthenticatedSession) (ids : list MessageId)
| CAuthTranscript (s : AuthenticatedSession) (q : TranscriptQuery)
| CAuthTranscriptViews (s : AuthenticatedSession) (q : TranscriptByName)
| CAuthLeave (s : AuthenticatedSession) (squad : SquadName)
| CAuthArchive (s : AuthenticatedSession) (squad : SquadId)
| CAuthArchiveByName (s : AuthenticatedSession) (squad : SquadName)
| CAuthResume (prior : InstanceId) (token : ResumeToken) (new : InstanceId) (mode : AgentMode)
    (kind : string) (host : option string) (a : Availability) (source : AvailabilitySource)
    (now : UnixMillis) (p : LeasePolicy) (squad : SquadName).

Definition ignore {A} (m : M A) : M unit := _ ← m; mret tt.

(** A lease that lasts at least one of the store's milliseconds. *)
Definition whole_lease (p : LeasePolicy) : bool := 1 <=? as_millis (lp_lease_duration p).
Definition whole (c : Command) : bool :=
  match c with
  | CClaim req => whole_lease (ci_lease_policy req)
  | CHeartbeat req => whole_lease (hi_lease_policy req)
  | CResume req => whole_lease (ri_lease_policy req)
  | CJoinAndClaim req => whole_lease (jc_lease_policy req)
  | CAuthHeartbeat _ _ _ p | CAuthResume _ _ _ _ _ _ _ _ _ p _ => whole_lease p
  | _ => true
  end.

Section Commands.
Context `{Crypto}.

Definition perform (c : Command) : M unit :=
  match c with
  | CCreateSquad req => ignore (create_squad req)
  | CListSquads => ignore list_squads
  | CDescribeSquad name => ignore (describe_squad name)
  | CArchiveSquad name now => archive_squad name now
  | CJoin req => ignore (join req)
  | CRoster name now => ignore (roster name now)
  | CLeave squad membership now => leave squad membership now
  | CClaim req => ignore (claim_instance req)
  | CHeartbeat req => ignore (heartbeat_instance req)
  | CResume req => ignore (resume_instance req)
  | CSend req => ignore (send_message req)
  | CPending q => ignore (pending_inbox q)
  | CAcknowledge order req => acknowledge_messages order req
  | CJoinAndClaim req => ignore (join_and_claim req)
  | CAuthHeartbeat s a source p => ignore (authenticated_heartbeat s a source p)
  | CAuthRoster s squad => ignore (authenticated_roster s squad)
  | CAuthSend s req => ignore (authenticated_send s req)
  | CAuthSendByName s req => ignore (authenticated_send_by_name s req)
  | CAuthPage s max => ignore (authenticated_pending_page s max)
  | CAuthPending s max => ignore (authenticated_pending s max)
  | CAuthAcknowledge order s ids => authenticated_acknowledge order s ids
  | CAuthTranscript s q => ignore (authenticated_transcript s q)
  | CAuthTranscriptViews s q => ignore (authenticated_transcript_views s q)
  | CAuthLeave s squad => ignore (authenticated_leave s squad)
  | CAuthArchive s squad => authenticated_archive s squad
  | CAuthArchiveByName s squad => ignore (authenticated_archive_by_name s squad)
  | CAuthResume prior token new mode kind host a source now p squad =>
      ignore (authenticated_resume prior token new mode kind host a source now p squad)
  end.

Lemma ignore_ok {A} (m : M A) db u db' : runs (ignore m) db (Ok u) db' -> exists a, runs m db (Ok a) db'.
Proof. intros H1. unfold ignore in H1. inv_runs. eauto. Qed.
Lemma ignore_err {A} (m : M A) db e db' : runs (ignore m) db (Err e) db' -> runs m db (Err e) db'.
Proof.
  intros [(e' & ? & [= ->])|(a & db1 & _ & H1)]%runs_bind; [done|]. by apply runs_ret in H1 as [? _].
Qed.
End Commands.

(** ** Atomic computations: a failure changes nothing *)
Class Atomic {A} (m : M A) : Prop :=
  atomic : forall db e db', runs m db (Err e) db' -> db' = db.

#[global] Instance atomic_read_only {A} (m : M A) : ReadOnly m -> Atomic m | 10.
Proof. intros Hm db e db'. apply Hm. Qed.
#[global] Instance atomic_transaction {A} (m : M A) : Atomic (transaction m) | 1.
Proof. intros db e db'. apply runs_transaction_err. Qed.
(** Reads before an atomic step. *)
#[global] Instance atomic_bind_read {A B} (m : M A) (k : A -> M B) :
  ReadOnly m -> (forall a, Atomic (k a)) -> Atomic (m ≫= k) | 5.
Proof.
  intros Hm Hk db r db' [(e & H & _)|(a & db1 & H1 & H2)]%runs_bind.
  - by apply Hm in H.
  - apply Hm in H1 as ->. by eapply Hk.
Qed.
(** A step that cannot fail after an atomic one. *)
#[global] Instance atomic_bind_ret {A B} (m : M A) (f : A -> B) : Atomic m -> Atomic (a ← m; mret (f a)) | 2.
Proof.
  intros Hm db r db' [(e & H & _)|(a & db1 & _ & H2)]%runs_bind; [by eapply Hm|].
  by apply runs_ret in H2 as [? _].
Qed.
#[global] Hint Extern 5 (Atomic (match ?x with _ => _ end)) => destruct x : typeclass_instances.

Section AtomicOperations.
Context `{Crypto}.

#[global] Instance create_squad_atomic req : Atomic (create_squad req).
Proof. unfold create_squad. apply _. Qed.
#[global] Instance claim_atomic req : Atomic (claim_instance req).
Proof. unfold claim_instance. apply _. Qed.
#[global] Instance resume_atomic req : Atomic (resume_instance req).
Proof. unfold resume_instance, resume_instance_with_fault. apply _. Qed.
#[global] Instance acknowledge_atomic order req : Atomic (acknowledge_messages order req).
Proof. unfold acknowledge_messages, acknowledge_messages_with_fault. apply _. Qed.
#[global] Instance authenticated_resume_atomic prior token new mode kind host a source now p squad :
  Atomic (authenticated_resume prior token new mode kind host a source now p squad).
Proof. unfold authenticated_resume. apply _. Qed.
#[global] Instance send_atomic req : Atomic (send_message req).
Proof. unfold send_message, send_message_with_commit_fault. apply _. Qed.

Lemma atomic_bind_total {A B} (m : M A) (k : A -> M B) :
  Atomic m -> (forall a db e db', ~ runs (k a) db (Err e) db') -> Atomic (m ≫= k).
Proof.
  intros Hm Hk db e db' [(e' & ? & _)|(a & db1 & _ & Hr)]%runs_bind; [by eapply Hm|].
  by destruct (Hk _ _ _ _ Hr).
Qed.

#[global] Instance join_and_claim_atomic req : Atomic (join_and_claim req).
Proof.
  unfold join_and_claim, join_and_claim_inner. do 3 (apply atomic_bind_read; [apply _|intros ?]).
  apply atomic_bind_total; [apply _|]. intros [[? ?] ?] db e db' [? _]%runs_ret. done.
Qed.
#[global] Instance authenticated_heartbeat_atomic s a source p : Atomic (authenticated_heartbeat s a source p).
Proof.
  unfold authenticated_heartbeat. apply atomic_bind_read; [apply _|intros ?].
  apply atomic_bind_total; [apply _|]. intros [[? ?] ?] db e db' [? _]%runs_ret. done.
Qed.

(** The row the heartbeat decodes after its commit is well-formed, so the
    decoding cannot fail. *)
Lemma heartbeat_row_decodes r :
  instance_ok r = true ->
  is_ok (parse_id (in_membership_id r)) = true /\ is_ok (Instance.parse_mode (in_mode r)) = true
  /\ is_ok (stored_timestamp (in_created_at r)) = true.
Proof.
  unfold instance_ok, instance_checks. intros Hr. split_andb. split; [|split].
  - destruct (checked_exists (id_ok "mem") (in_membership_id r)) as [x <-]; [done|].
    unfold parse_id. by rewrite (new_raw (new := MembershipId_new)).
  - unfold Instance.parse_mode.
    destruct (eqs (in_mode r) "cooperative"), (eqs (in_mode r) "scheduled"), (eqs (in_mode r) "harnessed"); done.
  - destruct (checked_exists millis_ok (in_created_at r)) as [x <-]; [done|].
    unfold stored_timestamp. by rewrite UnixMillis_new_raw.
Qed.

Lemma heartbeat_atomic req db e db' :
  wf db -> runs (heartbeat_instance req) db (Err e) db' -> db' = db.
Proof.
  intros Hwf H1. unfold heartbeat_instance in H1.
  apply runs_bind in H1 as [(? & ?%read_only & _)|(? & db1 & [_ ->]%runs_lift & H1)]; [done|].
  apply runs_bind in H1 as [(? & ?%runs_transaction_err & _)|([[row eff] ren] & db2 & Ht & H1)]; [done|].
  inv_runs. decode. unfold owner_row in *.
  match goal with Hr : ?r ∈ where_ _ _ |- _ => apply elem_of_where in Hr as [Hr _]; rename r into row end.
  pose proof (wf_instances _ Hwf) as Hall. rewrite Forall_forall in Hall.
  destruct (heartbeat_row_decodes row) as (D1 & D2 & D3); [by apply Hall|]. exfalso.
  destruct (parse_id _) as [?|]; [|done].
  apply runs_bind in H1 as [(? & [? _]%runs_lift & _)|(? & ? & _ & H1)]; [done|].
  destruct (Instance.parse_mode _) as [?|]; [|done].
  apply runs_bind in H1 as [(? & [? _]%runs_lift & _)|(? & ? & _ & H1)]; [done|].
  destruct (stored_timestamp (in_created_at row)) as [?|]; [|done].
  apply runs_bind in H1 as [(? & [? _]%runs_lift & _)|(? & ? & _ & H1)]; [done|].
  by apply runs_ret in H1 as [? _].
Qed.

Lemma archive_atomic name now db e db' : wf db -> runs (archive_squad name now) db (Err e) db' -> db' = db.
Proof.
  intros Hwf [(? & ?%runs_execute_err & _)|(changed & db1 & He%runs_execute_ok & H1)]%runs_bind; [done|].
  unfold archive_squads_where in He. injection He as Hc <-.
  set (p := fun r => _) in *.
  assert (count_where p (squads db) <= 1).
  { apply (count_where_unique sq_name); [apply (wf_squad_names _ Hwf)|]. unfold p.
    intros x y. rewrite !andb_true_iff, !eqs_true. intros [-> _] [-> _]. done. }
  assert (0 <= changed) by (unfold count_where in Hc; lia).
  destruct (changed =? 1) eqn:E1; [by apply runs_ret in H1 as [? _]|]. bool_to_prop.
  rewrite (count_where_0 p) in H1 by lia.
  assert (set_squads db (squads db) = db) as Hdb by (by destruct db). rewrite Hdb in *.
  destruct H1 as (w & w' & <- & Hm & <-). destruct (describe_squad name w) as [r w1] eqn:Ed.
  assert (w_db w1 = w_db w) as <-.
  { eapply (read_only (m := describe_squad name)). by exists w, w1. }
  destruct r as [?|[]]; by injection Hm as _ <-.
Qed.
End AtomicOperations.

Section Refinement.
Context `{Crypto}.

Lemma failed_unchanged c db e db' : wf db -> runs (perform c) db (Err e) db' -> db' = db.
Proof.
  intros Hwf. destruct c; simpl; try (intros H1%ignore_err; revert H1);
    first [by apply atomic | by apply archive_atomic | by apply heartbeat_atomic].
Qed.

(** ** Successful operations are events *)
Lemma checked_add_lt (now : UnixMillis) d expiry :
  1 <= as_millis d -> UnixMillis_checked_add now d = Some expiry -> raw now < raw expiry.
Proof.
  unfold UnixMillis_checked_add, i64_checked_add. intros Hd. repeat split_match; try done.
  intros Hc%check_Some. lia.
Qed.

Lemma insert_squad_one r db n db' : insert_squad r db = Ok (n, db') -> n = 1.
Proof. unfold insert_squad. repeat split_match; done || by intros [= <- _]. Qed.

Lemma insert_membership_one r db n db' :
  insert_membership_or_nothing r db = Ok (n, db') -> n <> 0 -> n = 1.
Proof. unfold insert_membership_or_nothing. repeat split_match; done || by intros [= <- _]. Qed.

Lemma create_squad_events req db rec db' : runs (create_squad req) db (Ok rec) db' -> event db db'.
Proof.
  intros (n & Hi & Hn)%create_squad_effect. unfold insert_squad_or_nothing in Hi.
  repeat split_match_in Hi; try done. pose proof (insert_squad_one _ _ _ _ Hi) as ->.
  by eapply ev_create_squad.
Qed.

(** A squad row that decodes and is not archived is active. *)
Lemma squad_not_archived s : squad_ok s = true -> sq_state s <> "archived" -> sq_state s = "active".
Proof.
  unfold squad_ok, squad_checks. intros Hs Hn. split_andb.
  match goal with Ha : _ || eqs _ "archived" = true |- _ =>
    apply orb_true_iff in Ha as [?|?]; rewrite eqs_true in *; done end.
Qed.

Lemma created_squad_active id name mission (at_ : UnixMillis) db n db' :
  insert_squad (new_squad_row id name mission at_) db = Ok (n, db') ->
  n = 1 /\ squad_active db' (raw id).
Proof.
  unfold insert_squad. repeat split_match; try done. intros [= <- <-]. split; [done|].
  eexists. split; [apply elem_of_app; right; by apply list_elem_of_singleton|done].
Qed.

Lemma repo_squad_events req db id db' :
  wf db -> runs (Repository.find_or_create_squad req) db (Ok id) db' ->
  rtc event db db' /\ squad_active db' (raw id).
Proof.
  intros Hwf [[-> (s & Hs & _ & Ei & Hn)]|(mission & n & _ & -> & Hi)]%repo_find_or_create_effect.
  - split; [done|]. exists s. split; [done|]. split; [done|]. apply squad_not_archived; [|done].
    pose proof (wf_squads _ Hwf) as Hall. rewrite Forall_forall in Hall. auto.
  - destruct (created_squad_active _ _ _ _ _ _ _ Hi) as [-> Ha]. split; [|done].
    by eapply rtc_once, ev_create_squad.
Qed.

Lemma auth_squad_events req db id db' :
  runs (Authenticated.find_or_create_squad req) db (Ok id) db' ->
  rtc event db db' /\ squad_active db' (raw id).
Proof.
  intros [[-> (s & Hs & _ & Ei & Ha)]|(mission & n & _ & -> & Hi)]%auth_find_or_create_effect.
  - split; [done|]. by exists s.
  - destruct (created_squad_active _ _ _ _ _ _ _ Hi) as [-> Ha]. split; [|done].
    by eapply rtc_once, ev_create_squad.
Qed.

Lemma join_events req db rec db' : wf db -> runs (join req) db (Ok rec) db' -> rtc event db db'.
Proof.
  intros Hwf (id & db1 & db2 & n & Hs & -> & Hi & Hn & _)%join_effect.
  pose proof (insert_membership_one _ _ _ _ Hi Hn) as ->.
  destruct (repo_squad_events _ _ _ _ Hwf Hs) as [He Ha].
  etrans; [exact He|]. eapply rtc_l; [apply ev_agent|]. by eapply rtc_once, ev_join.
Qed.

Lemma require_active_current membership db a db' :
  runs (require_active_membership membership) db (Ok a) db' -> current_member db (raw membership).
Proof.
  intros H1. unfold require_active_membership in H1. inv_runs.
  apply exists_where_true in E as (m & Hm & Em). bool_to_prop.
  match goal with Hs : exists_where _ (squads db) = true |- _ =>
    apply exists_where_true in Hs as (s & Hs & Es) end. bool_to_prop.
  rewrite eqs_true, is_null_true in *. exists m. do 3 (split; [done|]). by exists s.
Qed.

Lemma claim_events req db out db' :
  whole_lease (ci_lease_policy req) = true -> runs (claim_instance req) db (Ok out) db' -> event db db'.
Proof.
  intros Hw%Z.leb_le (Hv & Ha%require_active_current & Hh & Hi)%claim_effect.
  apply insert_instance_effect in Hi as (expiry & n & He%checked_add_lt & Hi & _); [|done].
  by eapply ev_claim.
Qed.

(** *** Heartbeats *)
Lemma renewed_event db i a source (now observed current expiry : UnixMillis) duration :
  i ∈ instances db -> in_closed_at i = None -> validate_observation a source now = Ok tt ->
  in_last_seen_at i <= raw observed -> raw current = in_lease_expires_at i ->
  renew_lease (InstanceState_at None current observed) current observed duration = Ok expiry ->
  event db (set_instances db (update_where (fun x => eqs (in_id x) (in_id i))
      (heartbeat_row (availability a) (availability_source source) (raw observed) (raw expiry))
      (instances db))).
Proof.
  intros Hi Ho Hv Hs Hc Hr. unfold renew_lease in Hr. repeat split_match_in Hr; try done.
  bool_to_prop. eapply ev_heartbeat; try done; [lia|]. unfold UnixMillis_max. split_match; bool_to_prop; lia.
Qed.

Lemma UnixMillis_max_raw a b : raw (UnixMillis_max a b) = Z.max (raw a) (raw b).
Proof. unfold UnixMillis_max. split_match; bool_to_prop; lia. Qed.

(** Among rows with unique ids, filtering one more column that the row has is no filter. *)
Lemma update_by_id p f (i : InstanceRow) rows :
  NoDup (map in_id rows) -> i ∈ rows -> p i = true ->
  update_where (fun x => eqs (in_id x) (in_id i) && p x) f rows
  = update_where (fun x => eqs (in_id x) (in_id i)) f rows.
Proof.
  intros Hnd Hi Hp. unfold update_where. apply map_ext_in. intros x Hx%list_elem_of_In.
  destruct (eqs (in_id x) (in_id i)) eqn:E; [|done]. apply eqs_true in E.
  assert (x = i) as -> by (by eapply (NoDup_key_eq in_id)). by rewrite Hp.
Qed.

Lemma heartbeat_events req db rec db' :
  wf db -> runs (heartbeat_instance req) db (Ok rec) db' -> event db db'.
Proof.
  intros Hwf (row & expiry & seen & renewed & n & Hv & Hrow & Ht & Ee & Es & Hr & Hu & _)%heartbeat_effect.
  unfold owner_row in Hrow. apply elem_of_where in Hrow as [Hi Hw]. bool_to_prop.
  rewrite eqs_true, is_null_true in *. unfold heartbeat_instances_where in Hu. injection Hu as _ <-.
  match goal with E : in_id row = _ |- _ => rewrite <- E end.
  rewrite (update_by_id (fun i => is_null (in_closed_at i))); [|apply (wf_instance_ids _ Hwf)|done|].
  - eapply renewed_event; try done. rewrite UnixMillis_max_raw. lia.
  - by apply is_null_true.
Qed.

Lemma authenticated_heartbeat_events s a source p db rec db' :
  wf db -> runs (authenticated_heartbeat s a source p) db (Ok rec) db' -> event db db'.
Proof.
  intros Hwf (id & i & m & sq & renewed & n & Hv & Ha & Hr & Hu & _)%authenticated_heartbeat_effect; [|done].
  unfold heartbeat_instances_where in Hu. injection Hu as _ <-. destruct Ha as [Hi _ _ <- _ _ _ _ Ho _ _ Hid].
  destruct Hid as (_ & _ & ? & ? & _).
  eapply renewed_event; try done. rewrite UnixMillis_max_raw. lia.
Qed.

(** *** Resuming *)
Lemma open_owner_unique db i o :
  own db -> i ∈ instances db -> o ∈ instances db -> in_membership_id i = in_membership_id o ->
  in_closed_at i = None -> in_closed_at o = None -> i = o.
Proof.
  intros Ho Hi Hoo E Ci Co. destruct (own_newest _ Ho i o) as [|?]; auto.
  destruct (own_newest _ Ho o i) as [|?]; auto. lia.
Qed.

(** The newest row of a membership that has not left is its open owner. *)
Lemma newest_is_open db membership row :
  own db -> (exists m, m ∈ memberships db /\ mb_id m = membership /\ mb_left_at m = None) ->
  head (order_by by_newest (where_ (fun i => eqs (in_membership_id i) membership) (instances db))) = Some row ->
  row ∈ instances db /\ in_membership_id row = membership /\ in_closed_at row = None.
Proof.
  intros Ho (m & Hm & Em & Lm) [[Hr Er%eqs_true]%elem_of_where Hmax]%order_by_head; try apply _.
  destruct (own_open _ Ho row m) as (o & Hoo & Eo & Co); [done|done|congruence|done|].
  destruct (own_newest _ Ho row o) as [->|Hlt]; auto. exfalso.
  assert (by_newest row o = true) as Hb.
  { apply Hmax; [|intros ->; lia]. apply elem_of_where. split; [done|]. apply eqs_true. congruence. }
  unfold by_newest in Hb. repeat split_match_in Hb; bool_to_prop; try done; lia.
Qed.

Lemma current_not_left db membership :
  current_member db membership -> exists m, m ∈ memberships db /\ mb_id m = membership /\ mb_left_at m = None.
Proof. intros (m & ? & ? & ? & _). eauto. Qed.

Lemma not_live db membership now o :
  own db -> o ∈ instances db -> in_membership_id o = membership -> in_closed_at o = None ->
  in_lease_expires_at o <= now -> live_owner db membership now = false.
Proof.
  intros Ho Hoo Eo Co Hle. apply exists_where_false. intros i Hi. unfold live_at.
  destruct (_ && _) eqn:E; [|done]. bool_to_prop. rewrite eqs_true, is_null_true in *.
  assert (i = o) as -> by (eapply open_owner_unique; try done; congruence). lia.
Qed.

Lemma resume_events req db rec db' :
  inv db -> whole_lease (ri_lease_policy req) = true ->
  runs (resume_instance req) db (Ok rec) db' -> event db db'.
Proof.
  intros [Hwf Ho] Hw%Z.leb_le (row & n & db1 & Hv & Ha%require_active_current & Hp & _ & Hx & Hc & Hi)%resume_effect.
  assert (head (order_by by_newest (where_ (fun i => eqs (in_membership_id i) (raw (ri_membership_id req)))
    (instances db))) = Some row) as Hh.
  { unfold predecessor, limit in Hp. by destruct (order_by _ _). }
  destruct (newest_is_open _ _ _ Ho (current_not_left _ _ Ha) Hh) as (Hr & Er & Cr). destruct Hx as [|Hx]; [done|].
  apply insert_instance_effect in Hi as (expiry & k & He%checked_add_lt & Hi & _); [|done].
  unfold close_instances_where in Hc. injection Hc as _ <-.
  eapply ev_resume; [done| | |done|done|exact Hi].
  - apply exists_where_true. exists row. by rewrite eqs_true.
  - by eapply not_live.
Qed.

Lemma authenticated_resume_events prior token new mode kind host a source now p squad db out db' :
  whole_lease p = true ->
  runs (authenticated_resume prior token new mode kind host a source now p squad) db (Ok out) db' ->
  event db db'.
Proof.
  intros Hw%Z.leb_le (i & m & s & membership & n & db1 & Hv & Hrow & _ & Lm & Sa & Em & Hl & Hc & Hi)
    %authenticated_resume_effect.
  apply elem_of_authority_rows in Hrow as (Hrow & Hs & Es). apply elem_of_session_rows in Hrow as (Hii & _ & Hm & Emm).
  apply insert_instance_effect in Hi as (expiry & k & He%checked_add_lt & Hi & _); [|done].
  unfold close_instances_where in Hc. injection Hc as _ <-.
  eapply ev_resume; [| |exact Hl|done|done|exact Hi].
  - exists m. split; [done|]. split; [congruence|]. split; [done|]. by exists s.
  - apply exists_where_true. exists i. by rewrite eqs_true.
Qed.

(** *** Joining, leaving, archiving, messages *)
Lemma join_and_claim_events req db out db' :
  inv db -> whole_lease (jc_lease_policy req) = true ->
  runs (join_and_claim req) db (Ok out) db' -> rtc event db db'.
Proof.
  intros Hinv Hw%Z.leb_le (id & db1 & db2 & db3 & n & Hv & [Hs Ha]%auth_squad_events & -> & Hm & Hn & Hi)
    %join_and_claim_effect.
  pose proof (insert_membership_one _ _ _ _ Hm Hn) as ->.
  etrans; [exact Hs|]. eapply rtc_l; [apply ev_agent|]. eapply rtc_l; [by eapply ev_join|].
  apply insert_instance_effect in Hi as (expiry & k & He%checked_add_lt & Hi & _); [|done].
  assert (inv db1) as [Hwf1 _] by (by eapply inv_events).
  apply join_rows in Hm as (_ & -> & Hid); [|by apply wf_set_agents].
  eapply rtc_once, ev_claim; [| |done|exact He|exact Hi].
  - eexists. simpl. rewrite elem_of_app, list_elem_of_singleton. split; [by right|done].
  - apply exists_where_false. intros i Hi'. apply eqs_false. intros E. apply Hid. rewrite <- E.
    pose proof (wf_fk_membership _ Hwf1) as Hf. rewrite Forall_forall in Hf. by apply Hf.
Qed.

Lemma leave_events squad membership now db u db' :
  runs (leave squad membership now) db (Ok u) db' -> event db db'.
Proof.
  intros (n1 & n2 & db1 & _ & Hc & Hl)%leave_effect.
  unfold close_instances_where, leave_membership_row in *. injection Hc as _ <-. injection Hl as _ <-.
  apply ev_leave.
Qed.

(** Closing the one instance of a session closes every open owner of its membership. *)
Lemma close_own_is_close_all db session id i m s now :
  inv db -> authorized db session id i m s ->
  update_where (fun x => eqs (in_id x) (raw (as_instance_id session)) && is_null (in_closed_at x))
    (close_row now) (instances db)
  = instances (close_all (raw (id_membership id)) now db).
Proof.
  intros [Hwf Ho] [Hi _ _ Ei Em _ _ _ Co _ _ [Eid _]]. simpl. unfold update_where.
  apply map_ext_in. intros x Hx%list_elem_of_In. rewrite Eid, Em, <- Ei.
  destruct (is_null (in_closed_at x)) eqn:Ex; [|by rewrite !andb_false_r].
  rewrite !andb_true_r. apply is_null_true in Ex.
  destruct (eqs (in_id x) (in_id i)) eqn:E1, (eqs (in_membership_id x) (in_membership_id i)) eqn:E2;
    try done; exfalso; rewrite ?eqs_true, ?eqs_false in *.
  - apply E2. f_equal. by eapply (NoDup_key_eq in_id); [apply (wf_instance_ids _ Hwf)| | |].
  - apply E1. f_equal. by eapply open_owner_unique.
Qed.

Lemma authenticated_leave_events s squad db out db' :
  inv db -> runs (authenticated_leave s squad) db (Ok out) db' -> event db db'.
Proof.
  intros Hinv (id & i & m & sq & n1 & n2 & db1 & Ha & Hc & Hl & _)%authenticated_leave_effect; [|apply Hinv].
  unfold close_instances_where, leave_membership_row in *. injection Hc as _ <-. injection Hl as _ <-.
  rewrite (close_own_is_close_all _ _ _ _ _ _ _ Hinv Ha). apply (ev_leave db (id_membership id)).
Qed.

Lemma sent_events req db rec db' : sent req db rec db' -> rtc event db db'.
Proof.
  intros [|db1 n _ (Ha & Hs & Hr)%authorize_squad_and_members_effect Hi _]; [done|].
  by eapply rtc_once, ev_send.
Qed.

Lemma acknowledge_events order req db u db' :
  runs (acknowledge_on order req false) db (Ok u) db' -> event db db'.
Proof. intros (distinct & _ & _ & ->)%acknowledge_effect. apply ev_ack. Qed.

Lemma acknowledge_messages_ok order req db u db' :
  runs (acknowledge_messages order req) db (Ok u) db' ->
  contains 1 MAX_ACK_MESSAGES (Z.of_nat (length (am_message_ids req))) = true
  /\ runs (acknowledge_on order req false) db (Ok u) db'.
Proof.
  intros H1. unfold acknowledge_messages, acknowledge_messages_with_fault in H1. inv_runs.
  by bool_to_prop.
Qed.

(** ** The refinement: a store operation is a sequence of events *)
Lemma perform_events c db r db' :
  inv db -> whole c = true -> runs (perform c) db r db' -> rtc event db db'.
Proof.
  intros Hinv Hw H1. destruct r as [[]|e]; [|by apply failed_unchanged in H1 as ->; [|apply Hinv]].
  destruct Hinv as [Hwf Ho] eqn:Ei. clear Ei.
  destruct c; simpl in H1; try (apply ignore_ok in H1 as [a0 H1]);
    try (by rewrite (read_only _ _ _ H1)).
  - by eapply rtc_once, create_squad_events.
  - apply archive_squad_effect in H1. by eapply rtc_once, ev_archive.
  - by eapply join_events.
  - by eapply rtc_once, leave_events.
  - by eapply rtc_once, claim_events.
  - by eapply rtc_once, heartbeat_events.
  - by eapply rtc_once, resume_events.
  - apply send_message_effect in H1. by eapply sent_events.
  - apply acknowledge_messages_ok in H1 as [_ H1]. by eapply rtc_once, acknowledge_events.
  - by eapply join_and_claim_events.
  - by eapply rtc_once, authenticated_heartbeat_events.
  - apply authenticated_send_effect in H1 as [H1 _]; [|done]. by eapply sent_events.
  - apply authenticated_send_by_name_effect in H1 as (sm & H1 & _); [|done]. by eapply sent_events.
  - apply authenticated_acknowledge_effect in H1 as (? & ? & ? & ? & _ & H1); [|done].
    by eapply rtc_once, acknowledge_events.
  - by eapply rtc_once, authenticated_leave_events.
  - apply authenticated_archive_effect in H1 as (? & ? & ? & ? & ? & _ & _ & H1 & _); [|done]. by eapply rtc_once, ev_archive.
  - apply authenticated_archive_by_name_effect in H1 as (? & ? & ? & ? & ? & _ & _ & H1); [|done]. by eapply rtc_once, ev_archive.
  - by eapply rtc_once, authenticated_resume_events.
Qed.
End Refinement.

(** ** Reachable stores *)
Section Reachable.
Context `{Crypto}.

Definition step (db db' : Database) : Prop :=
  exists c r, whole c = true /\ runs (perform c) db r db'.
Definition reachable (db : Database) : Prop := rtc step empty_database db.

Lemma step_events db db' : inv db -> step db db' -> rtc event db db'.
Proof. intros Hi (c & r & Hw & Hr). by eapply perform_events. Qed.

Lemma steps_events db db' : inv db -> rtc step db db' -> rtc event db db'.
Proof.
  intros Hi Hs. induction Hs as [|db db1 db2 H1 H2 IH]; [done|].
  pose proof (step_events _ _ Hi H1) as He. etrans; [exact He|]. apply IH. by eapply inv_events.
Qed.

Lemma reachable_inv db : reachable db -> inv db.
Proof. intros Hr. eapply inv_events, steps_events; [apply inv_empty|apply inv_empty|exact Hr]. Qed.

Lemma reachable_wf db : reachable db -> wf db.
Proof. intros Hr. by apply reachable_inv in Hr as [? _]. Qed.

Lemma steps_evolve db db' : reachable db -> rtc step db db' -> evolves db db'.
Proof. intros Hr%reachable_inv Hs. by apply evolves_events, steps_events. Qed.

Lemma reachable_steps db db' : reachable db -> rtc step db db' -> reachable db'.
Proof. unfold reachable. intros Hr Hs. by etrans. Qed.

(** One more command, from a run of it. *)
Lemma reachable_perform c w r w' :
  reachable (w_db w) -> whole c = true -> perform c w = (r, w') -> reachable (w_db w').
Proof. intros Hr Hw Hp. eapply rtc_r; [exact Hr|]. exists c, r. split; [done|]. by exists w, w'. Qed.

(** A scripted history. *)
Fixpoint run_all (cs : list Command) (w : World) : World :=
  match cs with [] => w | c :: rest => run_all rest (perform c w).2 end.

Lemma steps_run_all cs w : forallb whole cs = true -> rtc step (w_db w) (w_db (run_all cs w)).
Proof.
  revert w. induction cs as [|c cs IH]; intros w Hw; simpl in *; [done|]. bool_to_prop.
  eapply rtc_l; [|by apply IH]. destruct (perform c w) as [r w'] eqn:E.
  exists c, r. split; [done|]. by exists w, w'.
Qed.
End Reachable.
