(* ===== verification/Fixtures.v ===== *)
(** * Fixtures: a concrete history the examples run on

    Two members join one squad on a store whose cryptography is the concrete
    instance of Base64.v; the first sends the second a message. *)
From S2P Require Import Prelude Text Core Base64 Sql Store Repository Instance Message Inbox Authenticated Invariant Effects Events History Commands.

Definition at_100 : UnixMillis := Checked millis_ok 100 I.
Definition at_200 : UnixMillis := Checked millis_ok 200 I.
Definition at_300 : UnixMillis := Checked millis_ok 300 I.
Definition at_90000 : UnixMillis := Checked millis_ok 90000 I.

Definition demo_squad : SquadId := Checked (id_ok "sqd") "sqd_1" I.
Definition demo_name : SquadName := Checked (text_ok 64 valid_squad_name) "demo" I.
Definition demo_mission : Mission := Checked (text_ok 4096 trimmed_nonempty) "ship it" I.
Definition alice : MemberName := Checked (text_ok 64 valid_member_name) "alice" I.
Definition bob : MemberName := Checked (text_ok 64 valid_member_name) "bob" I.
Definition alice_agent : AgentId := Checked (id_ok "agt") "agt_a" I.
Definition bob_agent : AgentId := Checked (id_ok "agt") "agt_b" I.
Definition alice_id : MembershipId := Checked (id_ok "mem") "mem_a" I.
Definition bob_id : MembershipId := Checked (id_ok "mem") "mem_b" I.
Definition alice_instance : InstanceId := Checked (id_ok "ins") "ins_a" I.
Definition bob_instance : InstanceId := Checked (id_ok "ins") "ins_b" I.
Definition bob_successor : InstanceId := Checked (id_ok "ins") "ins_c" I.
Definition demo_role : Role := Checked (text_ok 256 trimmed_nonempty) "engineer" I.
Definition hello_id : MessageId := Checked (id_ok "msg") "msg_1" I.
Definition retry_id : MessageId := Checked (id_ok "msg") "msg_2" I.
Definition hello : MessageBody := Checked body_ok "hello" I.
Definition goodbye : MessageBody := Checked body_ok "goodbye" I.
Definition hello_key : DedupeKey := Checked (text_ok 256 printable) "key-1" I.

Definition join_request (agent : AgentId) (member : MembershipId) (name : MemberName) (now : UnixMillis)
    : JoinMembership :=
  {| jm_squad_name := demo_name; jm_mission_if_missing := Some demo_mission;
     jm_squad_id_if_missing := demo_squad; jm_agent_id := agent; jm_membership_id := member;
     jm_member_name := name; jm_role := demo_role; jm_joined_at := now |}.

Definition claim_request (agent : AgentId) (member : MembershipId) (name : MemberName)
    (instance : InstanceId) (now : UnixMillis) : JoinAndClaim :=
  {| jc_membership := join_request agent member name now; jc_instance_id := instance;
     jc_mode := Cooperative; jc_client_kind := "cli"; jc_hostname := None; jc_availability := Idle;
     jc_availability_source := AgentReported; jc_lease_policy := LeasePolicy_default |}.

Definition entropy_a : string := "aaaaaaaaaaaaaaaaaaaaaaaaaaaaaaaa".
Definition entropy_b : string := "bbbbbbbbbbbbbbbbbbbbbbbbbbbbbbbb".
Definition alice_token : ResumeToken := MkResumeToken (encode entropy_a).
Definition bob_token : ResumeToken := MkResumeToken (encode entropy_b).

Definition semantics (body : MessageBody) : MessageSemantics :=
  {| sem_squad := demo_squad; sem_sender := alice_id; sem_recipient := bob_id; sem_body := body;
     sem_priority := Normal; sem_reply_to := None; sem_correlation_id := None |}.
Definition send_request (id : MessageId) (body : MessageBody) : SendMessage :=
  {| sm_id := id; sm_semantics := semantics body; sm_dedupe_key := hello_key; sm_created_at := at_200 |}.

Definition joins : list Command :=
  [CJoinAndClaim (claim_request alice_agent alice_id alice alice_instance at_100);
   CJoinAndClaim (claim_request bob_agent bob_id bob bob_instance at_100)].
Definition fresh_world : World :=
  {| w_db := empty_database; w_faults := []; w_entropy := [Some entropy_a; Some entropy_b] |}.

Definition joined_world : World := run_all joins fresh_world.
Definition joined_db : Database := Eval vm_compute in w_db joined_world.
Definition sent_world : World := run_all (joins ++ [CSend (send_request hello_id hello)]) fresh_world.
Definition sent_db : Database := Eval vm_compute in w_db sent_world.

Definition session (instance : InstanceId) (token : ResumeToken) (now : UnixMillis) : AuthenticatedSession :=
  {| as_instance_id := instance; as_resume_token := token; as_now := now |}.

Lemma joined_db_eq : w_db joined_world = joined_db.
Proof. vm_compute. reflexivity. Qed.
Lemma sent_db_eq : w_db sent_world = sent_db.
Proof. vm_compute. reflexivity. Qed.
Lemma joined_reachable : reachable joined_db.
Proof. rewrite <- joined_db_eq. apply (steps_run_all joins fresh_world). reflexivity. Qed.
Lemma sent_reachable : reachable sent_db.
Proof. rewrite <- sent_db_eq. apply (steps_run_all _ fresh_world). reflexivity. Qed.

Example sent_db_tables :
  (length (squads sent_db), length (memberships sent_db), length (instances sent_db),
   length (messages sent_db), message_seq sent_db) = (1%nat, 2%nat, 2%nat, 1%nat, 1).
Proof. reflexivity. Qed.

(** The rows of the second member. *)
Definition bob_row : InstanceRow := nth 1 (instances joined_db)
  (new_instance_row bob_instance bob_id Cooperative EmptyString None bob_token Idle AgentReported at_100 at_100).
Lemma bob_row_in : bob_row ∈ instances joined_db.
Proof. apply list_elem_of_In. right. left. reflexivity. Qed.

(** The squad is archived after the message. *)
Definition archive_history : list Command :=
  joins ++ [CSend (send_request hello_id hello);
            CAuthArchiveByName (session alice_instance alice_token at_300) demo_name].
Definition archived_db : Database := Eval vm_compute in w_db (run_all archive_history fresh_world).
Lemma archived_db_eq : w_db (run_all archive_history fresh_world) = archived_db.
Proof. vm_compute. reflexivity. Qed.
Lemma archived_reachable : reachable archived_db.
Proof. rewrite <- archived_db_eq. apply (steps_run_all archive_history fresh_world). reflexivity. Qed.
