(* ===== verification/Guarantees.v ===== *)
(** * Guarantees: the store-wide properties, over every command and environment *)
From S2P Require Import Prelude Text Core Base64 Sql Store Repository Instance Message Inbox Authenticated Invariant Effects Events History Commands Fixtures.

Section Guarantees.
Context `{Crypto}.

(** C1: atomicity.  Whatever SQL call of a store operation fails, BEGIN and COMMIT
    included, and whatever validation refuses it, a command that returns an
    error leaves the database as it was. *)
Theorem failed_command_changes_nothing c w w' e :
  reachable (w_db w) -> perform c w = (Err e, w') -> w_db w' = w_db w.
Proof.
  intros Hr Hp. eapply (failed_unchanged c (w_db w) e); [by apply reachable_wf|]. by exists w, w'.
Qed.

(** C2: refinement.  Every run of a store operation, in any environment, is a
    sequence of the events of the abstract transition system. *)
Theorem command_refines_events c w w' r :
  reachable (w_db w) -> whole c = true -> perform c w = (r, w') -> rtc event (w_db w) (w_db w').
Proof.
  intros Hr Hw Hp. eapply perform_events; [by apply reachable_inv|exact Hw|]. by exists w, w'.
Qed.

(** C3: invariant.  In every store reachable from the empty one the schema's
    constraints hold, every row decodes to the domain type it was written
    from, message sequences increase, and the ownership discipline holds. *)
Theorem reachable_store_is_well_formed db : reachable db -> wf db /\ own db.
Proof. apply reachable_inv. Qed.

(** C4: durability.  Later commands only append rows; a squad is archived, a
    membership left and a message acknowledged at most once; a closed owner
    never changes, and an open one keeps its identity and its token while its
    lease and its clock only advance. *)
Theorem history_is_durable db db' : reachable db -> rtc step db db' -> evolves db db'.
Proof. apply steps_evolve. Qed.
End Guarantees.

(** The COMMIT of a send fails with a full disk. *)
Definition full_disk_world : World :=
  {| w_db := joined_db;
     w_faults := [None; None; None; None; None; None; Some SqDiskFull]; w_entropy := [] |}.
Definition send_hello : Command := CSend (send_request hello_id hello).

Lemma failed_command_changes_nothing_witness :
  (perform send_hello full_disk_world).1 = Err (Internal (SqliteFailure SqDiskFull))
  /\ w_db (perform send_hello full_disk_world).2 = joined_db.
Proof.
  split; [vm_compute; reflexivity|].
  apply (failed_command_changes_nothing send_hello full_disk_world
           (perform send_hello full_disk_world).2 (Internal (SqliteFailure SqDiskFull))).
  - apply joined_reachable.
  - vm_compute. reflexivity.
Defined.

Lemma command_refines_events_witness : rtc event joined_db sent_db /\ joined_db <> sent_db.
Proof.
  split; [|discriminate].
  apply (command_refines_events send_hello (quiet joined_db) (quiet sent_db)
           (perform send_hello (quiet joined_db)).1).
  - apply joined_reachable.
  - reflexivity.
  - vm_compute. reflexivity.
Defined.

Lemma reachable_store_is_well_formed_witness : wf sent_db /\ own sent_db.
Proof. apply (reachable_store_is_well_formed sent_db). apply sent_reachable. Defined.

Lemma history_is_durable_witness : evolves joined_db sent_db.
Proof.
  apply (history_is_durable joined_db sent_db); [apply joined_reachable|].
  apply rtc_once. exists send_hello, (perform send_hello (quiet joined_db)).1. split; [reflexivity|].
  exists (quiet joined_db), (quiet sent_db). split; [reflexivity|].
  split; [vm_compute; reflexivity|reflexivity].
Defined.
