(* ===== verification/Ownership.v ===== *)
(** * Ownership: leases, heartbeats and the single live owner of a membership *)
From S2P Require Import Prelude Text Core Base64 Sql Store Repository Instance Message Inbox Authenticated Invariant Effects Events History Commands Fixtures.

Lemma millis_ok_true z : 0 <= z <= i64_max -> millis_ok z = true.
Proof. unfold millis_ok. intros [? ?]. apply andb_true_iff. by rewrite !Z.leb_le. Qed.

Lemma checked_add_raw (now : UnixMillis) d e : UnixMillis_checked_add now d = Some e -> raw e = raw now + as_millis d.
Proof.
  unfold UnixMillis_checked_add, i64_checked_add. repeat split_match; try done. by intros ?%check_Some.
Qed.

Lemma renew_lease_Ok state expiry now d e :
  renew_lease state expiry now d = Ok e ->
  raw now < raw expiry /\ raw e = Z.max (raw now + as_millis d) (raw expiry).
Proof.
  unfold renew_lease. repeat split_match; try done. intros [= <-]. bool_to_prop.
  rewrite UnixMillis_max_raw.
  match goal with E : UnixMillis_checked_add _ _ = _ |- _ => apply checked_add_raw in E end. lia.
Qed.

(** [renew_lease] on every branch: closed and expired owners are refused, an
    overflow is refused, and otherwise the new expiry is the later of the old one
    and now plus the duration. *)
Definition renewal (state : InstanceState) (expiry now : UnixMillis) (d : Duration)
    : Result DomainError Z :=
  match state with
  | Closed => Err (DeInvalidStateTransition "instance" "heartbeat")
  | Expired => Err DeLeaseExpired
  | Online =>
      if raw expiry <=? raw now then Err DeLeaseExpired
      else if raw now + as_millis d <=? i64_max then Ok (Z.max (raw now + as_millis d) (raw expiry))
      else Err (DeInvalidValue (InvalidValue_new "lease" "overflows timestamp"))
  end.

(** A lease renewal never shortens the lease, never revives an expired or closed
    owner, and refuses to overflow the timestamp; this is the whole function. *)
Theorem renew_lease_spec state expiry now d :
  raw <$> renew_lease state expiry now d = renewal state expiry now d.
Proof.
  unfold renew_lease, renewal. pose proof (millis_range now) as Hn. pose proof (millis_range expiry) as He.
  destruct state; simpl; try done. destruct (raw expiry <=? raw now) eqn:E; [done|].
  assert (0 <= as_millis d) by apply N2Z.is_nonneg.
  unfold UnixMillis_checked_add, i64_checked_add, in_i64.
  destruct (raw now + as_millis d <=? i64_max) eqn:Es; bool_to_prop.
  - rewrite (proj2 (Z.leb_le (as_millis d) i64_max)) by lia.
    rewrite (proj2 (Z.leb_le (- 2 ^ 63) (raw now + as_millis d))) by lia. simpl.
    assert (millis_ok (raw now + as_millis d) = true) as Hok%Is_true_true
      by (apply millis_ok_true; lia).
    rewrite (check_true _ _ Hok). simpl. by rewrite UnixMillis_max_raw.
  - destruct (as_millis d <=? i64_max); [|done]. by rewrite andb_false_r.
Qed.

Section Ownership.
Context `{Crypto}.


(** The open owners of a membership. *)
Definition open_owners (db : Database) (membership : string) : list string :=
  map in_id (where_ (fun i => eqs (in_membership_id i) membership && is_null (in_closed_at i)) (instances db)).

Lemma open_after_resume id (membership : MembershipId) mode kind host token a source (now expiry : UnixMillis) db n db' :
  insert_instance_row (new_instance_row id membership mode kind host token a source now expiry)
    (close_all (raw membership) (raw now) db) = Ok (n, db') ->
  open_owners db' (raw membership) = [raw id].
Proof.
  unfold insert_instance_row. repeat split_match; try done. intros [= _ <-].
  unfold open_owners. simpl. rewrite where_app. rewrite where_none.
  - unfold where_. simpl. by rewrite eqs_refl.
  - intros i Hi. destruct (eqs _ _) eqn:Em; [|done]. apply eqs_true in Em. simpl.
    apply (close_all_closed _ _ _ _ Hi) in Em. by destruct (in_closed_at i).
Qed.

(** Resuming.  A resume by membership that succeeds found the membership
    current, its newest owner's token presented, and no owner live at that
    moment; afterwards the new instance is the only open owner, leased from
    now. *)
Theorem resume_never_preempts req db rec db' :
  reachable db -> whole_lease (ri_lease_policy req) = true ->
  runs (resume_instance req) db (Ok rec) db' ->
  current_member db (raw (ri_membership_id req))
  /\ live_owner db (raw (ri_membership_id req)) (raw (ri_now req)) = false
  /\ (exists i, i ∈ instances db /\ in_membership_id i = raw (ri_membership_id req)
        /\ in_closed_at i = None /\ in_resume_token_hash i = token_hash (ri_resume_token req))
  /\ open_owners db' (raw (ri_membership_id req)) = [raw (ri_id req)]
  /\ UnixMillis_checked_add (ri_now req) (lp_lease_duration (ri_lease_policy req))
     = Some (ir_lease_expires_at rec).
Proof.
  intros [Hwf Ho]%reachable_inv Hw (row & n & db1 & Hv & Ha%require_active_current & Hp & Ht & Hx & Hc & Hi)
    %resume_effect.
  assert (head (order_by by_newest (where_ (fun i => eqs (in_membership_id i) (raw (ri_membership_id req)))
    (instances db))) = Some row) as Hh.
  { unfold predecessor, limit in Hp. by destruct (order_by _ _). }
  destruct (newest_is_open _ _ _ Ho (current_not_left _ _ Ha) Hh) as (Hr & Er & Cr). destruct Hx as [|Hx]; [done|].
  apply insert_instance_effect in Hi as (expiry & k & He & Hi & _ & _ & Ee & _).
  unfold close_instances_where in Hc. injection Hc as _ <-.
  split; [done|]. split; [by eapply not_live|]. split; [by exists row|].
  split; [by eapply open_after_resume|]. by rewrite Ee.
Qed.

(** C17: the authenticated resume never preempts a live owner, in any database
    whatsoever: it needs the token of the prior instance, a membership that has
    not left an active squad, and no owner live at that moment. *)
Theorem authenticated_resume_never_preempts
    prior token new mode kind host a source now policy squad db out db' :
  runs (authenticated_resume prior token new mode kind host a source now policy squad) db (Ok out) db' ->
  exists i, i ∈ instances db /\ in_id i = raw prior /\ in_resume_token_hash i = token_hash token
    /\ current_member db (in_membership_id i)
    /\ live_owner db (in_membership_id i) (raw now) = false
    /\ open_owners db' (in_membership_id i) = [raw new].
Proof.
  intros (i & m & s & membership & n & db1 & Hv & Hrow & Ht & Lm & Sa & Em & Hl & Hc & Hi)
    %authenticated_resume_effect.
  apply elem_of_authority_rows in Hrow as (Hrow & Hs & Es). apply elem_of_session_rows in Hrow as (Hii & Ei & Hm & Emm).
  apply insert_instance_effect in Hi as (expiry & k & He & Hi & _).
  unfold close_instances_where in Hc. injection Hc as _ <-.
  exists i. do 3 (split; [done|]). rewrite <- Em. split; [|split; [done|by eapply open_after_resume]].
  exists m. split; [done|]. split; [congruence|]. split; [done|]. by exists s.
Qed.

(** An authenticated heartbeat renews exactly its own live, unexpired owner:
    the new expiry is the later of the old one and the clock plus the lease,
    the clock never runs backwards, and no other row changes. *)
Theorem authenticated_heartbeat_renews session a source policy db rec db' :
  reachable db -> runs (authenticated_heartbeat session a source policy) db (Ok rec) db' ->
  exists i, i ∈ instances db /\ in_id i = raw (as_instance_id session)
    /\ in_resume_token_hash i = token_hash (as_resume_token session)
    /\ in_closed_at i = None
    /\ let now := Z.max (raw (as_now session)) (in_last_seen_at i) in
       let expiry := Z.max (now + as_millis (lp_lease_duration policy)) (in_lease_expires_at i) in
       now < in_lease_expires_at i
       /\ raw (ir_lease_expires_at rec) = expiry
       /\ db' = set_instances db (map (fun x => if eqs (in_id x) (in_id i)
            then heartbeat_row (availability a) (availability_source source) now expiry x else x)
            (instances db)).
Proof.
  intros Hr%reachable_wf (id & i & m & sq & renewed & n & Hv & Ha & Hn & Hu & Hl & _)
    %authenticated_heartbeat_effect; [|done].
  destruct Ha as [Hi _ _ Ei _ _ Ht _ Ho _ _ (_ & _ & Ee & Es & _)].
  exists i. do 4 (split; [done|]). cbv zeta.
  apply renew_lease_Ok in Hn as [Hlt Hmax]. rewrite UnixMillis_max_raw, Es, Ee in Hlt, Hmax.
  split; [done|]. rewrite Hl. split; [done|].
  unfold heartbeat_instances_where in Hu. injection Hu as _ <-.
  by rewrite UnixMillis_max_raw, Es, Hmax, Ei.
Qed.
End Ownership.


Definition resume_request (id : InstanceId) (now : UnixMillis) (policy : LeasePolicy) : ResumeInstance :=
  {| ri_id := id; ri_membership_id := bob_id; ri_mode := Cooperative; ri_client_kind := "cli";
     ri_hostname := None; ri_resume_token := bob_token; ri_availability := Idle;
     ri_availability_source := AgentReported; ri_now := now; ri_lease_policy := policy |}.

Lemma resume_never_preempts_witness :
  match resume_instance (resume_request bob_successor at_90000 LeasePolicy_default) (quiet joined_db) with
  | (Ok rec, w') => live_owner joined_db (raw bob_id) 90000 = false
                    /\ open_owners (w_db w') (raw bob_id) = [raw bob_successor]
  | _ => False
  end.
Proof.
  destruct (resume_instance _ _) as [[rec|e] w'] eqn:E; [|vm_compute in E; discriminate E].
  destruct (resume_never_preempts (resume_request bob_successor at_90000 LeasePolicy_default)
    joined_db rec (w_db w') joined_reachable eq_refl) as (_ & Hl & _ & Ho & _).
  - exists (quiet joined_db), w'. split; [reflexivity|]. split; [exact E|reflexivity].
  - split; [exact Hl|exact Ho].
Defined.

Lemma authenticated_resume_never_preempts_witness :
  match authenticated_resume bob_instance bob_token bob_successor Cooperative "cli" None Idle AgentReported
          at_90000 LeasePolicy_default demo_name (quiet joined_db) with
  | (Ok _, w') => exists i, i ∈ instances joined_db /\ live_owner joined_db (in_membership_id i) 90000 = false
                    /\ open_owners (w_db w') (in_membership_id i) = [raw bob_successor]
  | _ => False
  end.
Proof.
  destruct (authenticated_resume _ _ _ _ _ _ _ _ _ _ _ _) as [[out|e] w'] eqn:E; [|vm_compute in E; discriminate E].
  destruct (authenticated_resume_never_preempts bob_instance bob_token bob_successor Cooperative "cli" None Idle
    AgentReported at_90000 LeasePolicy_default demo_name joined_db out (w_db w'))
    as (i & Hi & _ & _ & _ & Hl & Ho).
  - exists (quiet joined_db), w'. split; [reflexivity|]. split; [exact E|reflexivity].
  - exists i. split; [exact Hi|]. split; [exact Hl|exact Ho].
Defined.

Lemma authenticated_heartbeat_renews_witness :
  match authenticated_heartbeat (session bob_instance bob_token at_200) Busy ToolActivity LeasePolicy_default
          (quiet joined_db) with
  | (Ok rec, _) => exists i, i ∈ instances joined_db
      /\ raw (ir_lease_expires_at rec) = Z.max (Z.max 200 (in_last_seen_at i) + 30000) (in_lease_expires_at i)
  | _ => False
  end.
Proof.
  destruct (authenticated_heartbeat _ _ _ _ _) as [[rec|e] w'] eqn:E; [|vm_compute in E; discriminate E].
  destruct (authenticated_heartbeat_renews (session bob_instance bob_token at_200) Busy ToolActivity
    LeasePolicy_default joined_db rec (w_db w') joined_reachable) as (i & Hi & _ & _ & _ & _ & Hl & _).
  - exists (quiet joined_db), w'. split; [reflexivity|]. split; [exact E|reflexivity].
  - exists i. split; [exact Hi|exact Hl].
Defined.

(** ** Leases shorter than a millisecond

    [LeasePolicy::new] accepts a two-nanosecond lease, which is zero of the
    store's milliseconds: the owner is born expired, two owners can share a
    creation time, and the newest row by (created_at, id) need not be the open
    one. *)
Definition tiny_policy : LeasePolicy := {| lp_heartbeat_interval := 1%N; lp_lease_duration := 2%N |}.
Definition bob_first : InstanceId := Checked (id_ok "ins") "ins_9" I.
Definition bob_second : InstanceId := Checked (id_ok "ins") "ins_1" I.
Definition bob_third : InstanceId := Checked (id_ok "ins") "ins_0" I.

Definition tiny_history : list Command :=
  [CJoinAndClaim {| jc_membership := join_request bob_agent bob_id bob at_100; jc_instance_id := bob_first;
     jc_mode := Cooperative; jc_client_kind := "cli"; jc_hostname := None; jc_availability := Idle;
     jc_availability_source := AgentReported; jc_lease_policy := tiny_policy |};
   CResume (resume_request bob_second at_100 LeasePolicy_default)].
Definition tiny_world : World :=
  run_all tiny_history {| w_db := empty_database; w_faults := []; w_entropy := [Some entropy_b] |}.

(** With a lease under one millisecond, which [LeasePolicy::new] accepts, a resume
    by membership can preempt a live owner: the predecessor it selects is the
    closed row that shares the live owner's creation time. *)
Theorem submillisecond_lease_lets_resume_preempt :
  LeasePolicy_new 1%N 2%N = Ok tiny_policy
  /\ live_owner (w_db tiny_world) (raw bob_id) 100 = true
  /\ exists rec w', resume_instance (resume_request bob_third at_100 LeasePolicy_default) tiny_world = (Ok rec, w')
     /\ open_owners (w_db w') (raw bob_id) = [raw bob_third].
Proof.
  split; [reflexivity|]. split; [vm_compute; reflexivity|].
  destruct (resume_instance _ _) as [[rec|e] w'] eqn:E; [|vm_compute in E; discriminate E].
  exists rec, w'. split; [done|].
  assert (w' = (resume_instance (resume_request bob_third at_100 LeasePolicy_default) tiny_world).2) as -> by (by rewrite E).
  vm_compute. reflexivity.
Qed.
