(* ===== verification/Delivery.v ===== *)
(** * Delivery: idempotent sends, their retries and their first acceptance *)
From S2P Require Import Prelude Text Core Base64 Sql Store Repository Instance Message Inbox Authenticated Invariant Effects Events History Commands Fixtures.

Section Sending.
Context `{Crypto}.

(** ** The retry lookup *)
Definition request_key (req : SendMessage) : string * string * option string :=
  (raw (sem_squad (sm_semantics req)), raw (sem_sender (sm_semantics req)), Some (raw (sm_dedupe_key req))).

Lemma dedupe_match_key req row :
  dedupe_match (raw (sem_squad (sm_semantics req))) (raw (sem_sender (sm_semantics req)))
    (raw (sm_dedupe_key req)) row = true <-> dedupe_key row = request_key req.
Proof.
  unfold dedupe_match, dedupe_key, request_key. rewrite !andb_true_iff, !eqs_true.
  destruct (ms_dedupe_key row) as [k|]; [rewrite eqs_true|].
  - split; [by intros [[-> ->] ->]|by intros [= -> -> ->]].
  - by split; [intros [_ ?]|].
Qed.

(** Decoding a row does not look at its acknowledgement, nor at the retry's own id. *)
Lemma map_dedupe_row_le req req' row row' :
  message_le row row' -> request_key req' = request_key req -> map_dedupe_row req' row' = map_dedupe_row req row.
Proof.
  intros Hle [= E1%raw_inj E2%raw_inj E3%raw_inj]. unfold map_dedupe_row. rewrite E1, E2, E3.
  by destruct Hle as [->|[_ [t ->]]].
Qed.

(** The row a send writes decodes to the record it returns. *)
Lemma map_dedupe_row_new req n : map_dedupe_row req (set_sequence (new_message_row req) n) = Ok (record_of_request req n).
Proof.
  unfold map_dedupe_row. simpl. rewrite eqs_refl. simpl. unfold parse, timestamp.
  rewrite (new_raw (new := MessageId_new)), (new_raw (new := MembershipId_new)),
    (new_raw (new := MessageBody_new)), UnixMillis_new_raw. simpl.
  destruct req as [id [sq se re bo pr rp co] dk at_]; simpl.
  assert (parse_priority (priority_text pr) = Ok pr) as -> by (by destruct pr). simpl.
  destruct rp as [rp|]; simpl; [rewrite (new_raw (new := MessageId_new)); simpl|];
    (destruct co as [co|]; simpl; [rewrite (new_raw (new := CorrelationId_new)); simpl|]); reflexivity.
Qed.

(** A message that was accepted stays found, as the same record, for ever. *)
Lemma sent_row req db rec db' :
  wf db -> sent req db rec db' ->
  me_semantics rec = sm_semantics req
  /\ exists row, row ∈ messages db' /\ dedupe_key row = request_key req /\ map_dedupe_row req row = Ok rec.
Proof.
  intros Hwf [Hf Hs|db1 n _ _ Hi ->].
  - split; [done|]. apply find_by_dedupe_Some in Hf as (row & ? & ?%dedupe_match_key & ?). eauto.
  - split; [done|]. eapply wf_insert_message in Hi as (_ & _ & ->); [|done|by eapply new_message_row_ok].
    exists (set_sequence (new_message_row req) n). split; [|split; [done|apply map_dedupe_row_new]].
    simpl. apply elem_of_app. right. by apply list_elem_of_singleton.
Qed.

Lemma find_by_dedupe_quiet req db row rec :
  wf db -> row ∈ messages db -> dedupe_key row = request_key req -> map_dedupe_row req row = Ok rec ->
  find_by_dedupe req (quiet db) = (Ok (Some rec), quiet db).
Proof.
  intros Hwf Hrow Hk Hm. apply query_conv_quiet.
  rewrite (where_unique dedupe_key _ _ row (wf_dedupe _ Hwf) Hrow).
  - simpl. by rewrite Hm.
  - intros x. by rewrite dedupe_match_key, Hk.
Qed.

Lemma send_found_quiet req db rec :
  find_by_dedupe req (quiet db) = (Ok (Some rec), quiet db) ->
  send_message req (quiet db) =
    (if bool_decide (me_semantics rec = sm_semantics req) then Ok rec else Err IdempotencyConflict, quiet db).
Proof.
  intros Hf. unfold send_message, send_message_with_commit_fault.
  assert (send_in_transaction req (quiet db) =
    (if bool_decide (me_semantics rec = sm_semantics req) then Ok rec else Err IdempotencyConflict, quiet db)) as Hs.
  { unfold send_in_transaction, resolve_retry. unfold mbind, M_bind. rewrite Hf. simpl. by case_bool_decide. }
  apply transaction_quiet in Hs. case_bool_decide; [by erewrite bind_ok|by erewrite bind_err].
Qed.

(** The row of an accepted message after any later history. *)
Lemma stored_later req req' db rec db1 db2 :
  wf db -> sent req db rec db1 -> reachable db1 -> rtc step db1 db2 -> request_key req' = request_key req ->
  me_semantics rec = sm_semantics req
  /\ exists row, row ∈ messages db2 /\ dedupe_key row = request_key req' /\ map_dedupe_row req' row = Ok rec.
Proof.
  intros Hwf Hsent Hr1 Hs Hk. apply sent_row in Hsent as (Hsem & row & Hrow & Hk1 & Hm); [|done].
  split; [done|].
  destruct (grows_elem _ _ _ row (evolves_messages _ _ (steps_evolve _ _ Hr1 Hs)) Hrow) as (row' & Hrow' & Hle).
  exists row'. split; [done|]. split.
  - destruct Hle as [->|[_ [t ->]]]; rewrite Hk; exact Hk1.
  - by rewrite (map_dedupe_row_le req req' row row').
Qed.

(** The lookup after any later history. *)
Lemma lookup_later req req' db rec db1 db2 :
  reachable db -> runs (send_message req) db (Ok rec) db1 -> rtc step db1 db2 ->
  request_key req' = request_key req ->
  me_semantics rec = sm_semantics req /\ find_by_dedupe req' (quiet db2) = (Ok (Some rec), quiet db2).
Proof.
  intros Hr Hrun Hs Hk. pose proof (reachable_wf _ Hr) as Hwf.
  assert (reachable db1) as Hr1.
  { eapply rtc_r; [exact Hr|]. exists (CSend req), (Ok tt). split; [done|].
    destruct Hrun as (w & w' & ? & E & ?). exists w, w'. split; [done|]. split; [|done].
    simpl. unfold ignore. by erewrite bind_ok. }
  apply send_message_effect in Hrun.
  destruct (stored_later _ req' _ _ _ db2 Hwf Hrun Hr1 Hs Hk) as (Hsem & row & Hrow & Hk' & Hm).
  split; [done|]. eapply find_by_dedupe_quiet; [by eapply reachable_wf, reachable_steps|done..].
Qed.

(** Exactly-once sending.  Once a send succeeded, a retry with the same
    content and dedupe key, after any history and even under a new message id,
    returns the original record and changes nothing. *)
Theorem retry_returns_the_original req req' db rec db1 db2 :
  reachable db -> runs (send_message req) db (Ok rec) db1 -> rtc step db1 db2 ->
  sm_semantics req' = sm_semantics req -> sm_dedupe_key req' = sm_dedupe_key req ->
  send_message req' (quiet db2) = (Ok rec, quiet db2).
Proof.
  intros Hr Hrun Hs Hsem Hk.
  assert (request_key req' = request_key req) as Hkey by (unfold request_key; by rewrite Hsem, Hk).
  destruct (lookup_later req req' _ _ _ _ Hr Hrun Hs Hkey) as [Hrec Hf].
  rewrite (send_found_quiet _ _ _ Hf), bool_decide_eq_true_2; [done|congruence].
Qed.

(** A dedupe key is bound to its content for ever.  Reusing the key of an accepted
    message for different content, by the same sender in the same squad, is
    refused as an idempotency conflict and changes nothing. *)
Theorem reused_key_conflicts req req' db rec db1 db2 :
  reachable db -> runs (send_message req) db (Ok rec) db1 -> rtc step db1 db2 ->
  request_key req' = request_key req -> sm_semantics req' <> sm_semantics req ->
  send_message req' (quiet db2) = (Err IdempotencyConflict, quiet db2).
Proof.
  intros Hr Hrun Hs Hkey Hne.
  destruct (lookup_later req req' _ _ _ _ Hr Hrun Hs Hkey) as [Hrec Hf].
  rewrite (send_found_quiet _ _ _ Hf), bool_decide_eq_false_2; [done|congruence].
Qed.

(** ** A first send *)
Definition appended (req : SendMessage) (db : Database) : Database :=
  let n := message_seq db + 1 in
  set_messages db (messages db ++ [set_sequence (new_message_row req) n]) n.

Definition reply_known (req : SendMessage) (db : Database) : Prop :=
  match sem_reply_to (sm_semantics req) with
  | None => True
  | Some parent => exists_where (fun m => eqs (ms_id m) (raw parent)
      && eqs (ms_squad_id m) (raw (sem_squad (sm_semantics req)))) (messages db) = true
  end.

Lemma new_message_checks `{!CryptoLaws} req : message_checks (new_message_row req) = true.
Proof.
  unfold message_checks. simpl. rewrite sha256_length.
  pose proof (raw_true _ (sem_body (sm_semantics req))) as Hb.
  destruct (raw (sem_body (sm_semantics req))) as [|c b]; [done|].
  unfold body_ok, MAX_BYTES in Hb. split_andb. solve_andb.
  - apply Z.leb_le. rewrite len_String. pose proof (len_nonneg b). lia.
  - by destruct (sem_priority _).
Qed.

Lemma is_member_active db membership squad :
  exists_where (active_member membership squad) (memberships db) = true -> is_member db membership squad = true.
Proof.
  intros (m & Hm & Em)%exists_where_true. apply exists_where_true. exists m. split; [done|].
  unfold active_member in Em. by apply andb_true_iff in Em as [-> _].
Qed.

Lemma insert_message_appends `{!CryptoLaws} req db :
  message_seq db < i64_max ->
  (forall m, m ∈ messages db -> ms_id m <> raw (sm_id req) /\ dedupe_key m <> request_key req) ->
  exists_where (active_member (raw (sem_sender (sm_semantics req))) (raw (sem_squad (sm_semantics req)))) (memberships db) = true ->
  exists_where (active_member (raw (sem_recipient (sm_semantics req))) (raw (sem_squad (sm_semantics req)))) (memberships db) = true ->
  reply_known req db ->
  insert_message (new_message_row req) db = Ok (message_seq db + 1, appended req db).
Proof.
  intros Hseq Hnew Hs Hr Hreply. unfold insert_message. rewrite new_message_checks.
  rewrite (proj2 (Z.ltb_ge i64_max (message_seq db + 1))) by lia.
  assert (exists_where (fun m => eqs (ms_id m) (ms_id (new_message_row req))) (messages db) = false) as ->.
  { apply exists_where_false. intros m Hm. apply eqs_false. by apply Hnew. }
  assert (exists_where (fun m => same_dedupe m (new_message_row req)) (messages db) = false) as ->.
  { apply exists_where_false. intros m Hm. destruct (Hnew m Hm) as [_ Hk].
    destruct (same_dedupe _ _) eqn:E; [|done]. destruct Hk. apply dedupe_match_key.
    unfold same_dedupe in E. unfold dedupe_match. by destruct (ms_dedupe_key m). }
  cbn [new_message_row ms_squad_id ms_sender ms_recipient ms_reply_to ms_id].
  rewrite (is_member_active _ _ _ Hs), (is_member_active _ _ _ Hr). simpl.
  unfold reply_known in Hreply. destruct (sem_reply_to _) as [parent|]; simpl; [|done].
  by rewrite Hreply, orb_true_r.
Qed.

Lemma authorize_quiet sem db :
  wf db -> squad_active db (raw (sem_squad sem)) ->
  exists_where (active_member (raw (sem_sender sem)) (raw (sem_squad sem))) (memberships db) = true ->
  exists_where (active_member (raw (sem_recipient sem)) (raw (sem_squad sem))) (memberships db) = true ->
  authorize_squad_and_members sem (quiet db) = (Ok tt, quiet db).
Proof.
  intros Hwf (s & Hs & Es & Ha) Hse Hre. unfold authorize_squad_and_members.
  erewrite bind_ok; [|apply query_quiet; rewrite (where_unique sq_id _ _ s (wf_squad_ids _ Hwf) Hs);
    [reflexivity|intros x; by rewrite eqs_true, Es]].
  erewrite bind_ok; [|rewrite Ha; reflexivity].
  erewrite bind_ok; [|apply query_quiet; reflexivity]. rewrite Hse. simpl.
  erewrite bind_ok; [|apply query_quiet; reflexivity]. by rewrite Hre.
Qed.

(** C22: a first send between two current members of an active squad, with an unused
    id and key and a known parent if it is a reply, is accepted: it gets the
    next sequence number and is appended to the messages, and nothing else
    changes. *)
Theorem fresh_send_is_appended `{!CryptoLaws} req db :
  reachable db -> squad_active db (raw (sem_squad (sm_semantics req))) ->
  exists_where (active_member (raw (sem_sender (sm_semantics req))) (raw (sem_squad (sm_semantics req)))) (memberships db) = true ->
  exists_where (active_member (raw (sem_recipient (sm_semantics req))) (raw (sem_squad (sm_semantics req)))) (memberships db) = true ->
  (forall m, m ∈ messages db -> ms_id m <> raw (sm_id req) /\ dedupe_key m <> request_key req) ->
  reply_known req db -> message_seq db < i64_max ->
  send_message req (quiet db) = (Ok (record_of_request req (message_seq db + 1)), quiet (appended req db)).
Proof.
  intros Hwf%reachable_wf Hsq Hs Hr Hnew Hreply Hseq.
  assert (send_in_transaction req (quiet db)
          = (Ok (record_of_request req (message_seq db + 1)), quiet (appended req db))) as Ht.
  { unfold send_in_transaction, resolve_retry.
    assert (find_by_dedupe req (quiet db) = (Ok None, quiet db)) as Hf.
    { apply query_conv_quiet. rewrite where_none; [done|]. intros m Hm.
      destruct (dedupe_match _ _ _ _) eqn:E; [|done]. apply dedupe_match_key in E. by destruct (Hnew m Hm). }
    erewrite bind_ok; [|erewrite bind_ok; [|exact Hf]; reflexivity]. simpl.
    erewrite bind_ok; [|by apply authorize_quiet].
    erewrite bind_ok; [|unfold authorize_reply; unfold reply_known in Hreply].
    - erewrite bind_ok; [|by apply execute_quiet, insert_message_appends]. reflexivity.
    - destruct (sem_reply_to _); [|reflexivity].
      erewrite bind_ok; [|apply query_quiet; reflexivity]. by rewrite Hreply. }
  apply transaction_quiet in Ht. unfold send_message, send_message_with_commit_fault.
  by erewrite bind_ok.
Qed.
End Sending.

Lemma sent_run :
  match send_message (send_request hello_id hello) (quiet joined_db) with
  | (Ok rec, w') => w' = quiet sent_db
  | _ => False
  end.
Proof. vm_compute. reflexivity. Qed.

Lemma retry_returns_the_original_witness :
  exists rec, send_message (send_request retry_id hello) (quiet sent_db) = (Ok rec, quiet sent_db).
Proof.
  pose proof sent_run as Hs.
  destruct (send_message _ _) as [[rec|e] w'] eqn:E in Hs; [|destruct Hs]. exists rec.
  apply (retry_returns_the_original (send_request hello_id hello) (send_request retry_id hello)
           joined_db rec sent_db sent_db joined_reachable).
  - exists (quiet joined_db), w'. split; [reflexivity|]. split; [exact E|]. rewrite Hs. reflexivity.
  - apply rtc_refl.
  - reflexivity.
  - reflexivity.
Defined.

Lemma reused_key_conflicts_witness :
  send_message (send_request retry_id goodbye) (quiet sent_db) = (Err IdempotencyConflict, quiet sent_db).
Proof.
  pose proof sent_run as Hs.
  destruct (send_message _ _) as [[rec|e] w'] eqn:E in Hs; [|destruct Hs].
  apply (reused_key_conflicts (send_request hello_id hello) (send_request retry_id goodbye)
           joined_db rec sent_db sent_db joined_reachable).
  - exists (quiet joined_db), w'. split; [reflexivity|]. split; [exact E|]. rewrite Hs. reflexivity.
  - apply rtc_refl.
  - reflexivity.
  - discriminate.
Defined.

Lemma fresh_send_is_appended_witness :
  send_message (send_request hello_id hello) (quiet joined_db)
  = (Ok (record_of_request (send_request hello_id hello) 1), quiet (appended (send_request hello_id hello) joined_db)).
Proof.
  apply (fresh_send_is_appended (send_request hello_id hello) joined_db joined_reachable).
  - eexists. split; [apply list_elem_of_In; left; reflexivity|]. split; reflexivity.
  - reflexivity.
  - reflexivity.
  - intros m Hm. apply not_elem_of_nil in Hm. destruct Hm.
  - exact I.
  - reflexivity.
Defined.
