(* ===== verification/Queue.v ===== *)
(** * Queue: the pending inbox as a queue, its bounded reads, acknowledgement *)
From S2P Require Import Prelude Text Core Base64 Sql Store Repository Instance Message Inbox Authenticated Invariant Effects Events History Commands Fixtures Delivery.

(** ** The abstract inboxes: a queue of messages per membership *)
Definition inbox (db : Database) (membership : string) : list MessageRow :=
  where_ (pending_row membership) (messages db).

Inductive queue_step (q q' : string -> list MessageRow) : Prop :=
| queue_push r m : (forall x, q' x = q x ++ (if eqs x r then [m] else [])) -> queue_step q q'
| queue_remove r (ids : list string) :
    (forall x, q' x = if eqs x r then where_ (fun m => negb (bool_decide (ms_id m ∈ ids))) (q x) else q x) ->
    queue_step q q'.

Section Queue.
Context `{Crypto}.

Lemma inbox_ack ids recipient now db x :
  inbox (set_messages db (map (ack_where ids recipient now) (messages db)) (message_seq db)) x
  = if eqs x (raw recipient) then where_ (fun m => negb (bool_decide (ms_id m ∈ map raw ids))) (inbox db x)
    else inbox db x.
Proof.
  unfold inbox. simpl. unfold where_. induction (messages db) as [|m ms IH]; simpl; [by destruct (eqs _ _)|].
  assert (pending_row x (ack_where ids recipient now m)
          = pending_row x m && negb (eqs x (raw recipient) && bool_decide (ms_id m ∈ map raw ids))) as ->.
  { unfold ack_where, pending_row. destruct (ms_acknowledged_at m) eqn:Ea; simpl.
    - rewrite andb_false_r, Ea. by rewrite !andb_false_r.
    - rewrite andb_true_r. destruct (eqs (ms_recipient m) x) eqn:Ex; simpl.
      + apply eqs_true in Ex. subst x.
        destruct (eqs (ms_recipient m) (raw recipient)) eqn:Er; simpl;
          [|rewrite andb_false_r; simpl; by rewrite eqs_refl, Ea].
        destruct (bool_decide _); simpl; rewrite eqs_refl; [done|by rewrite Ea].
      + destruct (bool_decide _ && eqs _ (raw recipient)); simpl; by rewrite Ex. }
  destruct (pending_row x m) eqn:Ep; simpl; [|done].
  destruct (eqs x (raw recipient)) eqn:Er; simpl.
  2: { assert (ms_recipient m = x) as <- by (unfold pending_row in Ep; bool_to_prop; by apply eqs_true).
       unfold ack_where at 1. rewrite Er, andb_false_r. simpl. by rewrite IH. }
  assert (ack_where ids recipient now m = m \/ bool_decide (ms_id m ∈ map raw ids) = true) as Hm.
  { unfold ack_where. destruct (bool_decide (ms_id m ∈ map raw ids)); [by right|by left]. }
  destruct (bool_decide (ms_id m ∈ map raw ids)) eqn:Eb; simpl; [done|].
  destruct Hm as [->|?]; [|done]. by rewrite IH.
Qed.

Lemma inbox_append db m n x :
  ms_acknowledged_at m = None ->
  inbox (set_messages db (messages db ++ [m]) n) x = inbox db x ++ (if eqs x (ms_recipient m) then [m] else []).
Proof.
  intros Ha. unfold inbox. simpl. rewrite where_app. f_equal. unfold where_, pending_row. simpl.
  rewrite Ha, andb_true_r. unfold eqs.
  destruct (decide (ms_recipient m = x)) as [->|Hne]; [by rewrite !bool_decide_eq_true_2|].
  by rewrite !bool_decide_eq_false_2 by congruence.
Qed.

Lemma event_queue db db' :
  wf db -> event db db' -> messages db' = messages db \/ queue_step (inbox db) (inbox db').
Proof.
  intros Hwf He. destruct He as [id name mission at_ db' Hi|p now n db' Hi| |req squad db' _ Hi
    |id mb mode kind host tk a src now ex n db' _ _ Hv Hlt Hi|id mb mode kind host tk a src now ex n db' _ _ _ Hv Hlt Hi
    | | |req n db' sem _ _ _ Hi|ids recipient now]; try (by left).
  - left. unfold insert_squad in Hi. repeat split_match_in Hi; done.
  - left. unfold archive_squads_where in Hi. by simplify_eq.
  - left. by apply join_rows in Hi as (_ & -> & _).
  - left. by apply owner_rows in Hi as [_ ->].
  - left. apply owner_rows in Hi as [_ ->]; [done|by apply wf_close_all|done|done].
  - right. eapply wf_insert_message in Hi as (_ & _ & ->); [|done|by eapply new_message_row_ok].
    eapply queue_push. intros x. by apply inbox_append.
  - right. eapply queue_remove. intros x. apply inbox_ack.
Qed.


(** ** Decoding stored messages *)
Record decodes (row : MessageRow) (rec : MessageRecord) : Prop := {
  de_sequence : me_sequence rec = ms_sequence row;
  de_id : raw (me_id rec) = ms_id row;
  de_squad : raw (sem_squad (me_semantics rec)) = ms_squad_id row;
  de_sender : raw (sem_sender (me_semantics rec)) = ms_sender row;
  de_recipient : raw (sem_recipient (me_semantics rec)) = ms_recipient row;
  de_body : raw (sem_body (me_semantics rec)) = ms_body row;
  de_priority : priority_text (sem_priority (me_semantics rec)) = ms_priority row;
  de_reply : raw <$> sem_reply_to (me_semantics rec) = ms_reply_to row;
  de_correlation : raw <$> sem_correlation_id (me_semantics rec) = ms_correlation_id row;
  de_key : Some (raw (me_dedupe_key rec)) = ms_dedupe_key row;
  de_created : raw (me_created_at rec) = ms_created_at row }.

Lemma parse_ok `{Validator T new text} (x : T) : parse new (text x) = Ok x.
Proof. unfold parse. by rewrite new_raw. Qed.

Lemma opt_parse_ok {ok : string -> bool} `{!Validator (checked ok) new raw} (o : option string) :
  opt_ok ok o = true -> exists x : option (checked ok), opt_try (parse new) o = Ok x /\ raw <$> x = o.
Proof.
  destruct o as [v|]; simpl; [|by exists None]. intros (x & <-)%checked_exists. exists (Some x).
  by rewrite parse_ok.
Qed.

Lemma parse_priority_ok v :
  (eqs v "normal" || eqs v "high") = true -> exists p, parse_priority v = Ok p /\ priority_text p = v.
Proof.
  intros [->%eqs_true| ->%eqs_true]%orb_true_iff; [exists Normal|exists High]; done.
Qed.

Lemma map_message_ok row : message_ok row = true -> exists rec, map_message row = Ok rec /\ decodes row rec.
Proof.
  unfold message_ok, message_checks. intros Hok. split_andb.
  destruct (checked_exists (id_ok "msg") (ms_id row)) as [id Eid]; [done|].
  destruct (checked_exists (id_ok "sqd") (ms_squad_id row)) as [sq Esq]; [done|].
  destruct (checked_exists (id_ok "mem") (ms_sender row)) as [se Ese]; [done|].
  destruct (checked_exists (id_ok "mem") (ms_recipient row)) as [re Ere]; [done|].
  destruct (checked_exists body_ok (ms_body row)) as [bo Ebo]; [done|].
  destruct (checked_exists millis_ok (ms_created_at row)) as [at_ Eat]; [done|].
  destruct (parse_priority_ok (ms_priority row)) as (pr & Epr & Hpr); [done|].
  destruct (opt_parse_ok (new := MessageId_new) (ms_reply_to row)) as (rp & Erp & Hrp); [done|].
  destruct (opt_parse_ok (new := CorrelationId_new) (ms_correlation_id row)) as (co & Eco & Hco); [done|].
  destruct (ms_dedupe_key row) as [k|] eqn:Ek; [|done].
  destruct (checked_exists (text_ok 256 printable) k) as [dk Edk]; [done|].
  eexists. split.
  - unfold map_message. match goal with Hh : eqs (ms_body_hash row) _ = true |- _ => rewrite Hh end. simpl.
    rewrite <- Eid, <- Esq, <- Ese, <- Ere, <- Ebo, <- Eat, Ek, Epr, Erp, Eco. simpl.
    rewrite <- Edk, !parse_ok. simpl. unfold timestamp. rewrite UnixMillis_new_raw. reflexivity.
  - constructor; simpl; congruence.
Qed.

Lemma pending_rows_ok db x : wf db -> Forall (fun m => message_ok m = true) (inbox db x).
Proof.
  intros Hwf. apply Forall_forall. intros m [Hm _]%elem_of_where.
  pose proof (wf_messages _ Hwf) as Hall. rewrite Forall_forall in Hall. auto.
Qed.

(** ** The size bound *)
(** No stored message comes near the page bound: 128 bytes per id, 64 KiB of
    body and 256 bytes per key, six bytes each when escaped. *)
Lemma item_size rec : 512 <= conservative_serialized_size rec <= 400640.
Proof.
  unfold conservative_serialized_size, usize_saturating_add, usize_saturating_mul, usize_max, STRUCTURAL_OVERHEAD.
  assert (0 <= variable_bytes rec <= 66688); [|lia]. unfold variable_bytes, opt_len.
  destruct rec as [n id [sq se re bo pr rp co] dk at_]; simpl.
  pose proof (id_len id). pose proof (id_len sq). pose proof (id_len se). pose proof (id_len re).
  pose proof (body_len bo). pose proof (text_len dk).
  destruct rp as [rp|]; [pose proof (id_len rp)|]; (destruct co as [co|]; [pose proof (text_len co)|]); lia.
Qed.

Fixpoint page_bytes (estimated : Z) (first : bool) (recs : list MessageRecord) : Z :=
  match recs with
  | [] => estimated
  | rec :: rest =>
      page_bytes (estimated + ((if first then 0 else 1) + conservative_serialized_size rec)) false rest
  end.

Lemma take_bounded_spec rows : Forall (fun m => message_ok m = true) rows ->
  forall estimated first, 0 <= estimated <= MAX_INBOX_OUTPUT_BYTES ->
  exists k recs, take_bounded estimated first rows = Ok recs
    /\ Forall2 decodes (take k rows) recs /\ (k <= length rows)%nat
    /\ page_bytes estimated first recs <= MAX_INBOX_OUTPUT_BYTES
    /\ (k = length rows \/ exists row rec, rows !! k = Some row /\ decodes row rec
         /\ MAX_INBOX_OUTPUT_BYTES < page_bytes estimated first (recs ++ [rec])).
Proof.
  induction 1 as [|row rows Hrow Hrows IH]; intros est first Hest.
  { exists 0%nat, []. simpl. split; [done|]. split; [done|]. split; [lia|]. split; [lia|]. by left. }
  destruct (map_message_ok row Hrow) as (rec & Em & Hd). simpl. rewrite Em.
  pose proof (item_size rec) as Hsz. unfold usize_checked_add.
  assert (0 <= (if first then 0 else 1) <= 1) as Hsep by (by destruct first).
  set (sep := if first then 0 else 1) in *. unfold usize_max, MAX_INBOX_OUTPUT_BYTES in *.
  rewrite (proj2 (Z.leb_le (est + sep) _)) by lia. simpl.
  rewrite (proj2 (Z.leb_le (est + sep + conservative_serialized_size rec) _)) by lia. simpl.
  destruct (Z.ltb_spec (1024 * 1024) (est + sep + conservative_serialized_size rec)) as [Hlt|Hge].
  - exists 0%nat, []. simpl. split; [done|]. split; [done|]. split; [lia|]. split; [lia|]. right.
    exists row, rec. split; [done|]. split; [done|]. fold sep. lia.
  - destruct (IH (est + (sep + conservative_serialized_size rec)) false) as (k & recs & -> & Hf & Hk & Hp & Hmax); [lia|].
    exists (S k), (rec :: recs). simpl. split; [done|]. split; [by constructor|]. split; [lia|].
    split; [done|]. destruct Hmax as [->|(r & rc & ? & ? & ?)]; [by left|]. right. eauto.
Qed.

Lemma inbox_sorted db x : wf db -> order_by by_sequence (inbox db x) = inbox db x.
Proof. intros Hwf. apply order_by_sequence_sorted, StronglySorted_where, (wf_sorted _ Hwf). Qed.

Lemma pending_inbox_on_quiet q db :
  wf db -> contains 1 MAX_INBOX_MESSAGES (iq_limit q) = true ->
  exists k recs, pending_inbox_on q (quiet db) = (Ok recs, quiet db)
    /\ Z.of_nat k <= iq_limit q
    /\ Forall2 decodes (take k (inbox db (raw (iq_recipient q)))) recs
    /\ page_bytes 2 true recs <= MAX_INBOX_OUTPUT_BYTES
    /\ (Z.of_nat k < iq_limit q -> (k < length (inbox db (raw (iq_recipient q))))%nat ->
        exists row rec, inbox db (raw (iq_recipient q)) !! k = Some row /\ decodes row rec
          /\ MAX_INBOX_OUTPUT_BYTES < page_bytes 2 true (recs ++ [rec]))
    /\ (inbox db (raw (iq_recipient q)) <> [] -> recs <> []).
Proof.
  intros Hwf Hc. unfold pending_inbox_on. rewrite Hc. simpl.
  set (x := raw (iq_recipient q)). unfold contains, MAX_INBOX_MESSAGES in Hc. bool_to_prop.
  set (n := Z.to_nat (iq_limit q)).
  destruct (take_bounded_spec (take n (inbox db x)) (Forall_take _ _ _ (pending_rows_ok _ x Hwf)) 2 true)
    as (k & recs & Ht & Hf & Hk & Hp & Hmax); [unfold MAX_INBOX_OUTPUT_BYTES; lia|].
  rewrite length_take in Hk. exists k, recs. rewrite take_take, (Nat.min_l k n) in Hf by lia.
  assert ((Z.of_nat k < iq_limit q -> (k < length (inbox db x))%nat ->
        exists row rec, inbox db x !! k = Some row /\ decodes row rec
          /\ MAX_INBOX_OUTPUT_BYTES < page_bytes 2 true (recs ++ [rec]))) as Hnext.
  { intros HA HB. rewrite length_take in Hmax. destruct Hmax as [E|(row & rec & Hl & ? & ?)]; [lia|].
    exists row, rec. split; [|done]. apply lookup_take_Some in Hl. tauto. }
  split; [|split; [lia|split; [done|split; [done|split; [exact Hnext|]]]]].
  - erewrite bind_ok; [|apply query_quiet; fold x; fold (inbox db x); rewrite inbox_sorted by done; reflexivity].
    unfold lift, limit. fold n. by rewrite Ht.
  - intros Hne ->. apply Forall2_nil_inv_r in Hf. destruct k as [|k].
    + destruct Hnext as (row & rec & _ & _ & Hbig); [lia|destruct (inbox db x); [done|simpl; lia]|].
      simpl in Hbig. pose proof (item_size rec). unfold MAX_INBOX_OUTPUT_BYTES in Hbig. lia.
    + destruct (inbox db x); done.
Qed.

(** Reading an inbox never fails for a valid limit, changes nothing, and
    returns the oldest pending messages, decoded, in sequence order: at most
    the limit, at most the output bound of a mebibyte, as many as fit, and at
    least one whenever there is one. *)
Theorem pending_inbox_page q db :
  reachable db -> contains 1 MAX_INBOX_MESSAGES (iq_limit q) = true ->
  exists k recs, pending_inbox q (quiet db) = (Ok recs, quiet db)
    /\ Z.of_nat k <= iq_limit q
    /\ Forall2 decodes (take k (inbox db (raw (iq_recipient q)))) recs
    /\ page_bytes 2 true recs <= MAX_INBOX_OUTPUT_BYTES
    /\ (Z.of_nat k < iq_limit q -> (k < length (inbox db (raw (iq_recipient q))))%nat ->
        exists row rec, inbox db (raw (iq_recipient q)) !! k = Some row /\ decodes row rec
          /\ MAX_INBOX_OUTPUT_BYTES < page_bytes 2 true (recs ++ [rec]))
    /\ (inbox db (raw (iq_recipient q)) <> [] -> recs <> []).
Proof. intros Hwf%reachable_wf. by apply pending_inbox_on_quiet. Qed.

(** ** Acknowledgement *)
Definition owns (db : Database) (recipient : MembershipId) (id : MessageId) : bool :=
  exists_where (fun m => eqs (ms_id m) (raw id) && eqs (ms_recipient m) (raw recipient)) (messages db).
Definition acked (ids : list MessageId) (recipient : MembershipId) (now : UnixMillis) (db : Database) : Database :=
  set_messages db (map (ack_where ids recipient (raw now)) (messages db)) (message_seq db).

Lemma acked_ext ids ids' recipient now db :
  (forall x, x ∈ ids <-> x ∈ ids') -> acked ids recipient now db = acked ids' recipient now db.
Proof.
  intros Hx. unfold acked. f_equal. apply map_ext. intros m. unfold ack_where.
  erewrite bool_decide_ext; [reflexivity|]. rewrite !list_elem_of_fmap.
  by setoid_rewrite Hx.
Qed.

Lemma collect_owned_quiet recipient db ids : forall distinct,
  Forall (fun id => owns db recipient id = true) distinct ->
  exists out, (forall x, x ∈ out <-> x ∈ distinct \/ x ∈ ids)
    /\ collect_owned recipient distinct ids (quiet db)
       = (if forallb (owns db recipient) ids then Ok out else Err NotFound, quiet db).
Proof.
  induction ids as [|id ids IH]; intros distinct Hd; simpl.
  - exists distinct. split; [|done]. intros x. split; [by left|]. by intros [|?%not_elem_of_nil].
  - case_bool_decide as Hin.
    + destruct (IH distinct Hd) as (out & Ho & ->). exists out.
      rewrite Forall_forall in Hd. rewrite (Hd id Hin). split; [|done].
      intros x. rewrite Ho, elem_of_cons. split; [tauto|]. by intros [?|[->|?]]; auto.
    + destruct (owns db recipient id) eqn:Eo; simpl.
      * destruct (IH (distinct ++ [id])) as (out & Ho & Hc).
        { apply Forall_app. auto. }
        exists out. split.
        { intros x. rewrite Ho, elem_of_app, list_elem_of_singleton, elem_of_cons. tauto. }
        erewrite bind_ok; [|apply query_quiet; reflexivity]. fold (owns db recipient id). by rewrite Eo.
      * exists (distinct ++ id :: ids). split; [intros x; apply elem_of_app|].
        erewrite bind_ok; [|apply query_quiet; reflexivity]. fold (owns db recipient id). by rewrite Eo.
Qed.

Lemma acknowledge_each_quiet recipient now ids : forall db,
  acknowledge_each recipient now false ids (quiet db) = (Ok tt, quiet (acked ids recipient now db)).
Proof.
  induction ids as [|id ids IH]; intros db.
  - simpl. unfold acked. replace (map _ (messages db)) with (messages db); [by destruct db|].
    induction (messages db) as [|m ms IHm]; simpl; [done|]. by rewrite <- IHm.
  - simpl. erewrite bind_ok; [|apply execute_quiet; reflexivity]. rewrite IH.
    unfold acked at 2. by rewrite ack_where_cons.
Qed.

Lemma acknowledge_quiet order req db :
  (forall l, order l ≡ₚ l) -> contains 1 MAX_ACK_MESSAGES (Z.of_nat (length (am_message_ids req))) = true ->
  acknowledge_messages order req (quiet db) =
    if forallb (owns db (am_recipient req)) (am_message_ids req)
    then (Ok tt, quiet (acked (am_message_ids req) (am_recipient req) (am_acknowledged_at req) db))
    else (Err NotFound, quiet db).
Proof.
  intros Hord Hc0. unfold acknowledge_messages, acknowledge_messages_with_fault. rewrite Hc0. simpl.
  destruct (collect_owned_quiet (am_recipient req) db (am_message_ids req) [] (Forall_nil_2 _))
    as (out & Ho & Hc).
  destruct (forallb _ _) eqn:E.
  - apply (transaction_quiet (acknowledge_on order req false) db (Ok tt)).
    unfold acknowledge_on. erewrite bind_ok; [|exact Hc]. rewrite acknowledge_each_quiet.
    rewrite (acked_ext (order out) (am_message_ids req)); [reflexivity|].
    intros x. rewrite (Hord out), Ho. split; [|by right]. by intros [?%not_elem_of_nil|].
  - apply (transaction_quiet (acknowledge_on order req false) db (Err NotFound) db).
    unfold acknowledge_on. erewrite bind_err; [reflexivity|exact Hc].
Qed.

(** Acknowledgement is all or nothing, and does not depend on the iteration order
    of the set of ids.  A batch of 1 to 100 ids that all name messages of the
    recipient acknowledges exactly those still pending; one foreign or unknown
    id refuses the whole batch as not found; any other size is invalid. *)
Theorem acknowledge_messages_spec order req db :
  (forall l, order l ≡ₚ l) ->
  acknowledge_messages order req (quiet db) =
    if negb (contains 1 MAX_ACK_MESSAGES (Z.of_nat (length (am_message_ids req)))) then (Err InvalidRequest, quiet db)
    else if forallb (owns db (am_recipient req)) (am_message_ids req)
    then (Ok tt, quiet (acked (am_message_ids req) (am_recipient req) (am_acknowledged_at req) db))
    else (Err NotFound, quiet db).
Proof.
  intros Hord. destruct (contains _ _ _) eqn:Hc; [by apply acknowledge_quiet|].
  unfold acknowledge_messages, acknowledge_messages_with_fault. by rewrite Hc.
Qed.

(** A message row acknowledged by a batch, and its later states. *)
Lemma acked_row ids recipient now db db2 m2 :
  wf db2 -> (forall id, id ∈ ids -> owns db recipient id = true) -> evolves (acked ids recipient now db) db2 ->
  m2 ∈ messages db2 -> ms_id m2 ∈ map raw ids -> ms_acknowledged_at m2 <> None.
Proof.
  intros Hwf2 Hown He Hm2 (id & Eid & Hid)%list_elem_of_fmap.
  pose proof (Hown id Hid) as (m & Hm & Em)%exists_where_true. bool_to_prop. rewrite eqs_true in *.
  set (m1 := ack_where ids recipient (raw now) m).
  assert (ms_acknowledged_at m1 <> None /\ ms_id m1 = ms_id m) as [Ha Ei].
  { unfold m1, ack_where. rewrite bool_decide_eq_true_2 by (apply list_elem_of_fmap; exists id; split; [congruence|done]).
    match goal with E : ms_recipient m = _ |- _ => rewrite E end. rewrite eqs_refl. simpl.
    destruct (ms_acknowledged_at m) eqn:Ea; simpl; [|done]. by rewrite Ea. }
  destruct (grows_elem message_le _ _ m1 (evolves_messages _ _ He)) as (m3 & Hm3 & Hle).
  { simpl. apply list_elem_of_fmap. by exists m. }
  destruct Hle as [->|[? _]]; [|done].
  assert (m2 = m1) as ->; [|done].
  eapply (NoDup_key_eq ms_id); [apply (wf_message_ids _ Hwf2)|done|done|congruence].
Qed.

(** An acknowledged message never returns, and acknowledging again is
    harmless: after any later history the same batch succeeds, changes
    nothing, and none of its messages is pending. *)
Theorem acknowledged_for_good order req db db1 db2 :
  (forall l, order l ≡ₚ l) -> reachable db ->
  runs (acknowledge_messages order req) db (Ok tt) db1 -> rtc step db1 db2 ->
  acknowledge_messages order req (quiet db2) = (Ok tt, quiet db2)
  /\ forall m x, m ∈ inbox db2 x -> ms_id m ∉ map raw (am_message_ids req).
Proof.
  intros Hord Hr Hrun Hs.
  assert (reachable db1) as Hr1.
  { eapply rtc_r; [exact Hr|]. by exists (CAcknowledge order req), (Ok tt). }
  assert (reachable db2) as Hr2 by (by eapply reachable_steps).
  apply acknowledge_messages_ok in Hrun as [Hc (distinct & Hd & Hown & ->)%acknowledge_effect].
  set (ids := am_message_ids req) in *. set (r := am_recipient req) in *.
  assert (forall id, id ∈ ids -> owns db r id = true) as Howns.
  { intros id (m & Hm & Ei & Er)%Hd%Hown. apply exists_where_true. exists m. by rewrite Ei, Er, !eqs_refl. }
  fold (acked (order distinct) r (am_acknowledged_at req) db) in *.
  rewrite (acked_ext (order distinct) ids) in * by (intros x; by rewrite (Hord distinct)).
  pose proof (steps_evolve _ _ Hr1 Hs) as He. pose proof (reachable_wf _ Hr2) as Hwf2.
  assert (forall m, m ∈ messages db2 -> ms_id m ∈ map raw ids -> ms_acknowledged_at m <> None) as Hacked
    by (intros m; by eapply acked_row).
  split.
  - assert (forallb (owns db2 r) ids = true) as Hall.
    { apply forallb_forall. intros id Hid%list_elem_of_In. apply Howns, exists_where_true in Hid as (m & Hm & Em).
      destruct (grows_elem message_le _ _ (ack_where ids r (raw (am_acknowledged_at req)) m) (evolves_messages _ _ He))
        as (m2 & Hm2 & Hle). { simpl. apply list_elem_of_fmap. by exists m. }
      apply exists_where_true. exists m2. split; [done|]. revert Em. unfold ack_where in Hle.
      destruct (_ && _ && _) in Hle; destruct Hle as [->|[_ [t ->]]]; done. }
    rewrite acknowledge_quiet by done. fold ids r. rewrite Hall. f_equal. f_equal.
    unfold acked. replace (map _ (messages db2)) with (messages db2); [by destruct db2|].
    rewrite <- (map_id (messages db2)) at 1. apply map_ext_in. intros m Hm%list_elem_of_In.
    unfold ack_where. destruct (bool_decide _) eqn:Eb; [|done]. bool_to_prop.
    destruct (ms_acknowledged_at m) eqn:Ea; [by rewrite andb_false_r|]. by destruct (Hacked m Hm Eb).
  - intros m x [Hm Hp]%elem_of_where Hin. apply (Hacked m Hm Hin).
    unfold pending_row in Hp. bool_to_prop. by apply is_null_true.
Qed.
End Queue.

(** ** Examples *)
Definition bob_query : InboxQuery := {| iq_recipient := bob_id; iq_limit := 10 |}.
Definition bob_ack : AcknowledgeMessages :=
  {| am_recipient := bob_id; am_message_ids := [hello_id; hello_id]; am_acknowledged_at := at_300 |}.
Definition alice_ack : AcknowledgeMessages :=
  {| am_recipient := alice_id; am_message_ids := [hello_id]; am_acknowledged_at := at_300 |}.


Lemma pending_inbox_page_witness :
  exists recs, pending_inbox bob_query (quiet sent_db) = (Ok recs, quiet sent_db) /\ recs <> [].
Proof.
  destruct (pending_inbox_page bob_query sent_db sent_reachable eq_refl) as (k & recs & E & _ & _ & _ & _ & Hne).
  exists recs. split; [exact E|]. apply Hne. discriminate.
Defined.

Lemma acknowledge_messages_spec_witness :
  acknowledge_messages (fun l => rev l) bob_ack (quiet sent_db)
  = (Ok tt, quiet (acked [hello_id; hello_id] bob_id at_300 sent_db))
  /\ acknowledge_messages (fun l => rev l) alice_ack (quiet sent_db) = (Err NotFound, quiet sent_db).
Proof.
  split.
  - rewrite (acknowledge_messages_spec (fun l => rev l) bob_ack sent_db);
      [reflexivity|intros l; symmetry; apply Permutation_rev].
  - rewrite (acknowledge_messages_spec (fun l => rev l) alice_ack sent_db);
      [reflexivity|intros l; symmetry; apply Permutation_rev].
Defined.

Lemma acknowledged_for_good_witness :
  let db1 := acked [hello_id; hello_id] bob_id at_300 sent_db in
  acknowledge_messages (fun l => l) bob_ack (quiet db1) = (Ok tt, quiet db1) /\ inbox db1 (raw bob_id) = [].
Proof.
  intros db1. split; [|reflexivity].
  apply (acknowledged_for_good (fun l => l) bob_ack sent_db db1 db1).
  - intros l. reflexivity.
  - apply sent_reachable.
  - exists (quiet sent_db), (quiet db1). split; [reflexivity|]. split; [vm_compute; reflexivity|reflexivity].
  - apply rtc_refl.
Defined.
