(* ===== verification/Sessions.v ===== *)
(** * Sessions: authentication, authority, leaving, archiving *)
From S2P Require Import Prelude Text Core Base64 Sql Store Repository Instance Message Inbox Authenticated Invariant Effects Events History Commands Fixtures.

Section Sessions.
Context `{Crypto}.

(** ** The rows of a session *)
Lemma instance_rows db i :
  wf db -> i ∈ instances db ->
  exists m s, m ∈ memberships db /\ mb_id m = in_membership_id i /\ s ∈ squads db /\ sq_id s = mb_squad_id m.
Proof.
  intros Hwf Hi. pose proof (wf_fk_membership _ Hwf) as Hf. rewrite Forall_forall in Hf.
  apply Hf in Hi as (m & Em & Hm)%list_elem_of_fmap.
  pose proof (wf_fk_squad _ Hwf) as Hs. rewrite Forall_forall in Hs.
  pose proof (Hs m Hm) as (s & Es & Hss)%list_elem_of_fmap. by exists m, s.
Qed.

Lemma where_by_instance db i : wf db -> i ∈ instances db ->
  where_ (fun x => eqs (in_id x) (in_id i)) (instances db) = [i].
Proof. intros Hwf Hi. apply (where_unique in_id); [apply (wf_instance_ids _ Hwf)|done|]. intros x. apply eqs_true. Qed.
Lemma where_by_member db m : wf db -> m ∈ memberships db ->
  where_ (fun x => eqs (mb_id x) (mb_id m)) (memberships db) = [m].
Proof. intros Hwf Hm. apply (where_unique mb_id); [apply (wf_membership_ids _ Hwf)|done|]. intros x. apply eqs_true. Qed.
Lemma where_by_squad db s : wf db -> s ∈ squads db ->
  where_ (fun x => eqs (sq_id x) (sq_id s)) (squads db) = [s].
Proof. intros Hwf Hs. apply (where_unique sq_id); [apply (wf_squad_ids _ Hwf)|done|]. intros x. apply eqs_true. Qed.

Lemma session_rows_one db id i m :
  wf db -> i ∈ instances db -> in_id i = raw id -> m ∈ memberships db -> mb_id m = in_membership_id i ->
  session_rows db id = [(i, m)].
Proof.
  intros Hwf Hi Ei Hm Em. unfold session_rows. rewrite <- Ei, where_by_instance by done. simpl.
  rewrite <- Em, where_by_member by done. done.
Qed.

Lemma authority_rows_one db id i m s :
  wf db -> i ∈ instances db -> in_id i = raw id -> m ∈ memberships db -> mb_id m = in_membership_id i ->
  s ∈ squads db -> sq_id s = mb_squad_id m -> authority_rows db id = [(i, m, s)].
Proof.
  intros Hwf Hi Ei Hm Em Hs Es. unfold authority_rows. rewrite (session_rows_one _ _ i m) by done. simpl.
  rewrite <- Es, where_by_squad by done. done.
Qed.

(** No instance carries this id with the presented token. *)
Definition unauthentic (db : Database) (id : InstanceId) (token : ResumeToken) : Prop :=
  forall i, i ∈ instances db -> in_id i = raw id -> in_resume_token_hash i <> token_hash token.

Lemma authenticate_historical_quiet_bad s db :
  unauthentic db (as_instance_id s) (as_resume_token s) ->
  authenticate_historical s (quiet db) = (Err NotFound, quiet db).
Proof.
  intros Hbad. unfold authenticate_historical.
  destruct (session_rows db (as_instance_id s)) as [|[i m] rows] eqn:E.
  - erewrite bind_ok; [|apply query_quiet; rewrite E; reflexivity]. done.
  - erewrite bind_ok; [|apply query_quiet; rewrite E; reflexivity].
    assert ((i, m) ∈ session_rows db (as_instance_id s)) as (Hi & Ei & _)%elem_of_session_rows.
    { rewrite E. apply elem_of_cons. by left. }
    erewrite bind_err; [reflexivity|]. unfold lift.
    destruct (authenticate _ _) as [[]|e] eqn:Ea; [|done].
    apply authenticate_iff in Ea. by destruct (Hbad i Hi Ei).
Qed.

Lemma authorize_current_quiet_bad s db :
  unauthentic db (as_instance_id s) (as_resume_token s) ->
  authorize_current s (quiet db) = (Err NotFound, quiet db).
Proof. intros Hbad. unfold authorize_current. by erewrite bind_err; [|apply authenticate_historical_quiet_bad]. Qed.

(** ** Concealment *)

(** The credential a command presents. *)
Definition credential (c : Command) : option (InstanceId * ResumeToken) :=
  match c with
  | CAuthHeartbeat s _ _ _ | CAuthRoster s _ | CAuthSend s _ | CAuthSendByName s _ | CAuthPage s _
  | CAuthPending s _ | CAuthAcknowledge _ s _ | CAuthTranscript s _ | CAuthTranscriptViews s _
  | CAuthLeave s _ | CAuthArchive s _ | CAuthArchiveByName s _ => Some (as_instance_id s, as_resume_token s)
  | CAuthResume prior token _ _ _ _ _ _ _ _ _ => Some (prior, token)
  | _ => None
  end.

(** What is validated before the database is opened. *)
Definition request_valid (c : Command) : bool :=
  match c with
  | CAuthHeartbeat s a source _ => is_ok (validate_observation a source (as_now s))
  | CAuthTranscript _ q => contains 1 100 (tq_limit q) && (0 <=? tq_after q)
  | CAuthTranscriptViews _ q => contains 1 100 (tn_limit q) && (0 <=? tn_after q)
  | CAuthResume _ _ _ _ kind host a source now _ _ =>
      is_ok (validate_client kind host) && is_ok (validate_observation a source now)
  | _ => true
  end.

Lemma ignore_quiet_err {A} (m : M A) db e :
  m (quiet db) = (Err e, quiet db) -> ignore m (quiet db) = (Err e, quiet db).
Proof. intros E. unfold ignore. by erewrite bind_err. Qed.
Lemma transaction_quiet_err {A} (m : M A) db e :
  m (quiet db) = (Err e, quiet db) -> transaction m (quiet db) = (Err e, quiet db).
Proof. intros E%transaction_quiet. done. Qed.
Lemma bind_quiet_err {A B} (m : M A) (k : A -> M B) db e :
  m (quiet db) = (Err e, quiet db) -> (m ≫= k) (quiet db) = (Err e, quiet db).
Proof. apply bind_err. Qed.

Lemma resume_quiet_bad prior token new mode kind host a source now p squad db :
  unauthentic db prior token ->
  is_ok (validate_client kind host) && is_ok (validate_observation a source now) = true ->
  authenticated_resume prior token new mode kind host a source now p squad (quiet db) = (Err NotFound, quiet db).
Proof.
  intros Hbad Hv. unfold authenticated_resume. bool_to_prop.
  destruct (validate_client kind host) as [[]|]; [|done].
  destruct (validate_observation a source now) as [[]|]; [|done].
  erewrite bind_ok; [|reflexivity]. erewrite bind_ok; [|reflexivity]. apply transaction_quiet_err.
  destruct (resume_rows db prior) as [|[[i m] s] rows] eqn:E;
    (erewrite bind_ok; [|apply query_quiet; rewrite E; reflexivity]); [done|].
  assert ((i, m, s) ∈ resume_rows db prior) as Hin by (rewrite E; apply elem_of_cons; by left).
  apply elem_of_where in Hin as [(Hin & _)%elem_of_authority_rows _].
  apply elem_of_session_rows in Hin as (Hi & Ei & _).
  apply bind_quiet_err. unfold lift. destruct (authenticate _ _) as [[]|e] eqn:Ea; [|done].
  apply authenticate_iff in Ea. by destruct (Hbad i Hi Ei).
Qed.

(** Credential concealment.  Every authenticated command presented with a token
    that is not the named instance's fails the same way whether the instance
    exists or not: not found, unless the request itself was invalid; nothing
    changes. *)
Theorem bad_credentials_are_concealed c id token db :
  credential c = Some (id, token) -> unauthentic db id token ->
  perform c (quiet db) = (Err (if request_valid c then NotFound else InvalidRequest), quiet db).
Proof.
  intros Hc Hbad. destruct c; simpl in Hc; try done; injection Hc as <- <-; simpl;
    try (apply ignore_quiet_err);
    try (apply transaction_quiet_err; apply bind_quiet_err;
         first [by apply authorize_current_quiet_bad|by apply authenticate_historical_quiet_bad]).
  - unfold authenticated_heartbeat, validate_observation.
    destruct (AvailabilityObservation_new _ _ _); simpl; [|done].
    erewrite bind_ok; [|reflexivity]. apply bind_quiet_err, transaction_quiet_err, bind_quiet_err.
    by apply authorize_current_quiet_bad.
  - apply bind_quiet_err, transaction_quiet_err, bind_quiet_err. by apply authenticate_historical_quiet_bad.
  - unfold authenticated_transcript. rewrite Z.ltb_antisym, <- negb_andb.
    destruct (_ && _); simpl; [|done].
    apply transaction_quiet_err, bind_quiet_err. by apply authorize_current_quiet_bad.
  - unfold authenticated_transcript_views. rewrite Z.ltb_antisym, <- negb_andb.
    destruct (_ && _); simpl; [|done].
    apply transaction_quiet_err, bind_quiet_err. by apply authorize_current_quiet_bad.
  - destruct (_ && _) eqn:E; [by apply resume_quiet_bad|].
    unfold authenticated_resume, validate_client, validate_observation in *.
    destruct (_ || _); [done|]. simpl in E. erewrite bind_ok; [|reflexivity].
    destruct (AvailabilityObservation_new _ _ _); done.
Qed.

(** ** Current authority *)
Definition verdict (session : AuthenticatedSession) (i : InstanceRow) (m : MembershipRow) (s : SquadRow)
    : Result RepositoryError (string * string) :=
  if negb (eqs (in_resume_token_hash i) (token_hash (as_resume_token session))) then Err NotFound
  else if in_lease_expires_at i <=? raw (as_now session) then Err LeaseExpired
  else if eqs (sq_state s) "archived" then Err SquadArchived
  else if negb (is_null (in_closed_at i)) || negb (is_null (mb_left_at m)) then Err NotMember
  else Ok (mb_id m, mb_squad_id m).

Lemma member_row_ok db m : wf db -> m ∈ memberships db -> membership_ok m = true.
Proof. intros Hwf Hm. pose proof (wf_memberships _ Hwf) as Ha. rewrite Forall_forall in Ha. auto. Qed.
Lemma instance_row_ok db i : wf db -> i ∈ instances db -> instance_ok i = true.
Proof. intros Hwf Hm. pose proof (wf_instances _ Hwf) as Ha. rewrite Forall_forall in Ha. auto. Qed.
Lemma squad_row_ok db s : wf db -> s ∈ squads db -> squad_ok s = true.
Proof. intros Hwf Hm. pose proof (wf_squads _ Hwf) as Ha. rewrite Forall_forall in Ha. auto. Qed.

Lemma new_ok {E} {ok : string -> bool} `{!Validator (checked ok) new raw} (f : InvalidValue -> E) v :
  ok v = true -> exists x, map_err f (new v) = Ok x /\ raw x = v.
Proof. intros (x & <-)%checked_exists. exists x. by rewrite new_raw. Qed.
Lemma stored_timestamp_ok v : millis_ok v = true -> exists x, stored_timestamp v = Ok x /\ raw x = v.
Proof. intros (x & <-)%checked_exists. exists x. unfold stored_timestamp. by rewrite UnixMillis_new_raw. Qed.
Lemma parse_mode_ok i : instance_ok i = true -> exists m, Instance.parse_mode (in_mode i) = Ok m.
Proof.
  unfold instance_ok, instance_checks, Instance.parse_mode. intros Hi. split_andb.
  destruct (eqs (in_mode i) "cooperative"), (eqs (in_mode i) "scheduled"), (eqs (in_mode i) "harnessed"); eauto; done.
Qed.

Lemma authenticate_historical_quiet_ok s db i m :
  wf db -> i ∈ instances db -> in_id i = raw (as_instance_id s) -> m ∈ memberships db -> mb_id m = in_membership_id i ->
  in_resume_token_hash i = token_hash (as_resume_token s) ->
  exists id, authenticate_historical s (quiet db) = (Ok id, quiet db)
    /\ raw (id_membership id) = mb_id m /\ raw (id_squad id) = mb_squad_id m
    /\ raw (id_expiry id) = in_lease_expires_at i.
Proof.
  intros Hwf Hi Ei Hm Em Ht. unfold authenticate_historical.
  pose proof (instance_row_ok _ _ Hwf Hi) as Oi. pose proof (member_row_ok _ _ Hwf Hm) as Om.
  destruct (parse_mode_ok i Oi) as [mode Emode].
  unfold instance_ok in Oi. unfold membership_ok in Om. split_andb.
  destruct (new_ok (new := MembershipId_new) (fun _ => InvalidStoredData) (mb_id m)) as (mid & E1 & R1); [done|].
  destruct (new_ok (new := SquadId_new) (fun _ => InvalidStoredData) (mb_squad_id m)) as (sid & E2 & R2); [done|].
  destruct (stored_timestamp_ok (in_lease_expires_at i)) as (ex & E3 & R3); [done|].
  destruct (stored_timestamp_ok (in_last_seen_at i)) as (ls & E4 & _); [done|].
  destruct (stored_timestamp_ok (in_created_at i)) as (cr & E5 & _); [done|].
  eexists. split.
  - erewrite bind_ok; [|apply query_quiet; rewrite (session_rows_one _ _ i m) by done; reflexivity]. cbn beta iota.
    erewrite bind_ok; [|unfold lift; rewrite (proj2 (authenticate_iff _ _) Ht); reflexivity].
    erewrite bind_ok; [|unfold lift; rewrite E1; reflexivity].
    erewrite bind_ok; [|unfold lift; rewrite E2; reflexivity].
    erewrite bind_ok; [|unfold lift; rewrite Emode; reflexivity].
    erewrite bind_ok; [|unfold lift; rewrite E3; reflexivity].
    erewrite bind_ok; [|unfold lift; rewrite E4; reflexivity].
    erewrite bind_ok; [|unfold lift; rewrite E5; reflexivity]. reflexivity.
  - done.
Qed.

(** Authority, on every branch.  A session of an existing instance is
    authorized exactly when its token matches, its lease is unexpired, its squad
    is active, its instance open and its membership current; otherwise the
    first of these that fails decides the error.  Stored data never fails to
    decode. *)
Theorem authorize_current_spec session db i :
  reachable db -> i ∈ instances db -> in_id i = raw (as_instance_id session) ->
  exists m s r, m ∈ memberships db /\ mb_id m = in_membership_id i /\ s ∈ squads db /\ sq_id s = mb_squad_id m
    /\ authorize_current session (quiet db) = (r, quiet db)
    /\ (fun id => (raw (id_membership id), raw (id_squad id))) <$> r = verdict session i m s.
Proof.
  intros Hwf%reachable_wf Hi Ei. destruct (instance_rows _ _ Hwf Hi) as (m & s & Hm & Em & Hs & Es).
  exists m, s. unfold verdict. destruct (eqs (in_resume_token_hash i) _) eqn:Et; simpl.
  2: { apply eqs_false in Et. exists (Err NotFound). do 4 (split; [done|]). split; [|done].
       apply authorize_current_quiet_bad. intros i' Hi' Ei'.
       assert (i' = i) as ->; [|done].
       eapply (NoDup_key_eq in_id); [apply (wf_instance_ids _ Hwf)|done|done|congruence]. }
  apply eqs_true in Et.
  destruct (authenticate_historical_quiet_ok session db i m) as (id & Ha & R1 & R2 & R3); try done.
  assert (sq_state s = "active" \/ sq_state s = "archived") as Hst.
  { pose proof (squad_row_ok _ _ Hwf Hs) as Os. unfold squad_ok, squad_checks in Os. split_andb.
    match goal with E : eqs (sq_state s) "active" || _ = true |- _ =>
      apply orb_true_iff in E as [?%eqs_true|?%eqs_true]; auto end. }
  unfold authorize_current. rewrite (bind_ok _ _ _ _ _ Ha), R3.
  destruct (in_lease_expires_at i <=? raw (as_now session)) eqn:El.
  { exists (Err LeaseExpired). done. }
  erewrite bind_ok; [|apply query_quiet; rewrite (authority_rows_one _ _ i m s) by done; reflexivity]. cbn beta iota.
  destruct Hst as [-> | ->]; simpl; [|by exists (Err SquadArchived)].
  destruct (negb (is_null (in_closed_at i)) || negb (is_null (mb_left_at m))); [by exists (Err NotMember)|].
  exists (Ok id). do 5 (split; [done|]). simpl. by rewrite R1, R2.
Qed.

(** ** Leaving *)
Lemma authenticated_leave_marks session name db out db' :
  inv db -> runs (authenticated_leave session name) db (Ok out) db' ->
  exists id i m s, authorized db session id i m s /\ lo_membership_id out = id_membership id
    /\ lo_left_at out = as_now session
    /\ db' = mark_left (raw (id_membership id)) (raw (as_now session))
               (close_all (raw (id_membership id)) (raw (as_now session)) db).
Proof.
  intros Hinv Hrun.
  assert (lo_left_at out = as_now session) as Hat.
  { unfold authenticated_leave in Hrun. by inv_runs. }
  apply authenticated_leave_effect in Hrun as (id & i & m & sq & n1 & n2 & db1 & Ha & Hc & Hl & Eo); [|apply Hinv].
  unfold close_instances_where, leave_membership_row in *. injection Hc as _ <-. injection Hl as _ <-.
  rewrite (close_own_is_close_all _ _ _ _ _ _ _ Hinv Ha).
  exists id, i, m, sq. done.
Qed.

(** The authenticated leave, which closes only the session's own instance, has
    exactly the effect of the administrative leave, which closes every open
    instance of the membership. *)
Theorem authenticated_leave_is_leave session name db out db' :
  reachable db -> runs (authenticated_leave session name) db (Ok out) db' ->
  exists squad, leave squad (lo_membership_id out) (lo_left_at out) (quiet db) = (Ok tt, quiet db').
Proof.
  intros Hinv%reachable_inv (id & i & m & s & Ha & -> & -> & ->)%authenticated_leave_marks; [|done].
  destruct Ha as [_ Hm _ _ _ _ _ _ _ Lm _ (R1 & R2 & _)]. exists (id_squad id). unfold leave, leave_with_fault.
  apply (transaction_quiet _ db (Ok tt)).
  erewrite bind_ok; [|apply query_quiet; reflexivity].
  assert (exists_where (active_member (raw (id_membership id)) (raw (id_squad id))) (memberships db) = true) as ->.
  { apply exists_where_true. exists m. split; [done|]. unfold active_member.
    by rewrite R1, R2, !eqs_refl, Lm. }
  simpl. erewrite bind_ok; [|apply execute_quiet; reflexivity].
  erewrite bind_ok; [|apply execute_quiet; reflexivity]. reflexivity.
Qed.

(** Leaving is final.  After a membership left, in every later store and every
    environment, no session is authorized as that membership. *)
Theorem left_membership_has_no_authority session name db out db1 db2 session' id db3 :
  reachable db -> runs (authenticated_leave session name) db (Ok out) db1 -> rtc step db1 db2 ->
  runs (authorize_current session') db2 (Ok id) db3 -> id_membership id <> lo_membership_id out.
Proof.
  intros Hr Hrun Hs Hauth E. assert (reachable db1) as Hr1.
  { eapply rtc_r; [exact Hr|]. exists (CAuthLeave session name), (Ok tt). split; [done|].
    destruct Hrun as (w & w' & ? & Er & ?). exists w, w'. split; [done|]. split; [|done].
    simpl. unfold ignore. by erewrite bind_ok. }
  pose proof (reachable_wf _ (reachable_steps _ _ Hr1 Hs)) as Hwf2.
  apply authorize_current_effect in Hauth as (_ & i & m & s & [_ Hm _ _ _ _ _ _ _ Lm _ (R1 & _)]); [|done].
  apply authenticated_leave_marks in Hrun as (id0 & i0 & m0 & s0 & [_ Hm0 _ _ _ _ _ _ _ _ _ (R0 & _)] & Eo & _ & Edb);
    [|by apply reachable_inv].
  assert (exists m1, m1 ∈ memberships db1 /\ mb_id m1 = mb_id m0 /\ mb_left_at m1 <> None) as (m1 & Hm1 & Em1 & Lm1).
  { set (f := fun m => if eqs (mb_id m) (raw (id_membership id0)) && is_null (mb_left_at m)
                       then leave_row (raw (as_now session)) m else m).
    assert (f m0 ∈ memberships db1) as Hf by (rewrite Edb; by apply list_elem_of_fmap_2).
    exists (f m0). split; [done|]. assert (mb_id (f m0) = mb_id m0) as Ef by (unfold f; by destruct (_ && _)).
    split; [done|]. rewrite Edb in Hf. apply elem_of_mark_left in Hf as [Hf _]. apply Hf. congruence. }
  destruct (grows_elem membership_le _ _ m1 (evolves_memberships _ _ (steps_evolve _ _ Hr1 Hs)) Hm1) as (m2 & Hm2 & Hle).
  destruct Hle as [->|[? _]]; [|done].
  assert (m1 = m) as ->; [|done].
  eapply (NoDup_key_eq mb_id); [apply (wf_membership_ids _ Hwf2)|done|done|congruence].
Qed.

(** ** Archiving *)
Definition squad_messages (db : Database) (squad : string) : list string :=
  map ms_id (where_ (fun m => eqs (ms_squad_id m) squad) (messages db)).
Definition squad_members (db : Database) (squad : string) : list string :=
  map mb_id (where_ (fun m => eqs (mb_squad_id m) squad) (memberships db)).
Definition squad_archived (db : Database) (squad : string) : Prop :=
  exists s, s ∈ squads db /\ sq_id s = squad /\ sq_state s = "archived".

Lemma archived_not_active db squad : wf db -> squad_archived db squad -> squad_active db squad -> False.
Proof.
  intros Hwf (s & Hs & Es & As) (s' & Hs' & Es' & As').
  assert (s = s') as ->; [|congruence].
  eapply (NoDup_key_eq sq_id); [apply (wf_squad_ids _ Hwf)|done|done|congruence].
Qed.

Lemma archived_stays db db' squad : evolves db db' -> squad_archived db squad -> squad_archived db' squad.
Proof.
  intros He (s & Hs & Es & As).
  destruct (grows_elem squad_le _ _ s (evolves_squads _ _ He) Hs) as (s' & Hs' & [->|[As' _]]); [by exists s|].
  congruence.
Qed.

Lemma update_where_where {R} (q p : R -> bool) (f : R -> R) (key : R -> string) rows :
  (forall r, q (f r) = q r /\ key (f r) = key r) ->
  map key (where_ q (update_where p f rows)) = map key (where_ q rows).
Proof.
  intros Hf. unfold where_, update_where. induction rows as [|r rows IH]; simpl; [done|].
  destruct (p r); [destruct (Hf r) as [-> Hk]|]; destruct (q r); simpl; rewrite ?Hk, IH; done.
Qed.

Lemma frozen_event db db' squad :
  wf db -> squad_archived db squad -> event db db' ->
  squad_messages db' squad = squad_messages db squad /\ squad_members db' squad = squad_members db squad.
Proof.
  intros Hwf Ha He. destruct He as [id name mission at_ db' Hi|p now n db' Hi| |req sq db' Hact Hi
    |id mb mode kind host tk a src now ex n db' _ _ Hv Hlt Hi|id mb mode kind host tk a src now ex n db' _ _ _ Hv Hlt Hi
    | | |req n db' sem Hact _ _ Hi|ids recipient now]; try done.
  - unfold insert_squad in Hi. repeat split_match_in Hi; done.
  - unfold archive_squads_where in Hi. by simplify_eq.
  - apply join_rows in Hi as (_ & -> & _); [|done]. split; [done|]. unfold squad_members. simpl.
    rewrite where_app, map_app. unfold where_ at 2. simpl. destruct (eqs (raw sq) squad) eqn:E; [|by rewrite app_nil_r].
    apply eqs_true in E. rewrite E in Hact. by destruct (archived_not_active _ _ Hwf Ha Hact).
  - by apply owner_rows in Hi as [_ ->].
  - apply owner_rows in Hi as [_ ->]; [done|by apply wf_close_all|done|done].
  - split; [done|]. by apply update_where_where.
  - eapply wf_insert_message in Hi as (_ & _ & ->); [|done|by eapply new_message_row_ok].
    split; [|done]. unfold squad_messages. simpl. rewrite where_app, map_app. unfold where_ at 2. simpl.
    destruct (eqs _ squad) eqn:E; [|by rewrite app_nil_r].
    apply eqs_true in E. subst sem. rewrite E in Hact. by destruct (archived_not_active _ _ Hwf Ha Hact).
  - split; [|done]. unfold squad_messages. simpl.
    apply (update_where_where _ (fun m => bool_decide (ms_id m ∈ map raw ids) && eqs (ms_recipient m) (raw recipient)
      && is_null (ms_acknowledged_at m)) (ack_row (raw now))). done.
Qed.

(** An archived squad is frozen.  After the archive, no later command adds a
    member or a message to the squad. *)
Theorem archived_squad_is_frozen db db' squad :
  reachable db -> squad_archived db squad -> rtc step db db' ->
  squad_messages db' squad = squad_messages db squad /\ squad_members db' squad = squad_members db squad.
Proof.
  intros Hi%reachable_inv Ha Hs. pose proof (steps_events _ _ Hi Hs) as He. clear Hs.
  induction He as [|db db1 db' H1 H2 IH]; [done|]. destruct Hi as [Hwf Ho] eqn:Ei. clear Ei.
  destruct (frozen_event db db1 squad Hwf Ha H1) as [<- <-].
  apply IH; [by eapply inv_event|]. eapply archived_stays; [by eapply evolves_event|done].
Qed.
End Sessions.

(** ** Examples *)
Lemma bad_credentials_are_concealed_witness :
  perform (CAuthLeave (session bob_instance alice_token at_200) demo_name) (quiet joined_db)
  = (Err NotFound, quiet joined_db).
Proof.
  apply (bad_credentials_are_concealed (CAuthLeave (session bob_instance alice_token at_200) demo_name)
           bob_instance alice_token joined_db); [reflexivity|].
  intros i Hi Ei. apply list_elem_of_In in Hi. destruct Hi as [<-|[<-|[]]]; discriminate.
Defined.

Lemma authorize_current_spec_witness :
  exists m s r, authorize_current (session bob_instance bob_token at_200) (quiet joined_db) = (r, quiet joined_db)
    /\ (fun id => (raw (id_membership id), raw (id_squad id))) <$> r
       = verdict (session bob_instance bob_token at_200) bob_row m s.
Proof.
  destruct (authorize_current_spec (session bob_instance bob_token at_200) joined_db bob_row joined_reachable
    bob_row_in eq_refl) as (m & s & r & _ & _ & _ & _ & E & V).
  exists m, s, r. split; [exact E|exact V].
Defined.

Definition bob_leaves : M LeaveOutcome := authenticated_leave (session bob_instance bob_token at_200) demo_name.

Lemma authenticated_leave_is_leave_witness :
  match bob_leaves (quiet joined_db) with
  | (Ok out, w') => exists squad, leave squad (lo_membership_id out) (lo_left_at out) (quiet joined_db) = (Ok tt, quiet (w_db w'))
  | _ => False
  end.
Proof.
  destruct (bob_leaves _) as [[out|e] w'] eqn:E; [|vm_compute in E; discriminate E].
  apply (authenticated_leave_is_leave (session bob_instance bob_token at_200) demo_name joined_db out (w_db w') joined_reachable).
  exists (quiet joined_db), w'. split; [reflexivity|]. split; [exact E|reflexivity].
Defined.

Lemma left_membership_has_no_authority_witness :
  match bob_leaves (quiet joined_db) with
  | (Ok out, w') =>
      match authorize_current (session alice_instance alice_token at_200) (quiet (w_db w')) with
      | (Ok id, _) => id_membership id <> lo_membership_id out
      | _ => False
      end
  | _ => False
  end.
Proof.
  destruct (bob_leaves _) as [[out|e] w'] eqn:E; [|vm_compute in E; discriminate E].
  destruct (authorize_current _ _) as [[id|e] w2] eqn:E2.
  - apply (left_membership_has_no_authority (session bob_instance bob_token at_200) demo_name joined_db out
      (w_db w') (w_db w') (session alice_instance alice_token at_200) id (w_db w2) joined_reachable).
    + exists (quiet joined_db), w'. split; [reflexivity|]. split; [exact E|reflexivity].
    + apply rtc_refl.
    + exists (quiet (w_db w')), w2. split; [reflexivity|]. split; [exact E2|reflexivity].
  - assert (w' = (bob_leaves (quiet joined_db)).2) as Ew by (rewrite E; reflexivity).
    rewrite Ew in E2. vm_compute in E2. discriminate E2.
Defined.

(** A heartbeat by instance id still renews the lease; a send is refused. *)
Definition bob_beats : Command :=
  CHeartbeat {| hi_id := bob_instance; hi_resume_token := bob_token; hi_availability := Busy;
                hi_availability_source := ToolActivity; hi_now := at_300; hi_lease_policy := LeasePolicy_default |}.
Definition after_archive : list Command := [bob_beats; CSend (send_request retry_id goodbye)].

Lemma archived_squad_is_frozen_witness :
  let db' := w_db (run_all after_archive (quiet archived_db)) in
  db' <> archived_db /\ squad_messages db' (raw demo_squad) = squad_messages archived_db (raw demo_squad).
Proof.
  intros db'. split; [vm_compute; discriminate|].
  apply (archived_squad_is_frozen archived_db db' (raw demo_squad)).
  - apply archived_reachable.
  - eexists. split; [apply list_elem_of_In; left; reflexivity|]. split; reflexivity.
  - apply (steps_run_all after_archive (quiet archived_db)). reflexivity.
Defined.
