(* ===== verification/Views.v ===== *)
(** * Views: what the read operations report *)
From S2P Require Import Prelude Text Core Base64 Sql Store Repository Instance Message Inbox Authenticated Invariant Effects Events History Commands Fixtures Delivery Queue Sessions.

Section Views.
Context `{Crypto}.

(** ** Squads *)
Record squad_decodes (s : SquadRow) (r : SquadRecord) : Prop := {
  sd_id : raw (sr_id r) = sq_id s;
  sd_name : raw (sr_name r) = sq_name s;
  sd_mission : raw (sr_mission r) = sq_mission s;
  sd_state : sr_state r = SqActive <-> sq_state s = "active";
  sd_created : raw (sr_created_at r) = sq_created_at s;
  sd_archived : raw <$> sr_archived_at r = sq_archived_at s }.

Lemma parse_exists {ok : string -> bool} `{!Validator (checked ok) new raw} v :
  ok v = true -> exists x, parse new v = Ok x /\ raw x = v.
Proof. intros (x & <-)%checked_exists. exists x. by rewrite parse_ok. Qed.
Lemma timestamp_exists v : millis_ok v = true -> exists x, timestamp v = Ok x /\ raw x = v.
Proof. intros (x & <-)%checked_exists. exists x. unfold timestamp. by rewrite UnixMillis_new_raw. Qed.
Lemma optional_timestamp_exists v :
  opt_ok millis_ok v = true -> exists x, optional_timestamp v = Ok x /\ raw <$> x = v.
Proof.
  destruct v as [v|]; simpl; [|by exists None]. intros (x & E & <-)%timestamp_exists. exists (Some x).
  unfold optional_timestamp. simpl. by rewrite E.
Qed.

Lemma map_squad_ok s : squad_ok s = true -> exists r, map_squad s = Ok r /\ squad_decodes s r.
Proof.
  unfold squad_ok, squad_checks. intros Hs. split_andb.
  destruct (parse_exists (new := SquadId_new) (sq_id s)) as (id & E1 & R1); [done|].
  destruct (parse_exists (new := SquadName_new) (sq_name s)) as (name & E2 & R2); [done|].
  destruct (parse_exists (new := Mission_new) (sq_mission s)) as (mission & E3 & R3); [done|].
  destruct (timestamp_exists (sq_created_at s)) as (at_ & E4 & R4); [done|].
  destruct (optional_timestamp_exists (sq_archived_at s)) as (ar & E5 & R5); [done|].
  assert (exists st, squad_state_of_text (sq_state s) = Ok st /\ (st = SqActive <-> sq_state s = "active"))
    as (st & E6 & R6).
  { unfold squad_state_of_text. destruct (eqs (sq_state s) "active") eqn:Ea.
    - apply eqs_true in Ea. by exists SqActive.
    - destruct (eqs (sq_state s) "archived"); [|done]. exists SqArchived. apply eqs_false in Ea. by split. }
  eexists. split; [unfold map_squad; rewrite E1, E2, E3, E6, E4, E5; reflexivity|by constructor].
Qed.

Lemma describe_squad_quiet name s db :
  wf db -> s ∈ squads db -> sq_name s = raw name ->
  exists r, describe_squad name (quiet db) = (Ok r, quiet db) /\ squad_decodes s r.
Proof.
  intros Hwf Hs En. destruct (map_squad_ok s (squad_row_ok _ _ Hwf Hs)) as (r & Em & Hd). exists r. split; [|done].
  unfold describe_squad.
  erewrite bind_ok; [|apply query_quiet; rewrite (where_unique sq_name _ _ s (wf_squad_names _ Hwf) Hs);
    [simpl; rewrite Em; reflexivity|intros x; by rewrite eqs_true, En]].
  done.
Qed.

(** ** The roster *)
Definition presence_of (online : bool) : TransportPresence := if online then PresenceOnline else PresenceOffline.

Record roster_row (db : Database) (now : UnixMillis) (m : MembershipRow) (r : RosterMember) : Prop := {
  rr_id : raw (mr_id (rm_membership r)) = mb_id m;
  rr_name : raw (mr_name (rm_membership r)) = mb_name m;
  rr_left : raw <$> mr_left_at (rm_membership r) = mb_left_at m;
  rr_presence : rm_presence r = presence_of (live_owner db (mb_id m) (raw now));
  rr_offline : rm_presence r = PresenceOffline ->
    rm_availability r = {| obs_availability := AvUnknown; obs_source := SrcUnknown; obs_observed_at := now |};
  rr_consistent : bool_decide (obs_availability (rm_availability r) = AvUnknown)
    = bool_decide (obs_source (rm_availability r) = SrcUnknown);
  rr_observed : obs_observed_at (rm_availability r) = now
    \/ exists i, i ∈ instances db /\ raw (obs_observed_at (rm_availability r)) = in_availability_observed_at i;
  rr_last_seen : forall t, rm_last_seen_at r = Some t -> exists i, i ∈ instances db /\ raw t = in_last_seen_at i }.

Lemma newest_instance_None db x : newest_instance db x = None -> has_history db x = false.
Proof.
  intros Hn%order_by_head_None. apply exists_where_false. intros i Hi. by eapply where_nil in Hn.
Qed.

Lemma newest_instance_in db x i : newest_instance db x = Some i -> i ∈ instances db.
Proof. intros E. apply order_by_head in E as [[Hi _]%elem_of_where _]; [done|apply _..]. Qed.

(** The roster's rule for presence agrees with the existence of a live owner. *)
Lemma presence_is_liveness db m now :
  inv db -> m ∈ memberships db ->
  is_null (mb_left_at m) && is_null (newest_instance db (mb_id m) ≫= in_closed_at)
  && match newest_instance db (mb_id m) with Some i => now <? in_lease_expires_at i | None => false end
  = live_owner db (mb_id m) now.
Proof.
  intros [Hwf Ho] Hm. destruct (mb_left_at m) eqn:Lm; simpl.
  - symmetry. apply exists_where_false. intros i Hi. unfold live_at.
    destruct (eqs (in_membership_id i) (mb_id m)) eqn:E; [|done]. apply eqs_true in E.
    destruct (in_closed_at i) eqn:Ci; [done|]. destruct (own_left _ Ho i m Hi Hm); [done|by rewrite Lm|done].
  - destruct (newest_instance db (mb_id m)) as [o|] eqn:En; simpl.
    + destruct (newest_is_open db (mb_id m) o Ho) as (Hoo & Eo & Co); [by exists m|done|]. rewrite Co. simpl.
      destruct (now <? in_lease_expires_at o) eqn:El; bool_to_prop.
      * symmetry. apply exists_where_true. exists o. split; [done|]. unfold live_at.
        rewrite Eo, eqs_refl, Co. by apply Z.ltb_lt.
      * symmetry. by eapply not_live.
    + symmetry. apply exists_where_false. intros i Hi. apply newest_instance_None in En.
      unfold has_history in En. rewrite exists_where_false in En. unfold live_at. by rewrite (En i Hi).
Qed.

Lemma availability_exists i : instance_ok i = true ->
  exists a src at_ o, parse_availability (Some (in_availability i)) = Ok a
    /\ parse_availability_source (Some (in_availability_source i)) = Ok src
    /\ timestamp (in_availability_observed_at i) = Ok at_ /\ AvailabilityObservation_new a src at_ = Ok o
    /\ bool_decide (obs_availability o = AvUnknown) = bool_decide (obs_source o = SrcUnknown)
    /\ raw (obs_observed_at o) = in_availability_observed_at i.
Proof.
  unfold instance_ok, observation_ok. intros Hi. split_andb.
  destruct (timestamp_exists (in_availability_observed_at i)) as (at_ & E & R); [done|].
  destruct (parse_availability _) as [a|]; [|done]. destruct (parse_availability_source _) as [src|]; [|done].
  exists a, src, at_. unfold AvailabilityObservation_new.
  match goal with Ho : eqb _ _ = true |- _ => rewrite Ho; apply eqb_prop in Ho end. simpl. eauto 10.
Qed.

Lemma roster_mode_exists (o : option InstanceRow) : match o with Some i => instance_ok i = true | None => True end ->
  exists m, Repository.parse_mode (in_mode <$> o) = Ok m.
Proof.
  destruct o as [i|]; simpl; [|eauto]. unfold instance_ok, instance_checks. intros Hi. split_andb.
  destruct (eqs (in_mode i) "cooperative"), (eqs (in_mode i) "scheduled"), (eqs (in_mode i) "harnessed"); eauto; done.
Qed.

Lemma map_roster_row_ok db squad now m :
  inv db -> m ∈ memberships db -> exists r, map_roster_row db squad now m = Ok r /\ roster_row db now m r.
Proof.
  intros Hinv Hm. pose proof (member_row_ok _ _ (proj1 Hinv) Hm) as Om. unfold membership_ok in Om. split_andb.
  destruct (parse_exists (new := MembershipId_new) (mb_id m)) as (id & E1 & R1); [done|].
  destruct (parse_exists (new := AgentId_new) (mb_agent_id m)) as (ag & E2 & _); [done|].
  destruct (parse_exists (new := MemberName_new) (mb_name m)) as (name & E3 & R3); [done|].
  destruct (parse_exists (new := Role_new) (mb_role m)) as (role & E4 & _); [done|].
  destruct (timestamp_exists (mb_joined_at m)) as (joined & E5 & _); [done|].
  destruct (optional_timestamp_exists (mb_left_at m)) as (left & E6 & R6); [done|].
  pose proof (presence_is_liveness db m (raw now) Hinv Hm) as Hp.
  assert (match newest_instance db (mb_id m) with Some i => instance_ok i = true | None => True end) as Oi.
  { destruct (newest_instance db (mb_id m)) as [i|] eqn:E; [|done].
    by eapply instance_row_ok; [apply Hinv|eapply newest_instance_in]. }
  destruct (roster_mode_exists _ Oi) as [mode E7].
  assert (exists ls, optional_timestamp (in_last_seen_at <$> newest_instance db (mb_id m)) = Ok ls
    /\ forall t, ls = Some t -> exists i, i ∈ instances db /\ raw t = in_last_seen_at i) as (ls & E8 & R8).
  { destruct (newest_instance db (mb_id m)) as [i|] eqn:En; simpl; [|by exists None]. unfold instance_ok in Oi. split_andb.
    destruct (optional_timestamp_exists (Some (in_last_seen_at i))) as (x & E & R); [done|]. exists x. split; [done|].
    intros t ->. injection R as R. exists i. split; [by eapply newest_instance_in|done]. }
  unfold map_roster_row. rewrite E1, E2, E3, E4, E5, E6. cbn [mbind result_bind]. rewrite E7, E8. cbn [mbind result_bind].
  assert (is_null left = is_null (mb_left_at m)) as -> by (rewrite <- R6; by destruct left). rewrite Hp.
  destruct (live_owner db (mb_id m) (raw now)) eqn:El.
  - destruct (newest_instance db (mb_id m)) as [i|] eqn:En; [|by rewrite !andb_false_r in Hp].
    destruct (availability_exists i Oi) as (a & src & at_ & o & A1 & A2 & A3 & A4 & A5 & A6). simpl.
    unfold parse_availability, parse_availability_source in A1, A2. rewrite A1, A2. cbn [mbind result_bind].
    rewrite A3. cbn [mbind result_bind]. rewrite A4. simpl.
    eexists. split; [reflexivity|]. apply newest_instance_in in En. by constructor; simpl; rewrite ?El; eauto.
  - simpl. eexists. split; [reflexivity|]. by constructor; simpl; rewrite ?El; eauto.
Qed.

Lemma roster_quiet name now s db :
  inv db -> s ∈ squads db -> sq_name s = raw name ->
  exists members, roster name now (quiet db) = (Ok members, quiet db)
    /\ Forall2 (roster_row db now)
         (order_by by_joined (where_ (fun m => eqs (mb_squad_id m) (sq_id s)) (memberships db))) members.
Proof.
  intros Hinv Hs En.
  destruct (describe_squad_quiet name s db (proj1 Hinv) Hs En) as (r & Hd & Hsd).
  destruct (try_collect_ok (map_roster_row db (sr_id r) now) (roster_row db now)
    (order_by by_joined (where_ (fun m => eqs (mb_squad_id m) (raw (sr_id r))) (memberships db))))
    as (members & Ec & Hf).
  { intros m [Hm _]%elem_of_order_by%elem_of_where. by apply map_roster_row_ok. }
  exists members. rewrite <- (sd_id _ _ Hsd). split; [|done].
  unfold roster. rewrite (bind_ok _ _ _ _ _ Hd). by apply query_quiet.
Qed.

(** The roster is total and truthful.  For an existing squad it always succeeds,
    lists every membership of the squad in joining order, and reports a member
    online exactly when the membership has a live owner at that moment; an
    offline member's availability is unknown. *)
Theorem roster_reports_liveness name now s db :
  reachable db -> s ∈ squads db -> sq_name s = raw name ->
  exists members, roster name now (quiet db) = (Ok members, quiet db)
    /\ Forall2 (roster_row db now)
         (order_by by_joined (where_ (fun m => eqs (mb_squad_id m) (sq_id s)) (memberships db))) members.
Proof. intros Hinv%reachable_inv. by apply roster_quiet. Qed.

(** ** Transcripts *)
Definition transcript (db : Database) (squad : string) (after : Z) : list MessageRow :=
  where_ (fun m => eqs (ms_squad_id m) squad && (after <? ms_sequence m)) (messages db).

Lemma transcript_rows_eq db squad after max :
  wf db -> transcript_rows db squad after max = take (Z.to_nat max) (transcript db (raw squad) after).
Proof.
  intros Hwf. unfold transcript_rows, limit. f_equal.
  apply order_by_sequence_sorted, StronglySorted_where, (wf_sorted _ Hwf).
Qed.

(** A transcript page.  For a session authorized in the squad, a page of 1 to 100
    messages after a sequence number always succeeds and is exactly the next
    messages of the squad in sequence order, decoded. *)
Theorem transcript_page session q id db :
  reachable db -> authorize_current session (quiet db) = (Ok id, quiet db) -> id_squad id = tq_squad q ->
  contains 1 100 (tq_limit q) = true -> 0 <= tq_after q ->
  exists recs, authenticated_transcript session q (quiet db) = (Ok recs, quiet db)
    /\ Forall2 decodes (take (Z.to_nat (tq_limit q)) (transcript db (raw (tq_squad q)) (tq_after q))) recs.
Proof.
  intros Hwf%reachable_wf Hauth Hsq Hc Ha.
  destruct (try_collect_ok map_message decodes
    (transcript_rows db (tq_squad q) (tq_after q) (tq_limit q))) as (recs & Ec & Hf).
  { intros m Hm. rewrite transcript_rows_eq in Hm by done. apply map_message_ok.
    assert (m ∈ transcript db (raw (tq_squad q)) (tq_after q)) as [Hin _]%elem_of_where.
    { rewrite <- (take_drop (Z.to_nat (tq_limit q)) (transcript _ _ _)). apply elem_of_app. by left. }
    pose proof (wf_messages _ Hwf) as Hall. rewrite Forall_forall in Hall. auto. }
  exists recs. rewrite <- transcript_rows_eq by done. split; [|done].
  unfold authenticated_transcript. rewrite Hc, (proj2 (Z.ltb_ge (tq_after q) 0) Ha). simpl.
  apply (transaction_quiet _ db (Ok recs) db). rewrite (bind_ok _ _ _ _ _ Hauth), Hsq.
  rewrite bool_decide_eq_false_2 by congruence. by apply query_quiet.
Qed.

Lemma where_all {R} (p : R -> bool) rows : (forall r, r ∈ rows -> p r = true) -> where_ p rows = rows.
Proof.
  unfold where_. induction rows as [|r rows IH]; intros Hp; simpl; [done|].
  rewrite (Hp r) by (apply elem_of_cons; by left). f_equal. apply IH. intros x Hx. apply Hp, elem_of_cons. by right.
Qed.

Lemma where_where {R} (p q : R -> bool) rows : where_ p (where_ q rows) = where_ (fun r => q r && p r) rows.
Proof.
  unfold where_. induction rows as [|r rows IH]; simpl; [done|]. destruct (q r); simpl; [|done].
  by destruct (p r); rewrite IH.
Qed.

Lemma where_ext {R} (p q : R -> bool) rows : (forall r, p r = q r) -> where_ p rows = where_ q rows.
Proof. intros Hpq. unfold where_. induction rows as [|r rows IH]; simpl; [done|]. by rewrite Hpq, IH. Qed.

Lemma sorted_after l1 m l2 :
  StronglySorted seq_lt (l1 ++ m :: l2) ->
  where_ (fun x => ms_sequence m <? ms_sequence x) (l1 ++ m :: l2) = l2.
Proof.
  intros Hs. rewrite where_app, where_none.
  - simpl. pose proof (StronglySorted_app_1_r _ _ _ Hs) as Hr. inversion Hr as [|? ? _ Hf]; subst.
    rewrite Forall_forall in Hf. unfold where_. simpl. rewrite Z.ltb_irrefl.
    apply where_all. intros x Hx%Hf. by apply Z.ltb_lt.
  - intros x Hx. apply Z.ltb_ge. apply Z.lt_le_incl.
    eapply (StronglySorted_app_1_elem_of _ _ _ _ m) in Hs; [exact Hs|done|apply elem_of_cons; by left].
Qed.

(** Pages chain.  Asking again after the last sequence number of a page gives
    exactly the rest of the transcript: paging neither skips nor repeats a
    message. *)
Theorem transcript_pages_chain db squad after k page m :
  reachable db -> take k (transcript db squad after) = page ++ [m] ->
  transcript db squad (ms_sequence m) = drop k (transcript db squad after).
Proof.
  intros Hwf%reachable_wf Ht.
  assert (m ∈ transcript db squad after) as [_ Hm]%elem_of_where.
  { rewrite <- (take_drop k (transcript db squad after)), Ht, !elem_of_app, list_elem_of_singleton. auto. }
  assert (transcript db squad (ms_sequence m)
          = where_ (fun x => ms_sequence m <? ms_sequence x) (transcript db squad after)) as ->.
  { unfold transcript. rewrite where_where. apply where_ext. intros x. bool_to_prop.
    destruct (eqs (ms_squad_id x) squad); simpl; [|done].
    destruct (Z.ltb_spec (ms_sequence m) (ms_sequence x)), (Z.ltb_spec after (ms_sequence x)); try done. lia. }
  assert (transcript db squad after = page ++ m :: drop k (transcript db squad after)) as E.
  { rewrite <- (take_drop k (transcript db squad after)) at 1. by rewrite Ht, <- app_assoc. }
  rewrite E at 1. apply sorted_after. rewrite <- E. apply StronglySorted_where, (wf_sorted _ Hwf).
Qed.

(** ** Names *)

(** Names are exclusive.  While a member of a squad has not left, joining the
    squad under its name is refused as taken and changes nothing, whatever the
    request proposes for a missing squad. *)
Theorem taken_name_is_refused req db s m :
  reachable db -> s ∈ squads db -> sq_name s = raw (jm_squad_name req) -> sq_state s = "active" ->
  m ∈ memberships db -> mb_squad_id m = sq_id s -> mb_name m = raw (jm_member_name req) -> mb_left_at m = None ->
  (forall a, a ∈ agents db -> ag_id a <> raw (jm_agent_id req)) -> 0 < sql_length (raw (jm_role req)) ->
  join req (quiet db) = (Err NameInUse, quiet db).
Proof.
  intros Hwf%reachable_wf Hs En Ha Hm Es Em Lm Hag Hrole.
  pose proof (squad_row_ok _ _ Hwf Hs) as Os. pose proof (member_row_ok _ _ Hwf Hm) as Om.
  unfold squad_ok in Os. unfold membership_ok in Om. split_andb. rewrite eqs_true in *.
  destruct (parse_exists (new := SquadId_new) (sq_id s)) as (id & E1 & R1); [done|].
  unfold join, join_with_fault.
  set (db1 := set_agents db (agents db ++ [{| ag_id := raw (jm_agent_id req); ag_created_at := raw (jm_joined_at req) |}])).
  apply (transaction_quiet _ db (Err NameInUse) db1).
  erewrite bind_ok.
  2: { unfold Repository.find_or_create_squad.
       erewrite bind_ok; [|apply query_quiet; rewrite (where_unique sq_name _ _ s (wf_squad_names _ Hwf) Hs);
         [reflexivity|intros x; by rewrite eqs_true, En]].
       rewrite Ha. simpl. unfold lift. rewrite E1. reflexivity. }
  erewrite bind_ok; [|reflexivity].
  erewrite bind_ok; [|apply execute_quiet; unfold insert_agent; rewrite (proj2 (exists_where_false _ _)); [reflexivity|]].
  2: { intros a Hin. apply eqs_false. simpl. by apply Hag. }
  fold db1. erewrite bind_ok; [|reflexivity].
  erewrite bind_ok; [|apply execute_quiet; unfold insert_membership_or_nothing].
  2: { assert (membership_checks (new_membership_row req id) = true) as -> by (apply Z.ltb_lt; exact Hrole). simpl.
       rewrite (proj2 (exists_where_true _ _)); [reflexivity|]. exists m. split; [done|].
       rewrite Es, R1, eqs_refl, Lm. simpl. rewrite andb_true_r. apply eqs_true. congruence. }
  reflexivity.
Qed.
End Views.

(** ** A validated mission the schema refuses *)
Definition nul_text : string := String Ascii.zero "mission".

(** SQLite's length() stops at the first NUL, the validator does not: a mission
    that starts with a NUL is a valid [Mission], and creating a squad with it is
    refused by the schema as an internal error. *)
Theorem nul_mission_is_an_internal_error :
  exists mission, Mission_new nul_text = Ok mission
  /\ (create_squad {| cs_id := demo_squad; cs_name := demo_name; cs_mission := mission; cs_created_at := at_100 |}
        (quiet empty_database)).1 = Err (Internal (SqliteFailure SqConstraintViolation)).
Proof. exists (Checked (text_ok 4096 trimmed_nonempty) nul_text I). split; [by apply new_iff|vm_compute; reflexivity]. Qed.

(** ** Examples *)
Definition demo_row : SquadRow := new_squad_row demo_squad demo_name demo_mission at_100.
Lemma demo_row_joined : demo_row ∈ squads joined_db.
Proof. apply list_elem_of_In. left. reflexivity. Qed.
Lemma demo_row_sent : demo_row ∈ squads sent_db.
Proof. apply list_elem_of_In. left. reflexivity. Qed.

Lemma roster_reports_liveness_witness :
  exists members, roster demo_name at_200 (quiet joined_db) = (Ok members, quiet joined_db)
    /\ map rm_presence members = [PresenceOnline; PresenceOnline].
Proof.
  destruct (roster_reports_liveness demo_name at_200 demo_row joined_db joined_reachable demo_row_joined eq_refl)
    as (members & E & _).
  exists members. split; [exact E|].
  assert (members = match (roster demo_name at_200 (quiet joined_db)).1 with Ok l => l | Err _ => [] end) as ->
    by (rewrite E; reflexivity).
  vm_compute. reflexivity.
Defined.

Definition first_page : TranscriptQuery := {| tq_squad := demo_squad; tq_after := 0; tq_limit := 50 |}.

Lemma transcript_page_witness :
  exists recs, authenticated_transcript (session bob_instance bob_token at_300) first_page (quiet sent_db)
    = (Ok recs, quiet sent_db).
Proof.
  destruct (authorize_current (session bob_instance bob_token at_300) (quiet sent_db)) as [[id|e] w'] eqn:E.
  - destruct (transcript_page (session bob_instance bob_token at_300) first_page id sent_db sent_reachable)
      as (recs & Ht & _).
    + rewrite E. f_equal. assert (w' = (authorize_current (session bob_instance bob_token at_300) (quiet sent_db)).2) as ->
        by (rewrite E; reflexivity). vm_compute. reflexivity.
    + apply raw_inj.
      assert (Ok (raw (id_squad id)) = raw ∘ id_squad <$> (authorize_current (session bob_instance bob_token at_300) (quiet sent_db)).1) as Hr
        by (rewrite E; reflexivity).
      vm_compute in Hr. injection Hr as Hr. exact Hr.
    + reflexivity.
    + discriminate.
    + exists recs. exact Ht.
  - vm_compute in E. discriminate E.
Defined.

Lemma transcript_pages_chain_witness :
  exists m, m ∈ messages sent_db /\ transcript sent_db (raw demo_squad) (ms_sequence m) = [].
Proof.
  eexists. split; [apply list_elem_of_In; left; reflexivity|].
  etransitivity; [apply (transcript_pages_chain sent_db (raw demo_squad) 0 1 [] _ sent_reachable)|]; reflexivity.
Defined.

Definition carol_agent : AgentId := Checked (id_ok "agt") "agt_c" I.
Definition carol_id : MembershipId := Checked (id_ok "mem") "mem_c" I.
Definition impostor : JoinMembership := join_request carol_agent carol_id bob at_300.
Definition bob_member : MembershipRow := new_membership_row (join_request bob_agent bob_id bob at_100) demo_squad.

Lemma taken_name_is_refused_witness : join impostor (quiet joined_db) = (Err NameInUse, quiet joined_db).
Proof.
  apply (taken_name_is_refused impostor joined_db demo_row bob_member joined_reachable demo_row_joined
    eq_refl eq_refl); try reflexivity.
  - apply list_elem_of_In. right. left. reflexivity.
  - intros a Ha. apply list_elem_of_In in Ha. destruct Ha as [<-|[<-|[]]]; discriminate.
Defined.
