(* ===== verification/MessageViews.v ===== *)
(** * MessageViews: messages as their readers see them

    A stored message always has a view: its squad, its sender and its recipient
    exist and decode.  From this the inbox page of a session is total, and a send
    by name is exactly-once across retries. *)
From S2P Require Import Prelude Text Core Base64 Sql Store Repository Instance Message Inbox Authenticated Invariant Effects Events History Commands Fixtures Delivery Queue Sessions Views.

Section MessageViews.
Context `{Crypto}.

(** The names a message is shown with are those of its rows. *)
Record view_names (db : Database) (row : MessageRow) (v : MessageView) : Prop := {
  vr_squad : exists s, s ∈ squads db /\ sq_id s = ms_squad_id row /\ raw (mv_squad v) = sq_name s;
  vr_sender : exists m, m ∈ memberships db /\ mb_id m = ms_sender row /\ raw (mv_sender v) = mb_name m;
  vr_recipient : exists m, m ∈ memberships db /\ mb_id m = ms_recipient row /\ raw (mv_recipient v) = mb_name m;
  vr_acknowledged : raw <$> mv_acknowledged_at v = ms_acknowledged_at row }.
Definition view_row (db : Database) (row : MessageRow) (v : MessageView) : Prop :=
  decodes row (mv_message v) /\ view_names db row v.

(** A member that a message names, with its squad. *)
Lemma message_party db (f : MessageRow -> string) row :
  wf db -> Forall (fun m => (f m, ms_squad_id m) ∈ map member_key (memberships db)) (messages db) ->
  row ∈ messages db ->
  exists m, m ∈ memberships db /\ mb_id m = f row /\ mb_squad_id m = ms_squad_id row.
Proof.
  intros Hwf Hfk Hrow. rewrite Forall_forall in Hfk. apply Hfk, list_elem_of_fmap in Hrow as (m & E & Hm).
  injection E as E1 E2. eauto.
Qed.

Lemma message_rows db row :
  wf db -> row ∈ messages db ->
  exists s sm rm, s ∈ squads db /\ sq_id s = ms_squad_id row
    /\ sm ∈ memberships db /\ mb_id sm = ms_sender row
    /\ rm ∈ memberships db /\ mb_id rm = ms_recipient row.
Proof.
  intros Hwf Hrow.
  destruct (message_party db ms_sender row Hwf (wf_fk_sender _ Hwf) Hrow) as (sm & Hsm & E1 & Esq).
  destruct (message_party db ms_recipient row Hwf (wf_fk_recipient _ Hwf) Hrow) as (rm & Hrm & E2 & _).
  pose proof (wf_fk_squad _ Hwf) as Hfk. rewrite Forall_forall in Hfk.
  pose proof (Hfk _ Hsm) as (s & Es & Hs)%list_elem_of_fmap.
  exists s, sm, rm. rewrite <- Es, Esq. done.
Qed.

Lemma message_view_rows_one db id row s sm rm :
  wf db -> row ∈ messages db -> ms_id row = raw id -> s ∈ squads db -> sq_id s = ms_squad_id row ->
  sm ∈ memberships db -> mb_id sm = ms_sender row -> rm ∈ memberships db -> mb_id rm = ms_recipient row ->
  message_view_rows db id = [(s, sm, rm, row)].
Proof.
  intros Hwf Hrow Eid Hs Es Hsm Esm Hrm Erm. unfold message_view_rows.
  rewrite <- Eid, (where_unique ms_id _ _ row (wf_message_ids _ Hwf) Hrow) by (intros; by rewrite eqs_true).
  cbn. rewrite <- Es, where_by_squad by done. cbn.
  rewrite <- Esm, where_by_member by done. cbn. rewrite <- Erm, where_by_member by done. done.
Qed.

Lemma message_view_quiet db row rec :
  wf db -> row ∈ messages db -> raw (me_id rec) = ms_id row ->
  exists v, message_view_on rec (quiet db) = (Ok v, quiet db) /\ mv_message v = rec /\ view_names db row v.
Proof.
  intros Hwf Hrow Eid. destruct (message_rows db row Hwf Hrow) as (s & sm & rm & Hs & Es & Hsm & Esm & Hrm & Erm).
  pose proof (squad_row_ok _ _ Hwf Hs) as Os. unfold squad_ok in Os.
  pose proof (member_row_ok _ _ Hwf Hsm) as Osm. unfold membership_ok in Osm.
  pose proof (member_row_ok _ _ Hwf Hrm) as Orm. unfold membership_ok in Orm.
  pose proof (wf_messages _ Hwf) as Om. rewrite Forall_forall in Om. pose proof (Om _ Hrow) as Omr.
  unfold message_ok in Omr. split_andb.
  destruct (parse_exists (new := SquadName_new) (sq_name s)) as (n & E1 & R1); [done|].
  destruct (parse_exists (new := MemberName_new) (mb_name sm)) as (sn & E2 & R2); [done|].
  destruct (parse_exists (new := MemberName_new) (mb_name rm)) as (rn & E3 & R3); [done|].
  destruct (optional_timestamp_exists (ms_acknowledged_at row)) as (ak & E4 & R4); [done|].
  eexists. split; [|split; [|constructor]].
  - unfold message_view_on.
    erewrite bind_ok; [|apply query_quiet; rewrite (message_view_rows_one _ _ row s sm rm);
      [cbn; rewrite E1, E2, E3, E4; reflexivity|try done..]].
    erewrite bind_ok; [|reflexivity]. reflexivity.
  - done.
  - eauto.
  - eauto.
  - eauto.
  - done.
Qed.

Lemma message_views_quiet db rows recs :
  wf db -> Forall (fun row => row ∈ messages db) rows -> Forall2 decodes rows recs ->
  exists vs, message_views_on recs (quiet db) = (Ok vs, quiet db) /\ Forall2 (view_row db) rows vs.
Proof.
  intros Hwf Hin Hf. induction Hf as [|row rec rows recs Hd _ IH]; [by exists []|].
  inversion Hin as [|? ? Hrow Hrows]; subst.
  destruct (message_view_quiet db row rec Hwf Hrow (de_id _ _ Hd)) as (v & Ev & Em & Hv).
  destruct (IH Hrows) as (vs & Evs & Hvs). exists (v :: vs).
  split; [|constructor; [split; [by rewrite Em|done]|done]].
  cbn [message_views_on]. by rewrite (bind_ok _ _ _ _ _ Ev), (bind_ok _ _ _ _ _ Evs).
Qed.

(** ** The page's summary of the inbox *)
#[global] Instance by_priority_total : Total (fun a b => Is_true (by_priority a b)).
Proof. intros a b. unfold by_priority. destruct (eqs (ms_priority a) _), (eqs (ms_priority b) _); simpl; auto. Qed.
#[global] Instance by_priority_trans : Transitive (fun a b => Is_true (by_priority a b)).
Proof.
  intros a b c. unfold by_priority.
  destruct (eqs (ms_priority a) _), (eqs (ms_priority b) _), (eqs (ms_priority c) _); simpl; auto.
Qed.

(** The priority that should wake a reader: high if any pending message is. *)
Definition top_priority (rows : list MessageRow) : option MessagePriority :=
  match rows with
  | [] => None
  | _ => Some (if existsb (fun m => eqs (ms_priority m) "high") rows then High else Normal)
  end.

Lemma limit_one {R} (rows : list R) : limit 1 rows = match head rows with Some r => [r] | None => [] end.
Proof. by destruct rows as [|r rows]. Qed.

Lemma highest_priority_quiet db x :
  wf db -> highest_priority x (quiet db) = (Ok (top_priority (inbox db (raw x))), quiet db).
Proof.
  intros Hwf. unfold highest_priority.
  destruct (head (order_by by_priority (inbox db (raw x)))) as [r|] eqn:Eh;
    (erewrite bind_ok; [|apply query_quiet; rewrite limit_one; fold (inbox db (raw x)); rewrite Eh; reflexivity]).
  2: { apply order_by_head_None in Eh. by rewrite Eh. }
  apply order_by_head in Eh as [Hr Hmax]; try apply _.
  pose proof (pending_rows_ok db (raw x) Hwf) as Hok. rewrite Forall_forall in Hok.
  unfold lift. f_equal. unfold top_priority.
  assert (existsb (fun m => eqs (ms_priority m) "high") (inbox db (raw x)) = eqs (ms_priority r) "high") as Ex.
  { destruct (eqs (ms_priority r) "high") eqn:Er; [by apply exists_where_true; eauto|].
    apply exists_where_false. intros m Hm. destruct (eqs (ms_priority m) "high") eqn:Em; [|done].
    assert (m <> r) as Hne by congruence. specialize (Hmax m Hm Hne). unfold by_priority in Hmax.
    by rewrite Er, Em in Hmax. }
  rewrite Ex. destruct (inbox db (raw x)) as [|m rows]; [by apply not_elem_of_nil in Hr|].
  pose proof (Hok r Hr) as Om. unfold message_ok, message_checks in Om. split_andb.
  match goal with E : eqs (ms_priority r) "normal" || _ = true |- _ =>
    apply orb_true_iff in E as [->%eqs_true| ->%eqs_true] end; done.
Qed.

Lemma oldest_message_quiet db x :
  wf db -> exists o, oldest_message_id x (quiet db) = (Ok o, quiet db)
    /\ raw <$> o = ms_id <$> head (inbox db (raw x)).
Proof.
  intros Hwf. unfold oldest_message_id.
  pose proof (pending_rows_ok db (raw x) Hwf) as Hok. rewrite Forall_forall in Hok.
  destruct (head (inbox db (raw x))) as [r|] eqn:Eh.
  - assert (r ∈ inbox db (raw x)) as Hr.
    { destruct (inbox db (raw x)); [done|]. injection Eh as ->. apply elem_of_cons. by left. }
    pose proof (Hok r Hr) as Om. unfold message_ok in Om. split_andb.
    destruct (new_ok (new := MessageId_new) (fun _ => InvalidStoredData) (ms_id r)) as (id & E1 & R1); [done|].
    exists (Some id). split; [|simpl; by rewrite R1].
    erewrite bind_ok; [|apply query_quiet; fold (inbox db (raw x)); rewrite inbox_sorted, limit_one, Eh by done; reflexivity].
    unfold lift. simpl. by rewrite E1.
  - exists None. split; [|done].
    erewrite bind_ok; [|apply query_quiet; fold (inbox db (raw x)); rewrite inbox_sorted, limit_one, Eh by done; reflexivity].
    done.
Qed.

(** What a page says about an inbox. *)
Record page_of (db : Database) (membership : string) (max : Z) (page : InboxPage) : Prop := {
  po_recipient : raw (ip_recipient_membership page) = membership;
  po_messages : exists k, Z.of_nat k <= max /\ Forall2 (view_row db) (take k (inbox db membership)) (ip_messages page);
  po_progress : inbox db membership <> [] -> ip_messages page <> [];
  po_count : ip_pending_count page = Z.of_nat (length (inbox db membership));
  po_highest : ip_highest_priority page = top_priority (inbox db membership);
  po_oldest : raw <$> ip_oldest_message_id page = ms_id <$> head (inbox db membership) }.

Lemma inbox_page_quiet session max id db :
  wf db -> authorize_current session (quiet db) = (Ok id, quiet db) -> contains 1 100 max = true ->
  exists page, authenticated_pending_page session max (quiet db) = (Ok page, quiet db)
    /\ page_of db (raw (id_membership id)) max page.
Proof.
  intros Hwf Hauth Hc. set (x := id_membership id).
  destruct (oldest_message_quiet db x Hwf) as (o & Eo & Ro).
  destruct (pending_inbox_on_quiet {| iq_recipient := x; iq_limit := max |} db Hwf Hc)
    as (k & recs & Ep & Hk & Hf & _ & _ & Hne). simpl in Hk, Hf, Hne.
  destruct (message_views_quiet db (take k (inbox db (raw x))) recs Hwf) as (vs & Ev & Hvs); [|done|].
  { apply Forall_take, Forall_forall. by intros m [Hm _]%elem_of_where. }
  eexists. split.
  - unfold authenticated_pending_page. eapply (transaction_quiet _ db (Ok _) db).
    rewrite (bind_ok _ _ _ _ _ Hauth). fold x.
    erewrite bind_ok; [|apply query_quiet; reflexivity].
    erewrite bind_ok; [|by apply highest_priority_quiet].
    rewrite (bind_ok _ _ _ _ _ Eo), (bind_ok _ _ _ _ _ Ep), (bind_ok _ _ _ _ _ Ev). reflexivity.
  - constructor; simpl; eauto. intros Hin ->. apply Forall2_nil_inv_r in Hvs. rewrite Hvs in Hf.
    apply Forall2_nil_inv_l in Hf. by apply Hne.
Qed.

(** The inbox page.  For an authorized session and a limit of 1 to 100 it always
    succeeds without changing the store: it shows a prefix of the pending queue,
    not empty unless the queue is, each message with the names of its squad, sender
    and recipient, and reports the queue's exact length, its highest priority and
    its oldest message. *)
Theorem inbox_page_reports_the_queue session max id db :
  reachable db -> authorize_current session (quiet db) = (Ok id, quiet db) -> contains 1 100 max = true ->
  exists page, authenticated_pending_page session max (quiet db) = (Ok page, quiet db)
    /\ page_of db (raw (id_membership id)) max page.
Proof. intros Hwf%reachable_wf. by apply inbox_page_quiet. Qed.

(** ** Sending by name *)
Record named (db : Database) (req : SendByName) (squad : SquadId) (sender recipient : MembershipId) : Prop := {
  nm_pin : pin_differs (sn_recipient_membership_id req) recipient = false;
  nm_recipient : exists m, m ∈ memberships db /\ mb_id m = raw recipient /\ mb_name m = raw (sn_recipient req);
  nm_sender : exists m, m ∈ memberships db /\ mb_id m = raw sender /\ mb_squad_id m = raw squad }.

Lemma first_send_by_name session req db out db' :
  wf db -> runs (authenticated_send_by_name session req) db (Ok out) db' -> so_idempotent_replay out = false ->
  exists squad sender recipient,
    sent (send_from_name req squad sender recipient (as_now session)) db (mv_message (so_message out)) db'
    /\ named db req squad sender recipient.
Proof.
  intros Hwf H1 Hfresh. unfold authenticated_send_by_name in H1. inv_runs; drop_reads.
  { unfold replay_by_name in H1. by inv_runs. }
  unfold fresh_by_name in H1. inv_runs; drop_reads.
  apply message_view_on_effect in R6 as [_ Hv].
  match goal with Hc : runs (send_in_transaction _) _ _ _ |- _ =>
    apply send_in_transaction_effect in Hc; rename Hc into Hsent end.
  decode. do 3 eexists. simpl. split; [exact Hsent|]. constructor; [done| |].
  - match goal with Hq : optional _ = Ok (Some _) |- _ =>
      apply optional_query_Some in Hq as (m & [Hm Em]%elem_of_where & _ & [= Eid]) end.
    exists m. split; [done|]. pose proof (member_row_ok _ _ Hwf Hm) as Om. unfold membership_ok in Om.
    split_andb. rewrite !eqs_true in *. split; congruence.
  - apply authenticate_historical_effect in R as (i & m & Hs & _ & E1 & E2 & _).
    apply elem_of_session_rows in Hs as (_ & _ & Hm & _). exists m. auto.
Qed.

Lemma membership_later db db' m :
  evolves db db' -> m ∈ memberships db ->
  exists m', m' ∈ memberships db' /\ mb_id m' = mb_id m /\ mb_squad_id m' = mb_squad_id m /\ mb_name m' = mb_name m.
Proof.
  intros He Hm. destruct (grows_elem _ _ _ m (evolves_memberships _ _ He) Hm) as (m' & Hm' & Hle).
  exists m'. split; [done|]. by destruct Hle as [->|[_ [t ->]]].
Qed.

Lemma named_later db db' req squad sender recipient :
  evolves db db' -> named db req squad sender recipient -> named db' req squad sender recipient.
Proof.
  intros He [Hp (m & Hm & E1 & E2) (m2 & Hm2 & E3 & E4)].
  destruct (membership_later _ _ _ He Hm) as (m' & ? & ? & ? & ?).
  destruct (membership_later _ _ _ He Hm2) as (m2' & ? & ? & ? & ?).
  constructor; [done|exists m'|exists m2']; split_and!; congruence.
Qed.

(** The identity of a session names the membership's own squad. *)
Lemma historical_squad session db id db' m :
  wf db -> runs (authenticate_historical session) db (Ok id) db' ->
  m ∈ memberships db -> mb_id m = raw (id_membership id) -> raw (id_squad id) = mb_squad_id m.
Proof.
  intros Hwf (i & m' & Hs & _ & E1 & E2 & _)%authenticate_historical_effect Hm Em.
  apply elem_of_session_rows in Hs as (_ & _ & Hm' & _).
  assert (m' = m) as ->; [|done].
  eapply (NoDup_key_eq mb_id); [apply (wf_membership_ids _ Hwf)|done|done|congruence].
Qed.

Lemma map_dedupe_row_fields req row rec :
  map_dedupe_row req row = Ok rec ->
  raw (me_id rec) = ms_id row /\ raw (sem_recipient (me_semantics rec)) = ms_recipient row.
Proof.
  intros Hm. unfold map_dedupe_row, mbind, result_bind in Hm. repeat split_match_in Hm. unfold parse in *. by decode.
Qed.

(** The replay branch, on a stored row. *)
Lemma replay_quiet session req id recipient row rec db :
  let candidate := send_from_name req (id_squad id) (id_membership id) recipient (as_now session) in
  wf db -> row ∈ messages db -> dedupe_key row = request_key candidate -> map_dedupe_row candidate row = Ok rec ->
  me_semantics rec = sm_semantics candidate -> named db req (id_squad id) (id_membership id) recipient ->
  exists view, replay_by_name session req id recipient (quiet db)
    = (Ok {| so_message := view; so_idempotent_replay := true |}, quiet db) /\ mv_message view = rec.
Proof.
  intros candidate Hwf Hrow Hk Hm Hsem [Hpin (m & Hmm & Em & En) _].
  destruct (map_dedupe_row_fields _ _ _ Hm) as [Eid Erec].
  destruct (message_view_quiet db row rec Hwf Hrow Eid) as (v & Ev & Ev' & Hn). exists v. split; [|done].
  unfold replay_by_name. rewrite Hpin. fold candidate.
  rewrite (bind_ok _ _ _ _ _ (find_by_dedupe_quiet _ _ _ _ Hwf Hrow Hk Hm)).
  erewrite bind_ok; [|reflexivity]. rewrite bool_decide_eq_false_2 by congruence.
  rewrite (bind_ok _ _ _ _ _ Ev). rewrite bool_decide_eq_false_2; [done|].
  intros Hne. apply Hne, raw_inj. destruct (vr_recipient _ _ _ Hn) as (m' & Hm' & Em' & ->).
  rewrite <- En. f_equal. eapply (NoDup_key_eq mb_id); [apply (wf_membership_ids _ Hwf)|done|done|].
  rewrite Em', Em, <- Erec, Hsem. done.
Qed.

Definition with_message_id (id : MessageId) (req : SendByName) : SendByName :=
  {| sn_id := id; sn_recipient := sn_recipient req; sn_recipient_membership_id := sn_recipient_membership_id req;
     sn_body := sn_body req; sn_priority := sn_priority req; sn_dedupe_key := sn_dedupe_key req;
     sn_reply_to := sn_reply_to req; sn_correlation_id := sn_correlation_id req |}.

Lemma existing_recipient_quiet id req recipient now row db :
  wf db -> row ∈ messages db ->
  dedupe_key row = request_key (send_from_name req (id_squad id) (id_membership id) recipient now) ->
  ms_recipient row = raw recipient ->
  existing_recipient id (sn_dedupe_key req) (quiet db) = (Ok (Some recipient), quiet db).
Proof.
  intros Hwf Hrow Hk Er. unfold existing_recipient.
  erewrite bind_ok; [|apply query_quiet; rewrite (where_unique dedupe_key _ _ row (wf_dedupe _ Hwf) Hrow);
    [simpl; rewrite Er; reflexivity|]].
  - unfold lift. simpl. by rewrite (new_raw (new := MembershipId_new)).
  - intros x. rewrite Hk. apply (dedupe_match_key (send_from_name req (id_squad id) (id_membership id) recipient now)).
Qed.

Lemma retry_by_name_quiet session req session' id' mid db out db1 db2 :
  reachable db -> runs (authenticated_send_by_name session req) db (Ok out) db1 -> so_idempotent_replay out = false ->
  rtc step db1 db2 -> authenticate_historical session' (quiet db2) = (Ok id', quiet db2) ->
  id_membership id' = sem_sender (me_semantics (mv_message (so_message out))) ->
  exists view, authenticated_send_by_name session' (with_message_id mid req) (quiet db2)
    = (Ok {| so_message := view; so_idempotent_replay := true |}, quiet db2)
    /\ mv_message view = mv_message (so_message out).
Proof.
  intros Hr Hrun Hfresh Hs Hauth Hid. pose proof (reachable_wf _ Hr) as Hwf.
  assert (step db db1) as H01.
  { exists (CAuthSendByName session req), (Ok tt). split; [done|].
    destruct Hrun as (w & w' & ? & E & ?). exists w, w'. split; [done|]. split; [|done].
    simpl. unfold ignore. by erewrite bind_ok. }
  assert (reachable db1) as Hr1 by (by eapply rtc_r).
  assert (wf db2) as Hwf2 by (by eapply reachable_wf, reachable_steps).
  destruct (first_send_by_name _ _ _ _ _ Hwf Hrun Hfresh) as (squad & sender & recipient & Hsent & Hn).
  apply (named_later db db2) in Hn; [|eapply steps_evolve; [done|by eapply rtc_l]].
  set (rec := mv_message (so_message out)) in *.
  pose proof (stored_later _ (send_from_name req squad sender recipient (as_now session')) _ _ _ _
    Hwf Hsent Hr1 Hs eq_refl) as (Hsem & row & Hrow & Hk & Hm).
  assert (id_membership id' = sender) as E1 by (rewrite Hid, Hsem; done).
  assert (id_squad id' = squad) as E2.
  { apply raw_inj. destruct (nm_sender _ _ _ _ _ Hn) as (m & Hmm & Em & <-).
    apply (historical_squad session' db2 id' db2); [done| |done|congruence]. exists (quiet db2), (quiet db2). auto. }
  assert (ms_recipient row = raw recipient) as Er.
  { destruct (map_dedupe_row_fields _ _ _ Hm) as [_ <-]. by rewrite Hsem. }
  rewrite <- E1, <- E2 in *.
  destruct (replay_quiet session' (with_message_id mid req) id' recipient row rec db2) as (view & Ev & Em); try done.
  { by destruct Hn. }
  exists view. split; [|done]. apply (transaction_quiet _ db2 (Ok _) db2).
  rewrite (bind_ok _ _ _ _ _ Hauth).
  rewrite (bind_ok _ _ _ _ _ (existing_recipient_quiet id' req recipient _ row db2 Hwf2 Hrow Hk Er)).
  exact Ev.
Qed.

(** Exactly-once sending by name.  Once a send by name stored its message, every
    later retry of it, under any message id, from any session of the same
    membership (even one whose lease has expired since) and after any history,
    replays the original message and changes nothing. *)
Theorem send_by_name_is_exactly_once session req session' id' mid db out db1 db2 :
  reachable db -> runs (authenticated_send_by_name session req) db (Ok out) db1 -> so_idempotent_replay out = false ->
  rtc step db1 db2 -> authenticate_historical session' (quiet db2) = (Ok id', quiet db2) ->
  id_membership id' = sem_sender (me_semantics (mv_message (so_message out))) ->
  exists view, authenticated_send_by_name session' (with_message_id mid req) (quiet db2)
    = (Ok {| so_message := view; so_idempotent_replay := true |}, quiet db2)
    /\ mv_message view = mv_message (so_message out).
Proof. apply retry_by_name_quiet. Qed.
End MessageViews.

(** ** Examples *)
Definition bob_session : AuthenticatedSession := session bob_instance bob_token at_300.
Definition bob_identity : Identity :=
  {| id_membership := bob_id; id_squad := demo_squad; id_mode := Cooperative;
     id_expiry := Checked millis_ok 30100 I; id_last_seen := at_100; id_created_at := at_100 |}.
Lemma bob_authorized : authorize_current bob_session (quiet sent_db) = (Ok bob_identity, quiet sent_db).
Proof. vm_compute. reflexivity. Qed.

Lemma inbox_page_reports_the_queue_witness :
  exists page, authenticated_pending_page bob_session 10 (quiet sent_db) = (Ok page, quiet sent_db)
    /\ ip_pending_count page = 1 /\ ip_highest_priority page = Some Normal.
Proof.
  destruct (inbox_page_reports_the_queue bob_session 10 bob_identity sent_db sent_reachable bob_authorized eq_refl)
    as (page & E & [_ _ _ Hc Hh _]).
  exists page. split; [exact E|]. rewrite Hc, Hh. split; reflexivity.
Defined.

Definition named_hello : SendByName :=
  {| sn_id := hello_id; sn_recipient := bob; sn_recipient_membership_id := None; sn_body := hello;
     sn_priority := Normal; sn_dedupe_key := hello_key; sn_reply_to := None; sn_correlation_id := None |}.
Definition alice_session (now : UnixMillis) : AuthenticatedSession := session alice_instance alice_token now.
Definition named_run := authenticated_send_by_name (alice_session at_200) named_hello (quiet joined_db).
Definition alice_identity : Identity :=
  {| id_membership := alice_id; id_squad := demo_squad; id_mode := Cooperative;
     id_expiry := Checked millis_ok 30100 I; id_last_seen := at_100; id_created_at := at_100 |}.
Lemma alice_authenticates now :
  authenticate_historical (alice_session now) (quiet sent_db) = (Ok alice_identity, quiet sent_db).
Proof. vm_compute. reflexivity. Qed.
Lemma named_run_sent :
  match named_run with
  | (Ok out, w') => w' = quiet sent_db /\ so_idempotent_replay out = false
      /\ raw (sem_sender (me_semantics (mv_message (so_message out)))) = raw alice_id
  | _ => False
  end.
Proof. vm_compute. done. Qed.

(** The retry comes after the lease of the session has expired. *)
Lemma send_by_name_is_exactly_once_witness :
  exists view, authenticated_send_by_name (alice_session (Checked millis_ok 900000 I)) (with_message_id retry_id named_hello)
    (quiet sent_db) = (Ok {| so_message := view; so_idempotent_replay := true |}, quiet sent_db).
Proof.
  pose proof named_run_sent as Hs. unfold named_run in Hs.
  destruct (authenticated_send_by_name (alice_session at_200) named_hello (quiet joined_db)) as [[out|e] w'] eqn:E;
    [|destruct Hs].
  destruct Hs as (Hw & Hf & Ha).
  destruct (send_by_name_is_exactly_once (alice_session at_200) named_hello
    (alice_session (Checked millis_ok 900000 I)) alice_identity retry_id joined_db out sent_db sent_db joined_reachable)
    as (view & Ev & _).
  - exists (quiet joined_db), w'. split; [reflexivity|]. split; [exact E|]. rewrite Hw. reflexivity.
  - exact Hf.
  - apply rtc_refl.
  - apply alice_authenticates.
  - apply raw_inj. symmetry. exact Ha.
  - exists view. exact Ev.
Defined.
