(* ===== verification/Wire.v ===== *)
(** * Wire: what the relay sends passes the protocol's own validation

    The client refuses a response that [Validate] refuses.  The responses the relay
    builds from a reachable store are never refused. *)
From S2P Require Import Prelude Text Core Base64 Credential Dto Validation Notify Sql Store Repository Instance Message Inbox Authenticated Relay Invariant Effects Events History Commands Fixtures Delivery Queue Sessions Views MessageViews.

Section Wire.
Context `{Crypto} `{TimeCrateLaws}.

(** ** Timestamps *)
Definition YEAR_10000_MILLIS : Z := 253402300800 * 1000.

Lemma timestamp_dto_ok (t : UnixMillis) :
  raw t < YEAR_10000_MILLIS -> timestamp_dto t = Ok {| ts_nanos := raw t * 1000000 |}.
Proof.
  intros Ht. pose proof (millis_range t) as Ht'. unfold YEAR_10000_MILLIS in Ht.
  unfold timestamp_dto. rewrite nanos_in_range by (unfold YEAR_10000_NANOS; lia). simpl.
  unfold ApiTimestamp_new.
  assert ((raw t * 1000000) mod 1000000000 mod 1000000 = 0) as ->; [|done].
  replace 1000000000 with (1000 * 1000000) by lia.
  rewrite Z.mul_mod_distr_r by lia. apply Z.mod_mul. lia.
Qed.

(** ** Messages *)
Definition in_calendar (row : MessageRow) : Prop :=
  ms_created_at row < YEAR_10000_MILLIS
  /\ match ms_acknowledged_at row with
     | Some t => ms_created_at row <= t < YEAR_10000_MILLIS
     | None => True
     end.

(** A stored message has a wire form, and it validates. *)
Lemma message_dto_ok db row v :
  wf db -> row ∈ messages db -> in_calendar row -> view_row db row v ->
  exists d, message_dto v = Ok d /\ validate d = Ok tt
    /\ raw (md_sequence d) = ms_sequence row /\ md_id d = ms_id row.
Proof.
  intros Hwf Hrow [Hc Ha] [Hd Hn].
  pose proof (wf_messages _ Hwf) as Hall. rewrite Forall_forall in Hall. pose proof (Hall _ Hrow) as Om.
  unfold message_ok in Om. split_andb. bool_to_prop.
  assert (0 <= ms_sequence row <= i64_max) as Hs.
  { pose proof (wf_seq _ Hwf) as Hq. rewrite Forall_forall in Hq. pose proof (Hq _ Hrow).
    pose proof (wf_seq_bound _ Hwf). lia. }
  rewrite <- (de_sequence _ _ Hd) in Hs. destruct (MessageSequence_new_ok _ Hs) as (seq & Es & Rs).
  rewrite <- (de_created _ _ Hd) in Hc, Ha. rewrite <- (vr_acknowledged _ _ _ Hn) in Ha.
  unfold message_dto. rewrite Es. simpl. rewrite timestamp_dto_ok by done. simpl.
  assert (exists a, opt_try timestamp_dto (mv_acknowledged_at v) = Ok a
    /\ match a with Some value => ts_nanos value <? raw (me_created_at (mv_message v)) * 1000000 | None => false end = false)
    as (a & Ea & Va).
  { destruct (mv_acknowledged_at v) as [t|]; simpl in Ha; [|by exists None].
    exists (Some {| ts_nanos := raw t * 1000000 |}). simpl. rewrite timestamp_dto_ok by lia. split; [done|].
    apply Z.ltb_ge. simpl. lia. }
  rewrite Ea. simpl. eexists. split; [reflexivity|]. split; [|simpl; by rewrite Rs, (de_sequence _ _ Hd), (de_id _ _ Hd)].
  unfold validate, MessageDto_validate. simpl.
  rewrite (valid_ok (new := MessageId_new)), (valid_ok (new := SquadName_new)), !(valid_ok (new := MemberName_new)),
    (valid_ok (new := MessageBody_new)), (valid_opt_ok (new := MessageId_new)), (valid_opt_ok (new := CorrelationId_new)).
  simpl. by rewrite Va.
Qed.

(** The wire form of a page of rows in sequence order. *)
Lemma messages_dto_ok db rows vs :
  wf db -> Forall (fun row => row ∈ messages db /\ in_calendar row) rows -> Forall2 (view_row db) rows vs ->
  exists ds, try_collect message_dto vs = Ok ds /\ Forall (fun d => validate d = Ok tt) ds
    /\ map (raw ∘ md_sequence) ds = map ms_sequence rows /\ map md_id ds = map ms_id rows.
Proof.
  intros Hwf Hin Hf. induction Hf as [|row v rows vs Hv _ IH]; [by exists []|].
  inversion Hin as [|? ? [Hrow Hcal] Hrows]; subst.
  destruct (message_dto_ok db row v Hwf Hrow Hcal Hv) as (d & Ed & Vd & Rd & Id).
  destruct (IH Hrows) as (ds & Eds & Vds & Rds & Ids). exists (d :: ds). simpl.
  rewrite Ed. simpl. rewrite Eds. simpl. split; [done|]. split; [by constructor|]. split; f_equal; done.
Qed.

Lemma validate_message_page_ok ds :
  Forall (fun d => validate d = Ok tt) ds -> StronglySorted Z.lt (map (raw ∘ md_sequence) ds) ->
  forall previous, match previous with Some p => Forall (Z.lt p) (map (raw ∘ md_sequence) ds) | None => True end ->
  validate_message_page previous ds = Ok tt.
Proof.
  induction 1 as [|d ds Hd _ IH]; intros Hs previous Hp; simpl; [done|].
  rewrite Hd. simpl. inversion Hs as [|? ? Hs' Hf]; subst.
  assert (match previous with Some value => raw (md_sequence d) <=? value | None => false end = false) as ->.
  { destruct previous as [p|]; [|done]. inversion Hp; subst. by apply Z.leb_gt. }
  simpl. by apply IH.
Qed.

Lemma sorted_sequences rows : StronglySorted seq_lt rows -> StronglySorted Z.lt (map ms_sequence rows).
Proof.
  induction 1 as [|r rows _ IH Hf]; simpl; constructor; [done|]. rewrite Forall_map. exact Hf.
Qed.

(** ** The inbox *)
Lemma pending_in_calendar db x row :
  row ∈ inbox db x -> ms_created_at row < YEAR_10000_MILLIS -> in_calendar row.
Proof.
  intros [_ Hp]%elem_of_where Hc. split; [done|]. unfold pending_row in Hp. bool_to_prop.
  by destruct (ms_acknowledged_at row).
Qed.

Lemma take_sorted {A} (P : A -> A -> Prop) k l : StronglySorted P l -> StronglySorted P (take k l).
Proof. intros Hs. rewrite <- (take_drop k l) in Hs. by eapply StronglySorted_app_1_l. Qed.

Lemma inbox_response_ok db x max page :
  wf db -> page_of db x max page -> max <= 100 ->
  (forall m, m ∈ inbox db x -> ms_created_at m < YEAR_10000_MILLIS) ->
  exists resp, inbox_response page = Ok resp /\ validate resp = Ok tt.
Proof.
  intros Hwf [_ (k & Hk & Hf) Hne Hcount Hhigh Hold] Hmax Hcal.
  set (rows := take k (inbox db x)) in *.
  assert (forall m, m ∈ rows -> m ∈ inbox db x) as Hsub.
  { intros m Hm. rewrite <- (take_drop k (inbox db x)). apply elem_of_app. by left. }
  destruct (messages_dto_ok db rows (ip_messages page) Hwf) as (ds & Eds & Vds & Rds & Ids); [|done|].
  { apply Forall_forall. intros m Hm%Hsub. split; [by apply elem_of_where in Hm as [? _]|].
    by eapply pending_in_calendar; [|apply Hcal]. }
  assert (length ds = length rows) as Hl by (by rewrite <- (length_map md_id), Ids, length_map).
  pose proof (length_take (inbox db x) k) as Hlt. fold rows in Hlt.
  unfold inbox_response. rewrite Eds. simpl. eexists. split; [reflexivity|].
  unfold validate, InboxResponse_validate. simpl. unfold list_len, MAX_INBOX_MESSAGES_DTO.
  rewrite Hl, Hcount, (proj2 (Z.ltb_ge _ _)) by lia. simpl.
  rewrite validate_message_page_ok; [simpl|done| |done].
  2: { rewrite Rds. apply sorted_sequences, take_sorted, StronglySorted_where, (wf_sorted _ Hwf). }
  rewrite (proj2 (Z.ltb_ge _ _)) by lia. simpl.
  destruct (inbox db x) as [|m l] eqn:Ei.
  - assert (rows = []) as Er by (unfold rows; by destruct k). rewrite Er in *. simpl.
    destruct (ip_oldest_message_id page); [done|]. by rewrite Hhigh.
  - assert (rows <> []) as Er. { intros Er. rewrite Er in Hf. apply Forall2_nil_inv_l in Hf. by apply Hne. }
    assert (rows = m :: take (pred k) l) as Er' by (unfold rows in *; by destruct k). simpl in Hold.
    rewrite Er' in Hl, Ids. destruct ds as [|d ds]; [done|]. simpl in Ids. injection Ids as Ed _.
    rewrite Er', Hhigh. simpl.
    destruct (ip_oldest_message_id page) as [o|]; simpl in Hold; [|done]. injection Hold as Eo.
    rewrite (proj2 (Z.leb_le 1 _)) by lia. cbn [fmap option_fmap option_map andb].
    rewrite bool_decide_eq_true_2 by (f_equal; congruence).
    simpl. by rewrite (valid_ok (new := MessageId_new)).
Qed.

(** The inbox response.  For an authorized session the relay builds a response
    from the page of the store, and the protocol's validation accepts it: at
    most 100 messages, sequences strictly increasing, a count and activation
    metadata consistent with the messages. *)
Theorem inbox_response_is_valid session max id db :
  reachable db -> authorize_current session (quiet db) = (Ok id, quiet db) -> contains 1 100 max = true ->
  (forall m, m ∈ messages db -> ms_created_at m < YEAR_10000_MILLIS) ->
  exists page resp, authenticated_pending_page session max (quiet db) = (Ok page, quiet db)
    /\ inbox_response page = Ok resp /\ validate resp = Ok tt.
Proof.
  intros Hwf%reachable_wf Hauth Hc Hcal.
  destruct (inbox_page_quiet session max id db Hwf Hauth Hc) as (page & Ep & Hp).
  unfold contains in Hc. bool_to_prop.
  destruct (inbox_response_ok db (raw (id_membership id)) max page Hwf Hp) as (resp & Er & Vr); [done| |eauto].
  intros m [Hm _]%elem_of_where. auto.
Qed.

(** ** The roster *)
Definition instances_in_calendar (db : Database) : Prop :=
  forall i, i ∈ instances db ->
    in_availability_observed_at i < YEAR_10000_MILLIS /\ in_last_seen_at i < YEAR_10000_MILLIS.

Lemma availability_dto_unknown a : bool_decide (availability_dto a = AvUnknownDto) = bool_decide (a = AvUnknown).
Proof. by destruct a. Qed.
Lemma source_dto_unknown a : bool_decide (source_dto a = SrcUnknownDto) = bool_decide (a = SrcUnknown).
Proof. by destruct a. Qed.

Lemma left_is_offline db m now :
  own db -> m ∈ memberships db -> mb_left_at m <> None -> live_owner db (mb_id m) now = false.
Proof.
  intros Ho Hm Lm. apply exists_where_false. intros i Hi. unfold live_at.
  destruct (eqs (in_membership_id i) (mb_id m)) eqn:E; [|done]. apply eqs_true in E.
  destruct (in_closed_at i) eqn:Ci; [done|]. by destruct (own_left _ Ho i m Hi Hm).
Qed.

Lemma roster_member_dto_ok db now m r :
  inv db -> instances_in_calendar db -> raw now < YEAR_10000_MILLIS -> m ∈ memberships db -> roster_row db now m r ->
  exists d, roster_member_dto r = Ok d /\ validate_roster_member d = Ok tt.
Proof.
  intros [Hwf Ho] Hcal Hnow Hm [Rid _ Rleft Rpres _ Rcons Robs Rls].
  assert (raw (obs_observed_at (rm_availability r)) < YEAR_10000_MILLIS) as Hobs.
  { destruct Robs as [-> |(i & Hi & ->)]; [done|]. by apply Hcal. }
  unfold roster_member_dto. rewrite timestamp_dto_ok by done. simpl.
  assert (exists ls, opt_try timestamp_dto (rm_last_seen_at r) = Ok ls) as [ls Els].
  { destruct (rm_last_seen_at r) as [t|]; [|by exists None]. destruct (Rls t eq_refl) as (i & Hi & Ei).
    simpl. rewrite timestamp_dto_ok by (rewrite Ei; by apply Hcal). simpl. eauto. }
  rewrite Els. simpl. eexists. split; [reflexivity|]. unfold validate_roster_member. simpl.
  rewrite (valid_ok (new := MembershipId_new)), (valid_ok (new := MemberName_new)), (valid_ok (new := Role_new)). simpl.
  rewrite availability_dto_unknown, source_dto_unknown, Rcons, eqb_reflx. simpl.
  rewrite Rpres. destruct (mr_left_at (rm_membership r)) as [t|]; [|done]. simpl in Rleft.
  rewrite left_is_offline; [done|done|done|congruence].
Qed.

(** The roster response.  For an existing squad the relay's roster always
    has a wire form, and the protocol's validation accepts it: availability and
    its source are both known or both unknown, and who left is offline. *)
Theorem roster_response_is_valid name now s db :
  reachable db -> s ∈ squads db -> sq_name s = raw name -> instances_in_calendar db -> raw now < YEAR_10000_MILLIS ->
  exists members dtos, roster name now (quiet db) = (Ok members, quiet db)
    /\ try_collect roster_member_dto members = Ok dtos
    /\ validate {| ror_squad := raw name; ror_members := dtos |} = Ok tt.
Proof.
  intros Hinv%reachable_inv Hs En Hcal Hnow.
  destruct (roster_quiet name now s db Hinv Hs En) as (members & Em & Hf). exists members.
  set (rows := order_by by_joined _) in Hf.
  assert (forall m, m ∈ rows -> m ∈ memberships db) as Hin.
  { by intros m [Hm _]%elem_of_order_by%elem_of_where. }
  assert (exists dtos, try_collect roster_member_dto members = Ok dtos
    /\ Forall (fun d => validate_roster_member d = Ok tt) dtos) as (dtos & Ed & Vd).
  { clearbody rows. clear Em. induction Hf as [|m r rows rs Hr Hrs IH]; [by exists []|].
    destruct (roster_member_dto_ok db now m r) as (d & Ed & Vd); try done; [apply Hin, elem_of_cons; by left|].
    destruct IH as (ds & Eds & Vds); [intros x Hx; apply Hin, elem_of_cons; by right|].
    exists (d :: ds). simpl. rewrite Ed. simpl. rewrite Eds. simpl. split; [done|by constructor]. }
  exists dtos. split; [done|]. split; [done|]. unfold validate, RosterResponse_validate. simpl.
  rewrite (valid_ok (new := SquadName_new)). simpl. by apply valid_all_ok.
Qed.
End Wire.

(** ** Examples *)
Lemma sent_in_calendar m : m ∈ messages sent_db -> ms_created_at m < YEAR_10000_MILLIS.
Proof. intros Hm. apply list_elem_of_In in Hm. destruct Hm as [<-|[]]. reflexivity. Qed.
Lemma joined_in_calendar : instances_in_calendar joined_db.
Proof. intros i Hi. apply list_elem_of_In in Hi. destruct Hi as [<-|[<-|[]]]; split; reflexivity. Qed.

Lemma inbox_response_is_valid_witness :
  exists page resp, authenticated_pending_page bob_session 10 (quiet sent_db) = (Ok page, quiet sent_db)
    /\ inbox_response page = Ok resp /\ validate resp = Ok tt.
Proof.
  apply (inbox_response_is_valid bob_session 10 bob_identity sent_db sent_reachable bob_authorized eq_refl sent_in_calendar).
Defined.

Lemma roster_response_is_valid_witness :
  exists members dtos, roster demo_name at_200 (quiet joined_db) = (Ok members, quiet joined_db)
    /\ try_collect roster_member_dto members = Ok dtos
    /\ validate {| ror_squad := raw demo_name; ror_members := dtos |} = Ok tt.
Proof.
  apply (roster_response_is_valid demo_name at_200 demo_row joined_db joined_reachable demo_row_joined eq_refl
    joined_in_calendar). reflexivity.
Defined.
