(* ===== verification/Gateway.v ===== *)
(** * Gateway: the requests of the relay as steps of the store

    Whatever happens to a command on its way to the worker, a served request moves
    the store only by its public operations, so every property of reachable stores
    is a property of the relay. *)
From Stdlib Require Import Ascii.
From S2P Require Import Prelude Text Core Base64 Credential Dto Validation Notify Sql Store Repository Instance Message Inbox Authenticated Relay Invariant Effects Events History Commands Fixtures Delivery Queue Sessions Views MessageViews.

(** ** Routes *)
Section Requests.
Context `{HttpHeaders} `{Watch} `{Semaphores}.

(** One constructor per route of the version 1 API. *)
Inductive Request : Type :=
| RqListSquads
| RqCreateSquad (request : CreateSquadRequest)
| RqDescribeSquad (squad : string)
| RqArchiveSquad (squad : string) (headers : Headers)
| RqJoinSquad (squad : string) (request : JoinSquadRequest)
| RqResumeSquad (squad : string) (headers : Headers) (request : ResumeSquadRequest)
| RqLeaveSquad (squad : string) (headers : Headers)
| RqRoster (squad : string) (headers : Headers)
| RqHeartbeat (headers : Headers) (request : HeartbeatRequest)
| RqSendMessage (headers : Headers) (request : SendMessageRequest)
| RqInbox (headers : Headers) (query : InboxQueryDto) (schedule : Schedule)
| RqAcknowledge (order : list MessageId -> list MessageId) (headers : Headers) (request : AckMessagesRequest)
| RqTranscript (squad : string) (headers : Headers) (query : TranscriptQueryDto).

(** The headers of a request that needs a session. *)
Definition session_headers (q : Request) : option Headers :=
  match q with
  | RqListSquads | RqCreateSquad _ | RqDescribeSquad _ | RqJoinSquad _ _ => None
  | RqArchiveSquad _ h | RqResumeSquad _ h _ | RqLeaveSquad _ h | RqRoster _ h | RqHeartbeat h _
  | RqSendMessage h _ | RqInbox h _ _ | RqAcknowledge _ h _ | RqTranscript _ h _ => Some h
  end.
End Requests.

Section Serve.
Context `{Crypto} `{HttpHeaders} `{TimeCrate} `{Watch} `{Semaphores} `{SerdeJson}.

Definition discard {A} (m : R A) : R unit := _ ← m; mret tt.

(** The router. *)
Definition serve (q : Request) : R unit :=
  match q with
  | RqListSquads => discard handle_list_squads
  | RqCreateSquad request => discard (handle_create_squad request)
  | RqDescribeSquad squad => discard (handle_describe_squad squad)
  | RqArchiveSquad squad headers => discard (handle_archive_squad squad headers)
  | RqJoinSquad squad request => discard (handle_join_squad squad request)
  | RqResumeSquad squad headers request => discard (handle_resume_squad squad headers request)
  | RqLeaveSquad squad headers => discard (handle_leave_squad squad headers)
  | RqRoster squad headers => discard (handle_roster squad headers)
  | RqHeartbeat headers request => discard (handle_heartbeat headers request)
  | RqSendMessage headers request => discard (handle_send_message headers request)
  | RqInbox headers query schedule => discard (handle_inbox headers query schedule)
  | RqAcknowledge order headers request => discard (handle_acknowledge_messages order headers request)
  | RqTranscript squad headers query => discard (handle_transcript squad headers query)
  end.

Definition db_of (r : Relay) : Database := w_db (rl_world r).
End Serve.

(** ** Computations that move the store only by its operations *)
Section Stepping.
Context `{Crypto} `{HttpHeaders} `{TimeCrate} `{Watch} `{Semaphores} `{SerdeJson}.

Class Stepping {A} (m : R A) : Prop := stepping : forall r, rtc step (db_of r) (db_of (m r).2).
Class SteppingJob {A} (job : Job A) : Prop := stepping_job : forall r, rtc step (db_of r) (db_of (job r).2).

#[global] Instance stepping_ret {A} (a : A) : Stepping (mret a).
Proof. intros r. apply rtc_refl. Qed.
#[global] Instance stepping_pure {A} (x : Result ApiErrorCode A) : Stepping (pure x).
Proof. intros r. apply rtc_refl. Qed.
#[global] Instance stepping_refuse {A} e : Stepping (@refuse_with _ _ A e).
Proof. intros r. apply rtc_refl. Qed.
#[global] Instance stepping_validated `{Validate T} (x : T) : Stepping (validated x).
Proof. apply _. Qed.
#[global] Instance stepping_identifier {T} p (make : string -> Result InvalidValue T) : Stepping (identifier p make).
Proof. intros r. unfold identifier. by destruct (rl_random r) as [|[x|] xs]. Qed.
#[global] Instance stepping_bind {A B} (m : R A) (k : A -> R B) :
  Stepping m -> (forall a, Stepping (k a)) -> Stepping (m ≫= k).
Proof.
  intros Hm Hk r. specialize (Hm r). unfold mbind, R_bind. destruct (m r) as [[a|e] r']; simpl in *; [|done].
  etrans; [exact Hm|apply Hk].
Qed.
#[global] Instance stepping_discard {A} (m : R A) : Stepping m -> Stepping (discard m).
Proof. intros. unfold discard. apply _. Qed.
#[global] Instance stepping_dispatch {A} (job : Job A) : SteppingJob job -> Stepping (dispatch job).
Proof.
  intros Hj r. unfold dispatch.
  destruct (rl_deliveries r) as [|[] ds]; try destruct ran; try apply rtc_refl;
    match goal with |- context [job ?r'] => specialize (Hj r'); destruct (job r') as [[a|e] r1]; exact Hj end.
Qed.
#[global] Instance stepping_subscription {A} member (m : R A) : Stepping m -> Stepping (with_subscription member m).
Proof.
  intros Hm r. unfold with_subscription. destruct (subscribe _ _) as [[registry s]|]; [|apply rtc_refl].
  specialize (Hm (set_registry r registry)). by destruct (m _) as [x r'].
Qed.

(** ** Jobs *)
#[global] Instance stepping_at_now {A} (k : UnixMillis -> Job A) : (forall now, SteppingJob (k now)) -> SteppingJob (at_now k).
Proof. intros Hk r. unfold at_now. match goal with |- context [k ?n ?r'] => exact (Hk n r') end. Qed.

Lemma stepping_command {A} c (m : M A) :
  whole c = true -> (forall w, (perform c w).2 = (m w).2) -> SteppingJob (on_store m).
Proof.
  intros Hw Hc r. unfold on_store. specialize (Hc (rl_world r)).
  destruct (perform c (rl_world r)) as [x w'] eqn:E. destruct (m (rl_world r)) as [y w'']. simpl in *. subst w''.
  apply rtc_once. exists c, x. split; [done|]. by exists (rl_world r), w'.
Qed.
Lemma ignore_world {A} (m : M A) w : (ignore m w).2 = (m w).2.
Proof. unfold ignore, mbind, M_bind. by destruct (m w) as [[a|e] w']. Qed.

Lemma stepping_ignore {A} c (m : M A) : perform c = ignore m -> whole c = true -> SteppingJob (on_store m).
Proof. intros Hc Hw. apply (stepping_command c); [done|]. intros w. by rewrite Hc, ignore_world. Qed.
Ltac by_command c := first [apply (stepping_ignore c _ eq_refl); done | apply (stepping_command c); done].

#[global] Instance stepping_list : SteppingJob work_list_squads.
Proof. by_command CListSquads. Qed.
#[global] Instance stepping_describe name : SteppingJob (work_describe_squad name).
Proof. by_command (CDescribeSquad name). Qed.
#[global] Instance stepping_create q : SteppingJob (work_create_squad q).
Proof. apply stepping_at_now. intros now. by_command (CCreateSquad {| cs_id := wc_id q; cs_name := wc_name q;
    cs_mission := wc_mission q; cs_created_at := now |}). Qed.
#[global] Instance stepping_roster c name : SteppingJob (work_roster c name).
Proof. apply stepping_at_now. intros now. by_command (CAuthRoster (session_at c now) name). Qed.
#[global] Instance stepping_pending c max : SteppingJob (work_pending c max).
Proof. apply stepping_at_now. intros now. by_command (CAuthPage (session_at c now) max). Qed.
#[global] Instance stepping_acknowledge order c ids : SteppingJob (work_acknowledge order c ids).
Proof. apply stepping_at_now. intros now. by_command (CAuthAcknowledge order (session_at c now) ids). Qed.
#[global] Instance stepping_transcript c q : SteppingJob (work_transcript c q).
Proof. apply stepping_at_now. intros now. by_command (CAuthTranscriptViews (session_at c now) q). Qed.
#[global] Instance stepping_leave c squad : SteppingJob (work_leave c squad).
Proof. apply stepping_at_now. intros now. by_command (CAuthLeave (session_at c now) squad). Qed.
#[global] Instance stepping_archive c squad : SteppingJob (work_archive c squad).
Proof. apply stepping_at_now. intros now. by_command (CAuthArchiveByName (session_at c now) squad). Qed.
#[global] Instance stepping_send c q : SteppingJob (work_send c q).
Proof.
  apply stepping_at_now. intros now r.
  assert (SteppingJob (on_store (authenticated_send_by_name (session_at c now) q))) as Hs
    by (by_command (CAuthSendByName (session_at c now) q)).
  specialize (Hs r). by destruct (on_store _ r) as [[out|e] r'].
Qed.
(** The handlers use the default lease, which is whole. *)
#[global] Instance stepping_heartbeat c a source : SteppingJob (work_heartbeat c a source LeasePolicy_default).
Proof.
  apply stepping_at_now. intros now. by_command (CAuthHeartbeat (session_at c now) a source LeasePolicy_default).
Qed.
Lemma stepping_join q : wj_lease_policy q = LeasePolicy_default -> SteppingJob (work_join q).
Proof.
  intros Hp. apply stepping_at_now. intros now. eapply (stepping_ignore (CJoinAndClaim _) _ eq_refl). simpl. by rewrite Hp.
Qed.
Lemma stepping_resume q : wr_lease_policy q = LeasePolicy_default -> SteppingJob (work_resume q).
Proof.
  intros Hp. apply stepping_at_now. intros now.
  eapply (stepping_ignore (CAuthResume _ _ _ _ _ _ _ _ _ _ _) _ eq_refl). simpl. by rewrite Hp.
Qed.

(** ** Handlers *)
Definition undisturbed (schedule : Schedule) : Prop :=
  Forall (fun p => forall r, rtc step (db_of r) (db_of (p.1 r))) schedule.

Lemma stepping_wait c max schedule :
  undisturbed schedule -> forall page, Stepping (wait_for_mail c max page schedule).
Proof.
  intros Hs. induction Hs as [|[others wake] rest Hp _ IH]; intros page; simpl.
  - destruct (negb _); apply _.
  - destruct (negb _); [apply _|]. intros r. etrans; [apply Hp|]. simpl. destruct wake; try apply rtc_refl.
    assert (Stepping (page ← dispatch (work_pending c max); wait_for_mail c max page rest)) as Hb by apply _.
    apply Hb.
Qed.

Definition request_ok (q : Request) : Prop :=
  match q with RqInbox _ _ schedule => undisturbed schedule | _ => True end.

#[local] Hint Extern 5 (Stepping (match ?x with _ => _ end)) => destruct x : typeclass_instances.
#[local] Hint Extern 5 (SteppingJob (work_join _)) => apply stepping_join; reflexivity : typeclass_instances.
#[local] Hint Extern 5 (SteppingJob (work_resume _)) => apply stepping_resume; reflexivity : typeclass_instances.

Lemma stepping_serve q : request_ok q -> Stepping (serve q).
Proof.
  intros Hq. destruct q; simpl in *; apply stepping_discard.
  - unfold handle_list_squads. apply _.
  - unfold handle_create_squad. apply _.
  - unfold handle_describe_squad. apply _.
  - unfold handle_archive_squad. apply _.
  - unfold handle_join_squad. apply _.
  - unfold handle_resume_squad. apply _.
  - unfold handle_leave_squad. apply _.
  - unfold handle_roster. apply _.
  - unfold handle_heartbeat. apply _.
  - unfold handle_send_message. apply _.
  - pose proof (fun c max => stepping_wait c max schedule Hq). unfold handle_inbox. apply _.
  - unfold handle_acknowledge_messages. apply _.
  - unfold handle_transcript. apply _.
Qed.


(** ** Sessions *)
Lemma credential_concealed headers e : Relay.credential headers = Err e -> e = ApiNotFound.
Proof.
  unfold Relay.credential. destruct (header_get_all _ _) as [|v [|]]; try by intros [= <-].
  destruct (header_to_str v) as [text|]; simpl; [|by intros [= <-]].
  destruct (parse_authorization text); simpl; [done|by intros [= <-]].
Qed.

Lemma distinct_ids_error seen values e : distinct_ids seen values = Err e -> e = ApiInvalidRequest.
Proof.
  revert seen. induction values as [|v values IH]; intros seen; simpl; [done|]. unfold parsed.
  destruct (MessageId_new v) as [id|]; simpl; [|by intros [= <-]].
  case_bool_decide; [apply IH|]. destruct (distinct_ids _ values) as [[texts ids]|e'] eqn:E; simpl; [done|].
  intros [= <-]. by eapply IH.
Qed.

(** A refusal that leaves the relay as it was. *)
Definition refusal (e : ApiErrorCode) : Prop := e = ApiNotFound \/ e = ApiInvalidRequest \/ e = ApiPayloadTooLarge.
Class Refused {A} (m : R A) : Prop := refused : forall r, exists e, m r = (Err e, r) /\ refusal e.

#[local] Instance refused_with {A} e : refusal e -> Refused (@refuse_with _ _ A e).
Proof. intros He r. exists e. done. Qed.
#[local] Instance refused_bind {A B} (m : R A) (k : A -> R B) : Refused m -> Refused (m ≫= k) | 1.
Proof. intros Hm r. destruct (Hm r) as (e & E & He). exists e. unfold mbind, R_bind. by rewrite E. Qed.
(** A check that may itself refuse the request as invalid. *)
#[local] Instance refused_check {A T} (f : T -> ApiErrorCode) (x : Result T A) {B} (k : A -> R B) :
  (forall t, refusal (f t)) -> (forall a, Refused (k a)) -> Refused (pure (map_err f x) ≫= k) | 2.
Proof. intros Hf Hk r. destruct x as [a|t]; [apply Hk|]. exists (f t). done. Qed.
#[local] Instance refused_validated `{Validate T} (x : T) {B} (k : unit -> R B) :
  (forall a, Refused (k a)) -> Refused (validated x ≫= k) | 2.
Proof. apply refused_check. intros. unfold refusal. auto. Qed.
#[local] Instance refused_parsed {A} (x : Result InvalidValue A) {B} (k : A -> R B) :
  (forall a, Refused (k a)) -> Refused (pure (parsed x) ≫= k) | 2.
Proof. apply refused_check. intros. unfold refusal. auto. Qed.
#[local] Instance refused_distinct values {B} (k : list string * list MessageId -> R B) :
  (forall a, Refused (k a)) -> Refused (pure (distinct_ids [] values) ≫= k) | 2.
Proof.
  intros Hk r. unfold mbind, R_bind, pure. destruct (distinct_ids [] values) as [a|e] eqn:E; [apply Hk|].
  exists e. split; [done|]. apply distinct_ids_error in E as ->. unfold refusal. auto.
Qed.

#[local] Hint Extern 5 (Refused (match ?x with _ => _ end)) => destruct x : typeclass_instances.

(** A request that needs a session and does not carry one well-formed credential
    is refused before anything happens: the worker is not contacted, no
    randomness is drawn, and the relay is unchanged.  The error is that of an
    unknown resource unless the request itself is invalid or too large. *)
Theorem sessions_are_required q headers e r :
  session_headers q = Some headers -> Relay.credential headers = Err e ->
  exists e', serve q r = (Err e', r) /\ refusal e'.
Proof.
  intros Hq Hc.
  assert (Refused (pure (Relay.credential headers))) as Hn.
  { intros r'. rewrite Hc. exists e. split; [done|]. left. by eapply credential_concealed. }
  assert (refusal ApiInvalidRequest /\ refusal ApiPayloadTooLarge) as [Hi Hl] by (unfold refusal; auto).
  assert (Refused (serve q)) as Hs; [|apply Hs].
  destruct q; simplify_eq/=; apply refused_bind;
    unfold handle_archive_squad, handle_resume_squad, handle_leave_squad, handle_roster, handle_heartbeat,
      handle_send_message, handle_inbox, handle_acknowledge_messages, handle_transcript;
    repeat case_match; try (by apply refused_with); apply _.
Qed.
End Stepping.

(** ** The worker's answers *)
Section Worker.
Context `{Crypto} `{HttpHeaders} `{TimeCrate} `{Watch} `{Semaphores} `{SerdeJson}.

(** The store answers this relay without faults, and its queue is open. *)
Record serving (r : Relay) (db : Database) : Prop := {
  sv_world : rl_world r = quiet db;
  sv_queue : rl_deliveries r = [] }.

(** A session of the store stays authentic, whatever happens later. *)
Lemma authentic_later session db id db0 db' session' :
  wf db -> runs (authenticate_historical session) db (Ok id) db0 -> evolves db db' -> wf db' ->
  as_instance_id session' = as_instance_id session -> as_resume_token session' = as_resume_token session ->
  exists id', authenticate_historical session' (quiet db') = (Ok id', quiet db') /\ id_membership id' = id_membership id.
Proof.
  intros Hwf (i & m & Hs & Ht & E1 & _)%authenticate_historical_effect He Hwf' Ei Et.
  apply elem_of_session_rows in Hs as (Hi & Ii & Hm & Im).
  destruct (grows_elem _ _ _ i (evolves_instances _ _ He) Hi) as (i' & Hi' & Hle).
  destruct (membership_later _ _ _ He Hm) as (m' & Hm' & Em & _).
  destruct (authenticate_historical_quiet_ok session' db' i' m') as (id' & Ha & Rm & _); try done.
  - rewrite (ile_id _ _ Hle). congruence.
  - rewrite (ile_membership _ _ Hle). congruence.
  - rewrite (ile_token _ _ Hle). congruence.
  - exists id'. split; [done|]. apply raw_inj. congruence.
Qed.

(** The sender of a first send by name is the session's own membership. *)
Lemma first_send_sender session req db out db' :
  wf db -> runs (authenticated_send_by_name session req) db (Ok out) db' -> so_idempotent_replay out = false ->
  exists id db0, runs (authenticate_historical session) db (Ok id) db0
    /\ id_membership id = sem_sender (me_semantics (mv_message (so_message out))).
Proof.
  intros Hwf Hrun Hf. unfold authenticated_send_by_name in Hrun. inv_runs; drop_reads.
  { unfold replay_by_name in Hrun. by inv_runs. }
  unfold fresh_by_name in Hrun. inv_runs; drop_reads. apply message_view_on_effect in R6 as [_ Hv].
  match goal with Hc : runs (send_in_transaction _) _ _ _ |- _ =>
    apply send_in_transaction_effect in Hc; apply sent_row in Hc as [Hsem _]; [|done] end.
  do 2 eexists. split; [exact R|]. simpl. by rewrite Hv, Hsem.
Qed.

Definition with_deliveries (r : Relay) (ds : list Delivery) : Relay :=
  {| rl_world := rl_world r; rl_registry := rl_registry r; rl_clock := rl_clock r; rl_tick := rl_tick r;
     rl_deliveries := ds; rl_random := rl_random r |}.

(** A send that the worker completes runs the store's operation at the worker's time. *)
Lemma work_send_runs c req r out r' :
  work_send c req r = (Ok out, r') ->
  runs (authenticated_send_by_name (session_at c (rl_clock r (rl_tick r))) req) (db_of r) (Ok out) (db_of r').
Proof.
  unfold work_send, at_now, on_store. simpl.
  destruct (authenticated_send_by_name _ _ (rl_world r)) as [[o|e] w'] eqn:E; [|done].
  intros [= <- <-]. exists (rl_world r), w'. done.
Qed.

Lemma work_send_quiet c req r db out :
  rl_world r = quiet db ->
  authenticated_send_by_name (session_at c (rl_clock r (rl_tick r))) req (quiet db) = (Ok out, quiet db) ->
  exists r', work_send c req r = (Ok out, r') /\ rl_world r' = quiet db.
Proof. intros Hw Hs. unfold work_send, at_now, on_store. simpl. rewrite Hw, Hs. simpl. eauto. Qed.

(** An ambiguous send is exactly-once.  When the worker answers a send too late, the
    client is told that the database is busy, which invites a retry, although the
    message is stored; the retry, under its new message id and after any
    history, is answered with the stored message as a replay and stores nothing. *)
Theorem timed_out_send_is_exactly_once c req r ds out r1 :
  reachable (db_of r) -> rl_deliveries r = TimedOut true :: ds ->
  work_send c req (with_deliveries r ds) = (Ok out, r1) -> so_idempotent_replay out = false ->
  dispatch (work_send c req) r = (Err ApiDatabaseBusy, r1)
  /\ forall r2 db2 mid, rtc step (db_of r1) db2 -> serving r2 db2 ->
     exists view r3, dispatch (work_send c (with_message_id mid req)) r2
         = (Ok {| so_message := view; so_idempotent_replay := true |}, r3)
       /\ mv_message view = mv_message (so_message out) /\ rl_world r3 = rl_world r2.
Proof.
  intros Hr Hd Hw Hf. split.
  { unfold dispatch. rewrite Hd. fold (with_deliveries r ds). by rewrite Hw. }
  intros r2 db2 mid Hs [Hq Ho]. pose proof (work_send_runs _ _ _ _ _ Hw) as Hrun.
  change (db_of (with_deliveries r ds)) with (db_of r) in Hrun. pose proof (reachable_wf _ Hr) as Hwf.
  assert (step (db_of r) (db_of r1)) as H01.
  { eexists (CAuthSendByName _ req), (Ok tt). split; [done|].
    destruct Hrun as (w & w' & ? & E & ?). exists w, w'. split; [done|]. split; [|done].
    simpl. unfold ignore. erewrite bind_ok; [reflexivity|exact E]. }
  destruct (first_send_sender _ _ _ _ _ Hwf Hrun Hf) as (id & db0 & Hid & Eid).
  destruct (authentic_later _ _ _ _ db2 (session_at c (rl_clock r2 (rl_tick r2))) Hwf Hid) as (id' & Ha & Em); try done.
  { eapply steps_evolve; [done|]. by eapply rtc_l. }
  { eapply reachable_wf, reachable_steps; [exact Hr|]. by eapply rtc_l. }
  destruct (retry_by_name_quiet _ _ _ _ mid _ _ _ _ Hr Hrun Hf Hs Ha) as (view & Ev & Hv); [congruence|].
  exists view. unfold dispatch. rewrite Ho.
  destruct (work_send_quiet c (with_message_id mid req) (with_deliveries r2 []) db2 _ Hq Ev) as (r3 & E3 & W3).
  exists r3. fold (with_deliveries r2 []). rewrite E3, W3, Hq. done.
Qed.

(** ** Issued sessions *)
Lemma header_get_all_insert name value h : header_get_all name (header_insert name value h) = [value].
Proof.
  unfold header_get_all, header_insert. rewrite List.filter_app, map_app.
  simpl. rewrite bool_decide_eq_true_2 by done.
  assert (List.filter (fun '(n, _) => bool_decide (n = name))
    (List.filter (fun '(n, _) => negb (bool_decide (n = name))) h) = []) as ->; [|done].
  induction h as [|[n v] h IH]; simpl; [done|]. case_bool_decide as E; simpl; [done|].
  rewrite bool_decide_eq_false_2 by done. done.
Qed.
(** An issued session is accepted.  The credential the relay issues for an instance
    and a canonical token travels in one header, never to be cached; a client that
    parses it and puts it on a request, whatever headers the request has, is
    recognised by the relay as that session. *)
Theorem issued_session_is_accepted `{!CryptoLaws, !HttpHeadersLaws} body id t h :
  canonical t ->
  exists issued value request,
    issued_response body id t = Ok (issued, body)
    /\ header_get_all SESSION_CREDENTIAL_HEADER issued = [value]
    /\ header_get_all CACHE_CONTROL_HEADER issued = [NO_STORE]
    /\ parse_session_value value = Ok {| cr_instance_id := id; cr_resume_token := t |}
    /\ apply_authorization {| cr_instance_id := id; cr_resume_token := t |} h = Ok request
    /\ Relay.credential request = Ok {| cr_instance_id := id; cr_resume_token := t |}.
Proof.
  intros Hc. set (c := {| cr_instance_id := id; cr_resume_token := t |}).
  pose proof (parse_encoded c Hc) as Hp. pose proof (encoded_visible c Hc) as Hv.
  destruct (authorization_roundtrip c Hc) as (header & Eh & Ep).
  assert (header = BEARER_PREFIX +:+ encoded c /\ forallb visible_ascii (as_bytes header) = true) as [Ehd Hvh].
  { assert (forallb visible_ascii (as_bytes (BEARER_PREFIX +:+ encoded c)) = true) as Hb
      by (rewrite as_bytes_app, forallb_app; by rewrite Hv).
    unfold authorization_header in Eh. rewrite header_visible in Eh by done. injection Eh as <-. done. }
  eexists _, (encoded c), _. split.
  { unfold issued_response. change (raw id +:+ "." +:+ expose_encoded t) with (encoded c). rewrite Hp. simpl.
    unfold IssuedSessionHeaders_new. rewrite header_visible by done. reflexivity. }
  split; [done|]. split; [done|]. split; [done|].
  split; [unfold apply_authorization; rewrite Eh; reflexivity|].
  unfold Relay.credential. rewrite header_get_all_insert, header_text by done. simpl. by rewrite Ep.
Qed.

(** ** Identifiers *)
Lemma hex_id_chars bytes : forallb id_char (as_bytes (hex bytes)) = true.
Proof.
  eapply forallb_impl; [|apply hex_chars]. apply char_cases. vm_compute. reflexivity.
Qed.

(** Generated identifiers.  For each of the kinds, any sixteen random bytes make
    a valid identifier with the kind's prefix; different bytes make different
    identifiers; and drawing one does not touch the store. *)
Theorem generated_identifiers_are_valid name prefix r bytes rest :
  rl_random r = Some bytes :: rest -> len bytes = 16 -> len prefix <= 95 ->
  exists id r', identifier prefix (id_new name prefix) r = (Ok id, r')
    /\ raw id = prefix +:+ "_" +:+ hex bytes /\ rl_world r' = rl_world r /\ rl_random r' = rest
    /\ forall bytes', raw id = prefix +:+ "_" +:+ hex bytes' -> bytes' = bytes.
Proof.
  intros Hr Hb Hp.
  assert (id_ok prefix (prefix +:+ "_" +:+ hex bytes) = true) as Hok.
  { unfold id_ok. rewrite string_app_assoc, strip_prefix_app, hex_id_chars, !len_app, hex_len, Hb.
    change (len "_") with 1. rewrite (proj2 (Z.leb_le _ _)) by lia.
    assert (is_empty (hex bytes) = false) as ->; [|done]. apply bool_decide_eq_false. intros E.
    pose proof (hex_len bytes) as El. rewrite E, Hb in El. done. }
  apply checked_exists in Hok as (id & Eid). exists id. eexists. split; [|split; [done|split; [|split]]].
  - unfold identifier. rewrite Hr. f_equal. unfold parsed.
    by rewrite (proj2 (id_new_iff name prefix _ id)) by exact Eid.
  - done.
  - done.
  - intros bytes' E. rewrite Eid in E. apply (inj (String.append prefix)), (inj (String.append "_")) in E.
    by apply hex_inj.
Qed.
End Worker.

(** ** Examples *)
#[local] Instance example_json : SerdeJson := {| to_vec _ := Some "{}" |}.

Definition demo_relay (deliveries : list Delivery) : Relay :=
  {| rl_world := quiet joined_db; rl_registry := bounded; rl_clock := fun _ => at_200; rl_tick := 0;
     rl_deliveries := deliveries; rl_random := [Some "0123456789abcdef"; Some "fedcba9876543210"] |}.
Definition alice_credential : SessionCredential :=
  {| cr_instance_id := alice_instance; cr_resume_token := alice_token |}.
Definition alice_headers : Headers := [(AUTHORIZATION_HEADER, BEARER_PREFIX +:+ encoded alice_credential)].
Definition bob_headers : Headers :=
  [(AUTHORIZATION_HEADER,
    BEARER_PREFIX +:+ encoded {| cr_instance_id := bob_instance; cr_resume_token := bob_token |})].
Definition hello_request : SendMessageRequest :=
  {| smr_recipient := "bob"; smr_recipient_membership_id := None; smr_body := "hello"; smr_priority := NormalDto;
     smr_dedupe_key := "key-1"; smr_reply_to := None; smr_correlation_id := None |}.

(** The second member polls; the first one's send arrives in the meantime. *)
Definition poll : Request := RqInbox bob_headers {| iqd_limit := 10; iqd_wait_seconds := 30 |}
  [(fun r => (serve (RqSendMessage alice_headers hello_request) r).2, WakeChanged)].


Definition two_credentials : Headers := alice_headers ++ bob_headers.
Lemma sessions_are_required_witness :
  exists e', serve (RqSendMessage two_credentials hello_request) (demo_relay []) = (Err e', demo_relay []) /\ refusal e'.
Proof.
  apply (sessions_are_required (RqSendMessage two_credentials hello_request) two_credentials ApiNotFound);
    [reflexivity|vm_compute; reflexivity].
Defined.

Lemma late_send_stores :
  match work_send alice_credential named_hello (with_deliveries (demo_relay [TimedOut true]) []) with
  | (Ok out, r1) => so_idempotent_replay out = false /\ db_of r1 = sent_db
  | _ => False
  end.
Proof. vm_compute. done. Qed.

Lemma timed_out_send_is_exactly_once_witness :
  exists r1 view r3, dispatch (work_send alice_credential named_hello) (demo_relay [TimedOut true]) = (Err ApiDatabaseBusy, r1)
    /\ dispatch (work_send alice_credential (with_message_id retry_id named_hello)) (set_world (demo_relay []) (quiet sent_db))
       = (Ok {| so_message := view; so_idempotent_replay := true |}, r3).
Proof.
  pose proof late_send_stores as Hs.
  destruct (work_send alice_credential named_hello _) as [[out|e] r1] eqn:E in Hs; [|destruct Hs].
  destruct Hs as [Hf Hdb]. exists r1.
  destruct (timed_out_send_is_exactly_once alice_credential named_hello (demo_relay [TimedOut true]) [] out r1
    joined_reachable eq_refl E Hf) as [Hd Hr].
  destruct (Hr (set_world (demo_relay []) (quiet sent_db)) sent_db retry_id) as (view & r3 & Hv & _).
  - rewrite Hdb. apply rtc_refl.
  - split; reflexivity.
  - exists view, r3. split; [exact Hd|exact Hv].
Defined.

Lemma issued_session_is_accepted_witness :
  exists request, apply_authorization alice_credential alice_headers = Ok request
    /\ Relay.credential request = Ok alice_credential.
Proof.
  destruct (issued_session_is_accepted
    {| sep_agent_id := "agt_a"; sep_membership_id := "mem_a"; sep_instance_id := "ins_a";
       sep_squad := {| ss_id := "sqd_1"; ss_name := "demo"; ss_mission := "ship it"; ss_state := SqActiveDto;
         ss_created_at := {| ts_nanos := 0 |}; ss_archived_at := None |};
       sep_member_name := "alice"; sep_role := "engineer"; sep_heartbeat_interval_seconds := 10;
       sep_lease_seconds := 30; sep_lease_expires_at := {| ts_nanos := 0 |} |}
    alice_instance alice_token alice_headers) as (issued & value & request & _ & _ & _ & _ & Ha & Hc).
  - vm_compute. reflexivity.
  - exists request. split; [exact Ha|exact Hc].
Defined.

Lemma generated_identifiers_are_valid_witness :
  exists id r', identifier "msg" MessageId_new (demo_relay []) = (Ok id, r')
    /\ raw id = "msg_30313233343536373839616263646566".
Proof.
  destruct (generated_identifiers_are_valid "MessageId" "msg" (demo_relay []) "0123456789abcdef" _ eq_refl)
    as (id & r' & E & Ei & _).
  - reflexivity.
  - discriminate.
  - exists id, r'. split; [exact E|]. rewrite Ei. vm_compute. reflexivity.
Defined.
