(* ===== verification/Client.v ===== *)
(** * Client: the HTTP client (psst-client/src/lib.rs)

    A call runs in [C], a state monad over the world behind the client (the
    network, the permits of its semaphore, its sleeper), whose operations are the
    class [Transport].  An answer is a result, or [Elapsed] when the enclosing
    [tokio::time::timeout] drops the call while it waits, or [Panicked] where the
    source says [unreachable!]. *)
From Stdlib Require Import Ascii.
From stdpp Require Import pretty.
From S2P Require Import Prelude Text Core Credential Dto Validation.

Definition JSON_CONTENT_TYPE : string := "application/json".
Definition CONTENT_TYPE_HEADER : string := "content-type".
Definition MAX_RESPONSE_BYTES : Z := 1024 * 1024.

(** ** Configuration *)
Record RetryPolicy : Set := { rp_max_attempts : N; rp_initial_backoff : Duration; rp_max_backoff : Duration }.
Definition RetryPolicy_default : RetryPolicy :=
  {| rp_max_attempts := 3; rp_initial_backoff := Duration_from_millis 50; rp_max_backoff := Duration_from_millis 500 |}.

Record ClientConfig : Set := {
  cc_connect_timeout : Duration; cc_request_timeout : Duration; cc_long_poll_margin : Duration;
  cc_retry : RetryPolicy; cc_max_in_flight : Z }.
Definition ClientConfig_default : ClientConfig :=
  {| cc_connect_timeout := Duration_from_secs 3; cc_request_timeout := Duration_from_secs 10;
     cc_long_poll_margin := Duration_from_secs 5; cc_retry := RetryPolicy_default; cc_max_in_flight := 32 |}.

(** ** Errors *)

(** A [reqwest::Error], by the predicates the client asks of it. *)
Record TransportError : Set := {
  te_is_timeout : bool; te_is_connect : bool; te_is_request : bool; te_is_body : bool; te_is_decode : bool }.

Inductive ClientError : Set :=
| CeInvalidBaseUrl
| CeInvalidConfiguration
| CeInvalidRequest
| CeMalformedCredential
| CeTransport (e : TransportError)
| CeTimeout
| CeOutcomeUnknown
| CeApi (status : Z) (code : ApiErrorCode) (retryable : bool)
| CeMalformedResponse (status : Z)
| CeResponseTooLarge
| CeUnexpectedHttp (status : Z)
| CeClientBusy
| CeRetryExhausted (attempts : Z) (last : ClientError).

(** The derived [Debug] of the codes. *)
Definition ApiErrorCode_debug (c : ApiErrorCode) : string :=
  match c with
  | ApiInvalidRequest => "InvalidRequest" | ApiNotFound => "NotFound" | ApiSquadArchived => "SquadArchived"
  | ApiNotMember => "NotMember" | ApiNameInUse => "NameInUse" | ApiLeaseExpired => "LeaseExpired"
  | ApiRecipientNotFound => "RecipientNotFound" | ApiIdempotencyConflict => "IdempotencyConflict"
  | ApiPayloadTooLarge => "PayloadTooLarge" | ApiRateLimited => "RateLimited" | ApiDatabaseBusy => "DatabaseBusy"
  | ApiInternalError => "InternalError"
  end.

Definition ClientError_fmt (self : ClientError) : string :=
  match self with
  | CeInvalidBaseUrl => "invalid relay base URL"
  | CeInvalidConfiguration => "invalid client configuration"
  | CeInvalidRequest => "invalid client request"
  | CeMalformedCredential => "relay returned a malformed credential"
  | CeTransport _ => "relay transport failed"
  | CeTimeout => "relay request timed out"
  | CeOutcomeUnknown => "session operation outcome is unknown"
  | CeApi status code _ => "relay error " +:+ pretty status +:+ " (" +:+ ApiErrorCode_debug code +:+ ")"
  | CeMalformedResponse status => "relay returned a malformed response (" +:+ pretty status +:+ ")"
  | CeResponseTooLarge => "relay response exceeded the client limit"
  | CeUnexpectedHttp status => "unexpected relay HTTP response (" +:+ pretty status +:+ ")"
  | CeClientBusy => "client concurrency limit reached"
  | CeRetryExhausted attempts _ => "relay retry budget exhausted after " +:+ pretty attempts +:+ " attempts"
  end.

Definition transport_retryable (error : ClientError) : bool :=
  match error with
  | CeTimeout => true
  | CeTransport e => te_is_timeout e || te_is_connect e || te_is_request e || te_is_body e || te_is_decode e
  | _ => false
  end.

(** The [map_err] of [join], [resume] and [leave]: a lost answer leaves the outcome unknown. *)
Definition ambiguous (error : ClientError) : ClientError :=
  match error with CeTransport _ | CeTimeout => CeOutcomeUnknown | other => other end.

(** ** Response validation *)
Class ResponseValidate (R : Type) := validate_response : R -> Result ClientError unit.

(** [response_uses_protocol_validation!]. *)
Definition protocol_validation `{Validate R} (self : R) : Result ClientError unit :=
  map_err (fun _ => CeMalformedResponse 200) (validate self).
#[global] Instance squads_response : ResponseValidate (list SquadSummary) := protocol_validation.
#[global] Instance squad_response : ResponseValidate SquadSummary := protocol_validation.
#[global] Instance archive_response : ResponseValidate ArchiveSquadResponse := protocol_validation.
#[global] Instance leave_response : ResponseValidate LeaveSquadResponse := protocol_validation.
#[global] Instance roster_response : ResponseValidate RosterResponse := protocol_validation.
#[global] Instance send_response : ResponseValidate SendMessageResponse := protocol_validation.
#[global] Instance ack_response : ResponseValidate AckMessagesResponse := protocol_validation.
#[global] Instance transcript_response : ResponseValidate TranscriptResponse := protocol_validation.
#[global] Instance inbox_page_response : ResponseValidate InboxResponse := protocol_validation.

(** [valid.then_some(()).ok_or(..)]. *)
Definition well_formed (valid : bool) : Result ClientError unit :=
  if valid then Ok tt else Err (CeMalformedResponse 200).

Definition between (low high n : Z) : bool := (low <=? n) && (n <=? high).

#[global] Instance SessionResponse_validate : ResponseValidate SessionResponse := fun self =>
  well_formed (is_ok (AgentId_new (sep_agent_id self))
    && is_ok (MembershipId_new (sep_membership_id self))
    && is_ok (InstanceId_new (sep_instance_id self))
    && is_ok (SquadId_new (ss_id (sep_squad self)))
    && is_ok (SquadName_new (ss_name (sep_squad self)))
    && is_ok (MemberName_new (sep_member_name self))
    && is_ok (Role_new (sep_role self))
    && is_ok (validate (sep_squad self))
    && between 1 300 (sep_heartbeat_interval_seconds self)
    && between 2 900 (sep_lease_seconds self)
    && (sep_heartbeat_interval_seconds self <? sep_lease_seconds self)).
#[global] Instance HeartbeatResponse_validate : ResponseValidate HeartbeatResponse := fun self =>
  well_formed (between 1 300 (hbp_heartbeat_interval_seconds self)).
#[global] Instance HealthResponse_validate : ResponseValidate HealthResponse := fun self =>
  well_formed (bool_decide (hr_status self = "ok")).
#[global] Instance ReadyResponse_validate : ResponseValidate ReadyResponse := fun self =>
  well_formed (bool_decide (rr_status self = "ready") && (0 <? rr_schema_version self)).

(** ** The world behind the client *)
Inductive Answer (A : Type) : Type :=
| Answered (r : Result ClientError A)
| Elapsed
| Panicked.
Arguments Answered {A} r.
Arguments Elapsed {A}.
Arguments Panicked {A}.

Inductive Method : Set := GET | POST.

(** The JSON bodies the client posts. *)
Inductive Body : Set :=
| BCreateSquad (request : CreateSquadRequest)
| BJoinSquad (request : JoinSquadRequest)
| BResumeSquad (request : ResumeSquadRequest)
| BLeaveSquad
| BArchiveSquad
| BHeartbeat (request : HeartbeatRequest)
| BSendMessage (request : SendMessageRequest)
| BAckMessages (request : AckMessagesRequest).

(** The authority: an [Authorization] header and the instance bound into it.  The
    client makes one from an issued header only; the credential store, from what it
    kept. *)
Record Credential : Set := { cd_value : string; cd_instance_id : string }.

Record Call : Set := {
  call_method : Method; call_url : string; call_timeout : Duration; call_body : option Body;
  call_credential : option Credential }.

(** A piece of a response's body as [chunk()] yields it: data, an error, or nothing
    before the deadline. *)
Inductive Chunk : Set := Data (s : string) | Broken (e : TransportError) | Stalled.

Record HttpResponse : Set := {
  rs_status : Z; rs_headers : Headers; rs_content_length : option Z; rs_chunks : list Chunk }.

(** A [Url], by the parts the client looks at. *)
Record Url : Set := {
  url_scheme : string; url_host : option string; url_username : string; url_password : option string;
  url_port : option Z; url_query : option string; url_fragment : option string; url_path : string }.

(** The url crate: [Url::parse], [Url::join] and [Url::as_str]. *)
Class UrlCrate := {
  url_parse : string -> option Url; url_join : Url -> string -> option string; url_as_str : Url -> string }.
(** [Url::set_path] of a URL with a host. *)
Definition url_set_path (u : Url) (path : string) : Url :=
  {| url_scheme := url_scheme u; url_host := url_host u; url_username := url_username u; url_password := url_password u;
     url_port := url_port u; url_query := url_query u; url_fragment := url_fragment u;
     url_path := if String.prefix "/" path then path else "/" +:+ path |}.
(** [Url::set_port(None)], which fails without a host. *)
Definition url_clear_port (u : Url) : option Url :=
  match url_host u with
  | None => None
  | Some _ => Some {| url_scheme := url_scheme u; url_host := url_host u; url_username := url_username u;
                      url_password := url_password u; url_port := None; url_query := url_query u;
                      url_fragment := url_fragment u; url_path := url_path u |}
  end.
Class Transport (S : Type) := {
  try_acquire : S -> option S;
  release : S -> S;
  (** [None]: the deadline passed first. *)
  exchange : Call -> S -> option (Result TransportError HttpResponse) * S;
  (** [false]: the deadline passed first. *)
  sleep : Duration -> S -> bool * S }.

(** [serde_json::from_slice]. *)
Class Deserialize (R : Type) := from_slice : string -> option R.
(** [serde_json::to_vec] on the types whose serialization cannot fail. *)
Class Serialize (R : Type) := to_json : R -> string.
(** A codec of a derived type reads back what it wrote; the empty input is no JSON. *)
Class SerdeLaws (R : Type) `{Serialize R, Deserialize R} : Prop := {
  serde_roundtrip : forall r : R, from_slice (to_json r) = Some r;
  serde_empty : from_slice "" = @None R }.

(** ** Decoding a response *)
Section Decode.
Context `{HttpHeaders} `{Deserialize ErrorEnvelope}.

Definition header_get (name : string) (h : Headers) : option string := head (header_get_all name h).

Definition is_json (h : Headers) : bool :=
  let media := value ← header_get CONTENT_TYPE_HEADER h; text ← header_to_str value; head (split_on ";" text) in
  match media with
  | Some media => eq_ignore_ascii_case (trim media) JSON_CONTENT_TYPE
  | None => false
  end.

(** The loop over [response.chunk()]. *)
Fixpoint read_body (bytes : string) (chunks : list Chunk) : Answer string :=
  match chunks with
  | [] => Answered (Ok bytes)
  | Stalled :: _ => Elapsed
  | Broken e :: _ => Answered (Err (CeTransport e))
  | Data chunk :: rest =>
      if MAX_RESPONSE_BYTES <? usize_saturating_add (len bytes) (len chunk) then Answered (Err CeResponseTooLarge)
      else read_body (bytes +:+ chunk) rest
  end.

Definition is_success (status : Z) : bool := (200 <=? status) && (status <? 300).

Definition decode_bytes `{Deserialize R, ResponseValidate R} (status : Z) (bytes : string) : Result ClientError R :=
  if is_success status then
    if negb (status =? 200) then Err (CeUnexpectedHttp status)
    else
      value ← ok_or (from_slice bytes) (CeMalformedResponse status);
      _ ← validate_response value;
      Ok value
  else
    envelope ← ok_or (from_slice bytes) (CeUnexpectedHttp status);
    let error := ee_error envelope in
    _ ← map_err (fun _ => CeUnexpectedHttp status) (validate error);
    if negb (http_status (eb_code error) =? status) then Err (CeUnexpectedHttp status)
    else Err (CeApi status (eb_code error) (eb_retryable error)).

Definition decode `{Deserialize R, ResponseValidate R} (response : HttpResponse) : Answer R :=
  let status := rs_status response in
  if status =? 408 then Answered (Err CeTimeout)
  else if negb (is_json (rs_headers response)) then Answered (Err (CeUnexpectedHttp status))
  else if match rs_content_length response with Some length => MAX_RESPONSE_BYTES <? length | None => false end
  then Answered (Err CeResponseTooLarge)
  else match read_body "" (rs_chunks response) with
  | Answered (Ok bytes) => Answered (decode_bytes status bytes)
  | Answered (Err e) => Answered (Err e)
  | Elapsed => Elapsed
  | Panicked => Panicked
  end.
End Decode.

(** ** The client *)
Record Client : Set := { cl_base : Url; cl_config : ClientConfig }.

Definition opt_is_some {A} (o : option A) : bool := match o with Some _ => true | None => false end.

(** [builds]: whether reqwest's builder succeeds, and its error otherwise. *)
Definition Client_new `{UrlCrate} (builds : Result TransportError unit) (base : string) (config : ClientConfig)
    : Result ClientError Client :=
  if is_zero (cc_connect_timeout config) || is_zero (cc_request_timeout config)
     || (rp_max_attempts (cc_retry config) =? 0)%N || (10 <? rp_max_attempts (cc_retry config))%N
     || (cc_max_in_flight config =? 0) || (1024 <? cc_max_in_flight config)
     || (rp_max_backoff (cc_retry config) <? rp_initial_backoff (cc_retry config))%N
  then Err CeInvalidConfiguration
  else
    base ← ok_or (url_parse base) CeInvalidBaseUrl;
    if negb (bool_decide (url_scheme base = "http") || bool_decide (url_scheme base = "https"))
       || negb (opt_is_some (url_host base)) || negb (is_empty (url_username base)) || opt_is_some (url_password base)
       || opt_is_some (url_query base) || opt_is_some (url_fragment base)
       || negb (is_empty (url_path base) || bool_decide (url_path base = "/"))
    then Err CeInvalidBaseUrl
    else
      _ ← map_err CeTransport builds;
      Ok {| cl_base := url_set_path base "/"; cl_config := config |}.
(** [Client::origin]. *)
Definition origin `{UrlCrate} (self : Client) : string := url_as_str (cl_base self).

(** ** Paths and keys *)

(** [write!(.., "%{byte:02X}")]. *)
Definition upper_digit (n : N) : ascii := ascii_of_N (if (n <? 10)%N then 48 + n else 55 + n)%N.
Definition percent_byte (b : ascii) : list ascii :=
  if is_ascii_alphanumeric b || bool_decide (b ∈ ["-"; "_"; "."; "~"]%char) then [b]
  else ["%"%char; upper_digit (N_of_ascii b / 16); upper_digit (N_of_ascii b mod 16)].

Definition squad_path (squad suffix : string) : Result ClientError string :=
  _ ← map_err (fun _ => CeInvalidRequest) (SquadName_new squad);
  Ok ("v1/squads/" +:+ String.string_of_list_ascii (concat (map percent_byte (as_bytes squad))) +:+ suffix).

(** [random]: the sixteen bytes of getrandom, when it succeeds. *)
Definition sdk_dedupe_key (random : option string) : Result ClientError string :=
  bytes ← ok_or random CeInvalidConfiguration;
  Ok ("sdk-" +:+ hex bytes).

(** A [PreparedSend]; its identity is its key. *)
Record PreparedSend : Set := { ps_request : SendMessageRequest; ps_identity : string }.
Definition retained_body_bytes (self : PreparedSend) : Z := len (smr_body (ps_request self)).

Definition prepare_send (random : option string) (recipient body : string) (priority : MessagePriorityDto)
    (reply_to correlation_id : option string) : Result ClientError PreparedSend :=
  key ← sdk_dedupe_key random;
  let request := {| smr_recipient := recipient; smr_recipient_membership_id := None; smr_body := body;
                    smr_priority := priority; smr_dedupe_key := key; smr_reply_to := reply_to;
                    smr_correlation_id := correlation_id |} in
  _ ← map_err (fun _ => CeInvalidRequest) (validate request);
  Ok {| ps_request := request; ps_identity := smr_dedupe_key request |}.

(** ** Calls *)
Section Calls.
Context `{HttpHeaders} `{Crypto} `{UrlCrate} `{Transport Net} `{Deserialize ErrorEnvelope}.

Definition C (A : Type) : Type := Net -> Answer A * Net.
#[global] Instance C_ret : MRet C := fun A a s => (Answered (Ok a), s).
#[global] Instance C_bind : MBind C := fun A B k m s =>
  match m s with
  | (Answered (Ok a), s') => k a s'
  | (Answered (Err e), s') => (Answered (Err e), s')
  | (Elapsed, s') => (Elapsed, s')
  | (Panicked, s') => (Panicked, s')
  end.
Definition answer {A} (a : Answer A) : C A := fun s => (a, s).
Definition try {A} (r : Result ClientError A) : C A := answer (Answered r).

(** [tokio::time::timeout(..).await.map_err(|_| Error::Timeout)?]. *)
Definition timeout {A} (m : C A) : C A := fun s =>
  match m s with (Elapsed, s') => (Answered (Err CeTimeout), s') | x => x end.

Definition map_answer_err {A} (f : ClientError -> ClientError) (m : C A) : C A := fun s =>
  match m s with (Answered r, s') => (Answered (map_err f r), s') | x => x end.

(** A permit of [in_flight] is held for a scope and released however the scope ends. *)
Definition with_permit {A} (body : C A) : C A := fun s =>
  match try_acquire s with
  | None => (Answered (Err CeClientBusy), s)
  | Some s1 => let '(a, s2) := body s1 in (a, release s2)
  end.

Context (self : Client).

Definition request (method : Method) (path : string) (body : option Body) (credential : option Credential)
    (time : Duration) : C HttpResponse := fun s =>
  match url_join (cl_base self) path with
  | None => (Answered (Err CeInvalidBaseUrl), s)
  | Some url =>
      match exchange {| call_method := method; call_url := url; call_timeout := time; call_body := body;
                        call_credential := credential |} s with
      | (Some r, s') => (Answered (map_err CeTransport r), s')
      | (None, s') => (Elapsed, s')
      end
  end.

Inductive RetryClass : Set := RetryNever | RetrySafe | RetryDeduplicated.

(** How one attempt of the loop ends: the call returns, or goes on to the next attempt. *)
Inductive Next (A : Type) : Type := Return (r : Result ClientError A) | Again | Unreachable.
Arguments Return {A} r.
Arguments Again {A}.
Arguments Unreachable {A}.

Definition after_response {A} (status : Z) (result : Result ClientError A) (attempt attempts : Z) : Next A :=
  let retryable_api := match result with Err (CeApi _ _ true) => true | _ => false end in
  let retryable_transport := match result with Err error => transport_retryable error | Ok _ => false end in
  let retryable := retryable_api || retryable_transport in
  if retryable && (attempt =? attempts) && (1 <? attempts) then
    match result with Err last => Return (Err (CeRetryExhausted attempts last)) | Ok _ => Unreachable end
  else if negb retryable || (attempt =? attempts) then Return result
  else if retryable_api && negb ((status =? 429) || (status =? 503) || (status =? 500)) then Return result
  else Again.

Definition after_failure {A} (error : ClientError) (attempt attempts : Z) : Next A :=
  if (attempt =? attempts) && (1 <? attempts) && transport_retryable error then
    Return (Err (CeRetryExhausted attempts error))
  else if (attempt =? attempts) || negb (transport_retryable error) then Return (Err error)
  else Again.

Section Execute.
Context `{Deserialize A, ResponseValidate A}.

Definition attempt_once (send : C HttpResponse) (attempt attempts : Z) : C (Next A) := with_permit (fun s =>
  match send s with
  | (Answered (Ok response), s') =>
      match decode response with
      | Answered result => (Answered (Ok (after_response (rs_status response) result attempt attempts)), s')
      | Elapsed => (Elapsed, s')
      | Panicked => (Panicked, s')
      end
  | (Answered (Err error), s') => (Answered (Ok (after_failure error attempt attempts)), s')
  | (Elapsed, s') => (Elapsed, s')
  | (Panicked, s') => (Panicked, s')
  end).

Definition pause (d : Duration) : C unit := fun s =>
  let '(awake, s') := sleep d s in (if awake : bool then Answered (Ok tt) else Elapsed, s').

(** [for attempt in 1..=attempts]; [left] attempts are left. *)
Fixpoint attempt_loop (send : C HttpResponse) (left : nat) (attempts : Z) (backoff : Duration) : C A :=
  match left with
  | O => answer Panicked
  | S left' =>
      next ← attempt_once send (attempts - Z.of_nat left') attempts;
      match next with
      | Return r => try r
      | Unreachable => answer Panicked
      | Again =>
          _ ← pause backoff;
          attempt_loop send left' attempts
            (N.min (Duration_saturating_mul backoff 2) (rp_max_backoff (cc_retry (cl_config self))))
      end
  end.

Definition attempts_of (class : RetryClass) : Z :=
  match class with RetryNever => 1 | _ => Z.of_N (rp_max_attempts (cc_retry (cl_config self))) end.

Definition execute_inner (method : Method) (path : string) (body : option Body) (credential : option Credential)
    (time : Duration) (class : RetryClass) : C A :=
  attempt_loop (request method path body credential time) (Z.to_nat (attempts_of class)) (attempts_of class)
    (rp_initial_backoff (cc_retry (cl_config self))).

Definition execute (method : Method) (path : string) (body : option Body) (credential : option Credential)
    (time : Duration) (class : RetryClass) : C A :=
  timeout (execute_inner method path body credential time class).
End Execute.

(** ** Issued sessions *)
Definition Credential_from_response (value : string) : Result ClientError Credential :=
  text ← ok_or (header_to_str value) CeMalformedCredential;
  parsed ← map_err (fun _ => CeMalformedCredential) (parse_session_value text);
  authorization ← ok_or (header_from_str ("Bearer " +:+ text)) CeMalformedCredential;
  Ok {| cd_value := authorization; cd_instance_id := raw (cr_instance_id parsed) |}.

(** The directives of every [Cache-Control] value that is text. *)
Definition no_store (h : Headers) : bool :=
  existsb (fun value => match header_to_str value with
    | Some text => existsb (fun directive => eq_ignore_ascii_case (trim directive) "no-store") (split_on "," text)
    | None => false
    end) (header_get_all CACHE_CONTROL_HEADER h).

Context `{!Deserialize SessionResponse}.

Definition execute_issued_inner (method : Method) (path : string) (body : Body) (credential : option Credential)
    : C (SessionResponse * Credential) :=
  with_permit (
    response ← request method path (Some body) credential (cc_request_timeout (cl_config self));
    if negb (rs_status response =? 200) then
      _ ← answer (decode (R := SessionResponse) response);
      try (Err (CeUnexpectedHttp 200))
    else
      let h := rs_headers response in
      if negb (Nat.eqb (length (header_get_all SESSION_CREDENTIAL_HEADER h)) 1) || negb (no_store h)
      then try (Err CeMalformedCredential)
      else
        issued ← try (ok_or (header_get SESSION_CREDENTIAL_HEADER h) CeMalformedCredential);
        value ← answer (decode response);
        credential ← try (Credential_from_response issued);
        if bool_decide (sep_instance_id value <> cd_instance_id credential) then try (Err CeMalformedCredential)
        else mret (value, credential)).

Definition execute_issued (method : Method) (path : string) (body : Body) (credential : option Credential)
    : C (SessionResponse * Credential) :=
  timeout (execute_issued_inner method path body credential).

(** ** Endpoints *)
Definition checked_request {A} `{Validate T} (request : T) (k : C A) : C A :=
  _ ← try (map_err (fun _ => CeInvalidRequest) (validate request));
  k.
Definition request_timeout : Duration := cc_request_timeout (cl_config self).

Definition Client_health `{!Deserialize HealthResponse} : C HealthResponse :=
  execute GET "healthz" None None request_timeout RetrySafe.
Definition Client_ready `{!Deserialize ReadyResponse} : C ReadyResponse :=
  execute GET "readyz" None None request_timeout RetrySafe.
Definition Client_list_squads `{!Deserialize (list SquadSummary)} : C (list SquadSummary) :=
  execute GET "v1/squads" None None request_timeout RetrySafe.
Definition Client_create_squad `{!Deserialize SquadSummary} (q : CreateSquadRequest) : C SquadSummary :=
  checked_request q (execute POST "v1/squads" (Some (BCreateSquad q)) None request_timeout RetryNever).
Definition Client_describe_squad `{!Deserialize SquadSummary} (squad : string) : C SquadSummary :=
  path ← try (squad_path squad "");
  execute GET path None None request_timeout RetrySafe.
Definition Client_join (squad : string) (q : JoinSquadRequest) : C (SessionResponse * Credential) :=
  checked_request q (
    path ← try (squad_path squad "/join");
    map_answer_err ambiguous (execute_issued POST path (BJoinSquad q) None)).
Definition Client_resume (squad : string) (q : ResumeSquadRequest) (c : Credential) : C (SessionResponse * Credential) :=
  checked_request q (
    path ← try (squad_path squad "/resume");
    map_answer_err ambiguous (execute_issued POST path (BResumeSquad q) (Some c))).
Definition Client_leave `{!Deserialize LeaveSquadResponse} (squad : string) (c : Credential) : C LeaveSquadResponse :=
  path ← try (squad_path squad "/leave");
  map_answer_err ambiguous (execute POST path (Some BLeaveSquad) (Some c) request_timeout RetryNever).
Definition Client_archive_squad `{!Deserialize ArchiveSquadResponse} (squad : string) (c : Credential) : C ArchiveSquadResponse :=
  path ← try (squad_path squad "/archive");
  execute POST path (Some BArchiveSquad) (Some c) request_timeout RetryNever.
Definition Client_roster `{!Deserialize RosterResponse} (squad : string) (c : Credential) : C RosterResponse :=
  path ← try (squad_path squad "/roster");
  execute GET path None (Some c) request_timeout RetrySafe.
Definition Client_heartbeat `{!Deserialize HeartbeatResponse} (q : HeartbeatRequest) (c : Credential) : C HeartbeatResponse :=
  checked_request q (execute POST "v1/heartbeat" (Some (BHeartbeat q)) (Some c) request_timeout RetryNever).
Definition Client_send_with_request `{!Deserialize SendMessageResponse} (q : SendMessageRequest) (c : Credential)
    : C SendMessageResponse :=
  checked_request q (execute POST "v1/messages" (Some (BSendMessage q)) (Some c) request_timeout RetryDeduplicated).
Definition Client_send_prepared `{!Deserialize SendMessageResponse} (prepared : PreparedSend) (c : Credential)
    : C SendMessageResponse := Client_send_with_request (ps_request prepared) c.
Definition Client_send `{!Deserialize SendMessageResponse} (random : option string) (recipient body : string)
    (priority : MessagePriorityDto) (reply_to correlation_id : option string) (c : Credential) : C SendMessageResponse :=
  prepared ← try (prepare_send random recipient body priority reply_to correlation_id);
  Client_send_prepared prepared c.
(** [limit : u16], [wait_seconds : u8]. *)
Definition Client_inbox `{!Deserialize InboxResponse} (limit wait_seconds : Z) (c : Credential) : C InboxResponse :=
  checked_request {| iqd_limit := limit; iqd_wait_seconds := wait_seconds |} (
    execute GET ("v1/inbox?limit=" +:+ pretty limit +:+ "&wait=" +:+ pretty wait_seconds) None (Some c)
      (Duration_saturating_add (Duration_from_secs (Z.to_N wait_seconds)) (cc_long_poll_margin (cl_config self)))
      RetrySafe).
Definition Client_acknowledge `{!Deserialize AckMessagesResponse} (q : AckMessagesRequest) (c : Credential)
    : C AckMessagesResponse :=
  checked_request q (execute POST "v1/messages/ack" (Some (BAckMessages q)) (Some c) request_timeout RetryDeduplicated).
Definition Client_transcript `{!Deserialize TranscriptResponse} (squad : string) (after : MessageSequence) (limit : Z)
    (c : Credential) : C TranscriptResponse :=
  checked_request {| tqd_after := after; tqd_limit := limit |} (
    base ← try (squad_path squad "/transcript");
    execute GET (base +:+ "?after=" +:+ pretty (raw after) +:+ "&limit=" +:+ pretty limit) None (Some c)
      request_timeout RetrySafe).
End Calls.
Arguments Return {A} r.
Arguments Again {A}.
Arguments Unreachable {A}.
