(* ===== verification/Codec.v ===== *)
(** * Codec: a serialization to compute with

    The serialization of records is serde's, a parameter of the development.  Examples
    instantiate it with this one, which writes the number of a value of a countable type
    in binary after a brace. *)
From Stdlib Require Import Ascii.
From stdpp Require Import countable.
From S2P Require Import Prelude Text Dto Client.

Fixpoint pos_text (p : positive) : string :=
  match p with xH => EmptyString | xO p => String "0" (pos_text p) | xI p => String "1" (pos_text p) end.
Fixpoint text_pos (s : string) : positive :=
  match s with
  | EmptyString => xH
  | String c s => if bool_decide (c = "0"%char) then xO (text_pos s) else xI (text_pos s)
  end.
Lemma text_pos_text p : text_pos (pos_text p) = p.
Proof. induction p as [p IH|p IH|]; simpl; try rewrite IH; done. Qed.

Section Codec.
Context {R : Type} `{Countable R}.
Definition countable_serialize : Serialize R := fun r => String "{" (pos_text (countable.encode r)).
Definition countable_deserialize : Deserialize R := fun s =>
  match s with EmptyString => None | String _ s => countable.decode (text_pos s) end.
#[local] Existing Instances countable_serialize countable_deserialize.
Lemma countable_laws : SerdeLaws R.
Proof.
  split; [|done]. intros r. unfold from_slice, to_json, countable_serialize, countable_deserialize.
  rewrite text_pos_text. apply countable.decode_encode.
Qed.
End Codec.

#[global] Instance timestamp_eq_dec : EqDecision ApiTimestamp.
Proof. solve_decision. Defined.
#[global] Instance timestamp_countable : Countable ApiTimestamp.
Proof. refine (inj_countable' ts_nanos (fun n => {| ts_nanos := n |}) _). by intros []. Defined.
