(* ===== verification/Retries.v ===== *)
(** * Retries: what the client does on the network

    The calls of Client.v are run over a transport that records each exchange and
    each pause, whatever the network answers. *)
From stdpp Require Import pretty.
From S2P Require Import Prelude Text Core Credential Dto Validation Client.

(** ** A transport with a log *)
Inductive Event : Set := Sent (c : Call) | Slept (d : Duration).

Section Logged.
Context `{Transport Net}.

#[local] Instance logged : Transport (Net * list Event) := {|
  try_acquire s := (fun n => (n, s.2)) <$> try_acquire s.1;
  release s := (release s.1, s.2);
  exchange c s := let '(r, n) := exchange c s.1 in (r, (n, s.2 ++ [Sent c]));
  sleep d s := let '(awake, n) := sleep d s.1 in (awake, (n, s.2 ++ [Slept d])) |}.

Definition is_sent (e : Event) : bool := match e with Sent _ => true | Slept _ => false end.
Definition sent_count (l : list Event) : nat := length (List.filter is_sent l).

Lemma sent_count_app l l' : sent_count (l ++ l') = (sent_count l + sent_count l')%nat.
Proof. unfold sent_count. by rewrite List.filter_app, length_app. Qed.

Context `{HttpHeaders} `{Crypto} `{UrlCrate} `{!Deserialize ErrorEnvelope}.

(** ** The retry loop *)
Section Loop.
Context (self : Client) (call : Call).

Definition doubled (backoff : Duration) : Duration :=
  N.min (Duration_saturating_mul backoff 2) (rp_max_backoff (cc_retry (cl_config self))).

(** The full course of [left] attempts: the same call each time, with a growing pause in between. *)
Fixpoint course (left : nat) (backoff : Duration) : list Event :=
  match left with
  | O => []
  | S left' => Sent call :: match left' with O => [] | S _ => Slept backoff :: course left' (doubled backoff) end
  end.

Lemma course_step left backoff :
  course (S (S left)) backoff = [Sent call; Slept backoff] ++ course (S left) (doubled backoff).
Proof. done. Qed.
End Loop.

Section Attempts.
Context `{Deserialize A, ResponseValidate A} (self : Client).

Lemma read_body_answers chunks bytes : read_body bytes chunks <> Panicked.
Proof. revert bytes. induction chunks as [|[] chunks IH]; intros bytes; simpl; try done. by case_match. Qed.
Lemma decode_answers response : decode (R := A) response <> Panicked.
Proof.
  unfold decode. repeat case_match; try done; exfalso; by eapply read_body_answers.
Qed.

(** The last attempt always returns. *)
Lemma after_response_last status (r : Result ClientError A) n : exists r', after_response status r n n = Return r'.
Proof.
  unfold after_response. rewrite Z.eqb_refl, orb_true_r. destruct r as [a|e]; simpl; [by eexists|].
  destruct (_ && (1 <? n)); by eexists.
Qed.
Lemma after_response_reachable status (r : Result ClientError A) n m : after_response status r n m <> Unreachable.
Proof. unfold after_response. by repeat case_match. Qed.
Lemma after_failure_last e n : exists r', after_failure (A := A) e n n = Return r'.
Proof. unfold after_failure. rewrite Z.eqb_refl. destruct (_ && transport_retryable e); by eexists. Qed.
Lemma after_failure_reachable e n m : after_failure (A := A) e n m <> Unreachable.
Proof. unfold after_failure. by repeat case_match. Qed.

Context (method : Method) (path : string) (body : option Body) (credential : option Credential) (time : Duration).

(** One request is at most one exchange, of the call it describes. *)
Definition call_to (url : string) : Call :=
  {| call_method := method; call_url := url; call_timeout := time; call_body := body; call_credential := credential |}.

Lemma request_log s log :
  exists evs s', (request self method path body credential time (s, log)).2 = (s', log ++ evs)
    /\ (request self method path body credential time (s, log)).1 <> Panicked
    /\ match url_join (cl_base self) path with Some url => evs = [Sent (call_to url)] | None => evs = [] end.
Proof.
  unfold request. destruct (url_join _ _) as [url|]; simpl.
  - unfold call_to. destruct (exchange _ s) as [[r|] s']; simpl; eauto.
  - exists [], s. by rewrite app_nil_r.
Qed.

Lemma attempt_once_log attempt attempts s log :
  exists evs s', (attempt_once (A := A) (request self method path body credential time) attempt attempts (s, log)).2
      = (s', log ++ evs)
    /\ (evs = [] \/ exists url, url_join (cl_base self) path = Some url /\ evs = [Sent (call_to url)])
    /\ (attempt_once (A := A) (request self method path body credential time) attempt attempts (s, log)).1 <> Panicked
    /\ forall next, (attempt_once (A := A) (request self method path body credential time) attempt attempts (s, log)).1
         = Answered (Ok next) -> next <> Unreachable /\ (attempt = attempts -> next <> Again)
         /\ (next = Again -> evs <> []).
Proof.
  unfold attempt_once, with_permit. simpl. destruct (try_acquire s) as [s1|]; simpl.
  2:{ exists [], s. rewrite app_nil_r. split; [done|]. split; [by left|]. done. }
  destruct (request_log s1 log) as (evs & s' & E2 & Hp & He).
  destruct (request _ _ _ _ _ _ (s1, log)) as [a [s2 l2]] eqn:Er. simpl in *. injection E2 as -> ->.
  assert (evs = [] \/ exists url, url_join (cl_base self) path = Some url /\ evs = [Sent (call_to url)]) as Hevs
    by (destruct (url_join _ _); subst; eauto).
  assert (evs = [] -> a = Answered (Err CeInvalidBaseUrl)) as Hne.
  { intros ->. unfold request in Er. destruct (url_join _ _); [done|]. by injection Er. }
  destruct a as [[response|e]| |]; simpl in *; try (by eauto 10).
  - pose proof (decode_answers response). destruct (decode response) as [r| |]; simpl; try (by eauto 10).
    do 2 eexists. split; [done|]. split; [done|]. split; [done|]. intros next [= <-].
    split; [apply after_response_reachable|]. split; [|intros _ E; by apply Hne in E].
    intros ->. destruct (after_response_last (rs_status response) r attempts) as [r' ->]. done.
  - do 2 eexists. split; [done|]. split; [done|]. split; [done|]. intros next [= <-].
    split; [apply after_failure_reachable|]. split.
    + intros ->. destruct (after_failure_last e attempts) as [r' ->]. done.
    + intros E Ee. specialize (Hne Ee). injection Hne as ->. unfold after_failure in E. simpl in E.
      by rewrite andb_false_r, orb_true_r in E.
Qed.

Definition the_call : Call := call_to (default "" (url_join (cl_base self) path)).

Lemma attempt_loop_log left attempts backoff s log :
  let run := attempt_loop (A := A) self (request self method path body credential time) (S left) attempts backoff (s, log) in
  run.1 <> Panicked /\ exists evs s', run.2 = (s', log ++ evs) /\ evs `prefix_of` course self the_call (S left) backoff.
Proof.
  revert backoff s log. induction left as [|left IH]; intros backoff s log; cbn [attempt_loop];
    unfold mbind, C_bind;
    match goal with |- context [attempts - Z.of_nat ?k] =>
      destruct (attempt_once_log (attempts - Z.of_nat k) attempts s log) as (evs & s1 & E2 & Hevs & Hp & Hn) end;
    destruct (attempt_once _ _ _ (s, log)) as [a st]; simpl in E2, Hp, Hn; subst st;
    (assert (evs `prefix_of` [Sent the_call]) as Hpre
      by (unfold the_call; destruct Hevs as [->|(url & -> & ->)]; [apply prefix_nil|done])).
  - destruct a as [[next|e]| |]; simpl; try by eauto. specialize (Hn _ eq_refl) as (Hu & Ha & _).
    destruct next; simpl; [by eauto| |done]. destruct Ha; [lia|done].
  - assert (evs `prefix_of` course self the_call (S (S left)) backoff) as Hc
      by (etrans; [exact Hpre|]; eexists; reflexivity).
    destruct a as [[next|e]| |]; simpl; try by eauto. specialize (Hn _ eq_refl) as (Hu & _ & Hne).
    destruct next; simpl; [by eauto| |done]. specialize (Hne eq_refl).
    assert (evs = [Sent the_call]) as -> by (unfold the_call; destruct Hevs as [?|(url & -> & ->)]; done).
    unfold pause. simpl. destruct (sleep backoff s1) as [[] s2]; simpl.
    + specialize (IH (doubled self backoff) s2 (log ++ [Sent the_call; Slept backoff])) as (IHp & evs' & s' & E & Hpre').
      rewrite <- app_assoc. simpl. split; [exact IHp|]. exists ([Sent the_call; Slept backoff] ++ evs'), s'.
      split; [by rewrite app_assoc|]. destruct Hpre' as [k Hk]. exists k. simpl. by rewrite <- Hk.
    + split; [done|]. exists [Sent the_call; Slept backoff], s2. split; [by rewrite <- app_assoc|].
      by eexists.
Qed.

(** ** Calls return *)
Lemma execute_log class s log :
  1 <= attempts_of self class ->
  let run := execute (A := A) self method path body credential time class (s, log) in
  (exists r, run.1 = Answered r)
  /\ exists evs s', run.2 = (s', log ++ evs)
     /\ evs `prefix_of` course self the_call (Z.to_nat (attempts_of self class)) (rp_initial_backoff (cc_retry (cl_config self))).
Proof.
  intros Hn. unfold execute, execute_inner, timeout.
  destruct (Z.to_nat (attempts_of self class)) as [|left] eqn:El; [lia|].
  pose proof (attempt_loop_log left (attempts_of self class) (rp_initial_backoff (cc_retry (cl_config self))) s log)
    as (Hp & evs & s' & E & Hpre).
  destruct (attempt_loop _ _ _ _ _ _) as [a st]. simpl in *. subst st.
  split; [destruct a; simpl; eauto; done|]. exists evs, s'. split; [by destruct a|done].
Qed.
End Attempts.

(** A computation that returns an answer after at most [n] exchanges. *)
Class Returns (n : nat) {A} (m : C (Net := Net * list Event) A) : Prop :=
  returns : forall s log, (exists r, (m (s, log)).1 = Answered r)
    /\ exists evs s', (m (s, log)).2 = (s', log ++ evs) /\ (sent_count evs <= n)%nat.

Lemma course_count self call left backoff : (sent_count (course self call left backoff) <= left)%nat.
Proof.
  revert backoff. induction left as [|[|left] IH]; intros backoff; [done|done|].
  rewrite course_step, sent_count_app. specialize (IH (doubled self backoff)). simpl in *. lia.
Qed.
Lemma prefix_count l l' : l `prefix_of` l' -> (sent_count l <= sent_count l')%nat.
Proof. intros [k ->]. rewrite sent_count_app. lia. Qed.

#[global] Instance returns_try n {A} (r : Result ClientError A) : Returns n (try r).
Proof. intros s log. split; [by eexists|]. exists [], s. rewrite app_nil_r. split; [done|]. unfold sent_count. simpl. lia. Qed.
#[global] Instance returns_try_bind n {A B} (r : Result ClientError A) (k : A -> C B) :
  (forall a, Returns n (k a)) -> Returns n (try r ≫= k).
Proof. intros Hk s log. destruct r as [a|e]; [apply Hk|]. by apply (returns_try n (Err e)). Qed.
#[global] Instance returns_checked n {A} `{Validate T} (q : T) (k : C A) : Returns n k -> Returns n (checked_request q k).
Proof. intros Hk. unfold checked_request. apply _. Qed.
#[global] Instance returns_map n {A} f (m : C A) : Returns n m -> Returns n (map_answer_err f m).
Proof.
  intros Hm s log. unfold map_answer_err. destruct (Hm s log) as [[r Er] Hl].
  destruct (m (s, log)) as [a st]. simpl in *. subst a. by split; [eexists|].
Qed.

Section Endpoints.
Context (self : Client).
Hypothesis some_attempts : (1 <= rp_max_attempts (cc_retry (cl_config self)))%N.

#[local] Instance returns_execute `{Deserialize A, ResponseValidate A} method path body credential time class :
  Returns (Z.to_nat (attempts_of self class)) (execute (A := A) self method path body credential time class).
Proof.
  intros s log. destruct (execute_log (A := A) self method path body credential time class s log) as (Hr & evs & s' & E & Hp).
  { destruct class; simpl; lia. }
  split; [done|]. exists evs, s'. split; [done|].
  etrans; [by apply prefix_count|]. apply course_count.
Qed.

#[local] Instance returns_issued `{!Deserialize SessionResponse} method path body credential :
  Returns 1 (execute_issued self method path body credential).
Proof.
  intros s log. unfold execute_issued, execute_issued_inner, timeout, with_permit. simpl.
  destruct (try_acquire s) as [s1|]; simpl.
  2:{ by apply (returns_try 1 (Err CeClientBusy)). }
  unfold mbind, C_bind.
  destruct (request_log self method path (Some body) credential (cc_request_timeout (cl_config self)) s1 log)
    as (evs & s' & E & Hp & He).
  assert (sent_count evs <= 1)%nat as Hc by (destruct (url_join _ _); subst; unfold sent_count; simpl; lia).
  destruct (request _ _ _ _ _ _ _) as [[[response|e]| |] st]; simpl in *; try done; subst st; simpl; try (by eauto 10).
  pose proof (decode_answers (A := SessionResponse) response) as Hd. unfold try, answer, mret, C_ret.
  repeat (case_match; simplify_eq/=; try done); eauto 10.
Qed.

(** Failures that leave the outcome open are reported as such. *)
Definition settled (e : ClientError) : Prop := match e with CeTransport _ | CeTimeout => False | _ => True end.
Class Settles {A} (m : C (Net := Net * list Event) A) : Prop :=
  settles : forall s e, (m s).1 = Answered (Err e) -> settled e.

#[global] Instance settles_ambiguous {A} (m : C A) : Settles (map_answer_err ambiguous m).
Proof.
  intros s e. unfold map_answer_err. destruct (m s) as [[[a|e']| |] s']; simpl; try done. intros [= <-]. by destruct e'.
Qed.
Lemma settles_try {A B} (r : Result ClientError A) (k : A -> C B) :
  (forall e, r = Err e -> settled e) -> (forall a, Settles (k a)) -> Settles (try r ≫= k).
Proof. intros Hr Hk s e. destruct r as [a|e']; [apply Hk|]. intros [= <-]. by apply Hr. Qed.
#[global] Instance settles_path {B} squad suffix (k : string -> C B) :
  (forall path, Settles (k path)) -> Settles (try (squad_path squad suffix) ≫= k).
Proof. apply settles_try. unfold squad_path. intros e. destruct (SquadName_new squad); [done|]. by intros [= <-]. Qed.
#[global] Instance settles_checked {A} `{Validate T} (q : T) (k : C A) : Settles k -> Settles (checked_request q k).
Proof. intros Hk. apply settles_try; [|done]. intros e. destruct (validate q); [done|]. by intros [= <-]. Qed.
End Endpoints.

(** ** What a valid client does *)
Lemma Client_new_bounds builds base config self :
  Client_new builds base config = Ok self ->
  cl_config self = config /\ (1 <= rp_max_attempts (cc_retry config) <= 10)%N
  /\ (rp_initial_backoff (cc_retry config) <= rp_max_backoff (cc_retry config))%N.
Proof.
  unfold Client_new. destruct (_ || _) eqn:Eb; [done|]. bool_to_prop. unfold mbind, result_bind.
  intros Hn. repeat split_match_in Hn; simplify_eq/=. rewrite N.ltb_ge in *. rewrite N.eqb_neq in *. split; [done|]. lia.
Qed.

Section Valid.
Context (builds : Result TransportError unit) (base : string) (config : ClientConfig) (self : Client).
Hypothesis self_ok : Client_new builds base config = Ok self.

Lemma some_attempts_ok : (1 <= rp_max_attempts (cc_retry (cl_config self)))%N.
Proof. apply Client_new_bounds in self_ok as (-> & ? & _). lia. Qed.

Lemma course_bounded call left backoff :
  (backoff <= rp_max_backoff (cc_retry config))%N ->
  Forall (fun e => match e with Sent c => c = call | Slept d => (d <= rp_max_backoff (cc_retry config))%N end)
    (course self call left backoff).
Proof.
  apply Client_new_bounds in self_ok as (Ec & _).
  revert backoff. induction left as [|[|left] IH]; intros backoff Hb; [constructor|by repeat constructor|].
  rewrite course_step. constructor; [done|]. constructor; [done|]. apply IH. unfold doubled. rewrite Ec. lia.
Qed.

(** C35: the client's retries.  Whatever the network answers, loses or delays, a call
    returns an answer (the deadline and the limit on concurrency are answers, and the
    code marked unreachable is not reached) after at most as many exchanges as its
    class allows; every exchange carries the same request, so the same idempotency key
    and credential, and the pauses in between double from the initial backoff up to
    the configured maximum. *)
Theorem client_retries_are_bounded `{Deserialize A, ResponseValidate A} method path body credential time class s :
  exists r s' events,
    execute (A := A) self method path body credential time class (s, []) = (Answered r, (s', events))
    /\ (sent_count events <= match class with RetryNever => 1 | _ => N.to_nat (rp_max_attempts (cc_retry config)) end)%nat
    /\ events `prefix_of` course self (the_call self method path body credential time)
         (Z.to_nat (attempts_of self class)) (rp_initial_backoff (cc_retry config))
    /\ Forall (fun e => match e with
         | Sent c => c = the_call self method path body credential time
         | Slept d => (d <= rp_max_backoff (cc_retry config))%N end) events.
Proof.
  pose proof some_attempts_ok as Hs. destruct (Client_new_bounds _ _ _ _ self_ok) as (Ec & Hn & Hi).
  destruct (execute_log (A := A) self method path body credential time class s []) as ([r Er] & evs & s' & E & Hp).
  { destruct class; simpl; lia. }
  destruct (execute _ _ _ _ _ _ _ _) as [a st]. simpl in *. subst a st.
  exists r, s', evs. rewrite Ec in Hp. split; [done|]. split; [|split; [done|]].
  - etrans; [by apply prefix_count|]. etrans; [apply course_count|]. destruct class; simpl; rewrite ?Ec; lia.
  - destruct Hp as [k Hk]. pose proof (course_bounded (the_call self method path body credential time)
      (Z.to_nat (attempts_of self class)) _ Hi) as Hf. rewrite Hk in Hf. by apply Forall_app in Hf as [Hf _].
Qed.

(** Operations without an idempotency key are sent once.  Creating and archiving a
    squad, joining, resuming, leaving and the heartbeat make at most one exchange and
    return; and a join, resume or leave whose answer was lost is reported as an
    unknown outcome, never as a plain failure. *)
Theorem mutations_are_sent_once `{!Deserialize SessionResponse, !Deserialize SquadSummary,
    !Deserialize LeaveSquadResponse, !Deserialize ArchiveSquadResponse, !Deserialize HeartbeatResponse} :
  (forall q, Returns 1 (Client_create_squad self q))
  /\ (forall squad c, Returns 1 (Client_archive_squad self squad c))
  /\ (forall q c, Returns 1 (Client_heartbeat self q c))
  /\ (forall squad q, Returns 1 (Client_join self squad q))
  /\ (forall squad q c, Returns 1 (Client_resume self squad q c))
  /\ (forall squad c, Returns 1 (Client_leave self squad c))
  /\ (forall squad q, Settles (Client_join self squad q))
  /\ (forall squad q c, Settles (Client_resume self squad q c))
  /\ (forall squad c, Settles (Client_leave self squad c)).
Proof.
  pose proof some_attempts_ok as Hs.
  assert (forall `{Deserialize A, ResponseValidate A} method path body credential time,
    Returns 1 (execute (A := A) self method path body credential time RetryNever)) as He
    by (intros; by apply (returns_execute self Hs)).
  pose proof (returns_issued self Hs) as Hi.
  split_and!; intros; apply _.
Qed.
End Valid.
End Logged.

(** ** Decoding *)
Section Decoding.
Context `{HttpHeaders} `{!Deserialize ErrorEnvelope}.

Lemma read_body_Ok chunks bytes text :
  read_body bytes chunks = Answered (Ok text) -> len bytes <= MAX_RESPONSE_BYTES -> len text <= MAX_RESPONSE_BYTES.
Proof.
  revert bytes. induction chunks as [|[s|e|] chunks IH]; intros bytes; simpl; try done; [by intros [= <-]|].
  destruct (_ <? _) eqn:El; [done|]. bool_to_prop. unfold usize_saturating_add in El. intros Hr Hb.
  eapply IH; [done|]. rewrite len_app. unfold usize_max, MAX_RESPONSE_BYTES in *. pose proof (len_nonneg s). lia.
Qed.

Lemma read_body_Err chunks bytes e :
  read_body bytes chunks = Answered (Err e) -> e = CeResponseTooLarge \/ exists e', e = CeTransport e'.
Proof.
  revert bytes. induction chunks as [|[s|e'|] chunks IH]; intros bytes; simpl; try done; [|intros [= <-]; by eauto].
  destruct (_ <? _); [intros [= <-]; by left|apply IH].
Qed.
Lemma decode_Ok `{Deserialize A, ResponseValidate A} response value :
  decode (R := A) response = Answered (Ok value) ->
  rs_status response = 200 /\ is_json (rs_headers response) = true /\ validate_response value = Ok tt
  /\ exists bytes, read_body "" (rs_chunks response) = Answered (Ok bytes) /\ from_slice bytes = Some value.
Proof.
  unfold decode. destruct (_ =? 408); [done|]. destruct (is_json _) eqn:Ej; simpl; [|done].
  destruct (match rs_content_length response with Some _ => _ | None => _ end); [done|].
  destruct (read_body "" _) as [[bytes|e]| |] eqn:Er; try done. unfold decode_bytes, mbind, result_bind.
  destruct (is_success _); [|by repeat case_match].
  destruct (_ =? 200) eqn:E2; simpl; [|done]. bool_to_prop. destruct (from_slice bytes) as [v|] eqn:Ef; simpl; [|done].
  destruct (validate_response v) as [[]|e] eqn:Ev; [|done]. intros [= ->]. by eauto 10.
Qed.

(** Validation has one way to fail. *)
Class Strict (A : Type) `{ResponseValidate A} : Prop :=
  strict : forall (value : A) e, validate_response value = Err e -> e = CeMalformedResponse 200.
Lemma strict_protocol `{Validate A} (value : A) e : protocol_validation value = Err e -> e = CeMalformedResponse 200.
Proof. unfold protocol_validation. destruct (validate value); simpl; [done|]. by intros [= <-]. Qed.
Lemma strict_well_formed b e : well_formed b = Err e -> e = CeMalformedResponse 200.
Proof. destruct b; simpl; [done|]. by intros [= <-]. Qed.
#[global] Instance strict_session : Strict SessionResponse.
Proof. intros value e. apply strict_well_formed. Qed.
#[global] Instance strict_heartbeat : Strict HeartbeatResponse.
Proof. intros value e. apply strict_well_formed. Qed.
#[global] Instance strict_health : Strict HealthResponse.
Proof. intros value e. apply strict_well_formed. Qed.
#[global] Instance strict_send : Strict SendMessageResponse.
Proof. intros value e. apply strict_protocol. Qed.
#[global] Instance strict_inbox : Strict InboxResponse.
Proof. intros value e. apply strict_protocol. Qed.

(** What the client accepts.  A decoded value came with status 200, as JSON of at
    most one mebibyte, and passes the protocol's validation; and an API error was
    declared by the relay in a valid envelope whose code belongs to the status. *)
Theorem decode_accepts_only_valid `{Deserialize A, Strict A} response r :
  decode (R := A) response = Answered r ->
  match r with
  | Ok value => rs_status response = 200 /\ is_json (rs_headers response) = true
      /\ validate_response value = Ok tt
      /\ exists bytes, len bytes <= MAX_RESPONSE_BYTES /\ from_slice bytes = Some value
  | Err (CeApi status code retryable) => status = rs_status response /\ http_status code = status
      /\ is_success status = false
      /\ exists bytes body, len bytes <= MAX_RESPONSE_BYTES /\ from_slice bytes = Some {| ee_error := body |}
         /\ eb_code body = code /\ eb_retryable body = retryable /\ validate body = Ok tt
  | Err _ => True
  end.
Proof.
  intros Hd. destruct r as [value|e].
  { apply decode_Ok in Hd as (Hs & Hj & Hv & bytes & Hb%read_body_Ok & Hf); [|done]. by eauto 10. }
  revert Hd. unfold decode. destruct (_ =? 408); [by intros [= <-]|]. destruct (is_json _); simpl; [|by intros [= <-]].
  destruct (match rs_content_length response with Some _ => _ | None => _ end); [by intros [= <-]|].
  destruct (read_body "" _) as [[bytes|e']| |] eqn:Er; try done; intros [= Hd].
  - apply read_body_Ok in Er; [|done]. unfold decode_bytes, mbind, result_bind in Hd.
    destruct (is_success _) eqn:Es.
    + destruct (_ =? 200); simpl in Hd; [|by simplify_eq]. destruct (from_slice bytes) as [value|]; simpl in Hd; [|by simplify_eq].
      destruct (validate_response value) as [[]|e'] eqn:Ev; [done|]. simplify_eq. by apply strict in Ev as ->.
    + destruct (from_slice bytes) as [[body]|] eqn:Ef; simpl in Hd; [|by simplify_eq].
      destruct (validate body) as [[]|] eqn:Ev; simpl in Hd; [|by simplify_eq].
      destruct (_ =? rs_status response) eqn:Eh; simpl in Hd; [|by simplify_eq].
      bool_to_prop. simplify_eq. by eauto 12.
  - subst e'. by apply read_body_Err in Er as [->|[e' ->]].
Qed.
End Decoding.

(** ** Where an answer comes from

    A preorder on worlds that the operations of the transport respect is respected by a
    call; and a value that a call returns was decoded from the response to one of its
    exchanges. *)
Section Origin.
Context `{Transport Net} `{HttpHeaders} `{UrlCrate} `{!Deserialize ErrorEnvelope} `{Deserialize A, ResponseValidate A}.
Context (self : Client) (method : Method) (path url : string) (body : option Body) (credential : option Credential)
  (time : Duration) (P : relation Net) `{!PreOrder P}.
Let call : Call := call_to method body credential time url.
Hypothesis joined : url_join (cl_base self) path = Some url.
Hypothesis P_acquire : forall s s', try_acquire s = Some s' -> P s s'.
Hypothesis P_release : forall s, P s (release s).
Hypothesis P_sleep : forall d s, P s (sleep d s).2.
Hypothesis P_exchange : forall s, P s (exchange call s).2.

(** The value [r] was read off an exchange between the worlds [s] and [s']. *)
Definition origin (s s' : Net) (r : A) : Prop :=
  exists s1 response, P s s1 /\ (exchange call s1).1 = Some (Ok response)
    /\ decode response = Answered (Ok r) /\ P (exchange call s1).2 s'.

Lemma origin_later s s' s'' r : origin s s' r -> P s' s'' -> origin s s'' r.
Proof. intros (s1 & response & ? & ? & ? & ?) ?. exists s1, response. split_and!; try done. by etrans. Qed.
Lemma origin_earlier s0 s s' r : P s0 s -> origin s s' r -> origin s0 s' r.
Proof. intros ? (s1 & response & ? & ? & ? & ?). exists s1, response. split_and!; try done. by etrans. Qed.

Lemma after_response_Ok status (x : Result ClientError A) n m r :
  after_response status x n m = Return (Ok r) -> x = Ok r.
Proof. unfold after_response. intros Hr. by repeat split_match_in Hr. Qed.
Lemma after_failure_Ok e n m (r : A) : after_failure e n m <> Return (Ok r).
Proof. unfold after_failure. intros Hr. by repeat split_match_in Hr. Qed.

Lemma attempt_once_origin attempt attempts s :
  let run := attempt_once (A := A) (request self method path body credential time) attempt attempts s in
  P s run.2 /\ forall r, run.1 = Answered (Ok (Return (Ok r))) -> origin s run.2 r.
Proof.
  unfold attempt_once, with_permit. destruct (try_acquire s) as [s1|] eqn:Ea; simpl; [|by split].
  apply P_acquire in Ea. unfold request. rewrite joined. pose proof (P_exchange s1) as He. unfold call, call_to in He.
  destruct (exchange _ s1) as [[[response|e]|] s2] eqn:Ee; simpl in *.
  - destruct (decode response) as [x| |] eqn:Ed; simpl; split; try done; try (by etrans; [exact Ea|etrans; [exact He|]]).
    intros r [= Hr%after_response_Ok]. subst x. exists s1, response. unfold call, call_to. rewrite Ee. done.
  - split; [by etrans; [exact Ea|etrans; [exact He|]]|]. intros r [= Hr]. by apply after_failure_Ok in Hr.
  - split; [by etrans; [exact Ea|etrans; [exact He|]]|]. done.
Qed.

Lemma attempt_loop_origin left attempts backoff s :
  let run := attempt_loop (A := A) self (request self method path body credential time) left attempts backoff s in
  P s run.2 /\ forall r, run.1 = Answered (Ok r) -> origin s run.2 r.
Proof.
  revert backoff s. induction left as [|left IH]; intros backoff s; cbn [attempt_loop]; [by split|].
  unfold mbind, C_bind. destruct (attempt_once_origin (attempts - Z.of_nat left) attempts s) as [Hp Ho].
  destruct (attempt_once _ _ _ s) as [[[[x| |]|e]| |] s1]; simpl in *; try by split.
  - split; [done|]. intros r [= ->]. by apply Ho.
  - unfold pause. pose proof (P_sleep backoff s1) as Hs. destruct (sleep backoff s1) as [[] s2]; simpl in *.
    + destruct (IH (doubled self backoff) s2) as [IHp IHo]. unfold doubled in *.
      split; [by etrans; [exact Hp|etrans; [exact Hs|]]|]. intros r Hr.
      eapply origin_earlier; [by etrans; [exact Hp|]|]. by apply IHo.
    + split; [by etrans|done].
Qed.

Lemma execute_origin class s :
  let run := execute (A := A) self method path body credential time class s in
  P s run.2 /\ forall r, run.1 = Answered (Ok r) -> origin s run.2 r.
Proof.
  unfold execute, execute_inner, timeout.
  destruct (attempt_loop_origin (Z.to_nat (attempts_of self class)) (attempts_of self class)
    (rp_initial_backoff (cc_retry (cl_config self))) s) as [Hp Ho].
  by destruct (attempt_loop _ _ _ _ _ s) as [[[r|e]| |] s'].
Qed.
End Origin.

(** ** Examples: a network where every request times out *)
#[local] Instance dead_network : Transport unit := {|
  try_acquire s := Some s; release s := s;
  exchange _ s := (Some (Err {| te_is_timeout := true; te_is_connect := false; te_is_request := false;
                                te_is_body := false; te_is_decode := false |}), s);
  sleep _ s := (true, s) |}.
#[local] Instance plain_urls : UrlCrate := {|
  url_parse s := Some {| url_scheme := "http"; url_host := Some s; url_username := ""; url_password := None;
                         url_port := None; url_query := None; url_fragment := None; url_path := "/" |};
  url_join _ path := Some path; url_as_str u := default "" (url_host u) |}.
#[local] Instance no_envelope : Deserialize ErrorEnvelope := fun _ => None.
#[local] Instance health_json : Deserialize HealthResponse := fun s => Some {| hr_status := s |}.
Definition dead_client : Client :=
  {| cl_base := {| url_scheme := "http"; url_host := Some "relay"; url_username := ""; url_password := None;
                   url_port := None; url_query := None; url_fragment := None; url_path := "/" |};
     cl_config := ClientConfig_default |}.

Example dead_health_events :
  let call := {| call_method := GET; call_url := "healthz"; call_timeout := Duration_from_secs 10; call_body := None;
                 call_credential := None |} in
  (Client_health (Net := unit * list Event) (H2 := logged) dead_client (tt, [])).2
  = (tt, [Sent call; Slept (Duration_from_millis 50); Sent call; Slept (Duration_from_millis 100); Sent call]).
Proof. reflexivity. Qed.

Lemma dead_client_ok : Client_new (Ok tt) "relay" ClientConfig_default = Ok dead_client.
Proof. reflexivity. Qed.

Lemma client_retries_are_bounded_witness :
  exists r s' events, execute (A := HealthResponse) (Net := unit * list Event) (H2 := logged)
      dead_client GET "healthz" None None (Duration_from_secs 10) RetrySafe (tt, []) = (Answered r, (s', events))
    /\ (sent_count events <= 3)%nat.
Proof.
  destruct (client_retries_are_bounded (Ok tt) "relay" ClientConfig_default dead_client dead_client_ok (A := HealthResponse)
    GET "healthz" None None (Duration_from_secs 10) RetrySafe tt) as (r & s' & events & E & Hn & _).
  exists r, s', events. split; [exact E|exact Hn].
Defined.

#[local] Instance no_session : Deserialize SessionResponse := fun _ => None.
#[local] Instance no_squad : Deserialize SquadSummary := fun _ => None.
#[local] Instance no_leave : Deserialize LeaveSquadResponse := fun _ => None.
#[local] Instance no_archive : Deserialize ArchiveSquadResponse := fun _ => None.
#[local] Instance no_heartbeat : Deserialize HeartbeatResponse := fun _ => None.
Lemma mutations_are_sent_once_witness :
  Client_new (Ok tt) "relay" ClientConfig_default = Ok dead_client
  /\ Settles (Net := unit) (Client_leave (H2 := logged) dead_client "demo" {| cd_value := "Bearer x"; cd_instance_id := "ins_1" |}).
Proof.
  split; [reflexivity|].
  apply (mutations_are_sent_once (Ok tt) "relay" ClientConfig_default dead_client dead_client_ok).
Defined.

Definition healthy : HttpResponse :=
  {| rs_status := 200; rs_headers := [(CONTENT_TYPE_HEADER, "application/json; charset=utf-8")];
     rs_content_length := Some 2; rs_chunks := [Data "o"; Data "k"] |}.
Lemma decode_accepts_only_valid_witness :
  decode healthy = Answered (Ok {| hr_status := "ok" |}) /\ rs_status healthy = 200.
Proof.
  assert (decode healthy = Answered (Ok {| hr_status := "ok" |})) as Hd by (vm_compute; reflexivity).
  split; [exact Hd|]. apply (decode_accepts_only_valid healthy _ Hd).
Defined.
