(* ===== verification/Network.v ===== *)
(** * Network: the client and the relay together

    The world behind the client is a relay reached over a network that may lose a
    request, or serve it and lose the answer; between the client's exchanges the
    rest of the world uses the relay.  An idempotency key and the store's index on
    it make the client's retried sends exactly-once from end to end. *)
From Stdlib Require Import Ascii.
From stdpp Require Import countable.
From S2P Require Import Prelude Text Core Base64 Credential Dto Validation Notify Sql Store Repository Instance Message Inbox Authenticated Relay Invariant Effects Events History Commands Fixtures Delivery Queue Sessions Views MessageViews Wire Gateway Client Codec Retries.

Section Network.
Context `{Crypto} `{HttpHeaders} `{TimeCrate} `{Watch} `{Semaphores} `{SerdeJson}.
Context `{!Serialize SendMessageResponse} `{!Serialize ErrorEnvelope}.

(** What becomes of one exchange: the request is lost, or it is served and its answer
    is lost, with an error or without a word before the deadline, or all is well. *)
Inductive Fate : Set := RequestLost (e : option TransportError) | AnswerLost (e : option TransportError) | Delivered.

Record Network : Type := {
  nw_relay : Relay; nw_fates : list ((Relay -> Relay) * Fate); nw_naps : list bool; nw_free : N }.

(** ** The response of the relay: [Json(..)] and [impl IntoResponse for ApiFailure] *)
Definition json_headers : Headers := [(CONTENT_TYPE_HEADER, JSON_CONTENT_TYPE)].
Definition json_response (status : Z) (body : string) : HttpResponse :=
  {| rs_status := status; rs_headers := json_headers; rs_content_length := Some (len body); rs_chunks := [Data body] |}.
Definition answer_of `{Serialize A} (r : Result ApiErrorCode A) : HttpResponse :=
  match r with
  | Ok value => json_response 200 (to_json value)
  | Err code => let '(status, body) := into_response code in json_response status (to_json {| ee_error := body |})
  end.

(** ** One exchange *)
Definition request_headers (c : option Credential) : Headers :=
  (CONTENT_TYPE_HEADER, JSON_CONTENT_TYPE)
  :: match c with Some c => [(AUTHORIZATION_HEADER, cd_value c)] | None => [] end.

(** The relay behind [messages_url]; calls to other places are left open. *)
Context (messages_url : string) (elsewhere : Call -> Network -> option (Result TransportError HttpResponse) * Network).

Definition set_relay (n : Network) (r : Relay) (fates : list ((Relay -> Relay) * Fate)) : Network :=
  {| nw_relay := r; nw_fates := fates; nw_naps := nw_naps n; nw_free := nw_free n |}.

Definition post_message (c : option Credential) (q : SendMessageRequest) (n : Network)
    : option (Result TransportError HttpResponse) * Network :=
  let '(others, fate, rest) :=
    match nw_fates n with [] => (id, Delivered, []) | (others, fate) :: rest => (others, fate, rest) end in
  let r := others (nw_relay n) in
  match fate with
  | RequestLost e => (Err <$> e, set_relay n r rest)
  | AnswerLost e => (Err <$> e, set_relay n (handle_send_message (request_headers c) q r).2 rest)
  | Delivered =>
      let '(result, r') := handle_send_message (request_headers c) q r in
      (Some (Ok (answer_of result)), set_relay n r' rest)
  end.

#[global] Instance network_transport : Transport Network := {|
  try_acquire n := if (nw_free n =? 0)%N then None
    else Some {| nw_relay := nw_relay n; nw_fates := nw_fates n; nw_naps := nw_naps n; nw_free := N.pred (nw_free n) |};
  release n := {| nw_relay := nw_relay n; nw_fates := nw_fates n; nw_naps := nw_naps n; nw_free := N.succ (nw_free n) |};
  exchange call n :=
    match call_method call, call_body call with
    | POST, Some (BSendMessage q) =>
        if bool_decide (call_url call = messages_url) then post_message (call_credential call) q n else elsewhere call n
    | _, _ => elsewhere call n
    end;
  sleep d n :=
    let '(awake, rest) := match nw_naps n with [] => (true, []) | b :: bs => (b, bs) end in
    (awake, {| nw_relay := nw_relay n; nw_fates := nw_fates n; nw_naps := rest; nw_free := nw_free n |}) |}.

Definition net_db (n : Network) : Database := db_of (nw_relay n).

(** The others use the relay through its own operations. *)
Definition civil (n : Network) : Prop :=
  Forall (fun f => forall r, rtc step (db_of r) (db_of (f.1 r))) (nw_fates n).

(** ** What a send by name does to the store *)
Lemma by_name_sent session req db out db' :
  wf db -> runs (authenticated_send_by_name session req) db (Ok out) db' ->
  exists id recipient, runs (authenticate_historical session) db (Ok id) db
    /\ sent (send_from_name req (id_squad id) (id_membership id) recipient (as_now session)) db
         (mv_message (so_message out)) db'.
Proof.
  intros Hwf Hrun. unfold authenticated_send_by_name in Hrun. inv_runs; drop_reads.
  - unfold replay_by_name in Hrun. inv_runs; drop_reads. apply message_view_on_effect in R3 as [_ Hv]. decode.
    bool_to_prop. do 2 eexists. split; [exact R|]. by apply sent_replay.
  - unfold fresh_by_name in Hrun. inv_runs; drop_reads. apply message_view_on_effect in R6 as [_ Hv].
    match goal with Hc : runs (send_in_transaction _) _ _ _ |- _ =>
      apply send_in_transaction_effect in Hc; rename Hc into Hsent end.
    do 2 eexists. split; [exact R|]. simpl. by rewrite Hv.
Qed.

(** A row that the request [q] of the session [c] puts into the store [db]. *)
Record posted (db : Database) (c : SessionCredential) (q : SendMessageRequest) (row : MessageRow) : Prop := {
  po_sender : exists i, i ∈ instances db /\ in_id i = raw (cr_instance_id c) /\ ms_sender row = in_membership_id i;
  po_key : ms_dedupe_key row = Some (smr_dedupe_key q);
  po_body : ms_body row = smr_body q }.

Lemma map_dedupe_row_body req row rec :
  map_dedupe_row req row = Ok rec ->
  raw (sem_body (me_semantics rec)) = ms_body row /\ me_sequence rec = ms_sequence row.
Proof.
  intros Hm. unfold map_dedupe_row, mbind, result_bind in Hm. repeat split_match_in Hm. unfold parse in *. by decode.
Qed.

(** The message of a response, as a stored row. *)
Definition describes (m : MessageDto) (row : MessageRow) : Prop :=
  md_id m = ms_id row /\ raw (md_sequence m) = ms_sequence row /\ md_body m = ms_body row.

Lemma message_dto_describes v dto req row :
  message_dto v = Ok dto -> map_dedupe_row req row = Ok (mv_message v) -> describes dto row.
Proof.
  intros Hd Hm. destruct (map_dedupe_row_fields _ _ _ Hm) as [Ei _]. destruct (map_dedupe_row_body _ _ _ Hm) as [Eb Es].
  unfold message_dto, mbind, result_bind in Hd. repeat split_match_in Hd. unfold describes. simpl. split; [done|]. split; [|done].
  unfold map_err in *. repeat case_match; simplify_eq. rewrite <- Es. unfold MessageSequence_new in *.
  case_match; [done|]. unfold ok_or in *. destruct (check sequence_ok _) eqn:Ec; [|done]. simplify_eq. by apply check_Some in Ec.
Qed.

(** ** What serving a send does *)
Lemma work_send_effect c req r result r' :
  wf (db_of r) -> work_send c req r = (result, r') ->
  match result with
  | Err _ => db_of r' = db_of r
  | Ok out => exists id recipient now, runs (authenticate_historical (session_at c now)) (db_of r) (Ok id) (db_of r)
      /\ sent (send_from_name req (id_squad id) (id_membership id) recipient now) (db_of r)
           (mv_message (so_message out)) (db_of r')
  end.
Proof.
  intros Hwf Hw. destruct result as [out|e].
  - apply work_send_runs in Hw. destruct (by_name_sent _ _ _ _ _ Hwf Hw) as (id & rc & Ha & Hs). by eauto 10.
  - unfold work_send, at_now, on_store in Hw. simpl in Hw.
    destruct (authenticated_send_by_name _ _ (rl_world r)) as [[o|e'] w'] eqn:E; [done|]. injection Hw as <- <-.
    eapply (failed_unchanged (CAuthSendByName (session_at c (rl_clock r (rl_tick r))) req)); [done|].
    exists (rl_world r), w'. split; [done|]. split; [|done]. simpl. unfold ignore, mbind, M_bind. by rewrite E.
Qed.

Lemma sent_posted c now id recipient req q db rec db' :
  wf db -> runs (authenticate_historical (session_at c now)) db (Ok id) db ->
  sent (send_from_name req (id_squad id) (id_membership id) recipient now) db rec db' ->
  raw (sn_dedupe_key req) = smr_dedupe_key q -> raw (sn_body req) = smr_body q ->
  exists row, row ∈ messages db' /\ posted db c q row
    /\ map_dedupe_row (send_from_name req (id_squad id) (id_membership id) recipient now) row = Ok rec
    /\ (messages db' = messages db \/ messages db' = messages db ++ [row]).
Proof.
  intros Hwf Ha Hs Ek Eb. apply authenticate_historical_effect in Ha as (i & m & Hi & _ & Em & _).
  apply elem_of_session_rows in Hi as (Hi & Ei & _ & Emi).
  pose proof Hs as (Esem & row & Hrow & Hkey & Hmap)%sent_row; [|done].
  destruct (map_dedupe_row_body _ _ _ Hmap) as [Ebody _]. injection Hkey as Hsq Hse Hdk.
  exists row. split; [done|]. split; [constructor|split; [done|]].
  - exists i. split; [done|]. split; [done|]. rewrite Hse. simpl. congruence.
  - rewrite Hdk. simpl. by rewrite Ek.
  - rewrite <- Ebody, Esem. done.
  - inversion Hs as [|db1 n _ _ Hins ->]; subst; [by left|right].
    eapply wf_insert_message in Hins as (Hwf' & _ & ->); [|done|by eapply new_message_row_ok]. simpl. do 2 f_equal.
    eapply (NoDup_key_eq Invariant.dedupe_key); [apply (wf_dedupe _ Hwf')| |done|].
    + simpl. apply elem_of_app. right. by apply list_elem_of_singleton.
    + unfold Invariant.dedupe_key. simpl. by rewrite Hsq, Hse, Hdk.
Qed.

(** Either nothing is stored, or what the request asks for. *)
Definition stores (db : Database) (c : SessionCredential) (q : SendMessageRequest) (db' : Database) : Prop :=
  db' = db \/ exists row, row ∈ messages db' /\ posted db c q row
    /\ (messages db' = messages db \/ messages db' = messages db ++ [row]).

Lemma dispatch_cases {A} (job : Job A) r result r' :
  dispatch job r = (result, r') ->
  exists ds, ((exists e, result = Err e) /\ r' = with_deliveries r ds)
    \/ exists x, job (with_deliveries r ds) = (x, r') /\ forall a, result = Ok a -> x = Ok a.
Proof.
  unfold dispatch. set (p := match rl_deliveries r with [] => _ | _ => _ end). destruct p as [d ds].
  fold (with_deliveries r ds). intros Hd. exists ds.
  destruct d; try destruct ran; try (injection Hd as <- <-; by eauto).
  - right. destruct (job _) as [[a|e] r1]; injection Hd as <- <-; eexists; (split; [done|]); by intros ? [= ->].
  - right. injection Hd as <- <-. destruct (job _) as [x r1]. exists x. done.
Qed.

Lemma dispatch_send_effect c req q r result r' :
  wf (db_of r) -> raw (sn_dedupe_key req) = smr_dedupe_key q -> raw (sn_body req) = smr_body q ->
  dispatch (work_send c req) r = (result, r') ->
  stores (db_of r) c q (db_of r')
  /\ forall out, result = Ok out -> exists row req', row ∈ messages (db_of r') /\ posted (db_of r) c q row
       /\ map_dedupe_row req' row = Ok (mv_message (so_message out)).
Proof.
  intros Hwf Ek Eb (ds & [[(e & ->) ->]|(x & Hx & Hr)])%dispatch_cases; [by split; [left|]|].
  pose proof (work_send_effect c req (with_deliveries r ds) x r' Hwf Hx) as He.
  change (db_of (with_deliveries r ds)) with (db_of r) in He.
  destruct x as [out|e]; [|split; [by left|]; intros out ->; by specialize (Hr _ eq_refl)].
  destruct He as (id & rc & now & Ha & Hs). destruct (sent_posted _ _ _ _ _ q _ _ _ Hwf Ha Hs Ek Eb) as (row & ? & ? & ? & ?).
  split; [right; by eauto|]. intros out' ->. specialize (Hr _ eq_refl) as [= ->]. eauto.
Qed.

Lemma identifier_db {T} p (make : string -> Result InvalidValue T) r : db_of (identifier p make r).2 = db_of r.
Proof. unfold identifier. by destruct (rl_random r) as [|[x|] xs]. Qed.

(** Serving a send: what it may store, and what its answer says. *)
Lemma handle_send_effect headers q r result r' :
  wf (db_of r) -> handle_send_message headers q r = (result, r') ->
  db_of r' = db_of r /\ (forall response, result <> Ok response)
  \/ exists c, Relay.credential headers = Ok c /\ stores (db_of r) c q (db_of r')
     /\ forall response, result = Ok response ->
        exists row, row ∈ messages (db_of r') /\ posted (db_of r) c q row /\ describes (smp_message response) row.
Proof.
  intros Hwf. unfold handle_send_message. destruct (_ <? _); [by intros [= <- <-]; left|].
  unfold validated, pure, mbind, R_bind. cbn [mbind].
  destruct (map_err _ (validate q)); [|by intros [= <- <-]; left].
  destruct (Relay.credential headers) as [c|] eqn:Ec; [|by intros [= <- <-]; left].
  pose proof (identifier_db "msg" MessageId_new r) as Ei.
  destruct (identifier _ _ r) as [[id|] r0]; simpl in Ei; [|by intros [= <- <-]; left].
  destruct (parsed (MemberName_new _)); [|by intros [= <- <-]; left].
  destruct (map_err _ (opt_try MembershipId_new _)); [|by intros [= <- <-]; left].
  unfold parsed. destruct (MessageBody_new (smr_body q)) as [body|] eqn:Eb; simpl; [|by intros [= <- <-]; left].
  destruct (DedupeKey_new (smr_dedupe_key q)) as [key|] eqn:Ek; simpl; [|by intros [= <- <-]; left].
  destruct (map_err _ (opt_try MessageId_new _)); [|by intros [= <- <-]; left].
  destruct (map_err _ (opt_try CorrelationId_new _)); [|by intros [= <- <-]; left].
  destruct (dispatch _ r0) as [x r1] eqn:Ed. rewrite <- Ei in Hwf |- *.
  destruct (dispatch_send_effect _ _ q _ _ _ Hwf (proj1 (new_iff _ _) Ek) (proj1 (new_iff _ _) Eb) Ed) as [Hst Hok].
  intros Hrest. right. exists c. split; [done|]. destruct x as [out|e]; [|injection Hrest as <- <-; by split].
  destruct (message_dto (so_message out)) as [dto|] eqn:Em; injection Hrest as <- <-; (split; [done|]); [|done].
  intros response [= <-]. destruct (Hok _ eq_refl) as (row & req' & Hrow & Hp & Hmap). exists row. split; [done|].
  split; [done|]. simpl. by eapply message_dto_describes.
Qed.

(** ** Runs of the client *)
Lemma posted_later db db' c q row : evolves db db' -> posted db c q row -> posted db' c q row.
Proof.
  intros He [(i & Hi & Ei & Es) Hk Hb]. constructor; [|done|done].
  destruct (grows_elem _ _ _ i (evolves_instances _ _ He) Hi) as (i' & Hi' & Hle). exists i'. split; [done|].
  rewrite (ile_id _ _ Hle), (ile_membership _ _ Hle). done.
Qed.

(** A sender belongs to one squad, so its keys are unique. *)
Lemma sender_key_unique db row row' :
  wf db -> row ∈ messages db -> row' ∈ messages db -> ms_sender row' = ms_sender row ->
  ms_dedupe_key row' = ms_dedupe_key row -> row' = row.
Proof.
  intros Hwf Hr Hr' Es Ek. eapply (NoDup_key_eq Invariant.dedupe_key); [apply (wf_dedupe _ Hwf)|done|done|].
  unfold Invariant.dedupe_key. rewrite Es, Ek. do 2 f_equal.
  pose proof (wf_fk_sender _ Hwf) as Hf. rewrite Forall_forall in Hf.
  pose proof (Hf _ Hr) as (m & [= E1 E2] & Hm)%list_elem_of_fmap. pose proof (Hf _ Hr') as (m' & [= E1' E2'] & Hm')%list_elem_of_fmap.
  rewrite E2, E2'. f_equal. eapply (NoDup_key_eq mb_id); [apply (wf_membership_ids _ Hwf)|done|done|congruence].
Qed.

Lemma posted_unique db c q row row' :
  wf db -> posted db c q row -> posted db c q row' -> row ∈ messages db -> row' ∈ messages db -> row' = row.
Proof.
  intros Hwf [(i & Hi & Ei & Es) Hk _] [(i' & Hi' & Ei' & Es') Hk' _] Hr Hr'.
  assert (i' = i) as -> by (eapply (NoDup_key_eq in_id); [apply (wf_instance_ids _ Hwf)|done|done|congruence]).
  eapply sender_key_unique; try done; congruence.
Qed.

Lemma handle_send_steps headers q r : rtc step (db_of r) (db_of (handle_send_message headers q r).2).
Proof.
  pose proof (stepping_serve (RqSendMessage headers q) I r) as Hs. simpl in Hs. unfold discard, mbind, R_bind in Hs.
  by destruct (handle_send_message headers q r) as [[a|e] r'].
Qed.

(** The network stays civil and its store moves by the relay's operations. *)
Definition onward (n n' : Network) : Prop := civil n -> civil n' /\ rtc step (net_db n) (net_db n').
#[local] Instance onward_preorder : PreOrder onward.
Proof.
  split; [intros n Hc; by split; [|apply rtc_refl]|]. intros n1 n2 n3 H12 H23 Hc. destruct (H12 Hc) as [Hc2 Hs]. destruct (H23 Hc2) as [Hc3 Hs'].
  split; [done|]. by etrans.
Qed.

Lemma post_message_onward c q n : onward n (post_message c q n).2.
Proof.
  intros Hc. unfold post_message, civil in *.
  assert (exists others fate rest, match nw_fates n with [] => (id, Delivered, []) | (others, fate) :: rest => (others, fate, rest) end
    = (others, fate, rest) /\ (forall r, rtc step (db_of r) (db_of (others r)))
    /\ Forall (fun f => forall r, rtc step (db_of r) (db_of (f.1 r))) rest) as (others & fate & rest & -> & Ho & Hr).
  { destruct Hc as [|[others fate] rest Ho Hr]; [by exists id, Delivered, []|by exists others, fate, rest]. }
  destruct fate; simpl; [split; [done|apply Ho]| |].
  - split; [done|]. etrans; [apply Ho|apply handle_send_steps].
  - pose proof (handle_send_steps (request_headers c) q (others (nw_relay n))) as Hs.
    destruct (handle_send_message _ _ _) as [x r']. simpl. split; [done|]. etrans; [apply Ho|exact Hs].
Qed.

Context `{!Deserialize ErrorEnvelope, !Deserialize SendMessageResponse, !SerdeLaws SendMessageResponse} `{UrlCrate}.

(** An answer that decodes to a value is the relay's answer. *)
Lemma answer_of_Ok (x : Result ApiErrorCode SendMessageResponse) value :
  decode (answer_of x) = Answered (Ok value) -> x = Ok value.
Proof.
  intros (Hs & _ & _ & bytes & Hb & Hf)%decode_Ok. destruct x as [v|code].
  - cbn [answer_of json_response rs_chunks read_body] in Hb. destruct (_ <? _); [done|]. injection Hb as <-.
    change ("" +:+ to_json v) with (to_json v) in Hf. rewrite serde_roundtrip in Hf. congruence.
  - by destruct code.
Qed.

Lemma post_message_answer c q n response value :
  civil n -> (post_message c q n).1 = Some (Ok response) -> decode response = Answered (Ok value) ->
  exists r r', rtc step (net_db n) (db_of r) /\ handle_send_message (request_headers c) q r = (Ok value, r')
    /\ net_db (post_message c q n).2 = db_of r'.
Proof.
  intros Hc He Hd. unfold post_message, civil in *.
  assert (exists others fate rest, match nw_fates n with [] => (id, Delivered, []) | (others, fate) :: rest => (others, fate, rest) end
    = (others, fate, rest) /\ (forall r, rtc step (db_of r) (db_of (others r)))) as (others & fate & rest & E & Ho).
  { destruct Hc as [|[others fate] rest Ho Hr]; [by exists id, Delivered, []|by exists others, fate, rest]. }
  rewrite E in He |- *. destruct fate as [[]|[]|]; try done.
  destruct (handle_send_message _ _ _) as [x r'] eqn:Eh. simpl in *. injection He as <-. apply answer_of_Ok in Hd as ->.
  exists (others (nw_relay n)), r'. split; [apply Ho|]. done.
Qed.

Lemma row_later db db' row :
  evolves db db' -> row ∈ messages db ->
  exists row', row' ∈ messages db' /\ (forall c q, posted db c q row -> posted db' c q row')
    /\ (forall m, describes m row -> describes m row').
Proof.
  intros He Hr. destruct (grows_elem _ _ _ row (evolves_messages _ _ He) Hr) as (row' & Hr' & Hle). exists row'.
  split; [done|]. split.
  - intros c q Hp%(posted_later _ _ _ _ _ He). destruct Hle as [->|[_ [t ->]]]; [done|]. destruct Hp. by constructor.
  - intros m. by destruct Hle as [->|[_ [t ->]]].
Qed.

(** A run of the client's send against the network, for any preorder that pausing and
    permits respect. *)
Lemma send_run (P : relation Network) `{!PreOrder P} self q cd n :
  url_join (cl_base self) "v1/messages" = Some messages_url ->
  (forall m m', nw_relay m' = nw_relay m -> nw_fates m' = nw_fates m -> P m m') ->
  (forall m, P m (post_message (Some cd) q m).2) ->
  let run := Client_send_with_request self q cd n in
  P n run.2 /\ forall r, run.1 = Answered (Ok r) ->
    exists m response, P n m /\ (post_message (Some cd) q m).1 = Some (Ok response)
      /\ decode response = Answered (Ok r) /\ P (post_message (Some cd) q m).2 run.2.
Proof.
  intros Hj Hsame Hpost. unfold Client_send_with_request, checked_request, try, answer, mbind, C_bind.
  destruct (map_err _ (validate q)); [|by split].
  destruct (execute_origin (A := SendMessageResponse) self POST "v1/messages" messages_url (Some (BSendMessage q)) (Some cd)
    (request_timeout self) P Hj) with (class := RetryDeduplicated) (s := n) as [Hp Ho].
  - intros m m'. simpl. destruct (_ =? _)%N; [done|]. intros [= <-]. by apply Hsame.
  - intros m. by apply Hsame.
  - intros d m. simpl. destruct (nw_naps m); by apply Hsame.
  - intros m. simpl. rewrite bool_decide_eq_true_2 by done. apply Hpost.
  - split; [done|]. intros r (m & response & ? & He & ? & ?)%Ho. exists m, response.
    simpl in *. rewrite bool_decide_eq_true_2 in * by done. done.
Qed.

Lemma onward_same m m' : nw_relay m' = nw_relay m -> nw_fates m' = nw_fates m -> onward m m'.
Proof. intros Hr Hf Hc. unfold civil, net_db in *. rewrite Hr, Hf. by split; [|apply rtc_refl]. Qed.

(** C6: a retried send is exactly-once from end to end.  When the client's send
    returns a message, after however many attempts, lost requests and lost answers, and
    whatever others did to the relay in between, the relay's store holds that message:
    sent by the session's member, under the client's key, with its body; and no other
    message of that sender has the key. *)
Theorem client_send_is_exactly_once self q cd n response n' :
  url_join (cl_base self) "v1/messages" = Some messages_url -> civil n -> reachable (net_db n) ->
  Client_send_with_request self q cd n = (Answered (Ok response), n') ->
  exists c row, Relay.credential (request_headers (Some cd)) = Ok c
    /\ row ∈ messages (net_db n') /\ posted (net_db n') c q row /\ describes (smp_message response) row
    /\ forall row', row' ∈ messages (net_db n') -> ms_sender row' = ms_sender row ->
         ms_dedupe_key row' = Some (smr_dedupe_key q) -> row' = row.
Proof.
  intros Hj Hc Hr Hrun.
  destruct (send_run onward self q cd n Hj onward_same (fun m => post_message_onward _ _ _)) as [Hon Ho].
  rewrite Hrun in Hon, Ho. simpl in *.
  destruct (Ho _ eq_refl) as (m & http & Hnm & He & Hd & Hm). destruct (Hnm Hc) as [Hcm Hsm].
  destruct (post_message_answer _ _ _ _ _ Hcm He Hd) as (r & r' & Hs & Hh & Edb).
  assert (reachable (db_of r)) as Hrr by (eapply reachable_steps; [exact Hr|]; by etrans).
  destruct (post_message_onward (Some cd) q m Hcm) as [Hcp Hsp]. destruct (Hm Hcp) as [_ Hend]. rewrite Edb in Hend.
  assert (reachable (db_of r')) as Hrr' by (eapply reachable_steps; [exact Hrr|]; pose proof (handle_send_steps (request_headers (Some cd)) q r) as X; by rewrite Hh in X).
  destruct (handle_send_effect _ _ _ _ _ (reachable_wf _ Hrr) Hh) as [[_ Hno]|(c & Hcr & _ & Hok)]; [by destruct (Hno response)|].
  destruct (Hok _ eq_refl) as (row & Hrow & Hp & Hdesc).
  destruct (row_later _ _ _ (steps_evolve _ _ Hrr' Hend) Hrow) as (row' & Hrow' & Hp' & Hdesc').
  assert (evolves (db_of r) (db_of r')) as Hev.
  { apply steps_evolve; [done|]. pose proof (handle_send_steps (request_headers (Some cd)) q r) as X. by rewrite Hh in X. }
  exists c, row'. split; [done|]. split; [done|]. split; [by apply Hp', (posted_later _ _ _ _ _ Hev)|]. split; [by apply Hdesc'|].
  intros row2 Hr2 Es Ek. pose proof (Hp' _ _ (posted_later _ _ _ _ _ Hev Hp)) as [_ Hk _].
  eapply sender_key_unique; try done; [by eapply reachable_wf, reachable_steps|congruence].
Qed.

(** Nobody else uses the relay. *)
Definition alone (n : Network) : Prop := Forall (fun f => forall r, f.1 r = r) (nw_fates n).
Lemma alone_civil n : alone n -> civil n.
Proof. intros Ha. eapply Forall_impl; [exact Ha|]. intros f Hf r. rewrite Hf. apply rtc_refl. Qed.

Definition adds (cd : Credential) (q : SendMessageRequest) (n n' : Network) : Prop :=
  alone n -> reachable (net_db n) ->
  alone n' /\ rtc step (net_db n) (net_db n')
  /\ exists new, messages (net_db n') = messages (net_db n) ++ new
     /\ Forall (fun row => exists c, Relay.credential (request_headers (Some cd)) = Ok c /\ posted (net_db n') c q row) new.

#[local] Instance adds_preorder cd q : PreOrder (adds cd q).
Proof.
  split.
  - intros n Ha Hr. split; [done|]. split; [apply rtc_refl|]. exists []. by rewrite app_nil_r.
  - intros n1 n2 n3 H12 H23 Ha Hr. destruct (H12 Ha Hr) as (Ha2 & Hs & new & E & Hn).
    assert (reachable (net_db n2)) as Hr2 by (by eapply reachable_steps).
    destruct (H23 Ha2 Hr2) as (Ha3 & Hs' & new' & E' & Hn'). split; [done|]. split; [by etrans|].
    exists (new ++ new'). rewrite E', E. split; [by rewrite app_assoc|]. apply Forall_app. split; [|done].
    eapply Forall_impl; [exact Hn|]. intros row (c & Hc & Hp). exists c. split; [done|].
    eapply posted_later; [|exact Hp]. by apply steps_evolve.
Qed.

Lemma adds_same cd q m m' : nw_relay m' = nw_relay m -> nw_fates m' = nw_fates m -> adds cd q m m'.
Proof.
  intros Er Ef Ha Hr. unfold alone, net_db in *. rewrite Er, Ef. split; [done|]. split; [apply rtc_refl|].
  exists []. by rewrite app_nil_r.
Qed.

Lemma post_message_adds cd q n : adds cd q n (post_message (Some cd) q n).2.
Proof.
  intros Ha Hr. destruct (post_message_onward (Some cd) q n (alone_civil _ Ha)) as [_ Hs].
  split; [|split; [done|]].
  - unfold alone, post_message in *. destruct Ha as [|[others fate] rest Ho Ha]; simpl; [by destruct (handle_send_message _ _ _)|].
    destruct fate; simpl; try done. by destruct (handle_send_message _ _ _).
  - assert (exists r, db_of r = net_db n /\ (net_db (post_message (Some cd) q n).2 = net_db n
      \/ net_db (post_message (Some cd) q n).2 = db_of (handle_send_message (request_headers (Some cd)) q r).2)) as (r & Er & Hd).
    { unfold post_message, alone in *. destruct Ha as [|[others fate] rest Ho Ha]; simpl.
      - exists (nw_relay n). split; [done|]. right. by destruct (handle_send_message _ _ _).
      - exists (nw_relay n). split; [done|]. simpl in Ho. destruct fate; simpl; rewrite ?Ho; [by left|by right|right].
        by destruct (handle_send_message (request_headers (Some cd)) q (nw_relay n)). }
    destruct Hd as [->|Hd]; [exists []; by rewrite app_nil_r|].
    destruct (handle_send_message _ q r) as [x r'] eqn:Eh. simpl in Hd. rewrite Hd in Hs |- *.
    assert (wf (db_of r)) as Hwf by (rewrite Er; by apply reachable_wf).
    pose proof (steps_evolve _ _ Hr Hs) as Hev. rewrite <- Er in Hev |- *.
    destruct (handle_send_effect _ _ _ _ _ Hwf Eh) as [[-> _]|(c & Hc & [-> |(row & _ & Hp & [-> | ->])] & _)];
      try (exists []; by rewrite app_nil_r).
    exists [row]. split; [done|]. constructor; [|done]. exists c. split; [done|]. by eapply posted_later.
Qed.

(** A send stores at most one message.  However the client's attempts end, with an
    answer, an error or the deadline, and however often its request was served, the
    messages of a relay nobody else uses are the old ones and at most one new one. *)
Theorem client_send_stores_at_most_once self q cd n :
  url_join (cl_base self) "v1/messages" = Some messages_url -> alone n -> reachable (net_db n) ->
  exists new, messages (net_db (Client_send_with_request self q cd n).2) = messages (net_db n) ++ new
    /\ (length new <= 1)%nat.
Proof.
  intros Hj Ha Hr.
  destruct (send_run (adds cd q) self q cd n Hj (adds_same cd q) (post_message_adds cd q)) as [Hp _].
  destruct (Hp Ha Hr) as (_ & Hs & new & E & Hn). exists new. split; [done|].
  pose proof (reachable_wf _ (reachable_steps _ _ Hr Hs)) as Hwf.
  destruct new as [|row [|row' new]]; simpl; [lia|lia|exfalso].
  apply Forall_cons in Hn as [(c & Hc & Hp1) [(c' & Hc' & Hp2) _]%Forall_cons]. rewrite Hc in Hc'. injection Hc' as <-.
  assert (row' = row) as ->.
  { eapply posted_unique; try done; rewrite E; apply elem_of_app; right; [left|right; left]. }
  pose proof (wf_message_ids _ Hwf) as Hnd. rewrite E, map_app in Hnd. apply NoDup_app in Hnd as (_ & _ & Hnd).
  apply NoDup_cons in Hnd as [Hnd _]. apply Hnd. left.
Qed.
End Network.

(** ** Examples *)
#[local] Instance sequence_countable : Countable MessageSequence := inj_countable raw (check sequence_ok) (check_raw _).
#[local] Instance priority_eq_dec : EqDecision MessagePriorityDto.
Proof. solve_decision. Defined.
#[local] Instance priority_countable : Countable MessagePriorityDto.
Proof.
  refine (inj_countable' (fun p => match p with NormalDto => false | HighDto => true end)
    (fun b : bool => if b then HighDto else NormalDto) _). by intros [].
Defined.
#[local] Instance message_eq_dec : EqDecision MessageDto.
Proof. solve_decision. Defined.
#[local] Instance message_countable : Countable MessageDto.
Proof.
  refine (inj_countable' (fun m => (md_sequence m, md_id m, md_squad m, md_sender m, md_recipient m, md_body m,
      md_priority m, md_reply_to m, md_correlation_id m, md_created_at m, md_acknowledged_at m))
    (fun '(s, i, q, f, t, b, p, r, c, w, a) => {| md_sequence := s; md_id := i; md_squad := q; md_sender := f;
      md_recipient := t; md_body := b; md_priority := p; md_reply_to := r; md_correlation_id := c;
      md_created_at := w; md_acknowledged_at := a |}) _).
  by intros [].
Defined.
#[local] Instance sent_eq_dec : EqDecision SendMessageResponse.
Proof. solve_decision. Defined.
#[local] Instance sent_countable : Countable SendMessageResponse.
Proof.
  refine (inj_countable' (fun r => (smp_message r, smp_idempotent_replay r))
    (fun '(m, b) => {| smp_message := m; smp_idempotent_replay := b |}) _). by intros [].
Defined.

#[local] Existing Instances countable_serialize countable_deserialize countable_laws.
#[local] Instance page_json : SerdeJson := {| to_vec _ := Some "{}" |}.
#[local] Instance error_serialize : Serialize ErrorEnvelope := fun _ => "{}".
#[local] Instance error_deserialize : Deserialize ErrorEnvelope := fun _ => None.
#[local] Instance example_urls : UrlCrate :=
  {| url_parse s := Some {| url_scheme := "http"; url_host := Some s; url_username := ""; url_password := None;
                            url_port := None; url_query := None; url_fragment := None; url_path := "/" |};
     url_join u path := Some ("http://" +:+ default "" (url_host u) +:+ "/" +:+ path);
     url_as_str u := "http://" +:+ default "" (url_host u) +:+ url_path u |}.

Definition demo_client : Client :=
  {| cl_base := {| url_scheme := "http"; url_host := Some "relay"; url_username := ""; url_password := None;
                   url_port := None; url_query := None; url_fragment := None; url_path := "/" |};
     cl_config := ClientConfig_default |}.
Definition broken : TransportError :=
  {| te_is_timeout := true; te_is_connect := false; te_is_request := false; te_is_body := false; te_is_decode := false |}.

(** The first request is served and its answer lost; the second arrives; a third would too. *)
Definition shaky : Network :=
  {| nw_relay := demo_relay []; nw_fates := [(id, AnswerLost (Some broken)); (id, Delivered)]; nw_naps := []; nw_free := 32 |}.
Definition nowhere (c : Call) (n : Network) : option (Result TransportError HttpResponse) * Network := (None, n).
#[local] Instance shaky_transport : Transport Network := network_transport "http://relay/v1/messages" nowhere.
Definition alice_authority : Client.Credential :=
  {| cd_value := BEARER_PREFIX +:+ encoded alice_credential; cd_instance_id := raw alice_instance |}.
Abbreviation shaky_run := (Client_send_with_request demo_client hello_request alice_authority shaky).

Lemma shaky_run_ok :
  match shaky_run with
  | (Answered (Ok response), n') => smp_idempotent_replay response = true /\ length (messages (net_db n')) = 1%nat
  | _ => False
  end.
Proof. vm_compute. done. Qed.

Lemma client_send_is_exactly_once_witness :
  exists response n' row, shaky_run = (Answered (Ok response), n') /\ smp_idempotent_replay response = true
    /\ row ∈ messages (net_db n') /\ describes (smp_message response) row.
Proof.
  pose proof shaky_run_ok as Hs. destruct shaky_run as [[[response|e]| |] n'] eqn:E in Hs; try (destruct Hs; fail).
  destruct (client_send_is_exactly_once "http://relay/v1/messages" nowhere demo_client hello_request alice_authority
    shaky response n') as (c & row & _ & Hrow & _ & Hd & _).
  - reflexivity.
  - repeat constructor; intros r; apply rtc_refl.
  - apply joined_reachable.
  - exact E.
  - exists response, n', row. destruct Hs as [Hs _]. split; [exact E|split; [exact Hs|split; [exact Hrow|exact Hd]]].
Defined.

Lemma client_send_stores_at_most_once_witness :
  exists new, messages (net_db shaky_run.2) = messages (net_db shaky) ++ new /\ (length new <= 1)%nat.
Proof.
  apply (client_send_stores_at_most_once "http://relay/v1/messages" nowhere demo_client hello_request alice_authority shaky).
  - reflexivity.
  - repeat constructor.
  - apply joined_reachable.
Defined.
