(* ===== verification/Files.v ===== *)
(** * Files: the file system the client-side stores write to

    The stores of psst-application and psst-client talk to a Unix file system through
    std::fs and rustix.  A world is what the process sees, together with what a loss of
    power could still bring back: the earlier entries of names whose directory was not
    synced since, and the arbitrary contents of files that were not synced.  Any call can
    fail or never return; a script decides. *)
From stdpp Require Import gmap.
From Stdlib Require Import Ascii.
From S2P Require Import Prelude Text.

(** ** Errors *)

(** [std::io::ErrorKind], the kinds the application makes or looks at. *)
Inductive ErrorKind : Set :=
| KindNotFound | KindPermissionDenied | KindAlreadyExists | KindWouldBlock | KindAddrInUse | KindAddrNotAvailable | KindTimedOut
| KindInvalidInput | KindInvalidData | KindOther.
#[global] Instance ErrorKind_eq_dec : EqDecision ErrorKind.
Proof. solve_decision. Defined.
(** An [io::Error]: its kind and its message. *)
Record IoError : Set := { io_kind : ErrorKind; io_message : string }.
Definition io_error (kind : ErrorKind) (message : string) : IoError := {| io_kind := kind; io_message := message |}.

(** Errors of the system calls that follow from the state of the file system, and those
    that can strike any call. *)
Definition ENOENT : IoError := io_error KindNotFound "No such file or directory".
Definition EEXIST : IoError := io_error KindAlreadyExists "File exists".
Definition ENOTDIR : IoError := io_error KindOther "Not a directory".
Definition EISDIR : IoError := io_error KindOther "Is a directory".
Definition ELOOP : IoError := io_error KindOther "Too many levels of symbolic links".
Inductive Fault : Set := EIO | ENOSPC | EACCES.
Definition fault_error (f : Fault) : IoError :=
  match f with
  | EIO => io_error KindOther "Input/output error"
  | ENOSPC => io_error KindOther "No space left on device"
  | EACCES => io_error KindPermissionDenied "Permission denied"
  end.

(** ** Paths: the components of an absolute path *)
Abbreviation Path := (list string).
Definition path_parent (p : Path) : option Path := match rev p with [] => None | _ :: r => Some (rev r) end.
Definition path_file_name (p : Path) : option string := last p.
(** [Path::file_stem]: up to the last dot, unless the only dot comes first. *)
Definition file_stem_of (name : string) : string :=
  match rev (split_on "."%char name) with
  | _ :: ((_ :: _) as front) =>
      let stem := String.concat "." (rev front) in if is_empty stem then name else stem
  | _ => name
  end.
Definition path_file_stem (p : Path) : option string := file_stem_of <$> path_file_name p.
Definition path_join (p : Path) (name : string) : Path := p ++ [name].
Definition with_file_name (p : Path) (name : string) : Path :=
  match path_parent p with Some d => path_join d name | None => [name] end.

(** ** The file system *)
Inductive Node : Set :=
| File (mode : Z) (bytes : string) (synced : bool)
| Directory (uid mode : Z)
| Symlink (target : Path).

(** What the next call does: its work, nothing but an error, or the process dies in it; a write
    cut short has written [written] bytes. *)
Inductive Event : Set := Works | Fails (f : Fault) (written : nat) | Crashes (written : nat).

Record World : Set := {
  w_nodes : gmap Path Node;
  (** The entries a name had since its directory was last synced. *)
  w_earlier : gmap Path (list (option Node));
  w_script : list Event;
  (** What /dev/urandom gives, read by read. *)
  w_entropy : list string }.

(** The user the process runs as and its file creation mask. *)
Class Os := { effective_uid : Z; umask : Z }.

Definition set_node (w : World) (p : Path) (n : option Node) : World :=
  {| w_nodes := partial_alter (fun _ => n) p (w_nodes w);
     w_earlier := <[p := (w_nodes w !! p) :: default [] (w_earlier w !! p)]> (w_earlier w);
     w_script := w_script w; w_entropy := w_entropy w |}.
(** Writing to or syncing a file changes no directory entry. *)
Definition set_file (w : World) (p : Path) (n : Node) : World :=
  {| w_nodes := <[p := n]> (w_nodes w); w_earlier := w_earlier w; w_script := w_script w; w_entropy := w_entropy w |}.
Definition set_script (w : World) (script : list Event) : World :=
  {| w_nodes := w_nodes w; w_earlier := w_earlier w; w_script := script; w_entropy := w_entropy w |}.

(** ** Programs on the file system *)
Inductive Exit (A : Type) : Type := Done (r : Result IoError A) | Crashed.
Arguments Done {A} r.
Arguments Crashed {A}.

Definition IO (A : Type) : Type := World -> Exit A * World.
#[global] Instance IO_ret : MRet IO := fun A a w => (Done (Ok a), w).
#[global] Instance IO_bind : MBind IO := fun A B k m w =>
  match m w with
  | (Done (Ok a), w') => k a w'
  | (Done (Err e), w') => (Done (Err e), w')
  | (Crashed, w') => (Crashed, w')
  end.
Definition io {A} (r : Result IoError A) : IO A := fun w => (Done r, w).
Definition raise {A} (e : IoError) : IO A := io (Err e).
(** The result of a call as a value, for [match]. *)
Definition attempt {A} (m : IO A) : IO (Result IoError A) := fun w =>
  match m w with (Done r, w') => (Done (Ok r), w') | (Crashed, w') => (Crashed, w') end.

(** One system call: [act] when it works, [torn] what a call cut short leaves behind. *)
Definition syscall_with {A} (torn : nat -> World -> World) (act : World -> Result IoError A * World) : IO A := fun w =>
  match w_script w with
  | [] => let '(r, w') := act w in (Done r, w')
  | Works :: rest => let '(r, w') := act (set_script w rest) in (Done r, w')
  | Fails f n :: rest => (Done (Err (fault_error f)), torn n (set_script w rest))
  | Crashes n :: rest => (Crashed, torn n (set_script w rest))
  end.
Definition syscall {A} (act : World -> Result IoError A * World) : IO A := syscall_with (fun _ w => w) act.

(** *** Calls relative to an open directory: its handle is its path *)

(** [openat(.., RDONLY | NOFOLLOW | CLOEXEC)]: the handle is the path of what was opened. *)
Definition openat_read (dir : Path) (name : string) : IO Path :=
  syscall (fun w => (match w_nodes w !! path_join dir name with
    | None => Err ENOENT
    | Some (Symlink _) => Err ELOOP
    | Some _ => Ok (path_join dir name)
    end, w)).
(** [openat(.., WRONLY | CREATE | EXCL | NOFOLLOW | CLOEXEC, RUSR | WUSR)]. *)
Definition openat_create `{Os} (dir : Path) (name : string) : IO Path :=
  syscall (fun w => match w_nodes w !! path_join dir name with
    | Some _ => (Err EEXIST, w)
    | None => (Ok (path_join dir name), set_node w (path_join dir name) (Some (File (Z.ldiff 384 umask) "" false)))
    end).
Definition unlinkat (dir : Path) (name : string) : IO unit :=
  syscall (fun w => match w_nodes w !! path_join dir name with
    | None => (Err ENOENT, w)
    | Some (Directory _ _) => (Err EISDIR, w)
    | Some _ => (Ok tt, set_node w (path_join dir name) None)
    end).
Definition renameat (dir : Path) (from to : string) : IO unit :=
  syscall (fun w => match w_nodes w !! path_join dir from, w_nodes w !! path_join dir to with
    | None, _ => (Err ENOENT, w)
    | Some _, Some (Directory _ _) => (Err EISDIR, w)
    | Some n, _ => (Ok tt, set_node (set_node w (path_join dir to) (Some n)) (path_join dir from) None)
    end).

(** *** Calls on an open file *)
Definition take_bytes (n : nat) (s : string) : string := String.string_of_list_ascii (take n (as_bytes s)).
Definition append_to (h : Path) (bytes : string) (w : World) : World :=
  match w_nodes w !! h with
  | Some (File mode old _) => set_file w h (File mode (old +:+ bytes) false)
  | _ => w
  end.
Definition write_all (h : Path) (bytes : string) : IO unit :=
  syscall_with (fun n => append_to h (take_bytes n bytes)) (fun w => (Ok tt, append_to h bytes w)).
(** [File::sync_all] on a file. *)
Definition sync_all (h : Path) : IO unit :=
  syscall (fun w => (Ok tt, match w_nodes w !! h with
    | Some (File mode bytes _) => set_file w h (File mode bytes true)
    | _ => w
    end)).
(** [File::sync_all] on a directory: the entries of its names become durable. *)
Definition sync_dir (dir : Path) : IO unit :=
  syscall (fun w => (Ok tt,
    {| w_nodes := w_nodes w; w_earlier := filter (fun '(p, _) => path_parent p <> Some dir) (w_earlier w);
       w_script := w_script w; w_entropy := w_entropy w |})).
(** [File::metadata]. *)
Definition metadata (h : Path) : IO Node :=
  syscall (fun w => (ok_or (w_nodes w !! h) ENOENT, w)).
(** [file.take(limit).read_to_end(..)]. *)
Definition read_upto (h : Path) (limit : Z) : IO string :=
  syscall (fun w => (match w_nodes w !! h with
    | Some (File _ bytes _) => Ok (take_bytes (Z.to_nat limit) bytes)
    | _ => Err EISDIR
    end, w)).
(** Reading /dev/urandom. *)
Definition urandom : IO string :=
  syscall (fun w => match w_entropy w with
    | [] => (Err (fault_error EIO), w)
    | bytes :: rest => (Ok bytes, {| w_nodes := w_nodes w; w_earlier := w_earlier w; w_script := w_script w; w_entropy := rest |})
    end).

(** *** Calls on paths *)

(** Path resolution: symbolic links are followed, at most forty of them, except for the
    last component when [follow] is false.  The last component may be missing. *)
Fixpoint resolve (links : nat) (nodes : gmap Path Node) (follow : bool) (cur : Path) (todo : list string) {struct links}
    : Result IoError Path :=
  (fix step (cur : Path) (todo : list string) {struct todo} : Result IoError Path :=
    match todo with
    | [] => Ok cur
    | name :: rest =>
        let here := cur ++ [name] in
        match nodes !! here with
        | None => match rest with [] => Ok here | _ :: _ => Err ENOENT end
        | Some (Directory _ _) => step here rest
        | Some (File _ _ _) => match rest with [] => Ok here | _ :: _ => Err ENOTDIR end
        | Some (Symlink target) =>
            match rest, follow with
            | [], false => Ok here
            | _, _ => match links with
              | O => Err ELOOP
              | S links' => resolve links' nodes follow [] (target ++ rest)
              end
            end
        end
    end) cur todo.
Definition real_path (nodes : gmap Path Node) (follow : bool) (p : Path) : Result IoError Path := resolve 40 nodes follow [] p.

Definition node_at (nodes : gmap Path Node) (p : Path) : option Node :=
  match p with [] => Some (Directory 0 493) | _ => nodes !! p end.
Definition lookup_path (w : World) (follow : bool) (p : Path) : Result IoError (Path * Node) :=
  real ← real_path (w_nodes w) follow p;
  node ← ok_or (node_at (w_nodes w) real) ENOENT;
  Ok (real, node).

(** [Path::exists], which is false when the lookup fails for any reason. *)
Definition path_exists (p : Path) : IO bool := fun w =>
  match syscall (fun w => (lookup_path w true p, w)) w with
  | (Done r, w') => (Done (Ok (is_ok r)), w')
  | (Crashed, w') => (Crashed, w')
  end.
Definition is_dir (p : Path) : IO bool := fun w =>
  match syscall (fun w => (lookup_path w true p, w)) w with
  | (Done (Ok (_, Directory _ _)), w') => (Done (Ok true), w')
  | (Done _, w') => (Done (Ok false), w')
  | (Crashed, w') => (Crashed, w')
  end.
Definition symlink_metadata (p : Path) : IO Node := syscall (fun w => (snd <$> lookup_path w false p, w)).
Definition canonicalize (p : Path) : IO Path := syscall (fun w => (fst <$> lookup_path w true p, w)).
(** [open(.., O_DIRECTORY | O_NOFOLLOW)]. *)
Definition open_dir (p : Path) : IO Path :=
  syscall (fun w => (match lookup_path w false p with
    | Ok (real, Directory _ _) => Ok real
    | Ok (_, Symlink _) => Err ELOOP
    | Ok _ => Err ENOTDIR
    | Err e => Err e
    end, w)).
(** [fs::create_dir_all]: every missing directory on the way. *)
Fixpoint create_dirs `{Os} (p : Path) (w : World) (todo : list string) : Result IoError unit * World :=
  match todo with
  | [] => (Ok tt, w)
  | name :: rest =>
      let here := p ++ [name] in
      match lookup_path w true here with
      | Ok (_, Directory _ _) => create_dirs here w rest
      | Ok _ => (Err EEXIST, w)
      | Err _ =>
          match real_path (w_nodes w) false here with
          | Ok real => match w_nodes w !! real with
                       | None => create_dirs here (set_node w real (Some (Directory effective_uid (Z.ldiff 511 umask)))) rest
                       | Some _ => (Err EEXIST, w)
                       end
          | Err e => (Err e, w)
          end
      end
  end.
Definition create_dir_all `{Os} (p : Path) : IO unit := syscall (fun w => create_dirs [] w p).

(** ** What a loss of power can leave *)
Definition survives (before after : option Node) : Prop :=
  match before, after with
  | None, None => True
  | Some (File mode bytes true), Some n => n = File mode bytes true
  | Some (File mode _ false), Some (File mode' _ _) => mode' = mode
  | Some n, Some n' => n' = n
  | _, _ => False
  end.
Definition earlier (w : World) (p : Path) : list (option Node) := default [] (w_earlier w !! p).
Definition power_loss (w : World) (nodes : gmap Path Node) : Prop :=
  forall p, exists before, before ∈ (w_nodes w !! p) :: earlier w p /\ survives before (nodes !! p).
