(* ===== verification/Failure.v ===== *)
(** * Failure: the error vocabulary of the application (psst-application/src/error.rs, and
    the errors of session.rs) *)
From S2P Require Import Prelude Text Core Files Dto Client Relay.

Inductive ExitClass : Set :=
| ExSuccess | ExUsage | ExConfiguration | ExUnavailable | ExConflict | ExAuthority | ExOutcomeUnknown
| ExLocalIo | ExLocked | ExInternal.

(** [self as u8]. *)
Definition ExitClass_code (self : ExitClass) : Z :=
  match self with
  | ExSuccess => 0 | ExUsage => 2 | ExConfiguration => 3 | ExUnavailable => 4 | ExConflict => 5 | ExAuthority => 6
  | ExOutcomeUnknown => 7 | ExLocalIo => 8 | ExLocked => 9 | ExInternal => 70
  end.

Inductive LocalErrorCode : Set :=
| LcInvalidRequest | LcNotFound | LcNotMember | LcNameInUse | LcLeaseExpired | LcRecipientNotFound
| LcIdempotencyConflict | LcRateLimited | LcDatabaseBusy | LcInternalError | LcInvalidInput
| LcInvalidConfiguration | LcInvalidOrigin | LcProfileNotFound | LcProfileLocked | LcProfileOriginMismatch
| LcProfileAlreadyBound | LcProfileUnbound | LcConfigRead | LcConfigWrite | LcLocalRead | LcLocalWrite
| LcLocalPermission | LcLocalLock | LcRelayUnavailable | LcRelayTimeout | LcRelayProtocol | LcInvalidSession
| LcInactiveMembership | LcUnknownRecipient | LcDuplicateName | LcSquadNotFound | LcSquadArchived
| LcMessageNotFound | LcConflict | LcAuthorityDenied | LcPayloadTooLarge | LcOutcomeUnknown | LcUnsupported
| LcInternal.
#[global] Instance LocalErrorCode_eq_dec : EqDecision LocalErrorCode.
Proof. solve_decision. Defined.

Definition exit_class (self : LocalErrorCode) : ExitClass :=
  match self with
  | LcInvalidInput | LcPayloadTooLarge | LcUnsupported | LcInvalidRequest => ExUsage
  | LcInvalidConfiguration | LcInvalidOrigin | LcProfileOriginMismatch | LcConfigRead => ExConfiguration
  | LcRelayUnavailable | LcRelayTimeout | LcProfileNotFound | LcProfileUnbound | LcSquadNotFound
  | LcMessageNotFound | LcNotFound | LcRateLimited | LcDatabaseBusy => ExUnavailable
  | LcConflict | LcProfileAlreadyBound | LcDuplicateName | LcSquadArchived | LcInactiveMembership | LcNameInUse
  | LcLeaseExpired | LcIdempotencyConflict => ExConflict
  | LcAuthorityDenied | LcInvalidSession | LcUnknownRecipient | LcNotMember | LcRecipientNotFound => ExAuthority
  | LcOutcomeUnknown => ExOutcomeUnknown
  | LcConfigWrite | LcLocalRead | LcLocalWrite | LcLocalPermission => ExLocalIo
  | LcProfileLocked | LcLocalLock => ExLocked
  | LcRelayProtocol | LcInternal | LcInternalError => ExInternal
  end.

Definition retryable (self : LocalErrorCode) : bool :=
  match self with
  | LcProfileLocked | LcLocalLock | LcRelayUnavailable | LcRelayTimeout | LcOutcomeUnknown | LcRateLimited
  | LcDatabaseBusy => true
  | _ => false
  end.

Definition safe_message (self : LocalErrorCode) : string :=
  match self with
  | LcInvalidRequest => "The relay rejected the request."
  | LcNotFound => "The requested relay resource does not exist."
  | LcNotMember => "The session is not an active member."
  | LcNameInUse => "The member name is already in use."
  | LcLeaseExpired => "The relay lease expired."
  | LcRecipientNotFound => "The relay recipient does not exist."
  | LcIdempotencyConflict => "The retry identity conflicts with a prior request."
  | LcRateLimited => "The relay is temporarily rate limited."
  | LcDatabaseBusy => "The relay database is temporarily busy."
  | LcInternalError => "The relay reported an internal error."
  | LcInvalidInput => "The request is invalid."
  | LcInvalidConfiguration => "The configuration is invalid."
  | LcInvalidOrigin => "The relay origin is invalid."
  | LcProfileNotFound => "The selected profile does not exist."
  | LcProfileLocked => "The selected profile is already in use."
  | LcProfileOriginMismatch => "The relay origin does not match the selected profile."
  | LcProfileAlreadyBound => "The selected profile is already bound."
  | LcProfileUnbound => "The selected profile is not bound."
  | LcConfigRead => "The configuration could not be read."
  | LcConfigWrite => "The configuration could not be written."
  | LcLocalRead => "Local data could not be read."
  | LcLocalWrite => "Local data could not be written."
  | LcLocalPermission => "Local data access was denied."
  | LcLocalLock => "A required local lock is unavailable."
  | LcRelayUnavailable => "The relay is unavailable."
  | LcRelayTimeout => "The relay request timed out."
  | LcRelayProtocol => "The relay response was invalid."
  | LcInvalidSession => "The session is invalid."
  | LcInactiveMembership => "The membership is inactive."
  | LcUnknownRecipient => "The recipient is unknown."
  | LcDuplicateName => "The selected local name is already in use."
  | LcSquadNotFound => "The squad does not exist."
  | LcSquadArchived => "The squad is archived."
  | LcMessageNotFound => "The message does not exist."
  | LcConflict => "The operation conflicts with current state."
  | LcAuthorityDenied => "The operation is not authorized."
  | LcPayloadTooLarge => "The payload exceeds a configured limit."
  | LcOutcomeUnknown => "The operation outcome is unknown."
  | LcUnsupported => "The operation is not supported."
  | LcInternal => "An internal error occurred."
  end.

Definition requires_resume (self : LocalErrorCode) : bool := match self with LcLeaseExpired => true | _ => false end.

(** ** What leaves the process *)
Record SafeError : Set := { se_code : LocalErrorCode; se_message : string; se_retryable : bool; se_exit_class : ExitClass }.
Definition SafeError_from (code : LocalErrorCode) : SafeError :=
  {| se_code := code; se_message := safe_message code; se_retryable := retryable code; se_exit_class := exit_class code |}.
Record McpSafeError : Set := { mse_code : LocalErrorCode; mse_message : string; mse_retryable : bool }.
Definition McpSafeError_from (code : LocalErrorCode) : McpSafeError :=
  {| mse_code := code; mse_message := safe_message code; mse_retryable := retryable code |}.

(** ** Errors of the relay and of the client *)
Definition map_api_error (code : ApiErrorCode) : LocalErrorCode :=
  match code with
  | ApiInvalidRequest => LcInvalidRequest
  | ApiNotFound => LcNotFound
  | ApiSquadArchived => LcSquadArchived
  | ApiNotMember => LcNotMember
  | ApiNameInUse => LcNameInUse
  | ApiLeaseExpired => LcLeaseExpired
  | ApiRecipientNotFound => LcRecipientNotFound
  | ApiIdempotencyConflict => LcIdempotencyConflict
  | ApiPayloadTooLarge => LcPayloadTooLarge
  | ApiRateLimited => LcRateLimited
  | ApiDatabaseBusy => LcDatabaseBusy
  | ApiInternalError => LcInternalError
  end.

Fixpoint map_client_error (error : ClientError) : LocalErrorCode :=
  match error with
  | CeInvalidBaseUrl => LcInvalidOrigin
  | CeInvalidConfiguration => LcInvalidConfiguration
  | CeInvalidRequest => LcInvalidInput
  | CeMalformedCredential | CeMalformedResponse _ => LcRelayProtocol
  | CeTransport _ => LcRelayUnavailable
  | CeTimeout => LcRelayTimeout
  | CeOutcomeUnknown => LcOutcomeUnknown
  | CeApi _ code _ => map_api_error code
  | CeResponseTooLarge => LcPayloadTooLarge
  | CeUnexpectedHttp _ => LcRelayProtocol
  | CeClientBusy => LcLocalLock
  | CeRetryExhausted _ last => map_client_error last
  end.

(** ** Errors of a session (session.rs) *)

Inductive SessionError : Set :=
| SeLocal (e : IoError)
| SeRelay (e : ClientError)
| SeShutdownTimedOut
| SeNotReady
| SeUnbound
| SeRecoveryOutcomeUnknown
| SeSendCapacity
| SeOperationCapacity.

Definition SessionError_fmt (self : SessionError) : string :=
  match self with
  | SeLocal _ => "local session state failed"
  | SeRelay _ => "relay session validation failed"
  | SeShutdownTimedOut => "session shutdown timed out"
  | SeNotReady => "session is not ready for protected operations"
  | SeUnbound => "session profile is no longer bound"
  | SeRecoveryOutcomeUnknown => "unbound session has an unresolved leave intent"
  | SeSendCapacity => "session send capacity is busy"
  | SeOperationCapacity => "session operation capacity is busy"
  end.

(** ** One advice on retrying *)

(** The relay, the client and the application agree on what may be retried.  For
    every error code, the flag the relay puts into its answer, the decision of the
    client's retry loop while attempts are left, and the advice the application gives
    its caller, also after the client gave up, are the same. *)
Theorem retry_advice_agrees (A : Type) code attempt attempts :
  attempt < attempts ->
  let '(status, body) := into_response code in
  let error := CeApi status (eb_code body) (eb_retryable body) in
  eb_retryable body = retryable (map_client_error error)
  /\ map_client_error (CeRetryExhausted attempts error) = map_client_error error
  /\ match after_response (A := A) status (Err error) attempt attempts with
     | Again => retryable (map_client_error error) = true
     | Return r => retryable (map_client_error error) = false /\ r = Err error
     | Unreachable => False
     end.
Proof.
  intros Ha. assert ((attempt =? attempts) = false) as E by (apply Z.eqb_neq; lia).
  destruct code; unfold after_response; simpl; rewrite ?E; done.
Qed.

Lemma retry_advice_agrees_witness :
  after_response (A := unit) 503 (Err (CeApi 503 ApiDatabaseBusy true)) 1 3 = Again
  /\ retryable (map_client_error (CeApi 503 ApiDatabaseBusy true)) = true.
Proof.
  split; [reflexivity|]. symmetry.
  apply (retry_advice_agrees unit ApiDatabaseBusy 1 3). reflexivity.
Defined.
