(* ===== verification/Activation.v ===== *)
(** * Activation: waking a host when mail is pending (psst-application/src/activation.rs)

    The state machine, its policy, the metadata of a wake, and the two loops that drive
    the machine: [run_activation] observes the inbox and [drive_wake] starts host turns.
    The source of observations, the host and the cancellation token are the environment,
    a script of what each [select!] sees. *)
From Stdlib Require Import Ascii.
From stdpp Require Import pretty.
From S2P Require Import Prelude Text Core Files Dto Validation Client Failure.

Definition MAX_WAKE_PENDING_COUNT : Z := 1000000.
Definition MAX_WAKE_PROFILE_BYTES : Z := 64.
Definition MAX_WAKE_SQUAD_BYTES : Z := 64.
Definition MAX_WAKE_MESSAGE_ID_BYTES : Z := 128.
Definition DEFAULT_RECONCILE_INTERVAL : Duration := Duration_from_secs 60.
Definition MIN_RECONCILE_INTERVAL : Duration := Duration_from_secs 5.
Definition MAX_RECONCILE_INTERVAL : Duration := Duration_from_secs 60.
Definition DEFAULT_BACKOFF_INITIAL : Duration := Duration_from_secs 1.
Definition DEFAULT_BACKOFF_MAX : Duration := Duration_from_secs 60.
Definition MAX_BACKOFF_DURATION : Duration := Duration_from_secs 300.
Definition MAX_BACKOFF_ATTEMPTS : N := 8.

(** ** Data *)
Inductive ActivationPhase : Set := PhQuiet | PhPending | PhWaking | PhRunning | PhBackoff | PhBlocked | PhStopped.
#[global] Instance ActivationPhase_eq_dec : EqDecision ActivationPhase.
Proof. solve_decision. Defined.

Inductive HostFailure : Set := RetryableBeforeStart | HostOutcomeUnknown | HostPermanent.
Inductive ObservationFailure : Set := ObsRetryable | ObsPermanent.

Inductive ActivationContractError : Set :=
| AcEmptyProfile | AcInvalidProfile | AcEmptySquad | AcInvalidSquad | AcPendingCountOutOfRange | AcEmptyOldestMessageId
| AcInvalidOldestMessageId | AcReconcileIntervalOutOfRange | AcBackoffRangeInvalid | AcInvalidTransition.

Definition ActivationContractError_fmt (self : ActivationContractError) : string :=
  match self with
  | AcEmptyProfile => "wake profile must not be empty"
  | AcInvalidProfile => "wake profile is outside the closed contract"
  | AcEmptySquad => "wake squad must not be empty"
  | AcInvalidSquad => "wake squad is outside the closed contract"
  | AcPendingCountOutOfRange => "wake pending count is outside the closed contract"
  | AcEmptyOldestMessageId => "wake oldest message id must not be empty"
  | AcInvalidOldestMessageId => "wake oldest message id is outside the closed contract"
  | AcReconcileIntervalOutOfRange => "activation reconciliation interval is outside the closed contract"
  | AcBackoffRangeInvalid => "activation backoff range is invalid"
  | AcInvalidTransition => "activation state transition is invalid"
  end.

(** ** Wake metadata *)
Definition wake_char (byte : ascii) : bool :=
  is_ascii_alphanumeric byte || bool_decide (byte ∈ ["-"; "_"; "."]%char).

Definition validate_identifier (value : string) (maximum_bytes : Z) (empty invalid : ActivationContractError)
    : Result ActivationContractError unit :=
  if is_empty value then Err empty
  else if (maximum_bytes <? len value) || negb (forallb wake_char (as_bytes value)) then Err invalid
  else Ok tt.

Record WakeMetadata : Set := {
  wm_profile : string; wm_squad : string; wm_pending_count : Z; wm_highest_priority : MessagePriorityDto;
  wm_oldest_message_id : string }.

Definition WakeMetadata_new (profile squad : string) (pending_count : Z) (highest_priority : MessagePriorityDto)
    (oldest_message_id : string) : Result ActivationContractError WakeMetadata :=
  _ ← validate_identifier profile MAX_WAKE_PROFILE_BYTES AcEmptyProfile AcInvalidProfile;
  _ ← validate_identifier squad MAX_WAKE_SQUAD_BYTES AcEmptySquad AcInvalidSquad;
  if (pending_count =? 0) || (MAX_WAKE_PENDING_COUNT <? pending_count) then Err AcPendingCountOutOfRange
  else
    _ ← validate_identifier oldest_message_id MAX_WAKE_MESSAGE_ID_BYTES AcEmptyOldestMessageId AcInvalidOldestMessageId;
    Ok {| wm_profile := profile; wm_squad := squad; wm_pending_count := pending_count;
          wm_highest_priority := highest_priority; wm_oldest_message_id := oldest_message_id |}.

Definition NOTICE : string :=
  "Psst has durable pending mail. Use the configured Psst tools to inspect the inbox; retrieval does not acknowledge. profile=".
Definition fixed_notice (self : WakeMetadata) : string :=
  NOTICE +:+ wm_profile self +:+ " squad=" +:+ wm_squad self +:+ " pending_count=" +:+ pretty (wm_pending_count self)
  +:+ " highest_priority=" +:+ match wm_highest_priority self with NormalDto => "normal" | HighDto => "high" end
  +:+ " oldest_message_id=" +:+ wm_oldest_message_id self.

Definition wake_from_inbox (profile squad : string) (response : InboxResponse)
    : Result ObservationFailure (option WakeMetadata) :=
  if ibr_pending_count response =? 0 then Ok None
  else
    highest_priority ← ok_or (ibr_highest_priority response) ObsPermanent;
    oldest_message_id ← ok_or (ibr_oldest_message_id response) ObsPermanent;
    map_err (fun _ => ObsPermanent)
      (Some <$> WakeMetadata_new profile squad (ibr_pending_count response) highest_priority oldest_message_id).

Definition classify_observation_failure (error : SessionError) : ObservationFailure :=
  match error with
  | SeRelay (CeTransport _ | CeTimeout | CeOutcomeUnknown | CeClientBusy | CeRetryExhausted _ _ | CeApi _ _ true)
  | SeNotReady | SeOperationCapacity | SeSendCapacity => ObsRetryable
  | SeLocal _ | SeRelay _ | SeShutdownTimedOut | SeUnbound | SeRecoveryOutcomeUnknown => ObsPermanent
  end.

(** [SessionActivationSource::new] and [observe], around the session's [inbox]. *)
Definition SessionActivationSource_new (profile squad : string) : Result ActivationContractError (string * string) :=
  _ ← validate_identifier profile MAX_WAKE_PROFILE_BYTES AcEmptyProfile AcInvalidProfile;
  _ ← validate_identifier squad MAX_WAKE_SQUAD_BYTES AcEmptySquad AcInvalidSquad;
  Ok (profile, squad).
Definition source_observe (inbox : Z -> Z -> Result SessionError InboxResponse) (self : string * string)
    (maximum_wait : Duration) : Result ObservationFailure (option WakeMetadata) :=
  response ← map_err classify_observation_failure (inbox 100 (Z.min (as_secs maximum_wait) 30));
  wake_from_inbox self.1 self.2 response.

(** ** Policy and delays *)
Record ActivationPolicy : Set := {
  ap_reconcile_interval : Duration; ap_initial_backoff : Duration; ap_maximum_backoff : Duration;
  ap_maximum_attempts : N }.

Definition ActivationPolicy_validate (self : ActivationPolicy) : Result ActivationContractError ActivationPolicy :=
  if negb ((MIN_RECONCILE_INTERVAL <=? ap_reconcile_interval self)%N && (ap_reconcile_interval self <=? MAX_RECONCILE_INTERVAL)%N)
  then Err AcReconcileIntervalOutOfRange
  else if is_zero (ap_initial_backoff self) || (ap_maximum_backoff self <? ap_initial_backoff self)%N
     || (MAX_BACKOFF_DURATION <? ap_maximum_backoff self)%N || (ap_maximum_attempts self =? 0)%N
     || (MAX_BACKOFF_ATTEMPTS <? ap_maximum_attempts self)%N
  then Err AcBackoffRangeInvalid
  else Ok self.

Definition ActivationPolicy_default : ActivationPolicy :=
  {| ap_reconcile_interval := DEFAULT_RECONCILE_INTERVAL; ap_initial_backoff := DEFAULT_BACKOFF_INITIAL;
     ap_maximum_backoff := DEFAULT_BACKOFF_MAX; ap_maximum_attempts := MAX_BACKOFF_ATTEMPTS |}.

(** [u8::saturating_add(1)] and [saturating_sub(1)]; [2_u32.checked_pow(e).unwrap_or(u32::MAX)]. *)
Definition u8_succ (n : N) : N := N.min (n + 1) 255.
Definition pow2_u32 (exponent : N) : N := if (exponent <? 32)%N then (2 ^ exponent)%N else (2 ^ 32 - 1)%N.

Definition retry_delay (policy : ActivationPolicy) (attempt : N) : Duration :=
  let exponent := N.pred attempt in
  N.min (default (ap_maximum_backoff policy) (Duration_checked_mul (ap_initial_backoff policy) (pow2_u32 exponent)))
    (ap_maximum_backoff policy).

(** [u64::try_from(delay.as_millis()).unwrap_or(u64::MAX)]. *)
Definition ceiling_millis (delay : Duration) : Z :=
  if as_millis delay <? 2 ^ 64 then as_millis delay else 2 ^ 64 - 1.
(** [sample : u64]. *)
Definition jitter_delay_from (delay : Duration) (sample : Z) : Duration :=
  let ceiling := ceiling_millis delay in
  if ceiling <? 2 then delay
  else
    let floor := ceiling / 2 in
    let width := ceiling - floor in
    Duration_from_millis (Z.to_N (floor + sample mod (width + 1))).
(** [random]: the eight secure random bytes as a u64, when there are any. *)
Definition jitter_delay (random : option Z) (delay : Duration) : Duration :=
  if ceiling_millis delay <? 2 then delay
  else match random with None => delay | Some sample => jitter_delay_from delay sample end.

(** ** The machine *)
Inductive ActivationCommand : Set :=
| AcmNone | AcmActivate (wake : WakeMetadata) | AcmReconcileNow | AcmRetryAfter (delay : Duration).

Record ActivationMachine : Set := {
  am_policy : ActivationPolicy; am_phase : ActivationPhase; am_pending : option WakeMetadata;
  am_reconcile_needed : bool; am_retry_attempt : N }.
Record ActivationSnapshot : Set := {
  as_phase : ActivationPhase; as_pending : option WakeMetadata; as_reconcile_needed : bool; as_retry_attempt : N }.

Definition set_phase (m : ActivationMachine) (phase : ActivationPhase) : ActivationMachine :=
  {| am_policy := am_policy m; am_phase := phase; am_pending := am_pending m;
     am_reconcile_needed := am_reconcile_needed m; am_retry_attempt := am_retry_attempt m |}.

Definition ActivationMachine_new (policy : ActivationPolicy) : Result ActivationContractError ActivationMachine :=
  policy ← ActivationPolicy_validate policy;
  Ok {| am_policy := policy; am_phase := PhQuiet; am_pending := None; am_reconcile_needed := false; am_retry_attempt := 0 |}.

Definition snapshot (self : ActivationMachine) : ActivationSnapshot :=
  {| as_phase := am_phase self; as_pending := am_pending self; as_reconcile_needed := am_reconcile_needed self;
     as_retry_attempt := am_retry_attempt self |}.

Definition observe (self : ActivationMachine) (pending : option WakeMetadata) : ActivationCommand * ActivationMachine :=
  if bool_decide (am_phase self ∈ [PhStopped; PhBlocked]) then (AcmNone, self)
  else match pending with
  | None => (AcmNone, self)
  | Some pending =>
      match am_phase self with
      | PhQuiet =>
          (AcmActivate pending,
           {| am_policy := am_policy self; am_phase := PhPending; am_pending := Some pending;
              am_reconcile_needed := am_reconcile_needed self; am_retry_attempt := am_retry_attempt self |})
      | PhPending | PhWaking | PhRunning | PhBackoff =>
          (AcmNone,
           {| am_policy := am_policy self; am_phase := am_phase self; am_pending := Some pending;
              am_reconcile_needed := true; am_retry_attempt := am_retry_attempt self |})
      | PhBlocked | PhStopped => (AcmNone, self)
      end
  end.

(** A transition: its result and the machine afterwards, unchanged on an error. *)
Definition Transition (A : Type) : Type := Result ActivationContractError (A * ActivationMachine).

Definition opt_is_none {A} (o : option A) : bool := match o with Some _ => false | None => true end.

Definition wake_started (self : ActivationMachine) : Transition unit :=
  if bool_decide (am_phase self <> PhPending) || opt_is_none (am_pending self) then Err AcInvalidTransition
  else Ok (tt, set_phase self PhWaking).

Definition wake_accepted (self : ActivationMachine) : Transition unit :=
  if bool_decide (am_phase self <> PhWaking) then Err AcInvalidTransition
  else Ok (tt, set_phase self PhRunning).

Definition waking_or_running (self : ActivationMachine) : bool := bool_decide (am_phase self ∈ [PhWaking; PhRunning]).

Definition wake_completed (self : ActivationMachine) : Transition ActivationCommand :=
  if negb (waking_or_running self) then Err AcInvalidTransition
  else Ok (AcmReconcileNow,
    {| am_policy := am_policy self; am_phase := PhQuiet; am_pending := None; am_reconcile_needed := false;
       am_retry_attempt := 0 |}).

Definition wake_retryable_failure (self : ActivationMachine) : Transition ActivationCommand :=
  if negb (waking_or_running self) then Err AcInvalidTransition
  else
    let retry_attempt := u8_succ (am_retry_attempt self) in
    let failed phase := {| am_policy := am_policy self; am_phase := phase; am_pending := am_pending self;
                           am_reconcile_needed := am_reconcile_needed self; am_retry_attempt := retry_attempt |} in
    if (ap_maximum_attempts (am_policy self) <=? retry_attempt)%N then Ok (AcmNone, failed PhBlocked)
    else
      let exponent := N.pred retry_attempt in
      let multiplier := pow2_u32 exponent in
      let delay := N.min (default (ap_maximum_backoff (am_policy self))
                            (Duration_checked_mul (ap_initial_backoff (am_policy self)) multiplier))
                     (ap_maximum_backoff (am_policy self)) in
      Ok (AcmRetryAfter delay, failed PhBackoff).

Definition retry_due (self : ActivationMachine) : Transition ActivationCommand :=
  if bool_decide (am_phase self <> PhBackoff) then Err AcInvalidTransition
  else
    pending ← ok_or (am_pending self) AcInvalidTransition;
    Ok (AcmActivate pending,
      {| am_policy := am_policy self; am_phase := PhPending; am_pending := am_pending self; am_reconcile_needed := false;
         am_retry_attempt := am_retry_attempt self |}).

Definition wake_permanent_failure (self : ActivationMachine) : Transition unit :=
  if negb (waking_or_running self) then Err AcInvalidTransition
  else Ok (tt, set_phase self PhBlocked).

Definition stop (self : ActivationMachine) : ActivationMachine :=
  {| am_policy := am_policy self; am_phase := PhStopped; am_pending := None; am_reconcile_needed := false;
     am_retry_attempt := am_retry_attempt self |}.

Definition block (self : ActivationMachine) : ActivationMachine :=
  if bool_decide (am_phase self <> PhStopped) then set_phase self PhBlocked else self.

(** ** The environment of the loops *)

(** What a biased [select!] against the cancellation token sees: the cancellation, with
    the other future polled before it or not, or the other future's result. *)
Inductive Await (A : Type) : Type := AwCancelled (polled : bool) | AwReady (a : A).
Arguments AwCancelled {A} polled.
Arguments AwReady {A} a.

Inductive HostEvent : Set :=
| HeObserve (maximum_wait : Duration)
| HeStart (wake : WakeMetadata)
| HeAccepted (wake : WakeMetadata)
| HeCompleted (wake : WakeMetadata)
| HePause (delay : Duration).

(** A script of answers, at the end of which the token is cancelled, and the log of what
    the engine did. *)
Record Scene : Set := {
  sc_observations : list (Await (Result ObservationFailure (option WakeMetadata)));
  sc_starts : list (Await (Result HostFailure unit));
  sc_turns : list (Await (Result HostFailure unit));
  sc_waits : list bool;
  sc_random : list (option Z);
  sc_log : list HostEvent }.

Definition logging (s : Scene) (events : list HostEvent) : Scene :=
  {| sc_observations := sc_observations s; sc_starts := sc_starts s; sc_turns := sc_turns s; sc_waits := sc_waits s;
     sc_random := sc_random s; sc_log := sc_log s ++ events |}.

Definition polled {A} (a : Await A) (event : HostEvent) : list HostEvent :=
  match a with AwCancelled false => [] | _ => [event] end.

Definition next_observation (wait : Duration) (s : Scene) :=
  match sc_observations s with
  | [] => (AwCancelled false, s)
  | a :: rest =>
      (a, logging {| sc_observations := rest; sc_starts := sc_starts s; sc_turns := sc_turns s; sc_waits := sc_waits s;
                     sc_random := sc_random s; sc_log := sc_log s |} (polled a (HeObserve wait)))
  end.
Definition next_start (wake : WakeMetadata) (s : Scene) :=
  match sc_starts s with
  | [] => (AwCancelled false, s)
  | a :: rest =>
      (a, logging {| sc_observations := sc_observations s; sc_starts := rest; sc_turns := sc_turns s; sc_waits := sc_waits s;
                     sc_random := sc_random s; sc_log := sc_log s |} (polled a (HeStart wake)))
  end.
Definition next_turn (wake : WakeMetadata) (s : Scene) :=
  match sc_turns s with
  | [] => (AwCancelled false, s)
  | a :: rest =>
      (a, logging {| sc_observations := sc_observations s; sc_starts := sc_starts s; sc_turns := rest; sc_waits := sc_waits s;
                     sc_random := sc_random s; sc_log := sc_log s |}
            (match a with AwReady (Ok _) => [HeCompleted wake] | _ => [] end))
  end.
(** [wait_or_cancel], true when cancelled; the delay is given before its jitter is drawn. *)
Definition wait_or_cancel (delay : Duration) (s : Scene) : bool * Scene :=
  match sc_waits s with
  | [] => (true, s)
  | cancelled :: rest =>
      (cancelled, logging {| sc_observations := sc_observations s; sc_starts := sc_starts s; sc_turns := sc_turns s;
                             sc_waits := rest; sc_random := sc_random s; sc_log := sc_log s |} [HePause delay])
  end.
Definition draw_jitter (delay : Duration) (s : Scene) : Duration * Scene :=
  let '(random, rest) := match sc_random s with [] => (None, []) | r :: rest => (r, rest) end in
  (jitter_delay random delay,
   {| sc_observations := sc_observations s; sc_starts := sc_starts s; sc_turns := sc_turns s; sc_waits := sc_waits s;
      sc_random := rest; sc_log := sc_log s |}).

(** [let _ = machine.write().await.transition()]. *)
Definition ignoring {A} (t : ActivationMachine -> Transition A) (m : ActivationMachine) : ActivationMachine :=
  match t m with Ok (_, m') => m' | Err _ => m end.

(** ** The loops

    [drive_wake] returns whether it was cancelled, and [None] out of fuel. *)
Fixpoint drive_wake (fuel : nat) (m : ActivationMachine) (wake : WakeMetadata) (s : Scene)
    : option bool * ActivationMachine * Scene :=
  match fuel with
  | O => (None, m, s)
  | S fuel' =>
      match wake_started m with
      | Err _ => (Some false, block m, s)
      | Ok (_, m) =>
          let '(started, s) := next_start wake s in
          match started with
          | AwCancelled _ => (Some true, m, s)
          | AwReady (Err RetryableBeforeStart) =>
              match wake_retryable_failure m with
              | Err _ => (Some false, block m, s)
              | Ok (AcmRetryAfter delay, m) =>
                  let '(delay, s) := draw_jitter delay s in
                  let '(cancelled, s) := wait_or_cancel delay s in
                  if cancelled : bool then (Some true, m, s)
                  else match retry_due m with
                  | Ok (AcmActivate retained, m) => drive_wake fuel' m retained s
                  | Ok (_, m) => (Some false, block m, s)
                  | Err _ => (Some false, block m, s)
                  end
              | Ok (_, m) => (Some false, m, s)
              end
          | AwReady (Err (HostOutcomeUnknown | HostPermanent)) =>
              (Some false, ignoring wake_permanent_failure m, s)
          | AwReady (Ok _) =>
              let s := logging s [HeAccepted wake] in
              match wake_accepted m with
              | Err _ => (Some false, block m, s)
              | Ok (_, m) =>
                  let '(completed, s) := next_turn wake s in
                  match completed with
                  | AwCancelled _ => (Some true, m, s)
                  | AwReady (Ok _) => (Some false, ignoring wake_completed m, s)
                  | AwReady (Err _) => (Some false, ignoring wake_permanent_failure m, s)
                  end
              end
          end
      end
  end.

(** [run_activation]; each turn of the loop uses up an observation, so the fuel of the
    outer loop is their number, and one turn more to see the cancellation. *)
Fixpoint run_activation (fuel drive_fuel : nat) (policy : ActivationPolicy) (m : ActivationMachine) (next_wait : Duration)
    (observation_failures : N) (s : Scene) : option unit * ActivationMachine * Scene :=
  let maximum_wait := N.min (ap_reconcile_interval policy) (Duration_from_secs 30) in
  match fuel with
  | O => (None, m, s)
  | S fuel' =>
      let '(observed, s) := next_observation next_wait s in
      match observed with
      | AwCancelled _ => (Some tt, m, s)
      | AwReady (Err ObsPermanent) => (Some tt, block m, s)
      | AwReady (Err ObsRetryable) =>
          let observation_failures := u8_succ observation_failures in
          if (ap_maximum_attempts policy <=? observation_failures)%N then (Some tt, block m, s)
          else
            let '(cancelled, s) := wait_or_cancel (retry_delay policy observation_failures) s in
            if cancelled : bool then (Some tt, m, s)
            else run_activation fuel' drive_fuel policy m maximum_wait observation_failures s
      | AwReady (Ok pending) =>
          match observe m pending with
          | (AcmActivate wake, m) =>
              match drive_wake drive_fuel m wake s with
              | (None, m, s) => (None, m, s)
              | (Some true, m, s) => (Some tt, m, s)
              | (Some false, m, s) =>
                  if bool_decide (as_phase (snapshot m) = PhBlocked) then (Some tt, m, s)
                  else run_activation fuel' drive_fuel policy m 0%N 0%N s
              end
          | (_, m) => run_activation fuel' drive_fuel policy m maximum_wait 0%N s
          end
      end
  end.

(** [ActivationRuntime::start], its task run over the whole script, and [shutdown]. *)
Definition activation_runtime (policy : ActivationPolicy) (s : Scene)
    : Result ActivationContractError (option unit * ActivationMachine * Scene) :=
  m ← ActivationMachine_new policy;
  Ok (run_activation (S (length (sc_observations s))) (N.to_nat MAX_BACKOFF_ATTEMPTS) policy m
        (N.min (ap_reconcile_interval policy) (Duration_from_secs 30)) 0%N s).
Definition shutdown (m : ActivationMachine) : ActivationMachine := stop m.
