(* ===== verification/Engine.v ===== *)
(** * Engine: what the activation machine and its loops guarantee *)
From Stdlib Require Import Ascii.
From stdpp Require Import pretty.
From S2P Require Import Prelude Text Core Files Dto Validation Client Failure Activation.

(** ** Policies and delays *)
Record policy_ok (p : ActivationPolicy) : Prop := {
  po_reconcile : (MIN_RECONCILE_INTERVAL <= ap_reconcile_interval p <= MAX_RECONCILE_INTERVAL)%N;
  po_initial : (1 <= ap_initial_backoff p <= ap_maximum_backoff p)%N;
  po_maximum : (ap_maximum_backoff p <= MAX_BACKOFF_DURATION)%N;
  po_attempts : (1 <= ap_maximum_attempts p <= MAX_BACKOFF_ATTEMPTS)%N }.

Lemma validate_policy p p' : ActivationPolicy_validate p = Ok p' <-> p' = p /\ policy_ok p.
Proof.
  unfold ActivationPolicy_validate. split.
  - destruct (negb _) eqn:E1; [done|]. destruct (_ || _) eqn:E2; [done|]. bool_to_prop.
    rewrite N.leb_le, N.ltb_ge, N.eqb_neq in *. unfold is_zero in *. rewrite N.eqb_neq in *.
    intros [= <-]. split; [done|]. constructor; unfold MIN_RECONCILE_INTERVAL, MAX_BACKOFF_ATTEMPTS in *; lia.
  - intros [-> [H1 H2 H3 H4]].
    rewrite (proj2 (N.leb_le _ _)), (proj2 (N.leb_le _ _)) by lia. simpl. unfold is_zero.
    rewrite (proj2 (N.eqb_neq _ _)), (proj2 (N.ltb_ge _ _)), (proj2 (N.ltb_ge _ _)), (proj2 (N.eqb_neq _ _)),
      (proj2 (N.ltb_ge _ _)) by lia. done.
Qed.

(** Doubling from the initial backoff, capped. *)
Lemma retry_delay_eq p attempt :
  policy_ok p -> (attempt <= MAX_BACKOFF_ATTEMPTS)%N ->
  retry_delay p attempt = N.min (ap_initial_backoff p * 2 ^ N.pred attempt) (ap_maximum_backoff p).
Proof.
  intros [_ Hi Hm _] Ha. unfold retry_delay, pow2_u32, MAX_BACKOFF_ATTEMPTS in *.
  rewrite (proj2 (N.ltb_lt _ _)) by lia. unfold Duration_checked_mul.
  assert (2 ^ N.pred attempt <= 2 ^ 7)%N as Hp by (apply N.pow_le_mono_r; lia).
  unfold MAX_BACKOFF_DURATION, Duration_from_secs in Hm. change (2 ^ 7)%N with 128%N in Hp.
  rewrite (proj2 (N.leb_le _ _)); [done|]. change Duration_MAX with 18446744073709551615999999999%N. nia.
Qed.

(** Backoff.  Under a valid policy no product overflows: the delay after the n-th
    failure is the initial backoff doubled n-1 times and capped at the maximum, so it
    lies between the two, never exceeds five minutes and never shrinks; and jitter
    moves a delay of at least two milliseconds only down, to no less than half. *)
Theorem backoff_is_bounded p p' attempt sample :
  ActivationPolicy_validate p = Ok p' -> (1 <= attempt <= ap_maximum_attempts p)%N -> 0 <= sample ->
  let delay := retry_delay p attempt in
  delay = N.min (ap_initial_backoff p * 2 ^ (attempt - 1)) (ap_maximum_backoff p)
  /\ (ap_initial_backoff p <= delay <= ap_maximum_backoff p)%N /\ (delay <= Duration_from_secs 300)%N
  /\ (retry_delay p (attempt - 1) <= delay)%N
  /\ (2 <= as_millis delay -> as_millis delay / 2 <= as_millis (jitter_delay_from delay sample) <= as_millis delay)
  /\ (jitter_delay_from delay sample <= delay)%N.
Proof.
  intros [-> Hp]%validate_policy Ha Hs delay. pose proof Hp as [_ Hi Hm Hat].
  assert (delay = N.min (ap_initial_backoff p * 2 ^ (attempt - 1)) (ap_maximum_backoff p)) as Ed.
  { unfold delay. rewrite retry_delay_eq by (done || lia). by rewrite N.sub_1_r. }
  assert (1 <= 2 ^ (attempt - 1))%N as Hpow by (apply (N.pow_le_mono_r 2 0); lia).
  assert (delay <= Duration_from_secs 300)%N as Hd by (unfold MAX_BACKOFF_DURATION in Hm; lia).
  split; [done|]. split; [nia|]. split; [done|]. split.
  { rewrite Ed, retry_delay_eq by (done || lia).
    assert (2 ^ N.pred (attempt - 1) <= 2 ^ (attempt - 1))%N by (apply N.pow_le_mono_r; lia). nia. }
  clearbody delay. clear Ed.
  assert (as_millis delay < 2 ^ 64) as Hlt.
  { unfold as_millis, Duration_from_secs in *. assert (delay / 1000000 <= 300 * 1000000000 / 1000000)%N by (apply N.Div0.div_le_mono; lia).
    change (300 * 1000000000 / 1000000)%N with 300000%N in *. lia. }
  assert (forall c, 2 <= c -> c / 2 <= c / 2 + sample mod (c - c / 2 + 1) <= c) as Hj.
  { intros c Hc. assert (0 <= c / 2 < c) by (split; [apply Z.div_pos; lia|apply Z.div_lt; lia]).
    pose proof (Z.mod_pos_bound sample (c - c / 2 + 1)) as Hb. lia. }
  unfold jitter_delay_from, ceiling_millis. assert ((as_millis delay <? 2 ^ 64) = true) as -> by (by apply Z.ltb_lt).
  destruct (as_millis delay <? 2) eqn:E2; bool_to_prop; [split; [lia|lia]|].
  specialize (Hj (as_millis delay) E2). assert (0 <= as_millis delay / 2) by (apply Z.div_pos; lia). set (x := as_millis delay / 2 + _) in *.
  assert (as_millis (Duration_from_millis (Z.to_N x)) = x) as Ex.
  { unfold as_millis at 1, Duration_from_millis. rewrite N.div_mul by lia. lia. }
  split; [intros _; by rewrite Ex|]. unfold Duration_from_millis, as_millis in *.
  pose proof (N.Div0.mul_div_le delay 1000000). nia.
Qed.

(** ** The machine's invariant *)
Definition busy (phase : ActivationPhase) : bool := bool_decide (phase ∈ [PhPending; PhWaking; PhRunning; PhBackoff]).

Record machine_ok (m : ActivationMachine) : Prop := {
  mo_policy : policy_ok (am_policy m);
  (** Mail is retained exactly while a wake is in progress, or kept for a blocked host. *)
  mo_pending : busy (am_phase m) = true -> am_pending m <> None;
  mo_idle : am_phase m = PhQuiet \/ am_phase m = PhStopped -> am_pending m = None /\ am_reconcile_needed m = false;
  mo_fresh : am_phase m = PhQuiet -> am_retry_attempt m = 0%N;
  mo_waiting : am_phase m = PhBackoff -> (1 <= am_retry_attempt m)%N;
  mo_budget : (am_retry_attempt m <= ap_maximum_attempts (am_policy m))%N;
  mo_unblocked : busy (am_phase m) = true -> (am_retry_attempt m < ap_maximum_attempts (am_policy m))%N }.

(** One operation of the machine, whatever its result. *)
Inductive activation_step (m : ActivationMachine) : ActivationMachine -> Prop :=
| as_observe pending : activation_step m (observe m pending).2
| as_started r m' : wake_started m = Ok (r, m') -> activation_step m m'
| as_accepted r m' : wake_accepted m = Ok (r, m') -> activation_step m m'
| as_completed r m' : wake_completed m = Ok (r, m') -> activation_step m m'
| as_retryable r m' : wake_retryable_failure m = Ok (r, m') -> activation_step m m'
| as_due r m' : retry_due m = Ok (r, m') -> activation_step m m'
| as_permanent r m' : wake_permanent_failure m = Ok (r, m') -> activation_step m m'
| as_stop : activation_step m (stop m)
| as_block : activation_step m (block m).

(** Case analysis on the phase, through the guards of the transitions. *)
Ltac phase_cases m :=
  destruct m as [policy phase pending reconcile attempt]; destruct phase; simplify_eq/=;
  unfold observe, wake_started, wake_accepted, wake_completed, wake_retryable_failure, retry_due, wake_permanent_failure,
    waking_or_running, mbind, result_bind, ok_or in *; simplify_eq/=; try done.

Lemma new_machine_ok policy m : ActivationMachine_new policy = Ok m -> machine_ok m.
Proof.
  unfold ActivationMachine_new. destruct (ActivationPolicy_validate policy) as [p|] eqn:E; [|done]. simpl.
  apply validate_policy in E as [-> Hp]. intros [= <-]. pose proof (po_attempts _ Hp).
  constructor; simpl; try done; intros; lia.
Qed.

Lemma u8_succ_small n : (n < 8)%N -> u8_succ n = (n + 1)%N.
Proof. unfold u8_succ. lia. Qed.

Lemma step_policy m m' : activation_step m m' -> am_policy m' = am_policy m.
Proof.
  destruct 1 as [pd|r m' E|r m' E|r m' E|r m' E|r m' E|r m' E| |]; phase_cases m;
    repeat case_match; simplify_eq/=; done.
Qed.

Lemma step_ok m m' : machine_ok m -> activation_step m m' -> machine_ok m'.
Proof.
  intros [Hp Hpe Hid Hfr Hwa Hbu Hun] Hs. pose proof (po_attempts _ Hp) as Hmax. unfold MAX_BACKOFF_ATTEMPTS in Hmax.
  assert (busy (am_phase m) = true -> u8_succ (am_retry_attempt m) = am_retry_attempt m + 1)%N as Hsucc
    by (intros Hb; apply u8_succ_small; specialize (Hun Hb); lia).
  destruct Hs as [pd|r m' E|r m' E|r m' E|r m' E|r m' E|r m' E| |]; phase_cases m;
    try specialize (Hsucc eq_refl); try specialize (Hun eq_refl); try specialize (Hfr eq_refl);
    try specialize (Hpe eq_refl); try specialize (Hwa eq_refl);
    repeat case_match; simplify_eq/=; try rewrite N.leb_le in *; try rewrite N.leb_gt in *;
    constructor; simpl; rewrite ?Hsucc; intros; try done; try lia;
    repeat match goal with Ho : _ \/ _ |- _ => destruct Ho; [done|] end; try done; eauto.
Qed.

Definition activation_reachable (m : ActivationMachine) : Prop :=
  exists policy m0, ActivationMachine_new policy = Ok m0 /\ rtc activation_step m0 m.

Lemma steps_ok m m' : machine_ok m -> rtc activation_step m m' -> machine_ok m'.
Proof. intros Hm Hs. induction Hs as [|m1 m2 m3 H12 _ IH]; [done|]. by eapply IH, step_ok. Qed.

(** Once stopped, always stopped; once blocked, until it is stopped. *)
Lemma stopped_step m m' : am_phase m = PhStopped -> activation_step m m' -> am_phase m' = PhStopped.
Proof. intros Hp Hs. destruct Hs as [pd|r m' E|r m' E|r m' E|r m' E|r m' E|r m' E| |]; phase_cases m. Qed.
Lemma blocked_step m m' :
  am_phase m = PhBlocked -> activation_step m m' -> am_phase m' = PhBlocked \/ am_phase m' = PhStopped.
Proof. intros Hp Hs. destruct Hs as [pd|r m' E|r m' E|r m' E|r m' E|r m' E|r m' E| |]; phase_cases m; auto. Qed.

(** C30: the activation machine keeps its invariant.  From a machine made with a valid
    policy, any sequence of operations keeps the policy valid and the retry count
    within its budget; a wake in progress always has its mail at hand, an idle or
    stopped machine has none; a stopped machine stays stopped and a blocked one can
    only be stopped. *)
Theorem activation_machine_invariant m m' :
  activation_reachable m -> rtc activation_step m m' ->
  machine_ok m'
  /\ (am_phase m = PhStopped -> am_phase m' = PhStopped)
  /\ (am_phase m = PhBlocked -> am_phase m' = PhBlocked \/ am_phase m' = PhStopped).
Proof.
  intros (policy & m0 & Hn & Hr) Hs. split; [|split].
  - eapply steps_ok; [|exact Hs]. eapply steps_ok; [|exact Hr]. by eapply new_machine_ok.
  - induction Hs as [|m1 m2 m3 H12 _ IH]; [done|]. intros Hp. apply IH; [by eapply rtc_r|]. by eapply stopped_step.
  - intros Hb. assert (am_phase m = PhBlocked \/ am_phase m = PhStopped) as Hor by auto. clear Hb Hr Hn. revert Hor.
    induction Hs as [|m1 m2 m3 H12 _ IH]; [done|]. intros [Hb|Hp]; apply IH.
    + by eapply blocked_step.
    + right. by eapply stopped_step.
Qed.

(** ** The loops *)

(** While a turn runs nothing else happens: [None] when the log says otherwise. *)
Fixpoint serial (running : bool) (log : list HostEvent) : option bool :=
  match log with
  | [] => Some running
  | HeCompleted _ :: rest => if running then serial false rest else None
  | HeAccepted _ :: rest => if running then None else serial true rest
  | _ :: rest => if running then None else serial false rest
  end.
Lemma serial_app log log' running :
  serial running (log ++ log') = match serial running log with Some r => serial r log' | None => None end.
Proof. revert running. induction log as [|[] log IH]; intros [] ; simpl; try done; apply IH. Qed.

Definition count_events (p : HostEvent -> bool) (log : list HostEvent) : nat := length (List.filter p log).
Lemma count_app p l l' : count_events p (l ++ l') = (count_events p l + count_events p l')%nat.
Proof. unfold count_events. by rewrite List.filter_app, length_app. Qed.
Definition is_start (e : HostEvent) : bool := match e with HeStart _ => true | _ => false end.
Definition is_accepted (e : HostEvent) : bool := match e with HeAccepted _ => true | _ => false end.

(** What a run of the inner loop does, from a machine with a pending wake. *)
Record driven (m : ActivationMachine) (s : Scene) (cancelled : bool) (m' : ActivationMachine) (s' : Scene)
    (evs : list HostEvent) : Prop := {
  dr_steps : rtc activation_step m m';
  dr_log : sc_log s' = sc_log s ++ evs;
  dr_observations : sc_observations s' = sc_observations s;
  dr_serial : exists running, serial false evs = Some running
    /\ (cancelled = false -> am_phase m' = PhBlocked \/ (am_phase m' = PhQuiet /\ running = false));
  dr_starts : (N.of_nat (count_events is_start evs) + am_retry_attempt m <= ap_maximum_attempts (am_policy m))%N;
  dr_accepted : (count_events is_accepted evs <= 1)%nat }.

Ltac quietly := exists false; split; [reflexivity|let Hc := fresh in intros Hc; first [discriminate Hc|auto]].
Ltac counts := unfold count_events; simpl; lia.

(** A failure before the turn starts either exhausts the budget or leads back to a pending wake. *)
Lemma retryable_failure m :
  machine_ok m -> am_phase m = PhWaking ->
  (exists m', wake_retryable_failure m = Ok (AcmNone, m') /\ am_phase m' = PhBlocked)
  \/ exists delay m1 retained m2, wake_retryable_failure m = Ok (AcmRetryAfter delay, m1)
     /\ retry_due m1 = Ok (AcmActivate retained, m2) /\ am_phase m2 = PhPending /\ am_policy m2 = am_policy m
     /\ am_retry_attempt m2 = (am_retry_attempt m + 1)%N.
Proof.
  intros Hok Hph. pose proof (mo_unblocked _ Hok) as Hun. pose proof (mo_pending _ Hok) as Hpe.
  pose proof (po_attempts _ (mo_policy _ Hok)) as Hat. unfold MAX_BACKOFF_ATTEMPTS in Hat.
  unfold wake_retryable_failure, waking_or_running. rewrite Hph in *. specialize (Hun eq_refl). specialize (Hpe eq_refl).
  simpl. rewrite u8_succ_small by lia. destruct (_ <=? _)%N; [left; by eexists|right].
  destruct (am_pending m) as [w|] eqn:Ew; [|done]. do 2 eexists. exists w. eexists. split; [reflexivity|].
  unfold retry_due. simpl. split; [reflexivity|done].
Qed.

(** An accepted turn completes, or blocks the machine, or is cut short. *)
Lemma accepted_turn m wake s :
  machine_ok m -> am_phase m = PhRunning ->
  exists cancelled m' s' evs,
    (let '(completed, s) := next_turn wake s in
     match completed with
     | AwCancelled _ => (Some true, m, s)
     | AwReady (Ok _) => (Some false, ignoring wake_completed m, s)
     | AwReady (Err _) => (Some false, ignoring wake_permanent_failure m, s)
     end) = (Some cancelled, m', s')
    /\ rtc activation_step m m' /\ sc_log s' = sc_log s ++ evs /\ sc_observations s' = sc_observations s
    /\ (exists running, serial true evs = Some running
        /\ (cancelled = false -> am_phase m' = PhBlocked \/ (am_phase m' = PhQuiet /\ running = false)))
    /\ count_events is_start evs = 0%nat /\ count_events is_accepted evs = 0%nat.
Proof.
  intros Hok Hph. unfold next_turn, ignoring.
  assert (wake_permanent_failure m = Ok (tt, set_phase m PhBlocked)) as Ep
    by (unfold wake_permanent_failure, waking_or_running; by rewrite Hph).
  assert (exists m', wake_completed m = Ok (AcmReconcileNow, m') /\ am_phase m' = PhQuiet) as (mc & Ec & Hq)
    by (unfold wake_completed, waking_or_running; rewrite Hph; by eexists).
  destruct (sc_turns s) as [|[b|[[]|e]] rest]; rewrite ?Ep, ?Ec; do 4 eexists; (split; [reflexivity|]); simpl.
  - split; [apply rtc_refl|]. split; [by rewrite app_nil_r|]. split; [done|]. split; [by exists true|done].
  - split; [apply rtc_refl|]. split; [done|]. split; [done|]. split; [by exists true|done].
  - split; [by eapply rtc_once, as_completed|]. split; [done|]. split; [done|]. split; [exists false; auto|done].
  - split; [by eapply rtc_once, as_permanent|]. split; [done|]. split; [done|]. split; [exists true; auto|done].
Qed.

Lemma drive_wake_driven fuel m wake s :
  machine_ok m -> am_phase m = PhPending ->
  (ap_maximum_attempts (am_policy m) - am_retry_attempt m <= N.of_nat fuel)%N ->
  exists cancelled m' s' evs, drive_wake fuel m wake s = (Some cancelled, m', s') /\ driven m s cancelled m' s' evs.
Proof.
  revert m wake s. induction fuel as [|fuel IH]; intros m wake s Hok Hph Hf;
    (pose proof (mo_unblocked _ Hok) as Hlt; rewrite Hph in Hlt; specialize (Hlt eq_refl)); [exfalso; lia|].
  assert (wake_started m = Ok (tt, set_phase m PhWaking)) as Hst.
  { unfold wake_started. pose proof (mo_pending _ Hok) as Hpe. rewrite Hph in *. specialize (Hpe eq_refl). by destruct (am_pending m). }
  assert (activation_step m (set_phase m PhWaking)) as Hs1 by (by eapply as_started).
  pose proof (step_ok _ _ Hok Hs1) as Hok1. set (m1 := set_phase m PhWaking) in *.
  cbn [drive_wake]. rewrite Hst. unfold next_start. destruct (sc_starts s) as [|st rest].
  { do 4 eexists. split; [reflexivity|]. constructor; [by apply rtc_once|by rewrite app_nil_r|done|by exists false|counts|counts]. }
  set (s1 := logging _ _). assert (sc_log s1 = sc_log s ++ polled st (HeStart wake)) as El by done.
  destruct st as [b|[[]|f]].
  - do 4 eexists. split; [reflexivity|].
    constructor; [by apply rtc_once|exact El|done|exists false; by destruct b|destruct b; counts|destruct b; counts].
  - assert (wake_accepted m1 = Ok (tt, set_phase m1 PhRunning)) as Ha by done. rewrite Ha.
    assert (activation_step m1 (set_phase m1 PhRunning)) as Hs2 by (by eapply as_accepted).
    destruct (accepted_turn (set_phase m1 PhRunning) wake (logging s1 [HeAccepted wake])) as
      (c & m' & s' & evs & E & Hs3 & Elog & Eobs & (running & Hser & Hend) & Hc1 & Hc2); [by eapply step_ok|done|].
    exists c, m', s', ([HeStart wake; HeAccepted wake] ++ evs). split; [exact E|].
    constructor; [|rewrite Elog; simpl; by rewrite <- !app_assoc|done|by exists running| |].
    + eapply rtc_l; [exact Hs1|]. by eapply rtc_l.
    + rewrite count_app, Hc1. counts.
    + rewrite count_app, Hc2. counts.
  - assert (activation_step m1 (set_phase m1 PhBlocked)) as Hs2 by (by eapply as_permanent).
    destruct f.
    2, 3: (do 4 eexists; split; [reflexivity|]; constructor;
      [by eapply rtc_l, rtc_once|exact El|done|quietly|counts|counts]).
    destruct (retryable_failure m1 Hok1 eq_refl) as [(m' & Er & Hb)|(d & m2 & w & m3 & E2 & E3 & Hp3 & Hpol & Hatt)].
    + rewrite Er. do 4 eexists. split; [reflexivity|]. constructor;
        [eapply rtc_l, rtc_once; [exact Hs1|by eapply as_retryable]|exact El|done|quietly|counts|counts].
    + change (am_policy m1) with (am_policy m) in Hpol. change (am_retry_attempt m1) with (am_retry_attempt m) in Hatt.
      rewrite E2. unfold draw_jitter. destruct (match sc_random s1 with [] => _ | _ => _ end) as [random rest'].
      set (d' := jitter_delay random d). set (s2 := {| sc_random := rest' |}).
      assert (rtc activation_step m m2) as Hs3 by (eapply rtc_l, rtc_once; [exact Hs1|by eapply as_retryable]).
      unfold wait_or_cancel. destruct (sc_waits s2) as [|[] waits].
      * do 4 eexists. split; [reflexivity|]. constructor; [exact Hs3|exact El|done|quietly|counts|counts].
      * do 4 eexists. split; [reflexivity|].
        constructor; [exact Hs3|simpl; rewrite <- app_assoc; reflexivity|done|quietly|counts|counts].
      * rewrite E3. set (s3 := logging _ [HePause d']).
        assert (rtc activation_step m m3) as Hs4 by (eapply rtc_r; [exact Hs3|by eapply as_due]).
        destruct (IH m3 w s3) as (c & m' & s' & evs & E & [Hst' Hlog Hobs (running & Hser & Hend) Hcs Hca]);
          [exact (steps_ok _ _ Hok Hs4)|done|rewrite Hpol, Hatt; simpl; lia|].
        exists c, m', s', ([HeStart wake; HePause d'] ++ evs). split; [exact E|].
        constructor; [by etrans|rewrite Hlog; simpl; by rewrite <- !app_assoc|by rewrite Hobs|by exists running| |].
        -- rewrite Hpol, Hatt in Hcs. rewrite count_app. revert Hcs. counts.
        -- rewrite count_app. revert Hca. counts.
Qed.

(** Observations that found mail. *)
Definition found_mail (a : Await (Result ObservationFailure (option WakeMetadata))) : bool :=
  match a with AwReady (Ok (Some _)) => true | _ => false end.

Lemma observe_quiet m w :
  machine_ok m -> am_phase m = PhQuiet ->
  exists m', observe m (Some w) = (AcmActivate w, m') /\ am_phase m' = PhPending /\ am_policy m' = am_policy m
    /\ am_retry_attempt m' = 0%N.
Proof.
  intros Hok Hph. pose proof (mo_fresh _ Hok Hph). unfold observe. rewrite Hph. simpl. eexists. split; [reflexivity|]. done.
Qed.

Lemma block_steps m : rtc activation_step m (block m).
Proof. apply rtc_once, as_block. Qed.

Lemma run_activation_runs fuel drive_fuel policy m next_wait failures s :
  machine_ok m -> am_phase m = PhQuiet -> am_policy m = policy -> (length (sc_observations s) < fuel)%nat ->
  (ap_maximum_attempts policy <= N.of_nat drive_fuel)%N ->
  exists m' s' evs, run_activation fuel drive_fuel policy m next_wait failures s = (Some tt, m', s')
    /\ rtc activation_step m m' /\ sc_log s' = sc_log s ++ evs /\ serial false evs <> None
    /\ (count_events is_accepted evs <= length (List.filter found_mail (sc_observations s)))%nat.
Proof.
  revert m next_wait failures s. induction fuel as [|fuel IH]; intros m next_wait failures s Hok Hph Hpol Hf Hd; [lia|].
  cbn [run_activation]. unfold next_observation. destruct (sc_observations s) as [|o rest] eqn:Eo.
  { do 3 eexists. split; [reflexivity|]. split; [apply rtc_refl|]. split; [by rewrite app_nil_r|]. split; [done|counts]. }
  set (s1 := logging _ _). assert (sc_log s1 = sc_log s ++ polled o (HeObserve next_wait)) as El by done.
  destruct o as [b|[pending|[]]].
  - do 3 eexists. split; [reflexivity|]. split; [apply rtc_refl|]. split; [exact El|]. split; [by destruct b|destruct b; counts].
  - destruct pending as [w|].
    + destruct (observe_quiet m w Hok Hph) as (m1 & E1 & Hp1 & Hpol1 & Hat1). rewrite E1.
      assert (activation_step m m1) as Hs1 by (pose proof (as_observe m (Some w)) as X; by rewrite E1 in X).
      destruct (drive_wake_driven drive_fuel m1 w s1) as (c & m2 & s2 & evs & E2 & [Hs2 Hlog Hobs (running & Hser & Hend) _ Hca]);
        [by eapply step_ok|done|rewrite Hpol1, Hpol, Hat1; lia|]. rewrite E2.
      assert (rtc activation_step m m2) as Hs3 by (by eapply rtc_l).
      assert (sc_log s2 = sc_log s ++ (HeObserve next_wait :: evs)) as El2 by (rewrite Hlog, El; by rewrite <- app_assoc).
      destruct c.
      { do 3 eexists. split; [reflexivity|]. split; [exact Hs3|]. split; [exact El2|].
        split; [simpl; by rewrite Hser|revert Hca; counts]. }
      case_bool_decide as Hb; simpl in Hb.
      { do 3 eexists. split; [reflexivity|]. split; [exact Hs3|]. split; [exact El2|].
        split; [simpl; by rewrite Hser|revert Hca; counts]. }
      destruct (Hend eq_refl) as [?|[Hq ->]]; [done|].
      destruct (IH m2 0%N 0%N s2) as (m' & s' & evs' & E3 & Hs4 & Hlog' & Hser' & Hca').
      { exact (steps_ok _ _ Hok Hs3). } { done. }
      { rewrite <- Hpol. clear -Hs3. induction Hs3 as [|a b c Hab _ IH]; [done|]. by rewrite IH, (step_policy _ _ Hab). }
      { rewrite Hobs. simpl in *. lia. } { done. }
      exists m', s', ((HeObserve next_wait :: evs) ++ evs'). split; [exact E3|]. split; [by etrans|].
      split; [rewrite Hlog', El2; by rewrite <- app_assoc|]. rewrite serial_app. cbn [serial]. rewrite Hser. split; [done|].
      rewrite Hobs in Hca'. simpl in Hca'. rewrite count_app. revert Hca Hca'. counts.
    + assert (observe m None = (AcmNone, m)) as -> by (unfold observe; by rewrite Hph).
      edestruct (IH m) as (m' & s' & evs' & E3 & Hs4 & Hlog' & Hser' & Hca'); [exact Hok|done|done| |done|].
      2:{ exists m', s', ([HeObserve next_wait] ++ evs'). split; [exact E3|]. split; [done|].
          split; [rewrite Hlog', El; by rewrite <- app_assoc|]. split; [done|]. rewrite count_app. revert Hca'. counts. }
      simpl in *. lia.
  - destruct (_ <=? _)%N.
    { do 3 eexists. split; [reflexivity|]. split; [apply block_steps|]. split; [exact El|]. split; [done|counts]. }
    unfold wait_or_cancel. destruct (sc_waits s1) as [|[] waits].
    { do 3 eexists. split; [reflexivity|]. split; [apply rtc_refl|]. split; [exact El|]. split; [done|counts]. }
    { do 3 eexists. split; [reflexivity|]. split; [apply rtc_refl|].
      split; [simpl; rewrite <- app_assoc; reflexivity|]. split; [done|counts]. }
    edestruct (IH m) as (m' & s' & evs' & E3 & Hs4 & Hlog' & Hser' & Hca'); [exact Hok|done|done| |done|].
    2:{ exists m', s', ([HeObserve next_wait; HePause (retry_delay policy (u8_succ failures))] ++ evs').
        split; [exact E3|]. split; [done|]. split; [rewrite Hlog'; simpl; by rewrite <- !app_assoc|].
        split; [done|]. rewrite count_app. revert Hca'. counts. }
    simpl in *. lia.
  - do 3 eexists. split; [reflexivity|]. split; [apply block_steps|]. split; [exact El|]. split; [done|counts].
Qed.

(** C31: the activation engine.  With a valid policy the engine's task ends whenever its
    script of observations ends, for every behaviour of the inbox, the host and the
    cancellation: no loop runs out of fuel.  The machine keeps its invariant; while a
    host turn runs nothing else is observed, started or accepted, so a turn that was
    accepted is never retried; and there is at most one turn for each observation that
    found mail. *)
Theorem activation_engine_is_serial policy s :
  policy_ok policy -> sc_log s = [] ->
  exists m s', activation_runtime policy s = Ok (Some tt, m, s')
    /\ machine_ok m /\ serial false (sc_log s') <> None
    /\ (count_events is_accepted (sc_log s') <= length (List.filter found_mail (sc_observations s)))%nat.
Proof.
  intros Hp Hl. unfold activation_runtime, ActivationMachine_new.
  rewrite (proj2 (validate_policy policy policy)) by done. simpl. set (m0 := {| am_policy := policy |}).
  assert (machine_ok m0) as Hm0.
  { apply (new_machine_ok policy). unfold ActivationMachine_new. by rewrite (proj2 (validate_policy policy policy)). }
  destruct (run_activation_runs (S (length (sc_observations s))) (N.to_nat MAX_BACKOFF_ATTEMPTS) policy m0
    (N.min (ap_reconcile_interval policy) (Duration_from_secs 30)) 0%N s Hm0 eq_refl eq_refl) as (m & s' & evs & E & Hs & Elog & Hser & Hc).
  { lia. } { pose proof (po_attempts _ Hp). lia. }
  exists m, s'. rewrite Hl in Elog. simpl in Elog. rewrite Elog. split; [by f_equal|]. split; [by eapply steps_ok|]. done.
Qed.

(** C32: one wake.  From a pending wake, [drive_wake] returns within the attempts its
    policy has left: it starts the host at most that often and has at most one turn
    accepted; unless it was cancelled the machine is afterwards quiet, with the turn
    completed, or blocked. *)
Theorem drive_wake_terminates m wake s fuel :
  machine_ok m -> am_phase m = PhPending -> (8 <= fuel)%nat ->
  exists cancelled m' s' evs, drive_wake fuel m wake s = (Some cancelled, m', s')
    /\ sc_log s' = sc_log s ++ evs
    /\ (N.of_nat (count_events is_start evs) <= ap_maximum_attempts (am_policy m) - am_retry_attempt m)%N
    /\ (count_events is_accepted evs <= 1)%nat
    /\ machine_ok m'
    /\ (cancelled = false -> am_phase m' = PhBlocked \/ (am_phase m' = PhQuiet /\ am_pending m' = None)).
Proof.
  intros Hok Hph Hf. pose proof (po_attempts _ (mo_policy _ Hok)) as Hat. unfold MAX_BACKOFF_ATTEMPTS in Hat.
  destruct (drive_wake_driven fuel m wake s Hok Hph) as (c & m' & s' & evs & E & [Hs Hlog _ (running & _ & Hend) Hcs Hca]); [lia|].
  pose proof (steps_ok _ _ Hok Hs) as Hok'. exists c, m', s', evs. split; [done|]. split; [done|]. split; [lia|]. split; [done|].
  split; [done|]. intros Hc. destruct (Hend Hc) as [?|[Hq _]]; [by left|]. right. split; [done|]. apply (mo_idle _ Hok'). by left.
Qed.

(** ** From the inbox to a wake *)
Lemma validate_identifier_ok value maximum e e' :
  validate_identifier value maximum e e' = Ok tt
  <-> value <> "" /\ len value <= maximum /\ forallb wake_char (as_bytes value) = true.
Proof.
  unfold validate_identifier, is_empty. case_bool_decide as Hv; [by split; [|intros [? _]]|].
  destruct (_ <? _) eqn:El; simpl; [split; [done|]; intros (_ & ? & _); bool_to_prop; lia|].
  bool_to_prop. destruct (forallb _ _); simpl; split; try done; by intros (_ & _ & ?).
Qed.

Lemma message_id_wakes value id :
  MessageId_new value = Ok id ->
  forall e e', validate_identifier value MAX_WAKE_MESSAGE_ID_BYTES e e' = Ok tt.
Proof.
  intros Hid e e'. apply id_new_iff in Hid as <-. apply validate_identifier_ok. pose proof (raw_true _ id) as Ho.
  revert Ho. generalize (raw id). clear id. intros v Ho.
  unfold id_ok in Ho. destruct (strip_prefix _ _) as [suffix|] eqn:Es; [|done]. bool_to_prop.
  apply strip_prefix_Some in Es as ->. split; [done|]. split; [done|].
  rewrite as_bytes_app, forallb_app. apply andb_true_iff. split; [done|].
  eapply forallb_impl; [|eassumption]. apply char_cases. vm_compute. reflexivity.
Qed.

(** The wake that a validated inbox page calls for.  For every page that passes the
    protocol's validation, and a profile and squad within the wake contract, there is no
    wake when nothing is pending, and the page's own count, priority and oldest message
    otherwise; only a count beyond the contract's million fails, and for good. *)
Theorem valid_inbox_wakes profile squad response :
  validate response = Ok tt ->
  SessionActivationSource_new profile squad = Ok (profile, squad) ->
  wake_from_inbox profile squad response =
    (if ibr_pending_count response =? 0 then Ok None
    else if MAX_WAKE_PENDING_COUNT <? ibr_pending_count response then Err ObsPermanent
    else match ibr_highest_priority response, ibr_oldest_message_id response with
    | Some priority, Some oldest =>
        Ok (Some {| wm_profile := profile; wm_squad := squad; wm_pending_count := ibr_pending_count response;
                    wm_highest_priority := priority; wm_oldest_message_id := oldest |})
    | _, _ => Err ObsPermanent
    end)
  /\ (ibr_pending_count response <> 0 -> ibr_highest_priority response <> None /\ ibr_oldest_message_id response <> None).
Proof.
  intros Hv Hs. unfold validate, InboxResponse_validate, mbind, result_bind in Hv.
  destruct (refuse _ _) as [[]|]; [|done]. destruct (validate_message_page _ _) as [[]|]; [|done].
  destruct (refuse _ _) as [[]|]; [|done].
  assert (ibr_pending_count response <> 0 -> exists p o id, ibr_highest_priority response = Some p
    /\ ibr_oldest_message_id response = Some o /\ MessageId_new o = Ok id) as Hp.
  { intros Hn. apply Z.eqb_neq in Hn. rewrite Hn in Hv. simpl in Hv. destruct (_ && _) eqn:E in Hv; [|done]. bool_to_prop.
    destruct (ibr_highest_priority response) as [p|]; [|done].
    destruct (ibr_messages response) as [|msg msgs]; [done|]. simpl in *.
    destruct (ibr_oldest_message_id response) as [o|]; [|done]. simpl in Hv.
    destruct (MessageId_new o) as [id|] eqn:Ei; [|done]. by exists p, o, id. }
  unfold SessionActivationSource_new, mbind, result_bind in Hs.
  destruct (validate_identifier profile _ _ _) as [[]|] eqn:Epr; [|done].
  destruct (validate_identifier squad _ _ _) as [[]|] eqn:Esq; [|done].
  unfold wake_from_inbox. destruct (_ =? 0) eqn:E0; bool_to_prop; [split; [done|]; lia|].
  destruct (Hp E0) as (p & o & id & -> & -> & Hid). split; [|by intros _]. simpl.
  unfold WakeMetadata_new, mbind, result_bind. rewrite Epr, Esq. rewrite (proj2 (Z.eqb_neq _ _)) by done. simpl.
  destruct (_ <? _); [done|]. by rewrite (message_id_wakes _ _ Hid).
Qed.

(** ** The notice *)
Lemma pretty_go_digits n s :
  forallb is_ascii_digit (as_bytes s) = true -> forallb is_ascii_digit (as_bytes (pretty_N_go n s)) = true.
Proof.
  revert s. induction (N.lt_wf_0 n) as [n _ IH]. intros s Hs.
  destruct (decide (n = 0)%N) as [->|Hn]; [by rewrite pretty_N_go_0|].
  rewrite pretty_N_go_step by lia. apply IH; [apply N.div_lt; lia|]. simpl. rewrite Hs, andb_true_r.
  pose proof (N.mod_lt n 10). generalize dependent (n mod 10)%N. intros k Hk.
  assert (k = 0 \/ k = 1 \/ k = 2 \/ k = 3 \/ k = 4 \/ k = 5 \/ k = 6 \/ k = 7 \/ k = 8 \/ k = 9)%N as Hc by lia.
  by destruct Hc as [->|[->|[->|[->|[->|[->|[->|[->|[->| ->]]]]]]]]].
Qed.
Lemma pretty_digits (z : Z) : 0 <= z -> forallb is_ascii_digit (as_bytes (pretty z)) = true.
Proof.
  intros Hz. destruct z as [|p|p]; [done| |done].
  change (pretty (Z.pos p)) with (pretty_N_go (N.pos p) ""). by apply pretty_go_digits.
Qed.

(** Printable ASCII: one line that no terminal or prompt can misread. *)
Definition printable_ascii (b : ascii) : bool := (32 <=? byte_val b) && (byte_val b <? 127).

Lemma wake_printable s : forallb wake_char (as_bytes s) = true -> forallb printable_ascii (as_bytes s) = true.
Proof. apply forallb_impl, char_cases. vm_compute. reflexivity. Qed.

(** The notice a host is woken with is built from fixed text, validated identifiers
    and a number, so whatever profile, squad and inbox it comes from it is one line of
    printable ASCII. *)
Theorem fixed_notice_is_printable profile squad count priority oldest w :
  WakeMetadata_new profile squad count priority oldest = Ok w -> 0 <= count ->
  forallb printable_ascii (as_bytes (fixed_notice w)) = true.
Proof.
  unfold WakeMetadata_new, mbind, result_bind. intros Hw Hc.
  destruct (validate_identifier profile _ _ _) as [[]|] eqn:E1; [|done].
  destruct (validate_identifier squad _ _ _) as [[]|] eqn:E2; [|done]. destruct (_ || _); [done|].
  destruct (validate_identifier oldest _ _ _) as [[]|] eqn:E3; [|done]. injection Hw as <-.
  apply validate_identifier_ok in E1 as (_ & _ & H1), E2 as (_ & _ & H2), E3 as (_ & _ & H3).
  unfold fixed_notice. cbn [wm_profile wm_squad wm_pending_count wm_highest_priority wm_oldest_message_id].
  rewrite !as_bytes_app, !forallb_app, (wake_printable _ H1), (wake_printable _ H2), (wake_printable _ H3).
  assert (forallb printable_ascii (as_bytes (pretty count)) = true) as ->.
  { eapply forallb_impl; [|by apply pretty_digits]. apply char_cases. vm_compute. reflexivity. }
  by destruct priority.
Qed.

(** ** Examples *)
Definition demo_wake : WakeMetadata :=
  {| wm_profile := "dev"; wm_squad := "demo"; wm_pending_count := 2; wm_highest_priority := HighDto;
     wm_oldest_message_id := "msg_1" |}.
Definition quiet_machine : ActivationMachine :=
  {| am_policy := ActivationPolicy_default; am_phase := PhQuiet; am_pending := None; am_reconcile_needed := false;
     am_retry_attempt := 0 |}.
Definition pending_machine : ActivationMachine := (observe quiet_machine (Some demo_wake)).2.

(** Mail is found; the host is not ready at first, then runs the turn; nothing more is found. *)
Definition demo_scene : Scene :=
  {| sc_observations := [AwReady (Ok (Some demo_wake)); AwReady (Ok None)];
     sc_starts := [AwReady (Err RetryableBeforeStart); AwReady (Ok tt)]; sc_turns := [AwReady (Ok tt)];
     sc_waits := [false]; sc_random := [Some 7]; sc_log := [] |}.
Example demo_scene_log :
  match activation_runtime ActivationPolicy_default demo_scene with
  | Ok (_, m, s) => am_phase m = PhQuiet
      /\ sc_log s = [HeObserve (Duration_from_secs 30); HeStart demo_wake; HePause (Duration_from_millis 507);
                     HeStart demo_wake; HeAccepted demo_wake; HeCompleted demo_wake; HeObserve 0%N]
  | Err _ => False
  end.
Proof. vm_compute. done. Qed.

Lemma default_policy_ok : policy_ok ActivationPolicy_default.
Proof. by apply (validate_policy ActivationPolicy_default ActivationPolicy_default). Qed.

Lemma backoff_is_bounded_witness :
  (jitter_delay_from (retry_delay ActivationPolicy_default 3) 12345 <= retry_delay ActivationPolicy_default 3)%N
  /\ retry_delay ActivationPolicy_default 3 = Duration_from_secs 4.
Proof.
  split; [|reflexivity].
  apply (backoff_is_bounded ActivationPolicy_default ActivationPolicy_default 3 12345);
    [reflexivity|split; discriminate|discriminate].
Defined.

Lemma quiet_reachable : activation_reachable quiet_machine.
Proof. exists ActivationPolicy_default, quiet_machine. split; [reflexivity|apply rtc_refl]. Qed.
Lemma activation_machine_invariant_witness : machine_ok pending_machine.
Proof.
  apply (activation_machine_invariant quiet_machine pending_machine quiet_reachable). apply rtc_once, as_observe.
Defined.

Lemma activation_engine_is_serial_witness :
  exists m s', activation_runtime ActivationPolicy_default demo_scene = Ok (Some tt, m, s')
    /\ serial false (sc_log s') <> None.
Proof.
  destruct (activation_engine_is_serial ActivationPolicy_default demo_scene default_policy_ok eq_refl)
    as (m & s' & E & _ & Hs & _).
  exists m, s'. split; [exact E|exact Hs].
Defined.

Lemma pending_machine_ok : machine_ok pending_machine.
Proof. eapply step_ok; [|apply (as_observe quiet_machine (Some demo_wake))]. by apply (new_machine_ok ActivationPolicy_default). Qed.
Lemma drive_wake_terminates_witness :
  exists cancelled m' s', drive_wake 8 pending_machine demo_wake demo_scene = (Some cancelled, m', s') /\ machine_ok m'.
Proof.
  destruct (drive_wake_terminates pending_machine demo_wake demo_scene 8 pending_machine_ok eq_refl)
    as (c & m' & s' & evs & E & _ & _ & _ & Hok & _); [lia|].
  exists c, m', s'. split; [exact E|exact Hok].
Defined.

Definition demo_message : MessageDto :=
  {| md_sequence := Checked sequence_ok 1 I; md_id := "msg_1"; md_squad := "demo"; md_sender := "alice"; md_recipient := "bob";
     md_body := "hello"; md_priority := HighDto; md_reply_to := None; md_correlation_id := None;
     md_created_at := {| ts_nanos := 0 |}; md_acknowledged_at := None |}.
Definition demo_page : InboxResponse :=
  {| ibr_messages := [demo_message]; ibr_pending_count := 2; ibr_highest_priority := Some HighDto;
     ibr_oldest_message_id := Some "msg_1" |}.
Lemma valid_inbox_wakes_witness : wake_from_inbox "dev" "demo" demo_page = Ok (Some demo_wake).
Proof. apply (valid_inbox_wakes "dev" "demo" demo_page); vm_compute; reflexivity. Defined.

Lemma fixed_notice_is_printable_witness : forallb printable_ascii (as_bytes (fixed_notice demo_wake)) = true.
Proof. apply (fixed_notice_is_printable "dev" "demo" 2 HighDto "msg_1" demo_wake); [reflexivity|discriminate]. Defined.
