(* ===== verification/Ledger.v ===== *)
(** * Ledger: the sends and reports a session owns (psst-application/src/session.rs)

    [SendLedger] coalesces the sends of one idempotency key, keeps their results for
    later callers, and bounds what it keeps; [ReportTracker] bounds the concurrent
    availability reports.  Shared entries ([Arc<SendEntry>]) are identified by the order
    in which they were made, and their mutable part, the terminal result, lives in a store
    beside the map, since callers hold entries the map has dropped. *)
From stdpp Require Import gmap.
From S2P Require Import Prelude Text Core Files Dto Validation Client Failure.

Definition MAX_ACTIVE_REPORTS : Z := 8.
Definition MAX_OWNED_SENDS : nat := 64.
Definition MAX_OWNED_SEND_BYTES : Z := 1024 * 1024.
Definition OWNED_SEND_FIXED_BYTES : Z := 1024.

(** ** Stored errors *)
Inductive StoredClientError : Set :=
| StInvalidBaseUrl | StInvalidConfiguration | StInvalidRequest | StMalformedCredential | StOutcomeUnknown | StTimeout
| StApi (status : Z) (code : ApiErrorCode) (retryable : bool)
| StMalformedResponse (status : Z)
| StResponseTooLarge
| StUnexpectedHttp (status : Z)
| StClientBusy
| StRetryExhausted (attempts : Z) (last : StoredClientError).

Fixpoint StoredClientError_capture (error : ClientError) : StoredClientError :=
  match error with
  | CeInvalidBaseUrl => StInvalidBaseUrl
  | CeInvalidConfiguration => StInvalidConfiguration
  | CeInvalidRequest => StInvalidRequest
  | CeMalformedCredential => StMalformedCredential
  | CeTransport _ | CeOutcomeUnknown => StOutcomeUnknown
  | CeTimeout => StTimeout
  | CeApi status code retryable => StApi status code retryable
  | CeMalformedResponse status => StMalformedResponse status
  | CeResponseTooLarge => StResponseTooLarge
  | CeUnexpectedHttp status => StUnexpectedHttp status
  | CeClientBusy => StClientBusy
  | CeRetryExhausted attempts last => StRetryExhausted attempts (StoredClientError_capture last)
  end.

Fixpoint StoredClientError_restore (self : StoredClientError) : ClientError :=
  match self with
  | StInvalidBaseUrl => CeInvalidBaseUrl
  | StInvalidConfiguration => CeInvalidConfiguration
  | StInvalidRequest => CeInvalidRequest
  | StMalformedCredential => CeMalformedCredential
  | StOutcomeUnknown => CeOutcomeUnknown
  | StTimeout => CeTimeout
  | StApi status code retryable => CeApi status code retryable
  | StMalformedResponse status => CeMalformedResponse status
  | StResponseTooLarge => CeResponseTooLarge
  | StUnexpectedHttp status => CeUnexpectedHttp status
  | StClientBusy => CeClientBusy
  | StRetryExhausted attempts last => CeRetryExhausted attempts (StoredClientError_restore last)
  end.

Inductive StoredSendFailure : Set := StoredRelay (e : StoredClientError) | StoredNotReady.
Definition SendTerminal : Set := Result StoredSendFailure SendMessageResponse.

#[global] Instance MessagePriorityDto_eq_dec : EqDecision MessagePriorityDto.
Proof. solve_decision. Defined.

Definition validate_owned_send_response (request : PreparedSend) (squad_name : string) (response : SendMessageResponse)
    : Result StoredSendFailure unit :=
  let expected := ps_request request in
  let message := smp_message response in
  if bool_decide (md_squad message <> squad_name) || bool_decide (md_recipient message <> smr_recipient expected)
     || bool_decide (md_body message <> smr_body expected) || bool_decide (md_priority message <> smr_priority expected)
     || bool_decide (md_reply_to message <> smr_reply_to expected)
     || bool_decide (md_correlation_id message <> smr_correlation_id expected)
  then Err (StoredRelay (StMalformedResponse 200))
  else Ok tt.

(** [value.as_ref().map_or(0, String::len)]. *)
Definition opt_len (o : option string) : Z := match o with Some s => len s | None => 0 end.

Infix "⊕" := usize_saturating_add (at level 50, left associativity).

Definition send_terminal_retained_bytes (result : SendTerminal) : Z :=
  match result with
  | Ok response =>
      let message := smp_message response in
      OWNED_SEND_FIXED_BYTES ⊕ len (md_id message) ⊕ len (md_squad message) ⊕ len (md_sender message)
      ⊕ len (md_recipient message) ⊕ len (md_body message) ⊕ opt_len (md_reply_to message)
      ⊕ opt_len (md_correlation_id message)
  | Err _ => OWNED_SEND_FIXED_BYTES
  end.

(** ** The ledger *)
Record SendEntry : Set := { en_id : nat; en_retained_bytes : Z }.
Record SendLedger : Set := {
  sl_accepting : bool; sl_retained_bytes : Z; sl_inflight : Z; sl_entries : gmap string SendEntry;
  sl_terminal_fifo : list string; sl_admission_open : bool; sl_permanently_closed : bool;
  (** The entries made so far, and their terminal results. *)
  sl_made : nat; sl_terminals : gmap nat SendTerminal }.

Definition SendLedger_new : SendLedger :=
  {| sl_accepting := true; sl_retained_bytes := 0; sl_inflight := 0; sl_entries := ∅; sl_terminal_fifo := [];
     sl_admission_open := true; sl_permanently_closed := false; sl_made := 0; sl_terminals := ∅ |}.

Inductive SendReservation : Set := Existing (entry : SendEntry) | New (entry : SendEntry).

Definition request_bytes (request : SendMessageRequest) : Z :=
  let request_strings := len (smr_recipient request) ⊕ len (smr_body request) ⊕ len (smr_dedupe_key request)
                         ⊕ opt_len (smr_reply_to request) ⊕ opt_len (smr_correlation_id request) in
  usize_saturating_mul request_strings 2 ⊕ OWNED_SEND_FIXED_BYTES.

(** [usize::saturating_sub]. *)
Definition usize_saturating_sub (a b : Z) : Z := Z.max 0 (a - b).

Definition crowded (entries : gmap string SendEntry) (retained bytes : Z) : bool :=
  (MAX_OWNED_SENDS <=? size entries)%nat || (MAX_OWNED_SEND_BYTES <? retained ⊕ bytes).

(** The loop that evicts finished entries, oldest first. *)
Fixpoint evict (bytes : Z) (entries : gmap string SendEntry) (retained : Z) (fifo : list string)
    : gmap string SendEntry * Z * list string :=
  match fifo with
  | [] => (entries, retained, [])
  | key :: rest =>
      if crowded entries retained bytes then
        match entries !! key with
        | Some entry => evict bytes (delete key entries) (usize_saturating_sub retained (en_retained_bytes entry)) rest
        | None => evict bytes entries retained rest
        end
      else (entries, retained, fifo)
  end.

(** [reserve] with the lock held; the same two flags are also checked before it waits
    for the lock, [open_before]. *)
Definition reserve (self : SendLedger) (open_before : bool) (request : PreparedSend)
    : Result SessionError SendReservation * SendLedger :=
  if negb open_before then (Err SeNotReady, self)
  else if sl_permanently_closed self || negb (sl_accepting self) || negb (sl_admission_open self)
  then (Err SeNotReady, self)
  else
    let key := ps_identity request in
    match sl_entries self !! key with
    | Some entry => (Ok (Existing entry), self)
    | None =>
        let bytes := request_bytes (ps_request request) in
        let '(entries, retained, fifo) := evict bytes (sl_entries self) (sl_retained_bytes self) (sl_terminal_fifo self) in
        if crowded entries retained bytes then
          (Err SeSendCapacity,
           {| sl_accepting := sl_accepting self; sl_retained_bytes := retained; sl_inflight := sl_inflight self;
              sl_entries := entries; sl_terminal_fifo := fifo; sl_admission_open := sl_admission_open self;
              sl_permanently_closed := sl_permanently_closed self; sl_made := sl_made self; sl_terminals := sl_terminals self |})
        else
          let entry := {| en_id := sl_made self; en_retained_bytes := bytes |} in
          (Ok (New entry),
           {| sl_accepting := sl_accepting self; sl_retained_bytes := retained + bytes; sl_inflight := sl_inflight self + 1;
              sl_entries := <[key := entry]> entries; sl_terminal_fifo := fifo; sl_admission_open := sl_admission_open self;
              sl_permanently_closed := sl_permanently_closed self; sl_made := S (sl_made self);
              sl_terminals := sl_terminals self |})
    end.

Definition finish (self : SendLedger) (key : string) (entry : SendEntry) (result : SendTerminal) : SendLedger :=
  let retain_terminal := send_terminal_retained_bytes result <=? en_retained_bytes entry in
  let removed := negb retain_terminal && opt_is_some (sl_entries self !! key) in
  {| sl_accepting := sl_accepting self;
     sl_retained_bytes := if removed then usize_saturating_sub (sl_retained_bytes self) (en_retained_bytes entry)
                          else sl_retained_bytes self;
     sl_inflight := usize_saturating_sub (sl_inflight self) 1;
     sl_entries := if retain_terminal then sl_entries self else delete key (sl_entries self);
     sl_terminal_fifo := if retain_terminal then sl_terminal_fifo self ++ [key] else sl_terminal_fifo self;
     sl_admission_open := sl_admission_open self; sl_permanently_closed := sl_permanently_closed self;
     sl_made := sl_made self; sl_terminals := <[en_id entry := result]> (sl_terminals self) |}.

Definition with_flags (self : SendLedger) (accepting admission_open permanently_closed : bool) : SendLedger :=
  {| sl_accepting := accepting; sl_retained_bytes := sl_retained_bytes self; sl_inflight := sl_inflight self;
     sl_entries := sl_entries self; sl_terminal_fifo := sl_terminal_fifo self; sl_admission_open := admission_open;
     sl_permanently_closed := permanently_closed; sl_made := sl_made self; sl_terminals := sl_terminals self |}.

Definition stop_admission (self : SendLedger) : SendLedger :=
  with_flags self (sl_accepting self) false (sl_permanently_closed self).
(** The first part of [stop_and_drain], up to the wait for [inflight] to become zero. *)
Definition stop_accepting (self : SendLedger) : SendLedger :=
  with_flags self false false (sl_permanently_closed self).
Definition drained (self : SendLedger) : bool := sl_inflight self =? 0.
Definition reopen_admission (self : SendLedger) : SendLedger :=
  if sl_permanently_closed self then self else with_flags self true true false.
Definition SendLedger_close_permanently (self : SendLedger) : SendLedger :=
  with_flags self (sl_accepting self) false true.

(** What [await_send] returns once the entry has its terminal result. *)
Definition await_send (self : SendLedger) (entry : SendEntry) : option (Result SessionError SendMessageResponse) :=
  map_err (fun error => match error with
    | StoredRelay error => SeRelay (StoredClientError_restore error)
    | StoredNotReady => SeNotReady
    end) <$> sl_terminals self !! en_id entry.

(** ** The tracker of reports *)
Record ReportTracker : Set := { rt_active : Z; rt_cancelled : bool; rt_permanently_closed : bool }.
Definition ReportTracker_new : ReportTracker := {| rt_active := 0; rt_cancelled := false; rt_permanently_closed := false |}.

(** The compare-and-exchange loop of [register], which other threads' [finish] may
    disturb: [seen] lists the values that failed exchanges observe. *)
Fixpoint register_loop (active : Z) (seen : list Z) : Result SessionError Z :=
  if MAX_ACTIVE_REPORTS <=? active then Err SeOperationCapacity
  else match seen with
  | [] => Ok (active + 1)
  | observed :: rest => register_loop observed rest
  end.
Definition register (self : ReportTracker) (seen : list Z) : Result SessionError ReportTracker :=
  if rt_permanently_closed self || rt_cancelled self then Err SeNotReady
  else
    active ← register_loop (rt_active self) seen;
    Ok {| rt_active := active; rt_cancelled := rt_cancelled self; rt_permanently_closed := rt_permanently_closed self |}.
Definition ReportTracker_finish (self : ReportTracker) : ReportTracker :=
  {| rt_active := rt_active self - 1; rt_cancelled := rt_cancelled self; rt_permanently_closed := rt_permanently_closed self |}.
Definition ReportTracker_cancel (self : ReportTracker) : ReportTracker :=
  {| rt_active := rt_active self; rt_cancelled := true; rt_permanently_closed := rt_permanently_closed self |}.
Definition ReportTracker_close_permanently (self : ReportTracker) : ReportTracker :=
  {| rt_active := rt_active self; rt_cancelled := true; rt_permanently_closed := true |}.
Definition ReportTracker_reopen (self : ReportTracker) : ReportTracker :=
  if rt_permanently_closed self then self
  else {| rt_active := rt_active self; rt_cancelled := false; rt_permanently_closed := false |}.
