(* ===== verification/Owning.v ===== *)
(** * Owning: the invariant of the send ledger and what callers can rely on *)
From stdpp Require Import gmap.
From S2P Require Import Prelude Text Core Files Dto Validation Client Failure Ledger.

(** ** Bytes of a map of entries *)
Definition sum_bytes (m : gmap string SendEntry) : Z := map_fold (fun _ e acc => en_retained_bytes e + acc) 0 m.

Lemma sum_bytes_insert m k e : m !! k = None -> sum_bytes (<[k := e]> m) = en_retained_bytes e + sum_bytes m.
Proof. intros Hk. unfold sum_bytes. rewrite map_fold_insert_L; [done|intros; lia|done]. Qed.
Lemma sum_bytes_delete m k e : m !! k = Some e -> sum_bytes m = en_retained_bytes e + sum_bytes (delete k m).
Proof.
  intros Hk. rewrite <- (insert_id m k e Hk) at 1. rewrite <- insert_delete_eq. apply sum_bytes_insert, lookup_delete_eq.
Qed.
Lemma sum_bytes_nonneg m : (forall k e, m !! k = Some e -> 0 <= en_retained_bytes e) -> 0 <= sum_bytes m.
Proof.
  induction m as [|k e m Hk IH] using map_ind; intros Hm; [done|]. rewrite sum_bytes_insert by done.
  pose proof (Hm k e (lookup_insert_eq _ _ _)). assert (0 <= sum_bytes m); [|lia]. apply IH. intros k' e' He'.
  apply (Hm k'). rewrite lookup_insert_ne; [done|]. intros ->. congruence.
Qed.

(** ** The ledger and the tasks that own its unfinished sends *)
Definition Owned : Set := list (string * SendEntry).

Record ledger_ok (s : SendLedger) (owned : Owned) : Prop := {
  lo_sum : sl_retained_bytes s = sum_bytes (sl_entries s);
  lo_bytes : sl_retained_bytes s <= MAX_OWNED_SEND_BYTES;
  lo_size : (size (sl_entries s) <= MAX_OWNED_SENDS)%nat;
  lo_entry : forall k e, sl_entries s !! k = Some e -> 0 <= en_retained_bytes e /\ (en_id e < sl_made s)%nat;
  lo_ids : forall k k' e e', sl_entries s !! k = Some e -> sl_entries s !! k' = Some e' -> en_id e = en_id e' -> k = k';
  (** Every owned send has its entry, without a result; every other entry is finished and queued for eviction. *)
  lo_owned : forall k e, (k, e) ∈ owned -> sl_entries s !! k = Some e /\ sl_terminals s !! en_id e = None;
  lo_owners : NoDup (map fst owned);
  lo_fifo : NoDup (sl_terminal_fifo s);
  lo_queue : forall k, k ∈ sl_terminal_fifo s <-> exists e, sl_entries s !! k = Some e /\ is_Some (sl_terminals s !! en_id e);
  lo_split : forall k e, sl_entries s !! k = Some e -> k ∈ map fst owned \/ k ∈ sl_terminal_fifo s;
  lo_inflight : sl_inflight s = Z.of_nat (length owned);
  lo_fresh : forall i, (sl_made s <= i)%nat -> sl_terminals s !! i = None }.

(** Reserving starts a task for a new entry, and the task finishes it once; the flags
    change at any time. *)
Inductive ledger_step : SendLedger * Owned -> SendLedger * Owned -> Prop :=
| ls_reserve s owned open_before request r s' :
    reserve s open_before request = (r, s') ->
    ledger_step (s, owned)
      (s', match r with Ok (New e) => (ps_identity request, e) :: owned | _ => owned end)
| ls_finish s owned1 owned2 key entry result :
    ledger_step (s, owned1 ++ (key, entry) :: owned2) (finish s key entry result, owned1 ++ owned2)
| ls_stop s owned : ledger_step (s, owned) (stop_admission s, owned)
| ls_stop_accepting s owned : ledger_step (s, owned) (stop_accepting s, owned)
| ls_reopen s owned : ledger_step (s, owned) (reopen_admission s, owned)
| ls_close s owned : ledger_step (s, owned) (SendLedger_close_permanently s, owned).

Definition ledger_reachable (s : SendLedger) (owned : Owned) : Prop := rtc ledger_step (SendLedger_new, []) (s, owned).

Lemma new_ledger_ok : ledger_ok SendLedger_new [].
Proof.
  constructor; simpl; try done; try apply NoDup_nil_2.
  - rewrite map_size_empty. lia.
  - by intros k e ?%not_elem_of_nil.
  - intros k. split; [by intros ?%not_elem_of_nil|by intros (e & ? & _)].
Qed.

Lemma flags_ok s owned a b c : ledger_ok s owned -> ledger_ok (with_flags s a b c) owned.
Proof. intros []. by constructor. Qed.

(** ** Eviction *)
Definition set_core (s : SendLedger) (entries : gmap string SendEntry) (retained : Z) (fifo : list string) : SendLedger :=
  {| sl_accepting := sl_accepting s; sl_retained_bytes := retained; sl_inflight := sl_inflight s; sl_entries := entries;
     sl_terminal_fifo := fifo; sl_admission_open := sl_admission_open s; sl_permanently_closed := sl_permanently_closed s;
     sl_made := sl_made s; sl_terminals := sl_terminals s |}.

Lemma owned_not_queued s owned k e : ledger_ok s owned -> (k, e) ∈ owned -> k ∉ sl_terminal_fifo s.
Proof.
  intros Hok Ho Hq. destruct (lo_owned _ _ Hok _ _ Ho) as [E1 E2].
  apply (lo_queue _ _ Hok) in Hq as (e' & E1' & [t Ht]). congruence.
Qed.

Lemma evict_one s owned key rest e :
  ledger_ok s owned -> sl_terminal_fifo s = key :: rest -> sl_entries s !! key = Some e ->
  ledger_ok (set_core s (delete key (sl_entries s)) (usize_saturating_sub (sl_retained_bytes s) (en_retained_bytes e)) rest) owned.
Proof.
  intros Hok Ef Ee. pose proof Hok as [Hsum Hby Hsz Hen Hid Hown Hnd Hf Hq Hsp Hin Hfr].
  rewrite Ef in *. apply NoDup_cons in Hf as [Hk Hf].
  assert (0 <= sum_bytes (delete key (sl_entries s))) as Hpos.
  { apply sum_bytes_nonneg. intros k e' [_ He']%lookup_delete_Some. by apply (Hen k). }
  pose proof (sum_bytes_delete _ _ _ Ee) as Hsd. destruct (Hen _ _ Ee) as [Hb _].
  assert (usize_saturating_sub (sl_retained_bytes s) (en_retained_bytes e) = sum_bytes (delete key (sl_entries s))) as Er
    by (unfold usize_saturating_sub; lia).
  constructor; simpl; rewrite ?Er; try done.
  - lia.
  - rewrite map_size_delete_Some by eauto. lia.
  - intros k e' [_ He']%lookup_delete_Some. by apply (Hen k).
  - intros k k' e1 e2 [_ H1]%lookup_delete_Some [_ H2]%lookup_delete_Some. by apply Hid.
  - intros k e' Ho. destruct (Hown _ _ Ho) as [H1 H2]. split; [|done]. rewrite lookup_delete_ne; [done|].
    intros ->. apply (owned_not_queued _ _ _ _ Hok Ho). rewrite Ef. left.
  - intros k. split.
    + intros Hr. destruct (proj1 (Hq k)) as (e' & H1 & H2); [by right|]. exists e'. split; [|done].
      rewrite lookup_delete_ne; [done|]. by intros ->.
    + intros (e' & [Hne H1]%lookup_delete_Some & H2). assert (k ∈ key :: rest) as [->|]%elem_of_cons by (apply Hq; eauto); done.
  - intros k e' [Hne H1]%lookup_delete_Some. destruct (Hsp _ _ H1) as [|[->|]%elem_of_cons]; auto. done.
Qed.

Lemma set_core_id s : set_core s (sl_entries s) (sl_retained_bytes s) (sl_terminal_fifo s) = s.
Proof. by destruct s. Qed.

Lemma evict_ok bytes s owned :
  ledger_ok s owned ->
  let '(entries, retained, fifo) := evict bytes (sl_entries s) (sl_retained_bytes s) (sl_terminal_fifo s) in
  ledger_ok (set_core s entries retained fifo) owned
  /\ (crowded entries retained bytes = true -> fifo = [])
  /\ (forall k e, entries !! k = Some e -> sl_entries s !! k = Some e).
Proof.
  remember (sl_terminal_fifo s) as fifo eqn:Ef. revert s Ef. induction fifo as [|key rest IH]; intros s Ef Hok; simpl.
  { rewrite Ef, set_core_id. done. }
  destruct (crowded _ _ _) eqn:Ec; [|rewrite Ef, set_core_id; split; [done|]; split; [congruence|done]].
  destruct (proj1 (lo_queue _ _ Hok key)) as (e & Ee & _); [rewrite <- Ef; left|]. rewrite Ee.
  pose proof (evict_one _ _ _ _ _ Hok (eq_sym Ef) Ee) as Hok'.
  specialize (IH (set_core s _ _ rest) eq_refl Hok'). simpl in IH.
  destruct (evict _ _ _ _) as [[entries retained] fifo]. destruct IH as (H1 & H2 & H3). split; [exact H1|]. split; [done|].
  intros k e' He'. by apply H3, lookup_delete_Some in He' as [_ ?].
Qed.

(** ** Reserving and finishing keep the invariant *)
Lemma request_bytes_nonneg q : 0 <= request_bytes q.
Proof.
  unfold request_bytes, usize_saturating_add, usize_saturating_mul, OWNED_SEND_FIXED_BYTES, usize_max.
  pose proof (len_nonneg (smr_recipient q)). pose proof (len_nonneg (smr_body q)). pose proof (len_nonneg (smr_dedupe_key q)).
  assert (0 <= opt_len (smr_reply_to q)) by (destruct (smr_reply_to q); [apply len_nonneg|done]).
  assert (0 <= opt_len (smr_correlation_id q)) by (destruct (smr_correlation_id q); [apply len_nonneg|done]). lia.
Qed.

Lemma not_crowded entries retained bytes :
  crowded entries retained bytes = false -> (size entries < MAX_OWNED_SENDS)%nat /\ retained + bytes <= MAX_OWNED_SEND_BYTES.
Proof.
  unfold crowded. intros [H1 H2]%orb_false_iff. apply Nat.leb_gt in H1. apply Z.ltb_ge in H2. split; [done|].
  unfold usize_saturating_add, usize_max, MAX_OWNED_SEND_BYTES in *. lia.
Qed.

Lemma reserve_new_ok s owned key entry :
  ledger_ok s owned -> sl_entries s !! key = None -> en_id entry = sl_made s -> 0 <= en_retained_bytes entry ->
  crowded (sl_entries s) (sl_retained_bytes s) (en_retained_bytes entry) = false ->
  ledger_ok {| sl_accepting := sl_accepting s; sl_retained_bytes := sl_retained_bytes s + en_retained_bytes entry;
               sl_inflight := sl_inflight s + 1; sl_entries := <[key := entry]> (sl_entries s);
               sl_terminal_fifo := sl_terminal_fifo s; sl_admission_open := sl_admission_open s;
               sl_permanently_closed := sl_permanently_closed s; sl_made := S (sl_made s); sl_terminals := sl_terminals s |}
    ((key, entry) :: owned).
Proof.
  intros Hok Ek Eid Hpos Hc. pose proof Hok as [Hsum Hby Hsz Hen Hid Hown Hnd Hf Hq Hsp Hin Hfr].
  apply not_crowded in Hc as [Hsize Hbytes].
  assert (forall k e, (k, e) ∈ owned -> k <> key) as Hok' by (intros k e Ho ->; destruct (Hown _ _ Ho); congruence).
  constructor; simpl; try done.
  - rewrite sum_bytes_insert by done. lia.
  - rewrite map_size_insert_None by done. lia.
  - intros k e [[-> <-]|[_ He]]%lookup_insert_Some; [lia|]. destruct (Hen _ _ He). lia.
  - intros k k' e e' [[-> <-]|[_ He]]%lookup_insert_Some [[-> <-]|[_ He']]%lookup_insert_Some E; try done.
    + destruct (Hen _ _ He'). lia.
    + destruct (Hen _ _ He). lia.
    + by eapply Hid.
  - intros k e [[= -> ->]|Ho]%elem_of_cons.
    + rewrite lookup_insert_eq. split; [done|]. apply Hfr. lia.
    + destruct (Hown _ _ Ho). rewrite lookup_insert_ne; [done|]. symmetry. by eapply Hok'.
  - apply NoDup_cons. split; [|done]. intros ([k e] & -> & Ho)%list_elem_of_fmap. by eapply Hok'.
  - intros k. rewrite Hq. split.
    + intros (e & He & Ht). exists e. rewrite lookup_insert_ne; [done|]. intros ->. congruence.
    + intros (e & [[-> <-]|[Hne He]]%lookup_insert_Some & Ht); [|by eauto]. rewrite Eid, Hfr in Ht by lia. by destruct Ht.
  - intros k e [[-> <-]|[_ He]]%lookup_insert_Some; [left; left|]. destruct (Hsp _ _ He); [left; by right|by right].
  - lia.
  - intros i Hi. apply Hfr. lia.
Qed.

Lemma reserve_ok s owned open_before request r s' :
  ledger_ok s owned -> reserve s open_before request = (r, s') ->
  ledger_ok s' (match r with Ok (New e) => (ps_identity request, e) :: owned | _ => owned end).
Proof.
  intros Hok. unfold reserve. destruct (negb open_before); [by intros [= <- <-]|].
  destruct (_ || _); [by intros [= <- <-]|]. destruct (sl_entries s !! _) as [e|] eqn:Ee; [by intros [= <- <-]|].
  pose proof (evict_ok (request_bytes (ps_request request)) s owned Hok) as Hev.
  destruct (evict _ _ _ _) as [[entries retained] fifo]. destruct Hev as (Hok' & _ & Hsub).
  destruct (crowded _ _ _) eqn:Ec; intros [= <- <-]; [exact Hok'|].
  apply (reserve_new_ok _ _ _ {| en_id := sl_made s; en_retained_bytes := request_bytes (ps_request request) |} Hok');
    try done; [|apply request_bytes_nonneg].
  simpl. destruct (entries !! _) as [e|] eqn:E; [|done]. apply Hsub in E. congruence.
Qed.

Lemma owned_remove (owned1 owned2 : Owned) key entry :
  NoDup (map fst (owned1 ++ (key, entry) :: owned2)) ->
  (forall k e, (k, e) ∈ owned1 ++ owned2 -> (k, e) ∈ owned1 ++ (key, entry) :: owned2 /\ k <> key)
  /\ NoDup (map fst (owned1 ++ owned2))
  /\ (forall k, k ∈ map fst (owned1 ++ (key, entry) :: owned2) -> k ∈ map fst (owned1 ++ owned2) \/ k = key).
Proof.
  rewrite !map_app. simpl. intros (N1 & N2 & [N4 N3]%NoDup_cons)%NoDup_app. split; [|split].
  - intros k e Ho. split; [apply elem_of_app in Ho as [?|?]; apply elem_of_app; [by left|right; by right]|]. intros ->.
    apply elem_of_app in Ho as [Ho|Ho]; [apply (N2 key); [|left]|apply N4]; apply list_elem_of_fmap; by exists (key, e).
  - apply NoDup_app. split; [done|]. split; [|done]. intros k H1 H2. apply (N2 k H1). by right.
  - intros k. rewrite !elem_of_app, elem_of_cons. tauto.
Qed.

Lemma finish_ok s owned1 owned2 key entry result :
  ledger_ok s (owned1 ++ (key, entry) :: owned2) -> ledger_ok (finish s key entry result) (owned1 ++ owned2).
Proof.
  intros Hok. pose proof Hok as [Hsum Hby Hsz Hen Hid Hown Hnd Hf Hq Hsp Hin Hfr].
  assert ((key, entry) ∈ owned1 ++ (key, entry) :: owned2) as Hmem by (apply elem_of_app; right; left).
  destruct (Hown _ _ Hmem) as [Ee Et]. pose proof (owned_not_queued _ _ _ _ Hok Hmem) as Hnq. destruct (Hen _ _ Ee) as [Hb Hm].
  destruct (owned_remove _ _ _ _ Hnd) as (Hrest & Hnd' & Hsplit).
  assert (forall k e, sl_entries s !! k = Some e -> k <> key -> en_id e <> en_id entry) as Hne
    by (intros k e He Hk E; apply Hk; by eapply Hid).
  assert (forall k e, sl_entries s !! k = Some e -> k <> key ->
    <[en_id entry := result]> (sl_terminals s) !! en_id e = sl_terminals s !! en_id e) as Hterm
    by (intros k e He Hk; apply lookup_insert_ne; symmetry; by eapply Hne).
  assert (sl_inflight s - 1 = Z.of_nat (length (owned1 ++ owned2))) as Hlen
    by (rewrite Hin, !length_app; simpl; lia).
  assert (usize_saturating_sub (sl_inflight s) 1 = Z.of_nat (length (owned1 ++ owned2))) as Hlen'
    by (unfold usize_saturating_sub; lia).
  assert (forall i, (sl_made s <= i)%nat -> <[en_id entry := result]> (sl_terminals s) !! i = None) as Hfr'
    by (intros i Hi; rewrite lookup_insert_ne by lia; by apply Hfr).
  unfold finish. rewrite Ee. simpl. destruct (_ <=? _); simpl.
  - constructor; simpl; try done.
    + intros k e Ho. destruct (Hrest _ _ Ho) as [Ho' Hk]. destruct (Hown _ _ Ho') as [H1 H2]. split; [done|]. by rewrite (Hterm k).
    + apply NoDup_app. split; [done|]. split; [|apply NoDup_singleton]. intros k Hk ->%list_elem_of_singleton. done.
    + intros k. rewrite elem_of_app, list_elem_of_singleton. split.
      * intros [(e & He & Ht)%Hq| ->]; [|exists entry; rewrite lookup_insert_eq; by eauto].
        exists e. split; [done|]. destruct (decide (k = key)) as [->|]; [|by rewrite (Hterm k)].
        assert (e = entry) as -> by congruence. rewrite lookup_insert_eq. by eauto.
      * intros (e & He & Ht). destruct (decide (k = key)) as [->|]; [by right|left]. rewrite (Hterm k) in Ht by done. apply Hq. eauto.
    + intros k e He. rewrite elem_of_app, list_elem_of_singleton. destruct (Hsp _ _ He) as [[?| ->]%Hsplit|]; auto.
  - assert (0 <= sum_bytes (delete key (sl_entries s))) as Hpos.
    { apply sum_bytes_nonneg. intros k e' [_ He']%lookup_delete_Some. by apply (Hen k). }
    pose proof (sum_bytes_delete _ _ _ Ee) as Hsd.
    assert (usize_saturating_sub (sl_retained_bytes s) (en_retained_bytes entry) = sum_bytes (delete key (sl_entries s))) as Er
      by (unfold usize_saturating_sub; lia).
    constructor; simpl; rewrite ?Er; try done.
    + lia.
    + rewrite map_size_delete_Some by eauto. lia.
    + intros k e [_ He]%lookup_delete_Some. by apply (Hen k).
    + intros k k' e1 e2 [_ H1]%lookup_delete_Some [_ H2]%lookup_delete_Some. by apply Hid.
    + intros k e Ho. destruct (Hrest _ _ Ho) as [Ho' Hk]. destruct (Hown _ _ Ho') as [H1 H2].
      rewrite lookup_delete_ne by done. split; [done|]. by rewrite (Hterm k).
    + intros k. split.
      * intros Hk. assert (k <> key) by (by intros ->). apply Hq in Hk as (e & He & Ht). exists e.
        rewrite lookup_delete_ne by done. rewrite (Hterm k) by done. done.
      * intros (e & [Hk He]%lookup_delete_Some & Ht). rewrite (Hterm k) in Ht by done. apply Hq. eauto.
    + intros k e [Hk He]%lookup_delete_Some. destruct (Hsp _ _ He) as [[?|?]%Hsplit|]; auto. congruence.
Qed.

Lemma ledger_step_ok s owned s' owned' : ledger_ok s owned -> ledger_step (s, owned) (s', owned') -> ledger_ok s' owned'.
Proof.
  intros Hok Hs. inversion Hs; subst; try (by apply flags_ok).
  - by eapply reserve_ok.
  - by apply finish_ok.
  - unfold reopen_admission. destruct (sl_permanently_closed s); [done|]. by apply flags_ok.
Qed.

Lemma ledger_steps_ok p p' : ledger_ok p.1 p.2 -> rtc ledger_step p p' -> ledger_ok p'.1 p'.2.
Proof.
  intros Hok Hs. induction Hs as [|[s1 o1] [s2 o2] p3 H12 _ IH]; [done|]. apply IH. by eapply ledger_step_ok.
Qed.
Lemma ledger_reachable_ok s owned : ledger_reachable s owned -> ledger_ok s owned.
Proof. intros Hr. exact (ledger_steps_ok (SendLedger_new, []) (s, owned) new_ledger_ok Hr). Qed.

(** C23: the ledger is bounded and consistent.  Whatever sends, results and shutdowns
    came before, it keeps at most 64 entries and one mebibyte, its byte count is the sum
    over its entries, its in-flight count is the number of sends still owned by a task,
    each of which has its entry and no result yet, and every other entry is finished and
    waits, once, for eviction. *)
Theorem send_ledger_invariant s owned :
  ledger_reachable s owned ->
  (size (sl_entries s) <= 64)%nat /\ 0 <= sl_retained_bytes s <= 1048576 /\ sl_retained_bytes s = sum_bytes (sl_entries s)
  /\ sl_inflight s = Z.of_nat (length owned) /\ (drained s = true <-> owned = [])
  /\ NoDup (sl_terminal_fifo s)
  /\ (forall k e, sl_entries s !! k = Some e ->
        match sl_terminals s !! en_id e with Some _ => k ∈ sl_terminal_fifo s | None => (k, e) ∈ owned end).
Proof.
  intros Hok%ledger_reachable_ok. pose proof Hok as [Hsum Hby Hsz Hen Hid Hown Hnd Hf Hq Hsp Hin Hfr].
  split; [done|]. split; [split; [|done]; rewrite Hsum; apply sum_bytes_nonneg; intros k e He; by apply (Hen k)|].
  split; [done|]. split; [done|]. split; [|split; [done|]].
  - unfold drained. rewrite Z.eqb_eq, Hin. destruct owned; simpl; split; try done; lia.
  - intros k e He. destruct (sl_terminals s !! en_id e) as [t|] eqn:Et; [apply Hq; eauto|].
    destruct (Hsp _ _ He) as [([k' e'] & -> & Ho)%list_elem_of_fmap|Hk].
    + destruct (Hown _ _ Ho) as [He' _]. simpl in *. assert (e' = e) as -> by congruence. done.
    + apply Hq in Hk as (e' & He' & [t Ht]). assert (e' = e) as -> by congruence. congruence.
Qed.

(** ** Admission *)
Lemma valid_request_bytes q : validate q = Ok tt -> request_bytes q <= 133504.
Proof.
  unfold validate, SendMessageRequest_validate, mbind, result_bind, valid, valid_opt. intros Hv.
  destruct (MemberName_new (smr_recipient q)) as [rc|] eqn:E1; [|done]. apply new_iff in E1.
  destruct (match smr_recipient_membership_id q with Some _ => _ | None => _ end); [|done].
  destruct (MessageBody_new (smr_body q)) as [bd|] eqn:E2; [|done]. apply new_iff in E2.
  destruct (DedupeKey_new (smr_dedupe_key q)) as [dk|] eqn:E3; [|done]. apply new_iff in E3.
  assert (0 <= opt_len (smr_reply_to q) <= 128) as H4.
  { destruct (smr_reply_to q) as [r|]; simpl; [|lia]. destruct (MessageId_new r) as [x|] eqn:E; [|done].
    apply new_iff in E as <-. apply id_len. }
  assert (0 <= opt_len (smr_correlation_id q) <= 256) as H5.
  { destruct (match smr_reply_to q with Some _ => _ | None => _ end); [|done].
    destruct (smr_correlation_id q) as [r|]; simpl; [|lia]. destruct (CorrelationId_new r) as [x|] eqn:E; [|done].
    apply new_iff in E as <-. apply text_len. }
  pose proof (text_len rc) as H1. pose proof (body_len bd) as H2. pose proof (text_len dk) as H3. rewrite E1, E2, E3 in *.
  unfold request_bytes, usize_saturating_add, usize_saturating_mul, OWNED_SEND_FIXED_BYTES, usize_max. lia.
Qed.

(** Admission.  A closed ledger refuses; a key it knows is answered with that key's
    entry; otherwise the send is admitted under an entry no one has seen before, and
    refused for capacity only when every finished entry was already evicted, so that
    everything kept belongs to sends still in flight.  A ledger with nothing in flight
    admits every valid send. *)
Theorem reserve_admits s owned request r s' :
  ledger_reachable s owned -> reserve s true request = (r, s') ->
  if sl_permanently_closed s || negb (sl_accepting s) || negb (sl_admission_open s) then r = Err SeNotReady /\ s' = s
  else match sl_entries s !! ps_identity request with
  | Some entry => r = Ok (Existing entry) /\ s' = s
  | None =>
      (exists entry, r = Ok (New entry) /\ en_id entry = sl_made s /\ sl_entries s' !! ps_identity request = Some entry
         /\ await_send s' entry = None)
      \/ (r = Err SeSendCapacity /\ sl_terminal_fifo s' = []
         /\ (validate (ps_request request) = Ok tt -> owned <> []))
  end.
Proof.
  intros Hok%ledger_reachable_ok. unfold reserve. simpl. destruct (_ || _); [by intros [= <- <-]|].
  destruct (sl_entries s !! _) as [e|]; [by intros [= <- <-]|].
  pose proof (evict_ok (request_bytes (ps_request request)) s owned Hok) as Hev.
  destruct (evict _ _ _ _) as [[entries retained] fifo]. destruct Hev as (Hok' & Hfifo & _).
  destruct (crowded _ _ _) eqn:Ec; intros [= <- <-]; [right|left].
  - split; [done|]. split; [by apply Hfifo|]. intros Hv%valid_request_bytes ->. specialize (Hfifo eq_refl). subst fifo.
    assert (entries = ∅) as ->.
    { apply map_empty. intros k. destruct (entries !! k) as [e|] eqn:E; [|done].
      destruct (lo_split _ _ Hok' k e E) as [Hk|Hk]; by apply not_elem_of_nil in Hk. }
    pose proof (lo_sum _ _ Hok') as Hs. simpl in Hs. unfold crowded in Ec. rewrite map_size_empty, Hs in Ec.
    change (sum_bytes ∅) with 0 in Ec. simpl in Ec. apply Z.ltb_lt in Ec.
    unfold usize_saturating_add, MAX_OWNED_SEND_BYTES in Ec. lia.
  - eexists. split; [done|]. simpl. split; [done|]. split; [apply lookup_insert_eq|].
    unfold await_send. simpl. by rewrite (lo_fresh _ _ Hok) by done.
Qed.

(** ** Results *)
Lemma terminals_kept s owned s' owned' i t :
  ledger_ok s owned -> ledger_step (s, owned) (s', owned') -> sl_terminals s !! i = Some t -> sl_terminals s' !! i = Some t.
Proof.
  intros Hok Hs Ht. inversion Hs as [? ? ? ? ? ? Hr|? o1 o2 key entry result| | |? ?|]; subst; try done.
  - unfold reserve in Hr. repeat split_match_in Hr; simplify_eq/=; done.
  - simpl. rewrite lookup_insert_ne; [done|]. intros <-.
    destruct (lo_owned _ _ Hok key entry) as [_ ?]; [apply elem_of_app; right; left|congruence].
  - unfold reopen_admission. by destruct (sl_permanently_closed s).
Qed.

Lemma await_send_eq s entry o :
  sl_terminals s !! en_id entry = o ->
  await_send s entry = match o with
    | Some result => Some (map_err (fun error => match error with
        | StoredRelay error => SeRelay (StoredClientError_restore error)
        | StoredNotReady => SeNotReady
        end) result)
    | None => None
    end.
Proof. by intros <-. Qed.

(** A send has one result.  When the task that owns a send finishes it, every caller
    holding its entry, now or after any further activity, eviction and shutdown
    included, gets that result, with the client's error as it was captured. *)
Theorem send_result_is_final s owned1 owned2 key entry result s' owned' :
  ledger_reachable s (owned1 ++ (key, entry) :: owned2) ->
  rtc ledger_step (finish s key entry result, owned1 ++ owned2) (s', owned') ->
  await_send s entry = None
  /\ await_send s' entry = Some (map_err (fun error => match error with
       | StoredRelay error => SeRelay (StoredClientError_restore error)
       | StoredNotReady => SeNotReady
       end) result).
Proof.
  intros Hok%ledger_reachable_ok Hs. split.
  { unfold await_send. destruct (lo_owned _ _ Hok key entry) as [_ Ht]; [apply elem_of_app; right; left|]. exact (await_send_eq _ _ _ Ht). }
  pose proof (finish_ok _ _ _ _ _ result Hok) as Hok'.
  assert (sl_terminals (finish s key entry result) !! en_id entry = Some result) as Ht by apply lookup_insert_eq.
  enough (sl_terminals s' !! en_id entry = Some result) as Hs' by exact (await_send_eq _ _ _ Hs').
  change s' with (s', owned').1. revert Hok' Ht. generalize (en_id entry). intros i Hok' Ht.
  change (sl_terminals (finish s key entry result, owned1 ++ owned2).1 !! i = Some result) in Ht.
  change (ledger_ok (finish s key entry result, owned1 ++ owned2).1 (finish s key entry result, owned1 ++ owned2).2) in Hok'.
  revert Hok' Ht. induction Hs as [|[s1 o1] [s2 o2] p3 H12 _ IH]; [done|]. intros Hok' Ht. apply IH.
  - by eapply ledger_step_ok.
  - by eapply terminals_kept.
Qed.

(** ** Witnesses *)
Definition note : PreparedSend :=
  {| ps_request := {| smr_recipient := "beta"; smr_recipient_membership_id := None; smr_body := "hello";
                      smr_priority := NormalDto; smr_dedupe_key := "k1"; smr_reply_to := None;
                      smr_correlation_id := None |};
     ps_identity := "k1" |}.
Definition note_entry : SendEntry := {| en_id := 0; en_retained_bytes := request_bytes (ps_request note) |}.
Definition busy_ledger : SendLedger := (reserve SendLedger_new true note).2.

Lemma busy_reachable : ledger_reachable busy_ledger [("k1", note_entry)].
Proof. eapply rtc_l; [by apply (ls_reserve SendLedger_new [] true note)|]. vm_compute. apply rtc_refl. Qed.

Lemma send_ledger_invariant_witness : ledger_reachable busy_ledger [("k1", note_entry)] /\ sl_inflight busy_ledger = 1.
Proof. split; [exact busy_reachable|]. destruct (send_ledger_invariant _ _ busy_reachable) as (_ & _ & _ & H & _). exact H. Defined.

Lemma reserve_admits_witness : exists e, (reserve SendLedger_new true note).1 = Ok (New e) /\ en_id e = 0%nat.
Proof.
  destruct (reserve_admits SendLedger_new [] note _ _ (rtc_refl _ _) (surjective_pairing _)) as [(e & H1 & H2 & _)|(H & _)].
  - by exists e.
  - vm_compute in H. discriminate H.
Defined.

Lemma send_result_is_final_witness :
  await_send busy_ledger note_entry = None
  /\ await_send (finish busy_ledger ("k1") note_entry (Err StoredNotReady)) note_entry = Some (Err SeNotReady).
Proof.
  apply (send_result_is_final busy_ledger [] [] ("k1") note_entry (Err StoredNotReady) _ [] busy_reachable). apply rtc_refl.
Defined.
