(* ===== verification/Profile.v ===== *)
(** * Profile: durable membership metadata (psst-application/src/config.rs, profile.rs)

    A profile binds a local name to a relay, a squad and a membership.  Its metadata is a
    small file that is replaced atomically; this file has the Unix branches. *)
From stdpp Require Import gmap.
From Stdlib Require Import Ascii.
From S2P Require Import Prelude Text Core Files Client.

(** ** config.rs: errors, origins, profile names *)
Inductive ConfigError : Set := CfRead | CfParse | CfInvalid (field : string) | CfPlatformPaths.
Definition ConfigError_fmt (self : ConfigError) : string :=
  match self with
  | CfRead => "configuration read failed"
  | CfParse => "configuration parse failed"
  | CfInvalid _ => "configuration value is invalid"
  | CfPlatformPaths => "platform paths unavailable"
  end.

(** [str::trim_end_matches] of a character. *)
Definition trim_end_matches (c : ascii) (s : string) : string :=
  String.string_of_list_ascii (rev (skip_while (fun b => bool_decide (b = c)) (rev (as_bytes s)))).

(** The origin of an HTTP URL without a path, its default port dropped; the same code is
    in config.rs and in credential_store.rs, with different errors. *)
Definition canonical_url `{UrlCrate} {E} (invalid : E) (raw : string) : Result E string :=
  u ← ok_or (url_parse raw) invalid;
  if negb (bool_decide (url_scheme u = "http") || bool_decide (url_scheme u = "https"))
     || negb (opt_is_some (url_host u)) || negb (is_empty (url_username u)) || opt_is_some (url_password u)
     || opt_is_some (url_query u) || opt_is_some (url_fragment u) || negb (bool_decide (url_path u = "/"))
  then Err invalid
  else
    let default_port := if bool_decide (url_scheme u = "http") then 80 else 443 in
    u ← (if bool_decide (url_port u = Some default_port) then ok_or (url_clear_port u) invalid else Ok u);
    Ok (trim_end_matches "/" (url_as_str (url_set_path u ""))).
Definition canonical_relay_origin `{UrlCrate} (raw : string) : Result ConfigError string :=
  canonical_url (CfInvalid "relay_origin") raw.

Definition profile_byte (b : ascii) : bool :=
  is_ascii_alphanumeric b || bool_decide (b = "-"%char) || bool_decide (b = "_"%char).
Definition validate_profile_name (v : string) : Result ConfigError unit :=
  if is_empty v || (64 <? len v) || negb (forallb profile_byte (as_bytes v)) then Err (CfInvalid "profile") else Ok tt.

Record PlatformPaths : Set := { config_dir : Path; data_dir : Path; runtime_dir : Path }.

(** ** profile.rs *)
Definition PROFILE_VERSION : Z := 1.
Definition MAX_PROFILE_BYTES : Z := 16 * 1024.

Record ProfileBinding : Set := {
  pb_version : Z; pb_profile : string; pb_relay_origin : string; pb_squad_name : string; pb_squad_id : string;
  pb_member_id : string }.
#[global] Instance ProfileBinding_eq_dec : EqDecision ProfileBinding.
Proof. solve_decision. Defined.

Definition ProfileBinding_validate `{UrlCrate} (self : ProfileBinding) : Result ConfigError unit :=
  if negb (pb_version self =? PROFILE_VERSION) then Err (CfInvalid "profile binding version")
  else
    _ ← validate_profile_name (pb_profile self);
    origin ← canonical_relay_origin (pb_relay_origin self);
    if bool_decide (origin <> pb_relay_origin self) || negb (is_ok (SquadName_new (pb_squad_name self)))
       || negb (is_ok (SquadId_new (pb_squad_id self))) || negb (is_ok (MembershipId_new (pb_member_id self)))
    then Err (CfInvalid "profile binding")
    else Ok tt.

Definition ProfileBinding_new `{UrlCrate} (profile relay_origin squad_name squad_id member_id : string)
    : Result ConfigError ProfileBinding :=
  relay_origin ← canonical_relay_origin relay_origin;
  let value := {| pb_version := PROFILE_VERSION; pb_profile := profile; pb_relay_origin := relay_origin;
                  pb_squad_name := squad_name; pb_squad_id := squad_id; pb_member_id := member_id |} in
  _ ← ProfileBinding_validate value;
  Ok value.

Record ProfilePaths : Set := { pp_metadata : Path; pp_credential : Path; pp_lock : Path }.

(** [hex_digest(..)[..16]]. *)
Definition hex_digest `{Crypto} (bytes : string) : string := hex (sha256 bytes).
Definition for_profile `{UrlCrate, Crypto} (paths : PlatformPaths) (origin profile : string) : Result ConfigError ProfilePaths :=
  _ ← validate_profile_name profile;
  origin ← canonical_relay_origin origin;
  let key := profile +:+ "-" +:+ take_bytes 16 (hex_digest origin) in
  Ok {| pp_metadata := path_join (path_join (data_dir paths) "profiles") (key +:+ ".json");
        pp_credential := path_join (path_join (data_dir paths) "credentials") (key +:+ ".json");
        pp_lock := path_join (path_join (runtime_dir paths) "locks") (key +:+ ".lock") |}.
Definition harness_status (self : ProfilePaths) : Result ConfigError Path :=
  stem ← ok_or (path_file_stem (pp_metadata self)) (CfInvalid "profile status path");
  Ok (with_file_name (pp_metadata self) (stem +:+ ".harness-v1.json")).

Definition verify_profile_origin `{UrlCrate} (binding : ProfileBinding) (requested : string) : Result ConfigError unit :=
  origin ← canonical_relay_origin requested;
  if bool_decide (origin = pb_relay_origin binding) then Ok tt else Err (CfInvalid "profile origin mismatch").

(** *** Files *)
Definition reject_symlink (path : Path) : IO unit :=
  r ← attempt (symlink_metadata path);
  match r with
  | Ok (Symlink _) => raise (io_error KindPermissionDenied "link substitution rejected")
  | Ok _ => mret tt
  | Err e => if bool_decide (io_kind e = KindNotFound) then mret tt else raise e
  end.
Definition parent_unavailable : IoError := io_error KindInvalidInput "profile parent unavailable".
Definition name_unavailable : IoError := io_error KindInvalidInput "profile name unavailable".
Definition invalid_data {A} (fmt : A -> string) (error : A) : IoError := io_error KindInvalidData (fmt error).

(** [file.metadata()?.len()]; reading a directory fails later. *)
Definition node_len (n : Node) : Z := match n with File _ bytes _ => len bytes | _ => 4096 end.

Section Profiles.
Context `{Os} `{UrlCrate} `{Serialize ProfileBinding, !Deserialize ProfileBinding}.

Definition load_profile (path : Path) : IO (option ProfileBinding) :=
  present ← path_exists path;
  if negb present then mret None
  else
    parent ← io (ok_or (path_parent path) parent_unavailable);
    directory_guard ← open_dir parent;
    _ ← reject_symlink path;
    name ← io (ok_or (path_file_name path) name_unavailable);
    file ← openat_read directory_guard name;
    meta ← metadata file;
    let length := node_len meta in
    if (length =? 0) || (MAX_PROFILE_BYTES <? length) then raise (io_error KindInvalidData "invalid profile record size")
    else
      bytes ← read_upto file (MAX_PROFILE_BYTES + 1);
      if MAX_PROFILE_BYTES <? len bytes then raise (io_error KindInvalidData "profile record too large")
      else
        value ← io (ok_or (from_slice bytes) (io_error KindInvalidData "invalid JSON"));
        _ ← io (map_err (invalid_data ConfigError_fmt) (ProfileBinding_validate value));
        mret (Some value).

Definition clear_profile (path : Path) : IO unit :=
  present ← path_exists path;
  if negb present then mret tt
  else
    _ ← reject_symlink path;
    parent ← io (ok_or (path_parent path) parent_unavailable);
    directory ← open_dir parent;
    name ← io (ok_or (path_file_name path) name_unavailable);
    _ ← unlinkat directory name;
    sync_dir directory.

Definition temp_of (target : string) : string := "." +:+ target +:+ ".tmp".
Definition atomic_replace_unix (path : Path) (bytes : string) : IO unit :=
  parent ← io (ok_or (path_parent path) parent_unavailable);
  _ ← create_dir_all parent;
  directory ← open_dir parent;
  target ← io (ok_or (path_file_name path) name_unavailable);
  let temp := temp_of target in
  _ ← attempt (unlinkat directory temp);
  file ← openat_create directory temp;
  _ ← write_all file bytes;
  _ ← sync_all file;
  _ ← renameat directory temp target;
  sync_dir directory.

Definition store_profile (path : Path) (binding : ProfileBinding) : IO unit :=
  _ ← io (map_err (invalid_data ConfigError_fmt) (ProfileBinding_validate binding));
  parent ← io (ok_or (path_parent path) parent_unavailable);
  _ ← create_dir_all parent;
  _ ← reject_symlink parent;
  _ ← open_dir parent;
  atomic_replace_unix path (to_json binding).
End Profiles.
