(* ===== verification/Config.v ===== *)
(** * Config: resolving the configuration (psst-application/src/config.rs, cli.rs)

    Every setting is resolved on its own: the command line, the environment, the
    configuration file and the default, in this order; the first that has a value wins, and
    a winner that is not valid is an error. *)
From stdpp Require Import gmap pretty.
From Stdlib Require Import Ascii.
From S2P Require Import Prelude Text Core Files Client Profile.

(** ** The standard library's parsers *)

(** [str::parse] of an unsigned integer of at most [max]. *)
Definition digit_of (radix : Z) (b : ascii) : option Z :=
  let v := if is_ascii_digit b then byte_val b - 48
           else if is_ascii_lowercase b then byte_val b - 87
           else if is_ascii_uppercase b then byte_val b - 55 else radix in
  if v <? radix then Some v else None.
Fixpoint digits (max : Z) (acc : Z) (bs : list ascii) : option Z :=
  match bs with
  | [] => Some acc
  | b :: rest =>
      d ← digit_of 10 b;
      let acc := acc * 10 + d in
      if max <? acc then None else digits max acc rest
  end.
Definition parse_unsigned (max : Z) (s : string) : option Z :=
  match as_bytes s with
  | [] => None
  | [b] => digits max 0 [b]
  | b :: rest => if bool_decide (b = "+"%char) then digits max 0 rest else digits max 0 (b :: rest)
  end.
Definition parse_bool (s : string) : option bool :=
  if bool_decide (s = "true") then Some true else if bool_decide (s = "false") then Some false else None.
Definition bool_to_string (b : bool) : string := if b then "true" else "false".
Definition u32_max : Z := 2 ^ 32 - 1.
Definition u64_max : Z := 2 ^ 64 - 1.

(** [str::parse::<SocketAddr>]: what the parser leaves of its input. *)
Module Net.
Definition Parser : Type := list ascii -> option (list ascii).
Definition given_char (c : ascii) : Parser := fun bs =>
  match bs with b :: rest => if bool_decide (b = c) then Some rest else None | [] => None end.
(** The longest run of digits, its value and its length. *)
Fixpoint run (radix acc : Z) (count : nat) (bs : list ascii) : Z * nat * list ascii :=
  match bs with
  | b :: rest => match digit_of radix b with
                 | Some d => run radix (acc * radix + d) (S count) rest
                 | None => (acc, count, bs)
                 end
  | [] => (acc, count, [])
  end.
Definition number (radix : Z) (max_digits : option nat) (allow_zero_prefix : bool) (max : Z) : Parser := fun bs =>
  let '(value, count, rest) := run radix 0 0 bs in
  let leading_zero := match bs with b :: _ => bool_decide (b = "0"%char) | [] => false end in
  if (count =? 0)%nat || (match max_digits with Some m => (m <? count)%nat | None => false end)
     || (negb allow_zero_prefix && leading_zero && (1 <? count)%nat) || (max <? value)
  then None else Some rest.
Definition separated (sep : ascii) (index : nat) (p : Parser) : Parser := fun bs =>
  if (index =? 0)%nat then p bs else given_char sep bs ≫= p.
Definition octet : Parser := number 10 (Some 3%nat) false 255.
Definition ipv4 : Parser := fun bs =>
  rest ← separated "." 0 octet bs;
  rest ← separated "." 1 octet rest;
  rest ← separated "." 2 octet rest;
  separated "." 3 octet rest.
Definition group : Parser := number 16 (Some 4%nat) true 65535.
(** Up to [todo] more groups after [i]: how many were read, and whether the last two are
    an embedded IPv4 address. *)
Fixpoint groups (todo i : nat) (bs : list ascii) : nat * bool * list ascii :=
  match todo with
  | O => (i, false, bs)
  | S todo' =>
      match (if (1 <? todo)%nat then separated ":" i ipv4 bs else None) with
      | Some rest => (S (S i), true, rest)
      | None => match separated ":" i group bs with
                | Some rest => groups todo' (S i) rest
                | None => (i, false, bs)
                end
      end
  end.
Definition ipv6 : Parser := fun bs =>
  let '(head_size, head_ipv4, rest) := groups 8 0 bs in
  if (head_size =? 8)%nat then Some rest
  else if head_ipv4 then None
  else
    rest ← given_char ":" rest;
    rest ← given_char ":" rest;
    Some (groups (8 - (head_size + 1)) 0 rest).2.
Definition port : Parser := fun bs => given_char ":" bs ≫= number 10 None true 65535.
Definition scope_id : Parser := fun bs => given_char "%" bs ≫= number 10 None true u32_max.
Definition socket_v4 : Parser := fun bs => ipv4 bs ≫= port.
Definition socket_v6 : Parser := fun bs =>
  rest ← given_char "[" bs ≫= ipv6;
  given_char "]" (default rest (scope_id rest)) ≫= port.
Definition socket_addr (s : string) : bool :=
  match (match socket_v4 (as_bytes s) with Some rest => Some rest | None => socket_v6 (as_bytes s) end) with
  | Some [] => true
  | _ => false
  end.
End Net.

(** [String::from_utf8]: no overlong forms, no surrogates, nothing past U+10FFFF. *)
Fixpoint utf8_valid (bs : list ascii) : bool :=
  match bs with
  | [] => true
  | a :: r1 =>
      let x := byte_val a in
      if x <? 128 then utf8_valid r1
      else match r1 with
      | b :: r2 =>
          let y := byte_val b in
          if (194 <=? x) && (x <=? 223) then is_continuation b && utf8_valid r2
          else match r2 with
          | c :: r3 =>
              if (224 <=? x) && (x <=? 239)
              then is_continuation b && ((225 <=? x) || (160 <=? y)) && (negb (x =? 237) || (y <? 160)) && is_continuation c && utf8_valid r3
              else match r3 with
              | d :: r4 =>
                  (240 <=? x) && (x <=? 244) && is_continuation b && ((241 <=? x) || (144 <=? y)) && ((x <? 244) || (y <? 144))
                  && is_continuation c && is_continuation d && utf8_valid r4
              | [] => false
              end
          | [] => false
          end
      | [] => false
      end
  end.

(** ** cli.rs: what the configuration is shown as *)
Inductive ValueSource : Set := CommandLine | Environment | ConfigFile | Default.
#[global] Instance ValueSource_eq_dec : EqDecision ValueSource.
Proof. solve_decision. Defined.
Record EffectiveValue (A : Type) : Type := { ev_value : A; ev_source : ValueSource }.
Arguments ev_value {A} e.
Arguments ev_source {A} e.
Arguments Build_EffectiveValue {A} ev_value ev_source.
Inductive CredentialState : Set := CsAbsent | CsAvailable | CsUnavailable.
Record EffectiveConfigView : Set := {
  v_relay_origin : EffectiveValue string; v_profile : EffectiveValue string; v_config_path : EffectiveValue string;
  v_relay_bind : EffectiveValue string; v_relay_data_dir : EffectiveValue string; v_allow_lan : EffectiveValue bool;
  v_log_level : EffectiveValue string; v_log_format : EffectiveValue string; v_max_message_bytes : EffectiveValue Z;
  v_max_long_poll_seconds : EffectiveValue Z; v_heartbeat_interval_seconds : EffectiveValue Z; v_lease_seconds : EffectiveValue Z;
  v_credential_state : CredentialState }.

(** ** config.rs *)
Definition DEFAULT_RELAY_ORIGIN : string := "http://127.0.0.1:7341".
Definition MAX_CONFIG_BYTES : Z := 64 * 1024.

(** Paths from the user are the text they were given as. *)
Record ConfigFlags : Set := {
  f_relay_origin : option string; f_profile : option string; f_config_path : option string; f_relay_bind : option string;
  f_data_dir : option string; f_allow_lan : option string; f_log_level : option string; f_log_format : option string;
  f_max_message_bytes : option string; f_max_long_poll_seconds : option string; f_heartbeat_seconds : option string;
  f_lease_seconds : option string }.
Record ConfigInputs : Set := { ci_flags : ConfigFlags; ci_environment : gmap string string }.

Record ResolvedConfig : Set := {
  rc_relay_origin : EffectiveValue string; rc_profile : EffectiveValue string; rc_config_path : EffectiveValue string;
  rc_relay_bind : EffectiveValue string; rc_relay_data_dir : EffectiveValue string; rc_allow_lan : EffectiveValue bool;
  rc_log_level : EffectiveValue string; rc_log_format : EffectiveValue string; rc_max_message_bytes : EffectiveValue Z;
  rc_max_long_poll_seconds : EffectiveValue Z; rc_heartbeat_interval_seconds : EffectiveValue Z; rc_lease_seconds : EffectiveValue Z;
  rc_paths : PlatformPaths }.
Definition ResolvedConfig_view (self : ResolvedConfig) (credential_state : CredentialState) : EffectiveConfigView :=
  {| v_relay_origin := rc_relay_origin self; v_profile := rc_profile self; v_config_path := rc_config_path self;
     v_relay_bind := rc_relay_bind self; v_relay_data_dir := rc_relay_data_dir self; v_allow_lan := rc_allow_lan self;
     v_log_level := rc_log_level self; v_log_format := rc_log_format self; v_max_message_bytes := rc_max_message_bytes self;
     v_max_long_poll_seconds := rc_max_long_poll_seconds self;
     v_heartbeat_interval_seconds := rc_heartbeat_interval_seconds self; v_lease_seconds := rc_lease_seconds self;
     v_credential_state := credential_state |}.

Record FileConfig : Set := {
  c_relay_origin : option string; c_profile : option string; c_relay_bind : option string; c_data_dir : option string;
  c_allow_lan : option bool; c_log_level : option string; c_log_format : option string; c_max_message_bytes : option Z;
  c_max_long_poll_seconds : option Z; c_heartbeat_interval_seconds : option Z; c_lease_seconds : option Z }.
Definition FileConfig_default : FileConfig :=
  {| c_relay_origin := None; c_profile := None; c_relay_bind := None; c_data_dir := None; c_allow_lan := None; c_log_level := None;
     c_log_format := None; c_max_message_bytes := None; c_max_long_poll_seconds := None; c_heartbeat_interval_seconds := None;
     c_lease_seconds := None |}.

(** The serde_yaml crate. *)
Class Yaml := yaml_from_str : string -> option FileConfig.

(** [PathBuf::from], relative paths from the working directory, and [Path::display]. *)
Definition path_components (s : string) : Path :=
  filter (fun c => c <> ""%string /\ c <> "."%string) (split_on "/" s).
Definition path_from (cwd : Path) (s : string) : Path :=
  match s with
  | String "/" _ => path_components s
  | _ => cwd ++ path_components s
  end.
Definition path_display (p : Path) : string := "/" +:+ String.concat "/" p.

(** The branch for Unix systems other than macOS. *)
Definition PlatformPaths_detect (cwd : Path) (var_os : string -> option string) : Result ConfigError PlatformPaths :=
  home ← ok_or (path_from cwd <$> (match var_os "HOME" with Some v => Some v | None => var_os "USERPROFILE" end)) CfPlatformPaths;
  let config := path_join (match var_os "XDG_CONFIG_HOME" with None => path_join home ".config" | Some v => path_from cwd v end) "psst" in
  let data := path_join (match var_os "XDG_DATA_HOME" with None => path_join (path_join home ".local") "share" | Some v => path_from cwd v end) "psst" in
  let runtime := path_join (match var_os "XDG_RUNTIME_DIR" with None => data | Some v => path_from cwd v end) "psst" in
  Ok {| config_dir := config; data_dir := data; runtime_dir := runtime |}.

Definition pick (environment : gmap string string) (flag : option string) (env_key : string) (file : option string) (default : string)
    : EffectiveValue string :=
  match flag with
  | Some v => Build_EffectiveValue v CommandLine
  | None => match environment !! env_key with
            | Some v => Build_EffectiveValue v Environment
            | None => match file with
                      | Some v => Build_EffectiveValue v ConfigFile
                      | None => Build_EffectiveValue default Default
                      end
            end
  end.
Definition parsed {T} (from_str : string -> option T) (v : EffectiveValue string) (name : string) : Result ConfigError (EffectiveValue T) :=
  value ← ok_or (from_str (ev_value v)) (CfInvalid name);
  Ok (Build_EffectiveValue value (ev_source v)).
Definition bounded (v : EffectiveValue Z) (min max : Z) (name : string) : Result ConfigError (EffectiveValue Z) :=
  if (ev_value v <? min) || (max <? ev_value v) then Err (CfInvalid name) else Ok v.
Definition ensure (ok : bool) (name : string) : Result ConfigError unit := if ok then Ok tt else Err (CfInvalid name).
Definition LOG_LEVELS : list string := ["trace"; "debug"; "info"; "warn"; "error"].
Definition LOG_FORMATS : list string := ["text"; "json"].

Section Resolver.
Context `{UrlCrate} `{Yaml}.
Variable cwd : Path.

(** [File::open]. *)
Definition file_open (p : Path) : IO Path := syscall (fun w => (fst <$> lookup_path w true p, w)).
Definition read_config (path : Path) : IO (Result ConfigError FileConfig) :=
  present ← path_exists path;
  if negb present then mret (Ok FileConfig_default)
  else
    file ← attempt (file_open path);
    match file with
    | Err _ => mret (Err CfRead)
    | Ok file =>
        meta ← attempt (metadata file);
        match meta with
        | Err _ => mret (Err CfRead)
        | Ok meta =>
            let length := node_len meta in
            if length =? 0 then mret (Ok FileConfig_default)
            else if MAX_CONFIG_BYTES <? length then mret (Err CfRead)
            else
              bytes ← attempt (read_upto file (MAX_CONFIG_BYTES + 1));
              match bytes with
              | Err _ => mret (Err CfRead)
              | Ok bytes =>
                  if MAX_CONFIG_BYTES <? len bytes then mret (Err CfRead)
                  else if negb (utf8_valid (as_bytes bytes)) then mret (Err CfParse)
                  else mret (ok_or (yaml_from_str bytes) CfParse)
              end
        end
    end.

(** The settings, from what the file holds. *)
Definition resolve_fields (paths : PlatformPaths) (input : ConfigInputs) (config_path : EffectiveValue string) (file : FileConfig)
    : Result ConfigError ResolvedConfig :=
  let flags := ci_flags input in
  let pick := pick (ci_environment input) in
  let origin := pick (f_relay_origin flags) "PSST_RELAY" (c_relay_origin file) DEFAULT_RELAY_ORIGIN in
  origin_value ← canonical_relay_origin (ev_value origin);
  let origin := Build_EffectiveValue origin_value (ev_source origin) in
  let profile := pick (f_profile flags) "PSST_PROFILE" (c_profile file) "default" in
  _ ← validate_profile_name (ev_value profile);
  let bind := pick (f_relay_bind flags) "PSST_RELAY_BIND" (c_relay_bind file) "127.0.0.1:7341" in
  _ ← ensure (Net.socket_addr (ev_value bind)) "relay_bind";
  let data := pick (f_data_dir flags) "PSST_DATA_DIR" (c_data_dir file) (path_display (data_dir paths)) in
  _ ← ensure (negb (is_empty (ev_value data))) "data_dir";
  allow ← parsed parse_bool (pick (f_allow_lan flags) "PSST_ALLOW_LAN" (bool_to_string <$> c_allow_lan file) "false") "allow_lan";
  let level := pick (f_log_level flags) "PSST_LOG" (c_log_level file) "info" in
  _ ← ensure (bool_decide (ev_value level ∈ LOG_LEVELS)) "log_level";
  let format := pick (f_log_format flags) "PSST_LOG_FORMAT" (c_log_format file) "text" in
  _ ← ensure (bool_decide (ev_value format ∈ LOG_FORMATS)) "log_format";
  message ← parsed (parse_unsigned u64_max) (pick (f_max_message_bytes flags) "PSST_MAX_MESSAGE_BYTES" (pretty <$> c_max_message_bytes file) "65536")
    "max_message_bytes";
  message ← bounded message 1 65536 "max_message_bytes";
  poll ← parsed (parse_unsigned u32_max) (pick (f_max_long_poll_seconds flags) "PSST_MAX_LONG_POLL_SECONDS" (pretty <$> c_max_long_poll_seconds file) "30")
    "max_long_poll_seconds";
  poll ← bounded poll 0 30 "max_long_poll_seconds";
  heartbeat ← parsed (parse_unsigned u32_max) (pick (f_heartbeat_seconds flags) "PSST_HEARTBEAT_SECONDS" (pretty <$> c_heartbeat_interval_seconds file) "10")
    "heartbeat_interval_seconds";
  heartbeat ← bounded heartbeat 1 300 "heartbeat_interval_seconds";
  lease ← parsed (parse_unsigned u32_max) (pick (f_lease_seconds flags) "PSST_LEASE_SECONDS" (pretty <$> c_lease_seconds file) "30")
    "lease_seconds";
  lease ← bounded lease 2 900 "lease_seconds";
  if ev_value lease <=? ev_value heartbeat then Err (CfInvalid "lease_seconds")
  else Ok {| rc_relay_origin := origin; rc_profile := profile; rc_config_path := config_path; rc_relay_bind := bind;
             rc_relay_data_dir := data; rc_allow_lan := allow; rc_log_level := level; rc_log_format := format;
             rc_max_message_bytes := message; rc_max_long_poll_seconds := poll; rc_heartbeat_interval_seconds := heartbeat;
             rc_lease_seconds := lease; rc_paths := paths |}.

Definition ConfigResolver_resolve (paths : PlatformPaths) (input : ConfigInputs) : IO (Result ConfigError ResolvedConfig) :=
  let path := f_config_path (ci_flags input) in
  let location := match path with Some text => path_from cwd text | None => path_join (config_dir paths) "config.yaml" end in
  let text := default (path_display (path_join (config_dir paths) "config.yaml")) path in
  file ← read_config location;
  mret (file ← file;
        resolve_fields paths input (Build_EffectiveValue text (if opt_is_some path then CommandLine else Default)) file).
End Resolver.

(** ** Numbers survive being printed and parsed *)
Lemma digits_pretty_go max x s :
  Z.of_N x <= max -> digits max 0 (as_bytes (pretty_N_go x s)) = digits max (Z.of_N x) (as_bytes s).
Proof.
  revert s. induction (N.lt_wf_0 x) as [x _ IH]. intros s Hx. destruct (decide (0 < x)%N) as [Hp|Hp].
  2: { assert (x = 0%N) as -> by lia. by rewrite pretty_N_go_0. }
  rewrite pretty_N_go_step by done. pose proof (N.div_lt x 10 Hp ltac:(done)) as Hd.
  rewrite IH by (done || lia). simpl.
  assert (digit_of 10 (pretty_N_char (x mod 10)) = Some (Z.of_N (x mod 10))) as ->.
  { pose proof (N.mod_lt x 10 ltac:(done)) as Hm. remember (x mod 10)%N as m eqn:E. clear -Hm.
    destruct m as [|p]; [done|]. do 4 (destruct p as [p|p|]; [..|done]; try lia); done. }
  simpl. assert (Z.of_N (x / 10) * 10 + Z.of_N (x mod 10) = Z.of_N x) as -> by (pose proof (N.div_mod' x 10); lia).
  by rewrite (proj2 (Z.ltb_ge _ _)) by lia.
Qed.
Lemma digits_first max b rest : digits max 0 (b :: rest) <> None -> b <> "+"%char.
Proof. by intros Hd ->. Qed.
Lemma parse_pretty max z : 0 <= z <= max -> parse_unsigned max (pretty z) = Some z.
Proof.
  intros [H0 Hm]. destruct (decide (z = 0)) as [->|Hz]; [change (parse_unsigned max (pretty 0)) with (if max <? 0 then None else Some 0); by rewrite (proj2 (Z.ltb_ge _ _)) by lia|].
  assert (digits max 0 (as_bytes (pretty z)) = Some z) as Hd.
  { destruct z as [|p|p]; [done| |lia]. change (pretty (Z.pos p)) with (pretty_N_go (N.pos p) ""). by rewrite digits_pretty_go. }
  unfold parse_unsigned. destruct (as_bytes (pretty z)) as [|b [|c rest]]; [by injection Hd|done|].
  rewrite bool_decide_eq_false_2; [done|]. apply (digits_first max b (c :: rest)). by rewrite Hd.
Qed.

(** ** Which source wins *)
Inductive Wins (environment : gmap string string) (flag : option string) (key : string) (file : option string) (default : string)
    : ValueSource -> string -> Prop :=
| wins_flag v : flag = Some v -> Wins environment flag key file default CommandLine v
| wins_env v : flag = None -> environment !! key = Some v -> Wins environment flag key file default Environment v
| wins_file v : flag = None -> environment !! key = None -> file = Some v -> Wins environment flag key file default ConfigFile v
| wins_default : flag = None -> environment !! key = None -> file = None -> Wins environment flag key file default Default default.

Lemma pick_wins environment flag key file default source v :
  Wins environment flag key file default source v <-> pick environment flag key file default = Build_EffectiveValue v source.
Proof.
  unfold pick. split.
  - by intros [? H1|? H1 H2|? H1 H2 H3|H1 H2 H3]; rewrite H1, ?H2, ?H3.
  - destruct flag as [?|] eqn:?; [intros [= <- <-]; by constructor|]. destruct (environment !! key) as [?|] eqn:?; [intros [= <- <-]; by constructor|].
    destruct file as [?|] eqn:?; intros [= <- <-]; by constructor.
Qed.

(** A setting is its winner, read. *)
Definition setting {A} environment flag key file default (reads : string -> A -> Prop) (ev : EffectiveValue A) : Prop :=
  exists text, Wins environment flag key file default (ev_source ev) text /\ reads text (ev_value ev).
Lemma setting_pick {A} environment flag key file default (reads : string -> A -> Prop) ev :
  setting environment flag key file default reads ev <->
  let winner := pick environment flag key file default in ev_source ev = ev_source winner /\ reads (ev_value winner) (ev_value ev).
Proof.
  split.
  - by intros (text & ->%pick_wins & Hr).
  - intros [Hs Hr]. eexists. split; [apply pick_wins|exact Hr]. rewrite Hs. by destruct (pick _ _ _ _ _).
Qed.

Definition number_in (max low high : Z) (text : string) (value : Z) : Prop := parse_unsigned max text = Some value /\ low <= value <= high.

Section Spec.
Context `{UrlCrate} `{Yaml}.

(** Every setting of the configuration is its winner, valid. *)
Record winners (paths : PlatformPaths) (input : ConfigInputs) (file : FileConfig) (c : ResolvedConfig) : Prop := {
  w_origin : setting (ci_environment input) (f_relay_origin (ci_flags input)) "PSST_RELAY" (c_relay_origin file) DEFAULT_RELAY_ORIGIN
    (fun text value => canonical_relay_origin text = Ok value) (rc_relay_origin c);
  w_profile : setting (ci_environment input) (f_profile (ci_flags input)) "PSST_PROFILE" (c_profile file) "default"
    (fun text value => value = text /\ validate_profile_name text = Ok tt) (rc_profile c);
  w_bind : setting (ci_environment input) (f_relay_bind (ci_flags input)) "PSST_RELAY_BIND" (c_relay_bind file) "127.0.0.1:7341"
    (fun text value => value = text /\ Net.socket_addr text = true) (rc_relay_bind c);
  w_data : setting (ci_environment input) (f_data_dir (ci_flags input)) "PSST_DATA_DIR" (c_data_dir file) (path_display (data_dir paths))
    (fun text value => value = text /\ text <> ""%string) (rc_relay_data_dir c);
  w_allow : setting (ci_environment input) (f_allow_lan (ci_flags input)) "PSST_ALLOW_LAN" (bool_to_string <$> c_allow_lan file) "false"
    (fun text value => text = bool_to_string value) (rc_allow_lan c);
  w_level : setting (ci_environment input) (f_log_level (ci_flags input)) "PSST_LOG" (c_log_level file) "info"
    (fun text value => value = text /\ text ∈ LOG_LEVELS) (rc_log_level c);
  w_format : setting (ci_environment input) (f_log_format (ci_flags input)) "PSST_LOG_FORMAT" (c_log_format file) "text"
    (fun text value => value = text /\ text ∈ LOG_FORMATS) (rc_log_format c);
  w_message : setting (ci_environment input) (f_max_message_bytes (ci_flags input)) "PSST_MAX_MESSAGE_BYTES" (pretty <$> c_max_message_bytes file) "65536"
    (number_in u64_max 1 65536) (rc_max_message_bytes c);
  w_poll : setting (ci_environment input) (f_max_long_poll_seconds (ci_flags input)) "PSST_MAX_LONG_POLL_SECONDS" (pretty <$> c_max_long_poll_seconds file) "30"
    (number_in u32_max 0 30) (rc_max_long_poll_seconds c);
  w_heartbeat : setting (ci_environment input) (f_heartbeat_seconds (ci_flags input)) "PSST_HEARTBEAT_SECONDS" (pretty <$> c_heartbeat_interval_seconds file) "10"
    (number_in u32_max 1 300) (rc_heartbeat_interval_seconds c);
  w_lease : setting (ci_environment input) (f_lease_seconds (ci_flags input)) "PSST_LEASE_SECONDS" (pretty <$> c_lease_seconds file) "30"
    (number_in u32_max 2 900) (rc_lease_seconds c);
  w_order : ev_value (rc_heartbeat_interval_seconds c) < ev_value (rc_lease_seconds c);
  w_paths : rc_paths c = paths }.

Lemma try_bind_ok {E A B} (r : Result E A) (k : A -> Result E B) b : (x ← r; k x) = Ok b <-> exists x, r = Ok x /\ k x = Ok b.
Proof. destruct r as [a|e]; simpl; [|split; [done|by intros (? & [=] & _)]]. split; [by exists a|]. by intros (x & [= <-] & ?). Qed.
Lemma ensure_ok ok name x : ensure ok name = Ok x <-> ok = true.
Proof. destruct ok, x; naive_solver. Qed.
Lemma bool_ok v name x : parsed parse_bool v name = Ok x <-> ev_source x = ev_source v /\ ev_value v = bool_to_string (ev_value x).
Proof.
  unfold parsed, parse_bool. destruct v as [text s], x as [b s']. simpl. split.
  - case_bool_decide; [intros [= <- <-]; by subst|]. case_bool_decide; [intros [= <- <-]; by subst|done].
  - intros [-> ->]. by destruct b.
Qed.
Lemma number_ok max low high v name x :
  (v ← parsed (parse_unsigned max) v name; bounded v low high name) = Ok x <->
  ev_source x = ev_source v /\ number_in max low high (ev_value v) (ev_value x).
Proof.
  unfold number_in. rewrite try_bind_ok. unfold parsed, bounded. split.
  - intros (y & (n & Hn & [= <-])%try_bind_ok & Hb). destruct (parse_unsigned max (ev_value v)); [|done]. injection Hn as ->. simpl in Hb.
    destruct ((n <? low) || (high <? n)) eqn:E; [done|]. injection Hb as <-. simpl. apply orb_false_iff in E as [?%Z.ltb_ge ?%Z.ltb_ge]. auto.
  - destruct x as [n s]. simpl. intros (-> & -> & Hl & Hh). eexists. split; [reflexivity|]. simpl.
    by rewrite (proj2 (Z.ltb_ge _ _)), (proj2 (Z.ltb_ge _ _)) by lia.
Qed.
Lemma number_bind {B} max low high v name (k : EffectiveValue Z -> Result ConfigError B) b :
  (x ← parsed (parse_unsigned max) v name; x ← bounded x low high name; k x) = Ok b <->
  exists x, (ev_source x = ev_source v /\ number_in max low high (ev_value v) (ev_value x)) /\ k x = Ok b.
Proof.
  setoid_rewrite <- (number_ok max low high v name). setoid_rewrite try_bind_ok. setoid_rewrite try_bind_ok. split.
  - intros (y & Hy & x & Hx & Hk). eauto.
  - intros (x & (y & Hy & Hx) & Hk). eauto.
Qed.

Ltac setting_step E :=
  let x := fresh "x" in let Hx := fresh "Hx" in
  (apply number_bind in E as (x & Hx & E)) || (apply try_bind_ok in E as (x & Hx & E); try apply ensure_ok in Hx; try apply bool_ok in Hx).
Lemma resolve_fields_winners paths input path file c :
  resolve_fields paths input path file = Ok c -> winners paths input file c /\ rc_config_path c = path.
Proof.
  unfold resolve_fields. intros E. repeat setting_step E. destruct (_ <=? _) eqn:El in E; [done|]. apply Z.leb_gt in El. injection E as <-. split; [|done].
  repeat match goal with u : unit |- _ => destruct u end.
  constructor; try apply setting_pick; simpl; auto.
  - match goal with He : negb (is_empty _) = true |- _ => split_and!; [done|done|intros Hn; by rewrite Hn in He] end.
  - split_and!; [done|done|]. by eapply bool_decide_eq_true_1.
  - split_and!; [done|done|]. by eapply bool_decide_eq_true_1.
Qed.
Lemma ev_ext {A} (a b : EffectiveValue A) : ev_source a = ev_source b -> ev_value a = ev_value b -> a = b.
Proof. destruct a, b. simpl. congruence. Qed.
Lemma winners_resolve_fields paths input path file c :
  winners paths input file c -> rc_config_path c = path -> resolve_fields paths input path file = Ok c.
Proof.
  intros [Ho Hp Hb Hd Ha Hl Hf Hm Hq Hh Hz Hz' <-] <-. unfold resolve_fields.
  apply setting_pick in Ho as [So Vo], Hp as (Sp & Vp & Cp), Hb as (Sb & Vb & Cb), Hd as (Sd & Vd & Cd), Ha as Va, Hl as (Sl & Vl & Cl),
    Hf as (Sf & Vf & Cf), Hm, Hq, Hh, Hz.
  apply try_bind_ok. eexists. split; [exact Vo|]. apply try_bind_ok. eexists. split; [exact Cp|].
  apply try_bind_ok. exists tt. split; [by apply ensure_ok|]. apply try_bind_ok. exists tt. split; [apply ensure_ok, negb_true_iff, bool_decide_eq_false_2, Cd|].
  apply try_bind_ok. exists (rc_allow_lan c). split; [by apply bool_ok|].
  apply try_bind_ok. exists tt. split; [by apply ensure_ok, bool_decide_eq_true_2|]. apply try_bind_ok. exists tt. split; [by apply ensure_ok, bool_decide_eq_true_2|].
  apply number_bind. exists (rc_max_message_bytes c). split; [done|]. apply number_bind. exists (rc_max_long_poll_seconds c). split; [done|].
  apply number_bind. exists (rc_heartbeat_interval_seconds c). split; [done|]. apply number_bind. exists (rc_lease_seconds c). split; [done|].
  rewrite (proj2 (Z.leb_gt _ _)) by done. f_equal.
  pose proof (ev_ext _ _ Sp Vp) as Ep. pose proof (ev_ext _ _ Sb Vb) as Eb. pose proof (ev_ext _ _ Sd Vd) as Ed.
  pose proof (ev_ext _ _ Sl Vl) as El. pose proof (ev_ext _ _ Sf Vf) as Ef. rewrite <- So, <- Ep, <- Eb, <- Ed, <- El, <- Ef. by destruct c as [[]].
Qed.

End Spec.

(** A number of the file is used as it is. *)
Lemma file_number_wins environment key n default max low high ev :
  environment !! key = None -> 0 <= n <= max ->
  setting environment None key (pretty <$> Some n) default (number_in max low high) ev -> ev = Build_EffectiveValue n ConfigFile.
Proof.
  intros He Hn (text & Hw%pick_wins & Hp & _). unfold pick in Hw. rewrite He in Hw. simpl in Hw. injection Hw as <- Hs.
  rewrite parse_pretty in Hp by done. destruct ev. simpl in *. congruence.
Qed.

Example socket_addresses :
  map Net.socket_addr ["127.0.0.1:7341"; "[::1]:80"; "[1:2:3:4:5:6:7:8]:0"; "[::ffff:1.2.3.4%3]:9"; "0.0.0.0:65536"; "01.0.0.0:1"; "localhost:80"; "[1:2:3:4:5:6:7:8::]:1"]
  = [true; true; true; true; false; false; false; false].
Proof. reflexivity. Qed.
Example detected_paths :
  PlatformPaths_detect ["work"] (fun key => if bool_decide (key = "HOME") then Some "/home/a" else if bool_decide (key = "XDG_DATA_HOME") then Some "data//x" else None)%string
  = Ok {| config_dir := ["home"; "a"; ".config"; "psst"]; data_dir := ["work"; "data"; "x"; "psst"]; runtime_dir := ["work"; "data"; "x"; "psst"; "psst"] |}.
Proof. reflexivity. Qed.
