(* ===== verification/Json.v ===== *)
(** * Json: values of the serde_json crate, and the App Server's schema (psst-codex/src/app_server.rs)

    An object is the list of its members; [get] finds the first of a name, so the order of
    the members does not matter where the names differ.  The second part checks the JSON
    schema that the installed App Server generates. *)
From Stdlib Require Import Ascii.
From S2P Require Import Prelude Text Client Config.

#[local] Set Warnings "-register-all".

(** ** Values *)
Inductive Number : Set := NInt (n : Z) | NFloat (text : string).
Inductive Value : Set :=
| VNull
| VBool (b : bool)
| VNumber (n : Number)
| VString (s : string)
| VArray (values : list Value)
| VObject (members : list (string * Value)).

Fixpoint find_member (key : string) (members : list (string * Value)) : option Value :=
  match members with
  | [] => None
  | (k, v) :: rest => if bool_decide (k = key) then Some v else find_member key rest
  end.
Definition get (key : string) (v : Value) : option Value :=
  match v with VObject members => find_member key members | _ => None end.
Definition as_str (v : Value) : option string := match v with VString s => Some s | _ => None end.
Definition as_bool (v : Value) : option bool := match v with VBool b => Some b | _ => None end.
Definition as_u64 (v : Value) : option Z :=
  match v with VNumber (NInt n) => if (0 <=? n) && (n <=? u64_max) then Some n else None | _ => None end.
Definition as_array (v : Value) : option (list Value) := match v with VArray l => Some l | _ => None end.
Definition as_object (v : Value) : option (list (string * Value)) := match v with VObject m => Some m | _ => None end.
Definition is_string (v : Value) : bool := match v with VString _ => true | _ => false end.
Definition is_number (v : Value) : bool := match v with VNumber _ => true | _ => false end.
Definition is_object (v : Value) : bool := match v with VObject _ => true | _ => false end.
Definition value_is_null (v : Value) : bool := match v with VNull => true | _ => false end.
Definition get_str (key : string) (v : Value) : option string := get key v ≫= as_str.
Definition v_int (n : Z) : Value := VNumber (NInt n).

(** [Value::pointer], on the tokens of the pointer. *)
Definition parse_index (s : string) : option nat :=
  match s with
  | String "+" _ | String "0" (String _ _) => None
  | _ => Z.to_nat <$> parse_unsigned u64_max s
  end.
Fixpoint pointer (tokens : list string) (v : Value) : option Value :=
  match tokens with
  | [] => Some v
  | token :: rest =>
      match v with
      | VObject members => find_member token members ≫= pointer rest
      | VArray l => (i ← parse_index token; l !! i) ≫= pointer rest
      | _ => None
      end
  end.

(** ** Schemas *)
Fixpoint contains_string (expected : string) (value : Value) : bool :=
  match value with
  | VString s => bool_decide (s = expected)
  | VArray values => existsb (contains_string expected) values
  | VObject members => existsb (fun member => contains_string expected member.2) members
  | VNull | VBool _ | VNumber _ => false
  end.
Fixpoint contains_key (expected : string) (value : Value) : bool :=
  match value with
  | VArray values => existsb (contains_key expected) values
  | VObject members =>
      existsb (fun member => bool_decide (member.1 = expected)) members
      || existsb (fun member => contains_key expected member.2) members
  | VNull | VBool _ | VNumber _ | VString _ => false
  end.
Definition str_is (expected : string) (v : Value) : bool := bool_decide (as_str v = Some expected).
Definition schema_array_contains (tokens : list string) (expected : string) (schema : Value) : bool :=
  match pointer tokens schema ≫= as_array with
  | Some values => existsb (str_is expected) values
  | None => false
  end.

Inductive AppServerError : Set :=
| AeConfiguration | AeSchema | AeLaunch | AeProtocol | AeRejected | AeTimeout | AeExited.
#[global] Instance AppServerError_eq_dec : EqDecision AppServerError.
Proof. solve_decision. Defined.
Definition AppServerError_fmt (self : AppServerError) : string :=
  match self with
  | AeConfiguration => "Codex App Server configuration is invalid"
  | AeSchema => "installed Codex App Server schema is incompatible"
  | AeLaunch => "Codex App Server could not be launched"
  | AeProtocol => "Codex App Server protocol failed"
  | AeRejected => "Codex App Server rejected the request"
  | AeTimeout => "Codex App Server timed out"
  | AeExited => "Codex App Server exited"
  end.

Definition MAX_SCHEMA_BYTES : Z := 16 * 1048576.

(** What the App Server wrote into the directory it was given. *)
Inductive Entry : Set :=
| EFile (bytes : string)
| EDir (entries : list (string * Entry))
| ELink
| EOther
| EUnreadable.

Section CollectEntries.
Variable collect : Entry -> string -> Result AppServerError string.
Fixpoint collect_entries (entries : list (string * Entry)) (aggregate : string) : Result AppServerError string :=
  match entries with
  | [] => Ok aggregate
  | (_, entry) :: rest => aggregate ← collect entry aggregate; collect_entries rest aggregate
  end.
End CollectEntries.
Fixpoint collect_entry (entry : Entry) (aggregate : string) : Result AppServerError string :=
  match entry with
  | ELink | EOther | EUnreadable => Err AeSchema
  | EDir entries => collect_entries collect_entry entries aggregate
  | EFile bytes =>
      let new_len := len aggregate + len bytes in
      if (u64_max <? new_len) || (MAX_SCHEMA_BYTES <? new_len) then Err AeSchema
      else Ok (aggregate +:+ bytes)
  end.
Definition collect_schema (directory : list (string * Entry)) : Result AppServerError string := collect_entries collect_entry directory "".

(** [windows(required.len()).any(|value| value == required)]. *)
Definition is_prefix (p s : string) : bool := opt_is_some (strip_prefix p s).
Fixpoint contains_bytes (required s : string) : bool :=
  is_prefix required s || match s with EmptyString => false | String _ rest => contains_bytes required rest end.

Definition REQUIRED_METHODS : list string :=
  ["initialize"; "initialized"; "thread/start"; "thread/resume"; "turn/start"; "turn/completed"; "item/tool/call";
   "mcpServer/tool/call"; "DynamicToolSpec"].
Definition SHAPES : list (list string * list string * list string) :=
  [(["v1"; "InitializeParams.json"], ["clientInfo"], ["clientInfo"; "capabilities"]);
   (["DynamicToolCallParams.json"], ["arguments"; "callId"; "threadId"; "tool"; "turnId"],
      ["arguments"; "callId"; "namespace"; "threadId"; "tool"; "turnId"]);
   (["DynamicToolCallResponse.json"], ["contentItems"; "success"], ["contentItems"; "success"]);
   (["v2"; "McpServerToolCallParams.json"], ["server"; "threadId"; "tool"], ["arguments"; "server"; "threadId"; "tool"]);
   (["v2"; "McpServerToolCallResponse.json"], ["content"], ["content"; "isError"; "structuredContent"]);
   (["v2"; "ThreadResumeParams.json"], ["threadId"], ["threadId"]);
   (["v2"; "ThreadStartParams.json"], [], ["cwd"; "approvalPolicy"; "sandbox"; "serviceName"]);
   (["v2"; "TurnStartParams.json"], ["threadId"; "input"], ["threadId"; "input"]);
   (["v2"; "TurnCompletedNotification.json"], ["threadId"; "turn"], ["threadId"; "turn"])].

(** [std::fs::read(root.join(relative))], in a directory without links. *)
Fixpoint tree_read (entries : list (string * Entry)) (path : list string) : option string :=
  match path with
  | [] => None
  | name :: rest =>
      match list_find (fun e => e.1 = name) entries with
      | Some (_, (_, EFile bytes)) => match rest with [] => Some bytes | _ => None end
      | Some (_, (_, EDir inner)) => tree_read inner rest
      | _ => None
      end
  end.

Section Schema.
(** [serde_json::from_slice::<Value>]. *)
Variable value_from_slice : string -> option Value.

Definition read_schema (root : list (string * Entry)) (relative : list string) : Result AppServerError Value :=
  bytes ← ok_or (tree_read root relative) AeSchema;
  if MAX_SCHEMA_BYTES <? len bytes then Err AeSchema else ok_or (value_from_slice bytes) AeSchema.

Definition shape_ok (required properties : list string) (schema : Value) : Result AppServerError unit :=
  let declared_required := get "required" schema ≫= as_array in
  declared_properties ← ok_or (get "properties" schema ≫= as_object) AeSchema;
  if existsb (fun field => negb (match declared_required with Some fields => existsb (str_is field) fields | None => false end)) required
     || existsb (fun field => negb (opt_is_some (find_member field declared_properties))) properties
  then Err AeSchema else Ok tt.
Fixpoint shapes_ok (root : list (string * Entry)) (shapes : list (list string * list string * list string)) : Result AppServerError unit :=
  match shapes with
  | [] => Ok tt
  | (relative, required, properties) :: rest =>
      schema ← read_schema root relative;
      _ ← shape_ok required properties schema;
      shapes_ok root rest
  end.
Definition validate_schema_shapes (root : list (string * Entry)) : Result AppServerError unit :=
  _ ← shapes_ok root SHAPES;
  thread_start ← read_schema root ["v2"; "ThreadStartParams.json"];
  if negb (schema_array_contains ["definitions"; "SandboxMode"; "enum"] "workspace-write" thread_start) then Err AeSchema
  else
    initialize ← read_schema root ["v1"; "InitializeParams.json"];
    if negb (contains_key "experimentalApi" initialize) then Err AeSchema
    else
      turn_start ← read_schema root ["v2"; "TurnStartParams.json"];
      if negb (match pointer ["definitions"; "SandboxPolicy"; "oneOf"] turn_start with
               | Some value => contains_string "workspaceWrite" value
               | None => false
               end)
      then Err AeSchema else Ok tt.
Definition validate_generated_schema (root : list (string * Entry)) : Result AppServerError unit :=
  aggregate ← collect_schema root;
  if existsb (fun required => negb (contains_bytes required aggregate)) REQUIRED_METHODS then Err AeSchema
  else validate_schema_shapes root.
(** [tempdir] and [status]: whether the directory could be made, and whether the command
    could be run and succeeded; [root]: what it wrote. *)
Definition validate_installed_schema (tempdir : bool) (status : option bool) (root : list (string * Entry)) : Result AppServerError unit :=
  if negb tempdir then Err AeSchema
  else match status with
       | Some true => validate_generated_schema root
       | _ => Err AeSchema
       end.
End Schema.
