(* ===== verification/Journal.v ===== *)
(** * Journal: the record of a leave in progress (psst-application/src/leave_journal.rs)

    Before asking the relay to leave, the application writes an intent; after the relay
    confirmed, it replaces it by a confirmation, and only then removes the local
    authority.  This file has the records, their validation, and the Unix branches of the
    store. *)
From stdpp Require Import gmap.
From Stdlib Require Import Ascii.
From S2P Require Import Prelude Text Core Files Dto Client Profile.

Definition JOURNAL_VERSION : Z := 1.
Definition MAX_JOURNAL_BYTES : Z := 16 * 1024.

Inductive LeavePhase : Set := Intent | Confirmed.
#[global] Instance LeavePhase_eq_dec : EqDecision LeavePhase.
Proof. solve_decision. Defined.

Record LeaveJournal : Set := {
  lj_version : Z; lj_phase : LeavePhase; lj_relay_origin : string; lj_profile : string; lj_squad_name : string;
  lj_squad_id : string; lj_member_id : string; lj_operation_id : string; lj_created_at : ApiTimestamp;
  lj_confirmed_at : option ApiTimestamp }.

Inductive JournalFault : Set :=
| NoFault | BeforeTempName | BeforeCreate | BeforeWrite | BeforeFileSync | BeforeReplace | BeforePostReplaceSync
| BeforeRemove | BeforeRemoveDirectorySync.
#[global] Instance JournalFault_eq_dec : EqDecision JournalFault.
Proof. solve_decision. Defined.

Definition journal_invalid_input : IoError := io_error KindInvalidInput "invalid leave journal path".
Definition journal_invalid_data : IoError := io_error KindInvalidData "invalid leave journal".
Definition substitution : IoError := io_error KindPermissionDenied "leave journal path substitution rejected".
Definition injected : IoError := io_error KindOther "injected leave journal fault".

Definition sibling_path (metadata : Path) : Result IoError Path :=
  parent ← ok_or (path_parent metadata) journal_invalid_input;
  stem ← ok_or (path_file_stem metadata) journal_invalid_input;
  Ok (path_join parent (stem +:+ ".leave-v1.json")).

(** ** Records *)
Definition operation_valid (operation_id : string) : bool :=
  (1 <=? len operation_id) && (len operation_id <=? 128) && forallb profile_byte (as_bytes operation_id).

Definition validate_record `{UrlCrate} (self : LeaveJournal) : Result IoError unit :=
  binding ← map_err (fun _ => journal_invalid_data)
    (ProfileBinding_new (lj_profile self) (lj_relay_origin self) (lj_squad_name self) (lj_squad_id self) (lj_member_id self));
  if negb (lj_version self =? JOURNAL_VERSION) || bool_decide (pb_relay_origin binding <> lj_relay_origin self)
     || negb (operation_valid (lj_operation_id self))
     || xorb (bool_decide (lj_phase self = Confirmed)) (opt_is_some (lj_confirmed_at self))
     || match lj_confirmed_at self with Some value => ts_nanos value <? ts_nanos (lj_created_at self) | None => false end
  then Err journal_invalid_data
  else Ok tt.

Definition LeaveJournal_validate `{UrlCrate} (self : LeaveJournal) (binding : ProfileBinding) : Result IoError unit :=
  _ ← map_err (fun _ => journal_invalid_data) (ProfileBinding_validate binding);
  _ ← validate_record self;
  if bool_decide (lj_relay_origin self <> pb_relay_origin binding) || bool_decide (lj_profile self <> pb_profile binding)
     || bool_decide (lj_squad_name self <> pb_squad_name binding) || bool_decide (lj_squad_id self <> pb_squad_id binding)
     || bool_decide (lj_member_id self <> pb_member_id binding)
  then Err journal_invalid_data
  else Ok tt.

Definition intent `{UrlCrate} (binding : ProfileBinding) (operation_id : string) (created_at : ApiTimestamp)
    : Result IoError LeaveJournal :=
  let value := {| lj_version := JOURNAL_VERSION; lj_phase := Intent; lj_relay_origin := pb_relay_origin binding;
                  lj_profile := pb_profile binding; lj_squad_name := pb_squad_name binding;
                  lj_squad_id := pb_squad_id binding; lj_member_id := pb_member_id binding;
                  lj_operation_id := operation_id; lj_created_at := created_at; lj_confirmed_at := None |} in
  _ ← LeaveJournal_validate value binding;
  Ok value.

Definition confirmed (self : LeaveJournal) (confirmed_at : ApiTimestamp) : Result IoError LeaveJournal :=
  if bool_decide (lj_phase self <> Intent) then Err journal_invalid_data
  else Ok {| lj_version := lj_version self; lj_phase := Confirmed; lj_relay_origin := lj_relay_origin self;
             lj_profile := lj_profile self; lj_squad_name := lj_squad_name self; lj_squad_id := lj_squad_id self;
             lj_member_id := lj_member_id self; lj_operation_id := lj_operation_id self;
             lj_created_at := lj_created_at self; lj_confirmed_at := Some confirmed_at |}.

(** ** The store *)
Record LeaveJournalStore : Set := { js_path : Path; js_directory : Path }.

Definition file_mode (n : Node) : Z := match n with File mode _ _ | Directory _ mode => mode | Symlink _ => 511 end.
(** [mode() & 0o777 == 0o600]. *)
Definition verify_journal_handle (file : Path) : IO unit :=
  meta ← metadata file;
  if Z.land (file_mode meta) 511 =? 384 then mret tt
  else raise (io_error KindPermissionDenied "leave journal permissions are unsafe").

Definition target_name (self : LeaveJournalStore) : Result IoError string :=
  ok_or (path_file_name (js_path self)) journal_invalid_input.

Definition open_target (self : LeaveJournalStore) : IO (option Path) :=
  name ← io (target_name self);
  r ← attempt (openat_read (js_directory self) name);
  match r with
  | Ok file =>
      meta ← metadata file;
      match meta with
      | File _ _ _ => _ ← verify_journal_handle file; mret (Some file)
      | _ => raise substitution
      end
  | Err error => if bool_decide (io_kind error = KindNotFound) then mret None else raise error
  end.
Definition reject_target_substitution (self : LeaveJournalStore) : IO unit := _ ← open_target self; mret tt.

Definition reject_substitution (path : Path) : IO unit :=
  r ← attempt (symlink_metadata path);
  match r with
  | Ok (Symlink _) => raise substitution
  | Ok _ => mret tt
  | Err error => if bool_decide (io_kind error = KindNotFound) then mret tt else raise error
  end.

(** The loop of [open_unix_directory_chain], which opens every component without
    following links; the guards it also keeps pin the ancestors. *)
Fixpoint open_components (current : Path) (components : list string) : IO Path :=
  match components with
  | [] => mret current
  | name :: rest => next ← open_dir (path_join current name); open_components next rest
  end.
Definition open_unix_directory_chain (path : Path) : IO Path :=
  trusted_name ← io (ok_or (path_file_name path) journal_invalid_input);
  external_parent ← io (ok_or (path_parent path) journal_invalid_input);
  resolved ← canonicalize external_parent;
  current ← open_dir [];
  open_components current (path_join resolved trusted_name).

Section Stores.
Context `{Os} `{UrlCrate} `{Serialize LeaveJournal, !Deserialize LeaveJournal}.

(** [mode() & 0o022 != 0]. *)
Definition verify_unix_profile_directory (directory : Path) : IO unit :=
  meta ← metadata directory;
  match meta with
  | Directory uid mode =>
      if negb (uid =? effective_uid) || negb (Z.land mode 18 =? 0)
      then raise (io_error KindPermissionDenied "application-owned profile directory is unsafe")
      else mret tt
  | _ => raise ENOTDIR
  end.

Definition LeaveJournalStore_open (metadata : Path) : IO LeaveJournalStore :=
  path ← io (sibling_path metadata);
  parent ← io (ok_or (path_parent path) journal_invalid_input);
  dir ← is_dir parent;
  if negb dir then raise journal_invalid_input
  else
    _ ← reject_substitution parent;
    directory ← open_unix_directory_chain parent;
    _ ← verify_unix_profile_directory directory;
    let store := {| js_path := path; js_directory := directory |} in
    _ ← reject_target_substitution store;
    mret store.

Definition load_record (self : LeaveJournalStore) : IO (option LeaveJournal) :=
  file ← open_target self;
  match file with
  | None => mret None
  | Some file =>
      meta ← metadata file;
      let length := node_len meta in
      if (length =? 0) || (MAX_JOURNAL_BYTES <? length) then raise journal_invalid_data
      else
        bytes ← read_upto file (MAX_JOURNAL_BYTES + 1);
        if MAX_JOURNAL_BYTES <? len bytes then raise journal_invalid_data
        else
          value ← io (ok_or (from_slice bytes) journal_invalid_data);
          _ ← io (validate_record value);
          mret (Some value)
  end.

Definition journal_load (self : LeaveJournalStore) (binding : ProfileBinding) : IO (option LeaveJournal) :=
  record ← load_record self;
  match record with
  | None => mret None
  | Some value => _ ← io (LeaveJournal_validate value binding); mret (Some value)
  end.

Definition load_for_profile_key (self : LeaveJournalStore) (relay_origin profile : string)
    : IO (option (LeaveJournal * ProfileBinding)) :=
  origin ← io (map_err (fun _ => journal_invalid_input) (canonical_relay_origin relay_origin));
  record ← load_record self;
  match record with
  | None => mret None
  | Some value =>
      if bool_decide (lj_relay_origin value <> origin) || bool_decide (lj_profile value <> profile)
      then raise journal_invalid_data
      else
        binding ← io (map_err (fun _ => journal_invalid_data)
          (ProfileBinding_new (lj_profile value) (lj_relay_origin value) (lj_squad_name value) (lj_squad_id value)
             (lj_member_id value)));
        _ ← io (LeaveJournal_validate value binding);
        mret (Some (value, binding))
  end.

Definition fault_point (fault point : JournalFault) : IO unit :=
  if bool_decide (fault = point) then raise injected else mret tt.

Definition journal_temp_name (self : LeaveJournalStore) : IO string :=
  name ← io (target_name self);
  random ← urandom;
  mret ("." +:+ name +:+ ".tmp-" +:+ hex random).

Definition store_unix (self : LeaveJournalStore) (bytes : string) (fault : JournalFault) : IO unit :=
  _ ← fault_point fault BeforeTempName;
  temp ← journal_temp_name self;
  _ ← fault_point fault BeforeCreate;
  file ← openat_create (js_directory self) temp;
  _ ← fault_point fault BeforeWrite;
  _ ← write_all file bytes;
  _ ← fault_point fault BeforeFileSync;
  _ ← sync_all file;
  _ ← fault_point fault BeforeReplace;
  name ← io (target_name self);
  _ ← renameat (js_directory self) temp name;
  _ ← fault_point fault BeforePostReplaceSync;
  sync_dir (js_directory self).

Definition store_with_fault (self : LeaveJournalStore) (value : LeaveJournal) (fault : JournalFault) : IO unit :=
  let bytes := to_json value in
  _ ← io (validate_record value);
  if MAX_JOURNAL_BYTES <? len bytes then raise journal_invalid_data
  else
    _ ← reject_target_substitution self;
    store_unix self bytes fault.
Definition journal_store (self : LeaveJournalStore) (value : LeaveJournal) : IO unit := store_with_fault self value NoFault.

Definition remove_with_fault (self : LeaveJournalStore) (fault : JournalFault) : IO unit :=
  _ ← fault_point fault BeforeRemove;
  name ← io (target_name self);
  r ← attempt (unlinkat (js_directory self) name);
  match r with
  | Ok _ =>
      _ ← fault_point fault BeforeRemoveDirectorySync;
      sync_dir (js_directory self)
  | Err error => if bool_decide (io_kind error = KindNotFound) then mret tt else raise error
  end.
Definition journal_remove (self : LeaveJournalStore) : IO unit := remove_with_fault self NoFault.
End Stores.
