(* ===== verification/CredentialStore.v ===== *)
(** * CredentialStore: the stored session credential (psst-client/src/credential_store.rs)

    The credential of a profile is kept in a file only its owner can read, with the relay,
    the profile, the squad and the membership it belongs to, and is given back only to a
    caller that names the same four.  This file has the Unix branches. *)
From stdpp Require Import gmap.
From Stdlib Require Import Ascii.
From S2P Require Import Prelude Text Core Files Credential Client Profile Journal.

Definition CREDENTIAL_VERSION : Z := 1.
Definition MAX_CREDENTIAL_BYTES : Z := 16 * 1024.

Definition credential_invalid : IoError := io_error KindInvalidData "credential record is invalid".
Definition credential_injected : IoError := io_error KindOther "injected credential-store failure".

Record CredentialBinding : Set := {
  cb_relay_origin : string; cb_profile : string; cb_squad_id : string; cb_member_id : string }.
#[global] Instance CredentialBinding_eq_dec : EqDecision CredentialBinding.
Proof. solve_decision. Defined.

Definition canonical_origin `{UrlCrate} (raw : string) : Result IoError string := canonical_url credential_invalid raw.

Definition CredentialBinding_new `{UrlCrate} (relay_origin profile squad_id member_id : string)
    : Result IoError CredentialBinding :=
  relay_origin ← canonical_origin relay_origin;
  if is_empty profile || (64 <? len profile) || negb (forallb profile_byte (as_bytes profile))
     || negb (is_ok (SquadId_new squad_id)) || negb (is_ok (MembershipId_new member_id))
  then Err credential_invalid
  else Ok {| cb_relay_origin := relay_origin; cb_profile := profile; cb_squad_id := squad_id; cb_member_id := member_id |}.

Inductive CredentialFault : Set := CfNone | CfBeforeWrite | CfBeforeFlush | CfBeforePermission | CfBeforeReplace.
#[global] Instance CredentialFault_eq_dec : EqDecision CredentialFault.
Proof. solve_decision. Defined.

(** The serialized record. *)
Record CredentialRecord : Set := {
  rec_version : Z; rec_relay_origin : string; rec_profile : string; rec_squad_id : string; rec_member_id : string;
  rec_instance_id : string; rec_authorization : string }.

Record CredentialStore : Set := { cs_path : Path; cs_directory_guard : Path }.

Definition credential_temp_prefix (self : CredentialStore) : Result IoError string :=
  name ← ok_or (path_file_name (cs_path self)) credential_invalid;
  Ok ("." +:+ name +:+ ".credential-tmp-").

(** [mode() % 0o1000 == 0o600]. *)
Definition verify_restricted_handle (file : Path) : IO unit :=
  meta ← metadata file;
  if file_mode meta mod 512 =? 384 then mret tt
  else raise (io_error KindPermissionDenied "credential permissions are unsafe").

Definition recover_temps (self : CredentialStore) : IO unit :=
  temp ← io (credential_temp_prefix self);
  r ← attempt (unlinkat (cs_directory_guard self) temp);
  match r with
  | Ok _ => mret tt
  | Err error => if bool_decide (io_kind error = KindNotFound) then mret tt else raise error
  end.

Section Store.
Context `{Os} `{UrlCrate} `{HttpHeaders} `{Crypto} `{Serialize CredentialRecord, !Deserialize CredentialRecord}.

Definition verify_owned_directory (directory : Path) : IO unit :=
  meta ← metadata directory;
  match meta with
  | Directory uid mode =>
      if (uid =? effective_uid) && (Z.land mode 18 =? 0) then mret tt
      else raise (io_error KindPermissionDenied "credential directory permissions are unsafe")
  | _ => raise ENOTDIR
  end.

Definition CredentialStore_open (path : Path) : IO CredentialStore :=
  parent ← io (ok_or (path_parent path) credential_invalid);
  _ ← create_dir_all parent;
  _ ← reject_symlink parent;
  directory_guard ← open_dir parent;
  _ ← verify_owned_directory directory_guard;
  let store := {| cs_path := path; cs_directory_guard := directory_guard |} in
  _ ← recover_temps store;
  mret store.

Definition clear (self : CredentialStore) : IO unit :=
  name ← io (ok_or (path_file_name (cs_path self)) credential_invalid);
  r ← attempt (unlinkat (cs_directory_guard self) name);
  match r with
  | Ok _ => sync_dir (cs_directory_guard self)
  | Err error => if bool_decide (io_kind error = KindNotFound) then mret tt else raise error
  end.

Definition credential_fault (fault point : CredentialFault) : IO unit :=
  if bool_decide (fault = point) then raise credential_injected else mret tt.

Definition store_bytes_unix (self : CredentialStore) (bytes : string) (fault : CredentialFault) : IO unit :=
  target ← io (ok_or (path_file_name (cs_path self)) credential_invalid);
  temp ← io (credential_temp_prefix self);
  _ ← attempt (unlinkat (cs_directory_guard self) temp);
  _ ← credential_fault fault CfBeforeWrite;
  file ← openat_create (cs_directory_guard self) temp;
  _ ← verify_restricted_handle file;
  _ ← write_all file bytes;
  _ ← credential_fault fault CfBeforeFlush;
  _ ← sync_all file;
  _ ← credential_fault fault CfBeforePermission;
  _ ← verify_restricted_handle file;
  _ ← credential_fault fault CfBeforeReplace;
  _ ← renameat (cs_directory_guard self) temp target;
  sync_dir (cs_directory_guard self).

Definition rebind (b : CredentialBinding) : Result IoError CredentialBinding :=
  CredentialBinding_new (cb_relay_origin b) (cb_profile b) (cb_squad_id b) (cb_member_id b).

Definition credential_store_with_fault (self : CredentialStore) (binding : CredentialBinding) (credential : Credential)
    (fault : CredentialFault) : IO unit :=
  _ ← io (rebind binding);
  _ ← reject_symlink (cs_path self);
  authorization ← io (ok_or (header_to_str (cd_value credential)) credential_invalid);
  let record := {| rec_version := CREDENTIAL_VERSION; rec_relay_origin := cb_relay_origin binding;
                   rec_profile := cb_profile binding; rec_squad_id := cb_squad_id binding;
                   rec_member_id := cb_member_id binding; rec_instance_id := cd_instance_id credential;
                   rec_authorization := authorization |} in
  store_bytes_unix self (to_json record) fault.
Definition credential_store (self : CredentialStore) (binding : CredentialBinding) (credential : Credential) : IO unit :=
  credential_store_with_fault self binding credential CfNone.

(** What [load] makes of the bytes of the file. *)
Definition credential_of_bytes (expected : CredentialBinding) (bytes : string) : Result IoError Credential :=
  record ← ok_or (from_slice bytes) credential_invalid;
  record_binding ← CredentialBinding_new (rec_relay_origin record) (rec_profile record) (rec_squad_id record)
                     (rec_member_id record);
  if negb (rec_version record =? CREDENTIAL_VERSION) || bool_decide (record_binding <> expected)
     || negb (is_ok (InstanceId_new (rec_instance_id record)))
  then Err (io_error KindPermissionDenied "credential binding mismatch")
  else
    value ← ok_or (header_from_str (rec_authorization record)) credential_invalid;
    text ← ok_or (header_to_str value) credential_invalid;
    bearer ← ok_or (strip_prefix "Bearer " text) credential_invalid;
    header ← ok_or (header_from_str bearer) credential_invalid;
    credential ← map_err (fun _ => credential_invalid) (Credential_from_response header);
    if bool_decide (cd_instance_id credential <> rec_instance_id record) then Err credential_invalid
    else Ok credential.

Definition credential_load (self : CredentialStore) (expected : CredentialBinding) : IO Credential :=
  _ ← io (rebind expected);
  name ← io (ok_or (path_file_name (cs_path self)) credential_invalid);
  file ← openat_read (cs_directory_guard self) name;
  _ ← verify_restricted_handle file;
  meta ← metadata file;
  let length := node_len meta in
  if (length =? 0) || (MAX_CREDENTIAL_BYTES <? length) then raise credential_invalid
  else
    bytes ← read_upto file (MAX_CREDENTIAL_BYTES + 1);
    if MAX_CREDENTIAL_BYTES <? len bytes then raise credential_invalid
    else io (credential_of_bytes expected bytes).
End Store.
