(* ===== verification/Durability.v ===== *)
(** * Durability: a logic for programs on files, and the atomicity of the stores

    [wp m Q E K w]: running [m] in [w] gives a value satisfying [Q], fails with an error
    satisfying [E], or the process dies leaving a world satisfying [K]. *)
From stdpp Require Import gmap.
From Stdlib Require Import Ascii.
From S2P Require Import Prelude Text Core Files Dto Credential Client Profile Journal CredentialStore.

Definition wp {A} (m : IO A) (Q : A -> World -> Prop) (E : IoError -> World -> Prop) (K : World -> Prop) (w : World) : Prop :=
  match m w with
  | (Done (Ok a), w') => Q a w'
  | (Done (Err e), w') => E e w'
  | (Crashed, w') => K w'
  end.

Section Rules.
Context {A B : Type}.
Implicit Types (E : IoError -> World -> Prop) (K : World -> Prop).

Lemma wp_bind (m : IO A) (k : A -> IO B) Q E K w :
  wp m (fun a => wp (k a) Q E K) E K w -> wp (m ≫= k) Q E K w.
Proof. unfold wp, mbind, IO_bind. destruct (m w) as [[[a|e]|] w']; auto. Qed.
Lemma wp_ret (a : A) Q E K w : Q a w -> wp (mret a) Q E K w.
Proof. done. Qed.
Lemma wp_io (r : Result IoError A) Q E K w :
  (forall a, r = Ok a -> Q a w) -> (forall e, r = Err e -> E e w) -> wp (io r) Q E K w.
Proof. unfold wp, io. destruct r; auto. Qed.
Lemma wp_raise (e : IoError) (Q : A -> World -> Prop) E K w : E e w -> wp (raise e) Q E K w.
Proof. done. Qed.
Lemma wp_attempt (m : IO A) (Q : Result IoError A -> World -> Prop) E K w :
  wp m (fun a => Q (Ok a)) (fun e => Q (Err e)) K w -> wp (attempt m) Q E K w.
Proof. unfold wp, attempt. by destruct (m w) as [[[a|e]|] w']. Qed.
Lemma wp_mono (m : IO A) (Q Q' : A -> World -> Prop) E E' K K' w :
  wp m Q E K w -> (forall a w', Q a w' -> Q' a w') -> (forall e w', E e w' -> E' e w') -> (forall w', K w' -> K' w') ->
  wp m Q' E' K' w.
Proof. unfold wp. destruct (m w) as [[[a|e]|] w']; auto. Qed.
Lemma wp_run (m : IO A) Q E K w x w' :
  wp m Q E K w -> m w = (x, w') -> match x with Done (Ok a) => Q a w' | Done (Err e) => E e w' | Crashed => K w' end.
Proof. unfold wp. intros Hw Hm. rewrite Hm in Hw. exact Hw. Qed.
End Rules.

(** ** What is kept, and what a loss of power can show *)

(** The entry of [p] is the same, and nothing was added to what could come back. *)
Definition kept (p : Path) (w w' : World) : Prop :=
  w_nodes w' !! p = w_nodes w !! p /\ earlier w' p ⊆ earlier w p.
#[global] Instance kept_refl p : Reflexive (kept p).
Proof. by intros w. Qed.
#[global] Instance kept_trans p : Transitive (kept p).
Proof. intros w1 w2 w3 [H1 H2] [H3 H4]. split; [congruence|by etrans]. Qed.

Definition settled (n : option Node) : Prop := match n with Some (File _ _ false) => False | _ => True end.
(** Now and after a loss of power, [p] has an entry in [S]. *)
Definition only (w : World) (p : Path) (S : option Node -> Prop) : Prop :=
  forall n, n ∈ (w_nodes w !! p) :: earlier w p -> S n /\ settled n.

Lemma only_now w p S : only w p S -> S (w_nodes w !! p).
Proof. intros Ho. apply (Ho (w_nodes w !! p)). left. Qed.
Lemma survives_settled n n' : settled n -> survives n n' -> n' = n.
Proof. destruct n as [[m b []| |]|], n' as [[m' b' []| |]|]; simpl; try done; congruence. Qed.
Lemma only_power_loss w p S nodes : only w p S -> power_loss w nodes -> S (nodes !! p).
Proof.
  intros Ho Hp. destruct (Hp p) as (n & Hn & Hs). destruct (Ho n Hn) as [HS Hset]. by rewrite (survives_settled _ _ Hset Hs).
Qed.
Lemma only_kept w w' p S : kept p w w' -> only w p S -> only w' p S.
Proof.
  intros [H1 H2] Ho n Hn. apply Ho. rewrite H1 in Hn. apply elem_of_cons in Hn as [->|Hn]; apply elem_of_cons; [by left|].
  right. by apply H2.
Qed.
Lemma only_weaken w p (S S' : option Node -> Prop) : only w p S -> (forall n, S n -> S' n) -> only w p S'.
Proof. intros Ho HS n Hn. destruct (Ho n Hn). auto. Qed.

(** ** The calls *)
Lemma earlier_set_script w k p : earlier (set_script w k) p = earlier w p.
Proof. done. Qed.
Lemma kept_set_script w k p : kept p w (set_script w k).
Proof. done. Qed.

(** A call that works, fails or dies: the script decides, the rest is [act] and [torn]. *)
Lemma wp_syscall_with {A} torn (act : World -> Result IoError A * World) Q E K w :
  (forall k, match act (set_script w k) with (Ok a, w') => Q a w' | (Err e, w') => E e w' end) ->
  (forall f n k, E (fault_error f) (torn n (set_script w k))) -> (forall n k, K (torn n (set_script w k))) ->
  wp (syscall_with torn act) Q E K w.
Proof.
  intros Hact HE HK. unfold wp, syscall_with. destruct (w_script w) as [|[|f n|n] k] eqn:Es; auto.
  - specialize (Hact []). assert (set_script w [] = w) as Hw by (unfold set_script; rewrite <- Es; by destruct w).
    rewrite Hw in Hact. destruct (act w) as [[a|e] w']; auto.
  - specialize (Hact k). destruct (act (set_script w k)) as [[a|e] w']; auto.
Qed.
Lemma wp_syscall {A} (act : World -> Result IoError A * World) Q E K w :
  (forall k, match act (set_script w k) with (Ok a, w') => Q a w' | (Err e, w') => E e w' end) ->
  (forall f k, E (fault_error f) (set_script w k)) -> (forall k, K (set_script w k)) ->
  wp (syscall act) Q E K w.
Proof. intros. by apply wp_syscall_with. Qed.

(** Calls that only look. *)
Definition looks {A} (m : IO A) : Prop := forall w, exists k, (m w).2 = set_script w k.
Lemma looks_syscall {A} (act : World -> Result IoError A) : looks (syscall (fun w => (act w, w))).
Proof.
  intros w. unfold syscall, syscall_with. destruct (w_script w) as [|[|f n|n] k] eqn:Es; eauto.
  exists []. simpl. unfold set_script. rewrite <- Es. by destruct w.
Qed.
Lemma looks_wp {A} (m : IO A) (P : World -> Prop) w :
  looks m -> (forall w k, P w -> P (set_script w k)) -> P w -> wp m (fun _ => P) (fun _ => P) P w.
Proof. intros Hl HP Hw. unfold wp. destruct (Hl w) as [k Hk]. destruct (m w) as [[[a|e]|] w']; simpl in Hk; subst; auto. Qed.

Lemma looks_bind {A B} (m : IO A) (k : A -> IO B) : looks m -> (forall a, looks (k a)) -> looks (m ≫= k).
Proof.
  intros Hm Hk w. unfold mbind, IO_bind. destruct (Hm w) as [l El]. destruct (m w) as [[[a|e]|] w'] eqn:E; simpl in *; subst; eauto.
  destruct (Hk a (set_script w l)) as [l' ->]. by exists l'.
Qed.
Lemma looks_here {A} (x : Exit A) : looks (fun w => (x, w)).
Proof. intros w. exists (w_script w). by destruct w. Qed.
Lemma looks_attempt {A} (m : IO A) : looks m -> looks (attempt m).
Proof. intros Hm w. unfold attempt. destruct (Hm w) as [k Hk]. destruct (m w) as [[r|] w']; simpl in *; eauto. Qed.

Lemma set_node_eq w p n : w_nodes (set_node w p n) !! p = n.
Proof. unfold set_node. simpl. by rewrite lookup_partial_alter_eq. Qed.
Lemma kept_set_node p q n w : p <> q -> kept p w (set_node w q n).
Proof.
  intros Hpq. unfold kept, set_node, earlier. simpl. rewrite lookup_partial_alter_ne by done. by rewrite lookup_insert_ne by done.
Qed.
Lemma kept_set_file p q n w : p <> q -> kept p w (set_file w q n).
Proof. intros Hpq. unfold kept. simpl. by rewrite lookup_insert_ne by done. Qed.
Lemma kept_append p q bytes w : p <> q -> kept p w (append_to q bytes w).
Proof. intros Hpq. unfold append_to. destruct (w_nodes w !! q) as [[m b s| |]|]; try done. by apply kept_set_file. Qed.

(** ** Replacing a file through a temporary one

    The three stores share a pattern: create a temporary file, write it, sync it, rename
    it over the target, sync the directory.  The phases of it, from the world [w0]: *)
Section Replace.
Context `{Os} (w0 : World) (dir : Path) (temp target : string) (old : option Node) (bytes : string).
Abbreviation h := (path_join dir temp).
Abbreviation t := (path_join dir target).
Definition private_file : Node := File (Z.ldiff 384 umask) bytes true.

(** Only the temporary file differs. *)
Definition untouched (w : World) : Prop := forall p, p <> h -> kept p w0 w.
Definition written (n : Node) (w : World) : Prop := untouched w /\ w_nodes w !! h = Some n.
(** Only the two files differ, and the target has its old entry or the new one. *)
Definition safe (w : World) : Prop :=
  (forall p, p <> h -> p <> t -> kept p w0 w) /\ only w t (fun n => n = old \/ n = Some private_file).
Definition switched (w : World) : Prop := safe w /\ w_nodes w !! t = Some private_file.
Definition stored (w : World) : Prop := safe w /\ only w t (fun n => n = Some private_file).

Hypothesis Hne : temp <> target.
Hypothesis Hold : only w0 t (fun n => n = old).

Lemma join_ne : h <> t.
Proof using Hne. unfold path_join. intros [_ Hj]%app_inj_tail. done. Qed.

Lemma untouched_safe w : untouched w -> safe w.
Proof using Hne Hold.
  intros Hu. split; [by auto|]. apply (only_weaken _ _ (fun n => n = old)); [|by left].
  apply (only_kept w0); [|done]. apply Hu. intros E. by apply join_ne.
Qed.
Lemma untouched_refl : untouched w0.
Proof. by intros p _. Qed.
Lemma untouched_step w w' : untouched w -> (forall p, p <> h -> kept p w w') -> untouched w'.
Proof. intros Hu Hk p Hp. etrans; [by apply Hu|by apply Hk]. Qed.
Lemma safe_step w w' : safe w -> (forall p, kept p w w') -> safe w'.
Proof. intros [H1 H2] Hk. split; [intros p Hp Hp'; etrans; [by apply H1|done]|by apply (only_kept w)]. Qed.

#[local] Hint Resolve untouched_safe kept_set_script : core.

Lemma looks_untouched {A} (m : IO A) Q w :
  looks m -> untouched w -> (forall a w', untouched w' -> Q a w') -> wp m Q (fun _ => safe) safe w.
Proof using Hne Hold.
  intros Hl Hu HQ. eapply wp_mono; [apply (looks_wp m untouched); [done| |done]|done|simpl; auto|simpl; auto].
  intros. eapply untouched_step; [done|done].
Qed.
Lemma looks_written {A} (m : IO A) n Q w :
  looks m -> written n w -> (forall a w', written n w' -> Q a w') -> wp m Q (fun _ => safe) safe w.
Proof using Hne Hold.
  intros Hl Hu HQ. eapply wp_mono; [apply (looks_wp m (written n)); [done| |done]|done|intros e w' []; auto|intros w' []; auto].
  intros w' k [Hw1 Hw2]. split; [|done]. by eapply untouched_step.
Qed.

Lemma wp_unlink_temp Q w :
  untouched w -> (forall r w', untouched w' -> Q r w') -> wp (attempt (unlinkat dir temp)) Q (fun _ => safe) safe w.
Proof using Hne Hold.
  intros Hu HQ. apply wp_attempt. apply wp_syscall; [|intros; apply HQ; by eapply untouched_step|intros; apply untouched_safe; by eapply untouched_step].
  intros k. simpl. destruct (w_nodes w !! h) as [[]|]; apply HQ; try (by eapply untouched_step).
  all: eapply untouched_step; [done|]; intros p Hp; etrans; [apply (kept_set_script _ k)|by apply kept_set_node].
Qed.

Lemma wp_create Q w :
  untouched w -> (forall w', written (File (Z.ldiff 384 umask) "" false) w' -> Q h w') ->
  wp (openat_create dir temp) Q (fun _ => safe) safe w.
Proof using Hne Hold.
  intros Hu HQ. apply wp_syscall; [|intros; apply untouched_safe; by eapply untouched_step..].
  intros k. simpl. destruct (w_nodes w !! h) eqn:E; [apply untouched_safe; by eapply untouched_step|].
  apply HQ. split; [|apply set_node_eq].
  eapply untouched_step; [done|]. intros p Hp. etrans; [apply (kept_set_script _ k)|by apply kept_set_node].
Qed.

Lemma wp_write text mode before s Q w :
  written (File mode before s) w -> (forall w', written (File mode (before +:+ text) false) w' -> Q tt w') ->
  wp (write_all h text) Q (fun _ => safe) safe w.
Proof using Hne Hold.
  intros [Hu Hw] HQ. apply wp_syscall_with.
  - intros k. apply HQ. split; [|unfold append_to; simpl; rewrite Hw; apply lookup_insert_eq].
    eapply untouched_step; [done|]. intros p Hp. etrans; [apply (kept_set_script _ k)|by apply kept_append].
  - intros f n k. apply untouched_safe. eapply untouched_step; [done|]. intros p Hp.
    etrans; [apply (kept_set_script _ k)|by apply kept_append].
  - intros n k. apply untouched_safe. eapply untouched_step; [done|]. intros p Hp.
    etrans; [apply (kept_set_script _ k)|by apply kept_append].
Qed.

Lemma wp_sync mode text s Q w :
  written (File mode text s) w -> (forall w', written (File mode text true) w' -> Q tt w') ->
  wp (sync_all h) Q (fun _ => safe) safe w.
Proof using Hne Hold.
  intros [Hu Hw] HQ. apply wp_syscall; [|intros; apply untouched_safe; by eapply untouched_step..].
  intros k. simpl. rewrite Hw. apply HQ. split; [|apply lookup_insert_eq].
  eapply untouched_step; [done|]. intros p Hp. etrans; [apply (kept_set_script _ k)|by apply kept_set_file].
Qed.

Lemma wp_rename Q w :
  written private_file w -> (forall w', switched w' -> Q tt w') -> wp (renameat dir temp target) Q (fun _ => safe) safe w.
Proof using Hne Hold.
  intros [Hu Hw] HQ. pose proof join_ne as Hj. apply wp_syscall; [|intros; apply untouched_safe; by eapply untouched_step..].
  intros k. simpl. rewrite Hw.
  assert (untouched (set_script w k)) as Hu' by (by eapply untouched_step).
  assert (kept t w0 (set_script w k)) as [Ht He] by (apply Hu'; intros E; by apply Hj).
  assert (switched (set_node (set_node (set_script w k) t (Some private_file)) h None)) as Hs.
  { assert (kept t (set_node (set_script w k) t (Some private_file))
      (set_node (set_node (set_script w k) t (Some private_file)) h None)) as Hk by (apply kept_set_node; intros E; by apply Hj).
    assert (w_nodes (set_node (set_script w k) t (Some private_file)) !! t = Some private_file) as Hnow by apply set_node_eq.
    split; [|destruct Hk; congruence]. split.
    - intros p Hp Hp'. etrans; [by apply Hu'|]. etrans; by apply kept_set_node.
    - apply (only_kept _ _ _ _ Hk). intros n Hn. rewrite Hnow in Hn. unfold earlier in Hn. simpl in Hn.
      rewrite lookup_insert_eq in Hn. simpl in Hn. apply elem_of_cons in Hn as [->|Hn]; [split; [by right|done]|].
      destruct (only_kept _ _ _ _ (conj Ht He) Hold n Hn). split; [by left|done]. }
  destruct (w_nodes w !! t) as [[]|]; apply HQ || apply untouched_safe; done.
Qed.

Lemma wp_sync_dir Q w : switched w -> (forall w', stored w' -> Q tt w') -> wp (sync_dir dir) Q (fun _ => safe) safe w.
Proof.
  intros [Hs Ht] HQ. apply wp_syscall; [|intros; by eapply safe_step..].
  intros k. apply HQ.
  assert (path_parent t = Some dir) as Hp by (unfold path_parent, path_join; rewrite rev_app_distr; simpl; by rewrite rev_involutive).
  set (w' := {| w_nodes := _; w_earlier := _; w_script := _; w_entropy := _ |}).
  assert (forall p, kept p w w') as Hk.
  { intros p. split; [done|]. unfold earlier. simpl. rewrite map_lookup_filter. destruct (w_earlier w !! p); simpl; [|done].
    case_guard; simpl; [done|apply list_subseteq_nil]. }
  split; [by eapply safe_step|]. intros n Hn. simpl in Hn. unfold earlier in Hn. simpl in Hn.
  rewrite Ht, map_lookup_filter in Hn. destruct (w_earlier w !! t); simpl in Hn.
  - rewrite option_guard_False in Hn by (by intros []). apply list_elem_of_singleton in Hn as ->. done.
  - apply list_elem_of_singleton in Hn as ->. done.
Qed.
End Replace.
