(* ===== verification/Recovery.v ===== *)
(** * Recovery: what the stores read back after a failure or a loss of power *)
From stdpp Require Import gmap.
From Stdlib Require Import Ascii.
From S2P Require Import Prelude Text Core Files Dto Credential Client Profile Journal CredentialStore Durability.

(** A world after a restart: nothing pending, no failures. *)
Definition reboot (nodes : gmap Path Node) : World :=
  {| w_nodes := nodes; w_earlier := ∅; w_script := []; w_entropy := [] |}.
(** What a process can find: the files as they are, or as a loss of power leaves them. *)
Definition found (w : World) (nodes : gmap Path Node) : Prop := nodes = w_nodes w \/ power_loss w nodes.
(** A loss of power brings back nothing but what is there now. *)
Definition durable (w : World) (p : Path) : Prop := only w p (fun n => n = w_nodes w !! p).

Lemma synced_durable w p : earlier w p = [] -> settled (w_nodes w !! p) -> durable w p.
Proof. intros He Hs n Hn. rewrite He in Hn. by apply list_elem_of_singleton in Hn as ->. Qed.
Lemma only_durable w p n : only w p (fun x => x = n) -> durable w p.
Proof. intros Ho. pose proof (only_now _ _ _ Ho) as E. simpl in E. by rewrite <- E in Ho. Qed.
Lemma kept_durable w w' p : kept p w w' -> durable w p -> durable w' p.
Proof. intros Hk Hd. eapply only_durable, only_kept; [exact Hk|exact Hd]. Qed.
Lemma only_found w p S nodes : only w p S -> found w nodes -> S (nodes !! p).
Proof. intros Ho [->|Hp]; [by apply only_now|by eapply only_power_loss]. Qed.

(** The result of replacing [t]: its old entry or the new one, the new one on success, and
    every other file left alone, except hidden ones beside it. *)
Definition hidden (dir p : Path) : Prop := exists name, p = path_join dir ("." +:+ name).
Definition replacement (w : World) (dir t : Path) (new : Node) (x : Exit unit) (w' : World) : Prop :=
  (forall nodes, found w' nodes -> nodes !! t = w_nodes w !! t \/ nodes !! t = Some new)
  /\ (x = Done (Ok tt) -> forall nodes, found w' nodes -> nodes !! t = Some new)
  /\ (forall p, p <> t -> ~ hidden dir p -> kept p w w').

Lemma path_file_name_join d n : path_file_name (path_join d n) = Some n.
Proof. unfold path_file_name, path_join. apply last_snoc. Qed.
Lemma hidden_ne a b name : "." +:+ name +:+ a +:+ b <> name.
Proof.
  intros E%(f_equal String.length). rewrite !string_app_length in E. simpl in E. lia.
Qed.

Section Replacing.
Context `{Os}.

Lemma replacement_of_wp (m : IO unit) w t target dir bytes x w' :
  t = path_join dir target -> m w = (x, w') ->
  wp m (fun _ w' => exists name, stored w dir ("." +:+ name) target (w_nodes w !! t) bytes w')
    (fun _ w' => exists name, safe w dir ("." +:+ name) target (w_nodes w !! t) bytes w')
    (fun w' => exists name, safe w dir ("." +:+ name) target (w_nodes w !! t) bytes w') w ->
  replacement w dir t (private_file bytes) x w'.
Proof.
  intros -> Hm Hw. pose proof (wp_run _ _ _ _ _ _ _ Hw Hm) as Hr. clear Hw Hm.
  assert (exists name, safe w dir ("." +:+ name) target (w_nodes w !! path_join dir target) bytes w') as (name & Hs & Ho).
  { destruct x as [[a|e]|]; [destruct Hr as [name [Hr _]]|..]; eauto. }
  split; [intros nodes Hf; exact (only_found _ _ _ _ Ho Hf)|]. split.
  - intros ->. destruct Hr as (name' & _ & Hst). intros nodes Hf. exact (only_found _ _ _ _ Hst Hf).
  - intros p Hp Hh. apply Hs; [|done]. intros ->. apply Hh. by exists name.
Qed.
End Replacing.

(** ** The journal *)
Section Journal.
Context `{Os} `{UrlCrate} `{Serialize LeaveJournal, !Deserialize LeaveJournal}.
Variable self : LeaveJournalStore.
Variable name : string.
Hypothesis Hname : target_name self = Ok name.
Abbreviation t := (path_join (js_directory self) name).
Implicit Types w : World.

Lemma looks_open_target : looks (open_target self).
Proof.
  apply looks_bind; [apply looks_here|]. intros n. apply looks_bind; [apply looks_attempt, looks_syscall|]. intros [file|e].
  - apply looks_bind; [apply looks_syscall|]. intros []; try apply looks_here.
    apply looks_bind; [|intros; apply looks_here]. apply looks_bind; [apply looks_syscall|]. intros meta.
    destruct (_ =? _); apply looks_here.
  - case_bool_decide; apply looks_here.
Qed.

Lemma journal_temp_ne random : "." +:+ name +:+ ".tmp-" +:+ hex random <> name.
Proof. apply hidden_ne. Qed.

(** Until the temporary name is drawn, nothing has changed. *)
Lemma quiet_safe w w1 bytes :
  durable w t -> (forall p, kept p w w1) ->
  exists n, safe w (js_directory self) ("." +:+ n) name (w_nodes w !! t) bytes w1.
Proof.
  intros Hd Hk. exists (name +:+ ".tmp-" +:+ hex ""). apply untouched_safe; [apply journal_temp_ne|done|].
  intros p _. apply Hk.
Qed.

Lemma store_unix_wp w w1 bytes fault :
  durable w t -> (forall p, kept p w w1) ->
  wp (store_unix self bytes fault)
    (fun _ w' => exists n, stored w (js_directory self) ("." +:+ n) name (w_nodes w !! t) bytes w')
    (fun _ w' => exists n, safe w (js_directory self) ("." +:+ n) name (w_nodes w !! t) bytes w')
    (fun w' => exists n, safe w (js_directory self) ("." +:+ n) name (w_nodes w !! t) bytes w') w1.
Proof using Hname.
  intros Hd Hk. unfold store_unix. rewrite Hname.
  apply wp_bind. unfold fault_point at 1. case_bool_decide; [by apply wp_raise, quiet_safe|apply wp_ret].
  apply wp_bind. unfold journal_temp_name. rewrite Hname. apply wp_bind, wp_io; [intros n [= <-]|done].
  apply wp_bind. apply wp_syscall; [|intros; by apply quiet_safe..].
  intros k. simpl. destruct (w_entropy w1) as [|random rest]; [by apply quiet_safe|]. apply wp_ret.
  set (w2 := {| w_nodes := _; w_earlier := _; w_script := _; w_entropy := _ |}).
  set (temp := "." +:+ name +:+ ".tmp-" +:+ hex random).
  pose proof (journal_temp_ne random : temp <> name) as Hne. pose proof Hd as Ho.
  assert (untouched w (js_directory self) temp w2) as Hu by (intros p _; apply Hk).
  eapply (wp_mono _ (fun _ => stored w (js_directory self) temp name (w_nodes w !! t) bytes)
    _ (fun _ => safe w (js_directory self) temp name (w_nodes w !! t) bytes) _
    (safe w (js_directory self) temp name (w_nodes w !! t) bytes)); [|unfold temp; eauto..].
  clearbody temp w2. clear Hk.
  apply wp_bind. unfold fault_point at 1. case_bool_decide; [by apply wp_raise, untouched_safe|apply wp_ret].
  apply wp_bind, wp_create; try done. clear w2 Hu. intros w2 Hw.
  apply wp_bind. unfold fault_point at 1. case_bool_decide; [apply wp_raise, untouched_safe; [done|done|apply Hw]|apply wp_ret].
  apply wp_bind. eapply wp_write; try done. clear w2 Hw. intros w2 Hw.
  apply wp_bind. unfold fault_point at 1. case_bool_decide; [apply wp_raise, untouched_safe; [done|done|apply Hw]|apply wp_ret].
  apply wp_bind. eapply wp_sync; try done. clear w2 Hw. intros w2 Hw.
  apply wp_bind. unfold fault_point at 1. case_bool_decide; [apply wp_raise, untouched_safe; [done|done|apply Hw]|apply wp_ret].
  apply wp_bind, wp_io; [intros n [= <-]|done].
  apply wp_bind. eapply wp_rename; try done. clear w2 Hw. intros w2 Hw.
  apply wp_bind. unfold fault_point at 1. case_bool_decide; [by apply wp_raise; apply Hw|apply wp_ret].
  by apply wp_sync_dir.
Qed.

Lemma store_with_fault_wp w value fault :
  durable w t ->
  wp (store_with_fault self value fault)
    (fun _ w' => exists n, stored w (js_directory self) ("." +:+ n) name (w_nodes w !! t) (to_json value) w')
    (fun _ w' => exists n, safe w (js_directory self) ("." +:+ n) name (w_nodes w !! t) (to_json value) w')
    (fun w' => exists n, safe w (js_directory self) ("." +:+ n) name (w_nodes w !! t) (to_json value) w') w.
Proof using Hname.
  intros Hd. unfold store_with_fault. apply wp_bind, wp_io; [intros _ _|intros; by apply quiet_safe].
  destruct (_ <? _); [apply wp_raise; by apply quiet_safe|]. apply wp_bind.
  eapply wp_mono; [apply (looks_wp _ (fun w1 => forall p, kept p w w1)); [|intros w1 k Hk p; exact (Hk p)|done]|..].
  - apply looks_bind; [apply looks_open_target|intros; apply looks_here].
  - intros ? w1 Hk. by apply store_unix_wp.
  - intros ? w1 Hk. by apply quiet_safe.
  - intros w1 Hk. by apply quiet_safe.
Qed.

(** Reading depends on the target alone. *)
Definition journal_content (binding : ProfileBinding) (n : option Node) : Result IoError (option LeaveJournal) :=
  match n with
  | None => Ok None
  | Some (File mode bytes _) =>
      if negb (Z.land mode 511 =? 384) then Err (io_error KindPermissionDenied "leave journal permissions are unsafe")
      else if (len bytes =? 0) || (MAX_JOURNAL_BYTES <? len bytes) then Err journal_invalid_data
      else
        value ← ok_or (from_slice bytes) journal_invalid_data;
        _ ← validate_record value;
        _ ← LeaveJournal_validate value binding;
        Ok (Some value)
  | Some (Symlink _) => Err ELOOP
  | Some (Directory _ _) => Err substitution
  end.

Lemma syscall_quiet {A} (act : World -> Result IoError A * World) nodes :
  syscall act (reboot nodes) = let '(r, w') := act (reboot nodes) in (Done r, w').
Proof. done. Qed.

Lemma take_bytes_all n s : len s <= Z.of_nat n -> take_bytes n s = s.
Proof.
  unfold take_bytes, len. rewrite <- length_as_bytes. intros Hn. rewrite take_ge by lia. apply String.string_of_list_ascii_of_string.
Qed.

Lemma journal_load_content binding nodes :
  journal_load self binding (reboot nodes) = (Done (journal_content binding (nodes !! t)), reboot nodes).
Proof using Hname.
  unfold journal_load, load_record, open_target. rewrite Hname. unfold mbind, IO_bind, attempt, openat_read, io. simpl.
  unfold syscall, syscall_with. simpl. destruct (nodes !! t) as [[mode bytes s| |]|] eqn:Et; simpl;
    [|by rewrite Et|done|done].
  rewrite Et. simpl. unfold verify_journal_handle, metadata, mbind, IO_bind, syscall, syscall_with. simpl. rewrite Et. simpl.
  destruct (Z.land mode 511 =? 384); simpl; [|done]. rewrite Et. simpl.
  destruct ((len bytes =? 0) || _) eqn:El; [done|]. unfold read_upto, syscall, syscall_with. simpl. rewrite Et. simpl.
  apply orb_false_iff in El as [_ El]. rewrite take_bytes_all by (apply Z.ltb_ge in El; unfold MAX_JOURNAL_BYTES in *; lia).
  rewrite El. unfold io. destruct (from_slice bytes) as [value|]; simpl; [|done].
  destruct (validate_record value); simpl; [|done]. by destruct (LeaveJournal_validate value binding).
Qed.
End Journal.

(** The bytes a codec wrote are not empty. *)
Lemma to_json_nonempty `{SerdeLaws R} (r : R) : (len (to_json r) =? 0) = false.
Proof.
  apply Z.eqb_neq. intros E. assert (to_json r = "") as Hv by (destruct (to_json r); [done|unfold len in E; simpl in E; lia]).
  pose proof (serde_roundtrip r) as Hr. rewrite Hv, serde_empty in Hr. done.
Qed.

Section JournalTheorem.
Context `{Os} `{UrlCrate} `{SerdeLaws LeaveJournal}.

Lemma journal_content_stored binding value :
  LeaveJournal_validate value binding = Ok tt -> Z.ldiff 384 umask = 384 -> len (to_json value) <= MAX_JOURNAL_BYTES ->
  journal_content binding (Some (private_file (to_json value))) = Ok (Some value).
Proof.
  intros Hv Hu Hl. unfold journal_content, private_file. rewrite Hu, to_json_nonempty. simpl.
  rewrite (proj2 (Z.ltb_ge _ _)) by done. rewrite serde_roundtrip. simpl.
  assert (validate_record value = Ok tt) as ->; [|simpl; by rewrite Hv].
  unfold LeaveJournal_validate, mbind, result_bind in Hv. destruct (map_err _ _); [|done].
  by destruct (validate_record value) as [[]|].
Qed.

(** What a store does to the journal, read as [binding]'s. *)
Lemma journal_store_wp self name value binding fault w :
  target_name self = Ok name -> durable w (path_join (js_directory self) name) ->
  (validate_record value = Ok tt -> LeaveJournal_validate value binding = Ok tt) -> Z.ldiff 384 umask = 384 ->
  let t := path_join (js_directory self) name in
  let around w' := forall p, p <> t -> ~ hidden (js_directory self) p -> kept p w w' in
  let torn w' := around w' /\ only w' t (fun n => n = w_nodes w !! t \/ journal_content binding n = Ok (Some value)) in
  wp (store_with_fault self value fault)
    (fun _ w' => around w' /\ exists node, journal_content binding node = Ok (Some value) /\ only w' t (fun n => n = node))
    (fun _ => torn) torn w.
Proof.
  intros Hn Hd Hv Hu t around torn. pose proof (store_with_fault_wp self name Hn w value fault Hd) as Hs.
  assert (torn w) as Hw by (split; [by intros p _ _|by eapply only_weaken; [exact Hd|left]]).
  destruct (validate_record value) as [[]|] eqn:Er.
  2: { unfold store_with_fault. apply wp_bind, wp_io; [by rewrite Er|done]. }
  destruct (MAX_JOURNAL_BYTES <? len (to_json value)) eqn:El.
  { unfold store_with_fault. apply wp_bind, wp_io; [intros _ _; rewrite El; by apply wp_raise|done]. }
  apply Z.ltb_ge in El. pose proof (journal_content_stored _ _ (Hv eq_refl) Hu El) as Hc.
  assert (forall n w', safe w (js_directory self) ("." +:+ n) name (w_nodes w !! t) (to_json value) w' -> torn w') as Hsafe.
  { intros n w' [Ha Ho]. split; [intros p Hp Hh; apply Ha; [intros ->; apply Hh; by eexists|done]|].
    eapply only_weaken; [exact Ho|]. intros x [-> | ->]; [by left|by right]. }
  eapply wp_mono; [exact Hs|simpl..].
  - intros _ w' (n & Hst & Ho). split; [by apply (Hsafe n)|]. by eexists.
  - intros e w' (n & Hst). by apply (Hsafe n).
  - intros w' (n & Hst). by apply (Hsafe n).
Qed.

(** C36: the leave journal is replaced atomically and durably.  Whatever call fails,
    wherever the process dies and whatever a loss of power then takes back, reading the
    journal gives what it gave before or the new record, and after a store that reported
    success always the new record; no other visible file changes. *)
Theorem leave_journal_is_durable self name value binding fault w x w' :
  target_name self = Ok name -> durable w (path_join (js_directory self) name) ->
  LeaveJournal_validate value binding = Ok tt -> Z.ldiff 384 umask = 384 ->
  store_with_fault self value fault w = (x, w') ->
  let reads nodes := (journal_load self binding (reboot nodes)).1 in
  (forall nodes, found w' nodes -> reads nodes = reads (w_nodes w) \/ reads nodes = Done (Ok (Some value)))
  /\ (x = Done (Ok tt) -> forall nodes, found w' nodes -> reads nodes = Done (Ok (Some value)))
  /\ (forall p, p <> path_join (js_directory self) name -> ~ hidden (js_directory self) p -> kept p w w').
Proof.
  intros Hn Hd Hv Hu Hs reads. unfold reads.
  pose proof (wp_run _ _ _ _ _ _ _ (journal_store_wp _ _ _ binding fault _ Hn Hd (fun _ => Hv) Hu) Hs) as Hr. simpl in Hr.
  assert (forall nodes S, only w' (path_join (js_directory self) name) S -> found w' nodes -> S (nodes !! path_join (js_directory self) name)) as Hf
    by (intros nodes S; apply only_found).
  split_and!.
  - intros nodes Hfn. rewrite !(journal_load_content _ _ Hn). simpl.
    destruct x as [[[]|e]|]; [destruct Hr as (_ & node & Hc & Ho)|destruct Hr as (_ & Ho)..]; pose proof (Hf nodes _ Ho Hfn) as E; simpl in E.
    + right. by rewrite E, Hc.
    + destruct E as [-> | ->]; auto.
    + destruct E as [-> | ->]; auto.
  - intros -> nodes Hfn. destruct Hr as (_ & node & Hc & Ho). rewrite (journal_load_content _ _ Hn). simpl.
    pose proof (Hf nodes _ Ho Hfn) as E. simpl in E. by rewrite E, Hc.
  - destruct x as [[[]|e]|]; apply Hr.
Qed.
End JournalTheorem.

(** ** The credential *)
Section CredentialTheorem.
Context `{Os} `{UrlCrate} `{HttpHeadersLaws} `{CryptoLaws} `{SerdeLaws CredentialRecord}.

Lemma credential_temp_ne name : "." +:+ name +:+ ".credential-tmp-" <> name.
Proof. apply (hidden_ne ".credential-tmp-" ""). Qed.

Section Storing.
Variable self : CredentialStore.
Variable name : string.
Hypothesis Hname : path_file_name (cs_path self) = Some name.
Abbreviation dir := (cs_directory_guard self).
Abbreviation t := (path_join dir name).
Abbreviation temp := ("." +:+ name +:+ ".credential-tmp-").

Lemma looks_reject_symlink p : looks (reject_symlink p).
Proof.
  apply looks_bind; [apply looks_attempt, looks_syscall|]. intros [[]|e]; try apply looks_here. case_bool_decide; apply looks_here.
Qed.
Lemma looks_verify_restricted p : looks (verify_restricted_handle p).
Proof. apply looks_bind; [apply looks_syscall|]. intros meta. destruct (_ =? _); apply looks_here. Qed.

Lemma store_bytes_wp w w1 bytes fault :
  durable w t -> (forall p, kept p w w1) ->
  wp (store_bytes_unix self bytes fault) (fun _ => stored w dir temp name (w_nodes w !! t) bytes)
    (fun _ => safe w dir temp name (w_nodes w !! t) bytes) (safe w dir temp name (w_nodes w !! t) bytes) w1.
Proof using Hname.
  intros Hd Hk. pose proof (credential_temp_ne name) as Hne. pose proof Hd as Ho.
  assert (untouched w dir temp w1) as Hu by (intros p _; apply Hk). clear Hk.
  unfold store_bytes_unix. rewrite Hname. apply wp_bind, wp_io; [intros n [= <-]|done].
  unfold credential_temp_prefix. rewrite Hname. apply wp_bind, wp_io; [intros n [= <-]|done].
  apply wp_bind, wp_unlink_temp; try done. clear w1 Hu. intros _ w1 Hu.
  apply wp_bind. unfold credential_fault at 1. case_bool_decide; [by apply wp_raise, untouched_safe|apply wp_ret].
  apply wp_bind, wp_create; try done. clear w1 Hu. intros w1 Hw.
  apply wp_bind. eapply looks_written; try done; [apply looks_verify_restricted|]. clear w1 Hw. intros _ w1 Hw.
  apply wp_bind. eapply wp_write; try done. clear w1 Hw. intros w1 Hw.
  apply wp_bind. unfold credential_fault at 1. case_bool_decide; [apply wp_raise, untouched_safe; [done|done|apply Hw]|apply wp_ret].
  apply wp_bind. eapply wp_sync; try done. clear w1 Hw. intros w1 Hw.
  apply wp_bind. unfold credential_fault at 1. case_bool_decide; [apply wp_raise, untouched_safe; [done|done|apply Hw]|apply wp_ret].
  apply wp_bind. eapply looks_written; try done; [apply looks_verify_restricted|]. clear w1 Hw. intros _ w1 Hw.
  apply wp_bind. unfold credential_fault at 1. case_bool_decide; [apply wp_raise, untouched_safe; [done|done|apply Hw]|apply wp_ret].
  apply wp_bind. eapply wp_rename; try done. clear w1 Hw. intros w1 Hw.
  by apply wp_sync_dir.
Qed.

(** Storing a credential: the old file or a new one, and after success the new one. *)
Definition torn_credential (w w' : World) : Prop := exists bytes, safe w dir temp name (w_nodes w !! t) bytes w'.
Lemma credential_store_wp w w1 binding c fault :
  durable w t -> (forall p, kept p w w1) ->
  wp (credential_store_with_fault self binding c fault)
    (fun _ w' => exists text, header_to_str (cd_value c) = Some text
       /\ stored w dir temp name (w_nodes w !! t)
            (to_json {| rec_version := CREDENTIAL_VERSION; rec_relay_origin := cb_relay_origin binding;
                        rec_profile := cb_profile binding; rec_squad_id := cb_squad_id binding;
                        rec_member_id := cb_member_id binding; rec_instance_id := cd_instance_id c; rec_authorization := text |}) w')
    (fun _ => torn_credential w) (torn_credential w) w1.
Proof using Hname.
  intros Hd Hk.
  assert (forall w', (forall p, kept p w w') -> torn_credential w w') as Hq.
  { intros w' Hk'. exists "". apply untouched_safe; [apply credential_temp_ne|done|]. intros p _. apply Hk'. }
  unfold credential_store_with_fault. apply wp_bind, wp_io; [intros _ _|intros; by apply Hq]. apply wp_bind.
  eapply wp_mono; [apply (looks_wp _ (fun w1 => forall p, kept p w w1)); [apply looks_reject_symlink|intros w2 k Hk2 p; exact (Hk2 p)|done]
    | |simpl; auto..].
  intros ? w2 Hk2. apply wp_bind, wp_io; [intros text Ht|intros; by apply Hq].
  eapply wp_mono; [apply (store_bytes_wp w); [done|done]|simpl..].
  - intros _ w' Hs. exists text. split; [by destruct (header_to_str (cd_value c)); simplify_eq/=|done].
  - intros e w' Hs. by eexists.
  - intros w' Hs. by eexists.
Qed.

(** Reading depends on the target alone. *)
Definition credential_content (expected : CredentialBinding) (n : option Node) : Result IoError Credential :=
  _ ← rebind expected;
  match n with
  | None => Err ENOENT
  | Some (Symlink _) => Err ELOOP
  | Some node =>
      if negb (file_mode node mod 512 =? 384) then Err (io_error KindPermissionDenied "credential permissions are unsafe")
      else if (node_len node =? 0) || (MAX_CREDENTIAL_BYTES <? node_len node) then Err credential_invalid
      else match node with
           | File _ bytes _ => credential_of_bytes expected bytes
           | _ => Err EISDIR
           end
  end.

Lemma credential_load_content expected nodes :
  credential_load self expected (reboot nodes) = (Done (credential_content expected (nodes !! t)), reboot nodes).
Proof using Hname.
  unfold credential_load, credential_content. rewrite Hname. unfold mbind, IO_bind, result_bind, io. simpl.
  destruct (rebind expected); simpl; [|done]. unfold openat_read, syscall, syscall_with. simpl.
  destruct (nodes !! t) as [node|] eqn:Et; simpl; [|done].
  unfold verify_restricted_handle, metadata, read_upto, mbind, IO_bind, syscall, syscall_with.
  destruct node as [mode bytes s|uid mode|target]; simpl; [| |done]; rewrite Et; simpl.
  - destruct (mode mod 512 =? 384); simpl; [|done]. rewrite Et. simpl. destruct (_ || _) eqn:El; [done|]. simpl. rewrite Et. simpl.
    apply orb_false_iff in El as [_ El]. rewrite take_bytes_all by (apply Z.ltb_ge in El; unfold MAX_CREDENTIAL_BYTES in *; lia).
    by rewrite El.
  - destruct (mode mod 512 =? 384); simpl; [|done]. rewrite Et. simpl. by rewrite Et.
Qed.
End Storing.

(** A credential the relay issued, as the client keeps it. *)
Lemma issued_credential header c :
  Credential_from_response header = Ok c ->
  exists text, cd_value c = "Bearer " +:+ text /\ forallb visible_ascii (as_bytes text) = true
    /\ forallb visible_ascii (as_bytes (cd_value c)) = true
    /\ Credential_from_response text = Ok c /\ is_ok (InstanceId_new (cd_instance_id c)) = true.
Proof.
  unfold Credential_from_response, mbind, result_bind. destruct (header_to_str header) as [text|]; simpl; [|done].
  destruct (parse_session_value text) as [parsed|] eqn:Ep; simpl; [|done].
  destruct (parse_session_value_canonical _ _ Ep) as (Ee & Hc & _).
  pose proof (encoded_visible _ Hc) as Hv. rewrite Ee in Hv.
  assert (forallb visible_ascii (as_bytes ("Bearer " +:+ text)) = true) as Hb by (rewrite as_bytes_app, forallb_app; by rewrite Hv).
  rewrite (header_visible _ Hb). simpl. intros [= <-]. exists text. simpl. split_and!; try done.
  - rewrite (header_text _ Hv). simpl. rewrite Ep. simpl. rewrite (header_visible _ Hb). done.
  - pose proof (new_raw (cr_instance_id parsed)) as Hr. by rewrite Hr.
Qed.

Definition record_of (binding : CredentialBinding) (c : Credential) : CredentialRecord :=
  {| rec_version := CREDENTIAL_VERSION; rec_relay_origin := cb_relay_origin binding; rec_profile := cb_profile binding;
     rec_squad_id := cb_squad_id binding; rec_member_id := cb_member_id binding; rec_instance_id := cd_instance_id c;
     rec_authorization := cd_value c |}.

Lemma credential_content_stored binding header c :
  Credential_from_response header = Ok c -> rebind binding = Ok binding -> Z.ldiff 384 umask = 384 ->
  len (to_json (record_of binding c)) <= MAX_CREDENTIAL_BYTES ->
  credential_content binding (Some (private_file (to_json (record_of binding c)))) = Ok c.
Proof.
  intros Hi Hb Hu Hl. destruct (issued_credential _ _ Hi) as (text & Ev & Hv & Hva & Ht & Hid).
  unfold credential_content, private_file. rewrite Hu, Hb. simpl. rewrite to_json_nonempty. simpl.
  rewrite (proj2 (Z.ltb_ge _ _)) by done. unfold credential_of_bytes. rewrite serde_roundtrip. cbn [mbind result_bind ok_or record_of rec_relay_origin rec_profile
    rec_squad_id rec_member_id rec_version rec_instance_id rec_authorization].
  unfold rebind in Hb. rewrite Hb. cbn [mbind result_bind]. rewrite bool_decide_eq_false_2 by (intros Hx; by apply Hx). rewrite Hid.
  assert (strip_prefix "Bearer " (cd_value c) = Some text) as Hst by (rewrite Ev; apply strip_prefix_app).
  rewrite (header_visible _ Hva). cbn [mbind result_bind ok_or]. rewrite (header_text _ Hva). cbn [mbind result_bind ok_or].
  rewrite Hst. cbn [mbind result_bind ok_or]. rewrite (header_visible _ Hv). cbn [mbind result_bind ok_or]. rewrite Ht.
  simpl. by rewrite bool_decide_eq_false_2 by (intros Hx; by apply Hx).
Qed.

(** C37: the stored credential is replaced atomically and durably.  Storing a credential
    the relay issued, with any failures, crash and loss of power, leaves the credential
    that was readable before or the new one, and after success always the new one: a
    rotated session is never lost to a torn file. *)
Theorem stored_credential_is_durable self name binding header c fault w x w' :
  path_file_name (cs_path self) = Some name -> durable w (path_join (cs_directory_guard self) name) ->
  Credential_from_response header = Ok c -> rebind binding = Ok binding -> Z.ldiff 384 umask = 384 ->
  len (to_json (record_of binding c)) <= MAX_CREDENTIAL_BYTES ->
  credential_store_with_fault self binding c fault w = (x, w') ->
  let reads nodes := (credential_load self binding (reboot nodes)).1 in
  (forall nodes, found w' nodes -> reads nodes = reads (w_nodes w) \/ reads nodes = Done (Ok c))
  /\ (x = Done (Ok tt) -> forall nodes, found w' nodes -> reads nodes = Done (Ok c))
  /\ (forall p, p <> path_join (cs_directory_guard self) name -> ~ hidden (cs_directory_guard self) p -> kept p w w').
Proof.
  intros Hn Hd Hi Hb Hu Hl Hs reads. unfold reads.
  pose proof (credential_content_stored _ _ _ Hi Hb Hu Hl) as Hc.
  destruct (issued_credential _ _ Hi) as (_ & _ & _ & Hva & _).
  assert (replacement w (cs_directory_guard self) (path_join (cs_directory_guard self) name) (private_file (to_json (record_of binding c))) x w') as (R1 & R2 & R3).
  { eapply (replacement_of_wp _ _ _ name); [done|exact Hs|].
    assert (forall w1, (forall p, kept p w w1) -> safe w (cs_directory_guard self) ("." +:+ name +:+ ".credential-tmp-") name
      (w_nodes w !! path_join (cs_directory_guard self) name) (to_json (record_of binding c)) w1) as Hq.
    { intros w1 Hk. apply untouched_safe; [apply credential_temp_ne|done|]. intros p _. apply Hk. }
    eapply (wp_mono _ (fun _ => stored w (cs_directory_guard self) ("." +:+ name +:+ ".credential-tmp-") name _ _)
      _ (fun _ => safe w (cs_directory_guard self) ("." +:+ name +:+ ".credential-tmp-") name _ _) _ (safe w _ _ _ _ _)); [|eauto..].
    unfold credential_store_with_fault. rewrite Hb. apply wp_bind, wp_ret, wp_bind.
    eapply wp_mono; [apply (looks_wp _ (fun w1 => forall p, kept p w w1)); [apply looks_reject_symlink|intros w1 k Hk p; exact (Hk p)|done]| |by simpl..].
    intros ? w1 Hk. rewrite (header_text _ Hva). apply wp_bind, wp_ret. by apply store_bytes_wp. }
  split; [|split; [|done]].
  - intros nodes Hf. rewrite !(credential_load_content _ _ Hn). simpl. destruct (R1 nodes Hf) as [-> | ->]; [by left|right].
    by rewrite Hc.
  - intros Hx nodes Hf. rewrite (credential_load_content _ _ Hn). simpl. by rewrite (R2 Hx nodes Hf), Hc.
Qed.
End CredentialTheorem.

(** ** The profile metadata *)

(** Every directory on the way exists and is no link. *)
Definition plain (nodes : gmap Path Node) (p : Path) : Prop :=
  forall k, (0 < k <= length p)%nat -> exists uid mode, nodes !! take k p = Some (Directory uid mode).

Lemma resolve_plain links nodes follow cur todo :
  (forall k, (length cur < k <= length (cur ++ todo))%nat -> exists uid mode, nodes !! take k (cur ++ todo) = Some (Directory uid mode)) ->
  resolve links nodes follow cur todo = Ok (cur ++ todo).
Proof.
  revert cur. destruct links as [|links]; simpl; induction todo as [|name rest IH]; intros cur Hd; try (by rewrite app_nil_r).
  all: assert (exists uid mode, nodes !! (cur ++ [name]) = Some (Directory uid mode)) as (uid & mode & E)
    by (replace (cur ++ [name]) with (take (S (length cur)) (cur ++ name :: rest));
        [apply Hd; rewrite length_app; simpl; lia|];
        change (name :: rest) with ([name] ++ rest); rewrite (app_assoc cur), take_app_length' by (rewrite length_app; simpl; lia); done).
  all: rewrite E; change (name :: rest) with ([name] ++ rest) in *; rewrite (app_assoc cur) in *; apply IH;
    intros k Hk; apply Hd; rewrite !length_app in *; simpl in *; lia.
Qed.
Lemma resolve_plain_last links nodes follow dir name :
  plain nodes dir -> (forall target, nodes !! (dir ++ [name]) = Some (Symlink target) -> follow = false) ->
  resolve links nodes follow [] (dir ++ [name]) = Ok (dir ++ [name]).
Proof.
  intros Hp Hs.
  enough (forall cur todo, dir = cur ++ todo -> resolve links nodes follow cur (todo ++ [name]) = Ok (dir ++ [name])) as He by (by apply He).
  intros cur todo. revert cur. destruct links as [|links]; simpl; induction todo as [|n rest IH]; simpl; intros cur Ed.
  1,3: rewrite app_nil_r in Ed; subst cur; destruct (nodes !! (dir ++ [name])) as [[]|] eqn:E; try done;
    by rewrite (Hs _ eq_refl).
  all: assert (exists uid mode, nodes !! (cur ++ [n]) = Some (Directory uid mode)) as (uid & mode & E)
    by (replace (cur ++ [n]) with (take (S (length cur)) dir);
        [apply Hp; rewrite Ed, length_app; simpl; lia|];
        rewrite Ed; change (n :: rest) with ([n] ++ rest); rewrite (app_assoc cur), take_app_length' by (rewrite length_app; simpl; lia); done).
  all: rewrite E; apply IH; by rewrite <- app_assoc.
Qed.

(** The directories of a profile exist, durably. *)
Definition settled_dirs (w : World) (dir : Path) : Prop :=
  plain (w_nodes w) dir /\ forall k, earlier w (take k dir) = [].

Lemma plain_lookup w follow dir : plain (w_nodes w) dir -> exists uid mode, lookup_path w follow dir = Ok (dir, Directory uid mode).
Proof.
  intros Hp. unfold lookup_path, real_path. rewrite (resolve_plain 40 _ follow [] dir) by (simpl; apply Hp). rewrite app_nil_l.
  enough (exists uid mode, node_at (w_nodes w) dir = Some (Directory uid mode)) as (uid & mode & E)
    by (exists uid, mode; unfold mbind, result_bind; by rewrite E).
  destruct dir as [|x dir]; [by eexists _, _|]. destruct (Hp (length (x :: dir))) as (uid & mode & E); [simpl; lia|].
  rewrite firstn_all in E. by exists uid, mode.
Qed.
Lemma plain_take nodes dir k : plain nodes dir -> plain nodes (take k dir).
Proof.
  intros Hp j Hj. rewrite length_take in Hj. rewrite take_take, Nat.min_l by lia. apply Hp. lia.
Qed.
Lemma create_dirs_plain `{Os} w cur todo : plain (w_nodes w) (cur ++ todo) -> create_dirs cur w todo = (Ok tt, w).
Proof.
  revert cur. induction todo as [|name rest IH]; intros cur Hp; simpl; [done|].
  destruct (plain_lookup w true (cur ++ [name])) as (uid & mode & ->).
  - pose proof (plain_take _ _ (S (length cur)) Hp) as Ht. change (name :: rest) with ([name] ++ rest) in Ht.
    rewrite (app_assoc cur), take_app_length' in Ht by (rewrite length_app; simpl; lia). done.
  - apply IH. by rewrite <- app_assoc.
Qed.
Lemma kept_plain w w' dir : (forall k, kept (take k dir) w w') -> plain (w_nodes w) dir -> plain (w_nodes w') dir.
Proof. intros Hk Hp k Hlen. destruct (Hp k Hlen) as (uid & mode & E). exists uid, mode. exact (eq_trans (proj1 (Hk k)) E). Qed.
Lemma found_plain w nodes dir : settled_dirs w dir -> found w nodes -> plain nodes dir.
Proof.
  intros [Hp He] Hf k Hk. destruct (Hp k Hk) as (uid & mode & E). exists uid, mode.
  assert (durable w (take k dir)) as Hd by (apply synced_durable; [apply He|by rewrite E]).
  exact (eq_trans (only_found _ _ _ _ Hd Hf) E).
Qed.

Section ProfileTheorem.
Context `{Os} `{UrlCrate} `{SerdeLaws ProfileBinding}.
Variables (dir : Path) (name : string).
Abbreviation t := (path_join dir name).
Abbreviation temp := (temp_of name).

Lemma path_parent_join : path_parent t = Some dir.
Proof. unfold path_parent, path_join. rewrite rev_app_distr. simpl. by rewrite rev_involutive. Qed.
Lemma profile_temp_ne : temp <> name.
Proof. apply (hidden_ne ".tmp" ""). Qed.

(** Calls on the way that find their directories and only look. *)
Lemma wp_create_dir_all (Q : unit -> World -> Prop) E K w :
  plain (w_nodes w) dir -> (forall k, Q tt (set_script w k)) -> (forall f k, E (fault_error f) (set_script w k)) ->
  (forall k, K (set_script w k)) -> wp (create_dir_all dir) Q E K w.
Proof. intros Hp HQ HE HK. apply wp_syscall; auto. intros k. rewrite create_dirs_plain; [apply HQ|done]. Qed.
Lemma wp_open_dir (Q : Path -> World -> Prop) E K w :
  plain (w_nodes w) dir -> (forall k, Q dir (set_script w k)) -> (forall f k, E (fault_error f) (set_script w k)) ->
  (forall k, K (set_script w k)) -> wp (open_dir dir) Q E K w.
Proof.
  intros Hp HQ HE HK. apply wp_syscall; auto. intros k.
  destruct (plain_lookup (set_script w k) false dir Hp) as (uid & mode & ->). apply HQ.
Qed.

Lemma atomic_replace_wp w w1 bytes :
  durable w t -> plain (w_nodes w) dir -> (forall p, kept p w w1) ->
  wp (atomic_replace_unix t bytes) (fun _ => stored w dir temp name (w_nodes w !! t) bytes)
    (fun _ => safe w dir temp name (w_nodes w !! t) bytes) (safe w dir temp name (w_nodes w !! t) bytes) w1.
Proof.
  intros Hd Hp Hk. pose proof profile_temp_ne as Hne. pose proof Hd as Ho.
  assert (forall w2, (forall p, kept p w w2) -> safe w dir temp name (w_nodes w !! t) bytes w2) as Hq
    by (intros w2 Hk2; apply untouched_safe; [done|done|intros p _; apply Hk2]).
  assert (forall w2, (forall p, kept p w w2) -> plain (w_nodes w2) dir) as Hpl
    by (intros w2 Hk2; apply (kept_plain w); [intros k; apply Hk2|done]).
  unfold atomic_replace_unix. rewrite path_parent_join. apply wp_bind, wp_io; [intros p [= <-]|done].
  apply wp_bind, wp_create_dir_all; [by apply Hpl| |intros; by apply Hq..]. intros k1.
  apply wp_bind, wp_open_dir; [by apply Hpl| |intros; by apply Hq..]. intros k2.
  rewrite path_file_name_join. apply wp_bind, wp_io; [intros n [= <-]|done].
  assert (untouched w dir temp (set_script (set_script w1 k1) k2)) as Hu by (intros p _; apply Hk).
  generalize dependent (set_script (set_script w1 k1) k2). intros w2 Hu.
  apply wp_bind, wp_unlink_temp; try done. clear w2 Hu. intros _ w2 Hu.
  apply wp_bind, wp_create; try done. clear w2 Hu. intros w2 Hw.
  apply wp_bind. eapply wp_write; try done. clear w2 Hw. intros w2 Hw.
  apply wp_bind. eapply wp_sync; try done. clear w2 Hw. intros w2 Hw.
  apply wp_bind. eapply wp_rename; try done. clear w2 Hw. intros w2 Hw.
  by apply wp_sync_dir.
Qed.

Lemma store_profile_wp w binding :
  durable w t -> plain (w_nodes w) dir ->
  wp (store_profile t binding) (fun _ => stored w dir temp name (w_nodes w !! t) (to_json binding))
    (fun _ => safe w dir temp name (w_nodes w !! t) (to_json binding)) (safe w dir temp name (w_nodes w !! t) (to_json binding)) w.
Proof.
  intros Hd Hp. pose proof profile_temp_ne as Hne. pose proof Hd as Ho.
  assert (forall w2, (forall p, kept p w w2) -> safe w dir temp name (w_nodes w !! t) (to_json binding) w2) as Hq
    by (intros w2 Hk2; apply untouched_safe; [done|done|intros p _; apply Hk2]).
  unfold store_profile. apply wp_bind, wp_io; [intros _ _|intros; by apply Hq].
  rewrite path_parent_join. apply wp_bind, wp_io; [intros p [= <-]|done].
  apply wp_bind, wp_create_dir_all; [done| |intros; by apply Hq..]. intros k1. apply wp_bind.
  eapply wp_mono; [apply (looks_wp _ (fun w1 => forall p, kept p w w1)); [apply looks_reject_symlink|intros w1 k Hk p; exact (Hk p)|done]
    | |simpl; auto..].
  intros ? w1 Hk. apply wp_bind, wp_open_dir; [by apply (kept_plain w)| |intros; by apply Hq..]. intros k2.
  by apply atomic_replace_wp.
Qed.

(** Reading depends on the file alone. *)
Definition profile_content (n : option Node) : Result IoError (option ProfileBinding) :=
  match n with
  | Some (File _ bytes _) =>
      if (len bytes =? 0) || (MAX_PROFILE_BYTES <? len bytes) then Err (io_error KindInvalidData "invalid profile record size")
      else
        value ← ok_or (from_slice bytes) (io_error KindInvalidData "invalid JSON");
        _ ← map_err (invalid_data ConfigError_fmt) (ProfileBinding_validate value);
        Ok (Some value)
  | _ => Ok None
  end.
Definition regular (n : option Node) : Prop := match n with None | Some (File _ _ _) => True | _ => False end.

Lemma lookup_target nodes follow :
  plain nodes dir -> regular (nodes !! t) -> lookup_path (reboot nodes) follow t = (n ← ok_or (nodes !! t) ENOENT; Ok (t, n)).
Proof.
  intros Hp Hr. unfold lookup_path, real_path, path_join. simpl w_nodes.
  rewrite (resolve_plain_last 40 nodes follow dir name Hp) by (intros target E; unfold path_join in Hr; by rewrite E in Hr).
  unfold mbind, result_bind, node_at. by destruct dir.
Qed.
Lemma load_profile_content nodes :
  plain nodes dir -> regular (nodes !! t) -> load_profile t (reboot nodes) = (Done (profile_content (nodes !! t)), reboot nodes).
Proof.
  intros Hp Hr.
  pose proof (fun follow => lookup_target nodes follow Hp Hr) as Hl.
  destruct (plain_lookup (reboot nodes) false dir Hp) as (uid & mode & Hd).
  unfold load_profile, mbind, IO_bind, path_exists, syscall, syscall_with. simpl. rewrite (Hl true).
  destruct (nodes !! t) as [[fmode bytes s| |]|] eqn:Et; simpl; try done.
  rewrite path_parent_join. simpl. rewrite Hd. simpl.
  unfold reject_symlink, mbind, IO_bind, attempt, symlink_metadata, syscall, syscall_with. simpl. rewrite (Hl false). simpl.
  rewrite path_file_name_join. simpl. rewrite Et. simpl. rewrite Et. simpl.
  destruct (_ || _) eqn:El; [done|]. simpl. rewrite Et. simpl.
  apply orb_false_iff in El as [_ El]. rewrite take_bytes_all by (apply Z.ltb_ge in El; unfold MAX_PROFILE_BYTES in *; lia).
  rewrite El. unfold io. destruct (from_slice bytes) as [value|]; simpl; [|done].
  by destruct (ProfileBinding_validate value).
Qed.

Lemma replaced_settled (m : IO unit) w bytes x w' :
  settled_dirs w dir -> m w = (x, w') ->
  wp m (fun _ => stored w dir temp name (w_nodes w !! t) bytes)
    (fun _ => safe w dir temp name (w_nodes w !! t) bytes) (safe w dir temp name (w_nodes w !! t) bytes) w ->
  settled_dirs w' dir.
Proof.
  intros Hsd Hs Hw. destruct (replacement_of_wp m w t name dir bytes x w' eq_refl Hs) as (_ & _ & R3).
  { eapply wp_mono; [exact Hw|simpl; eauto..]. }
  assert (forall k, kept (take k dir) w w') as Hk.
  { intros k. apply R3; [|intros [n Hn]]; [intros Hn|]; apply (f_equal length) in Hn; unfold path_join in Hn;
      rewrite length_app, length_take in Hn; simpl in Hn; lia. }
  split; [apply (kept_plain w); [done|apply Hsd]|]. intros k. destruct (Hk k) as [_ Hsub]. destruct Hsd as [_ He].
  rewrite He in Hsub. by apply list_nil_subseteq in Hsub.
Qed.
(** What a reader of the replaced file finds, when reading depends on the file alone. *)
Lemma replaced_reads {A} (m : IO unit) (load : IO A) (content : option Node -> Result IoError A) w bytes x w' :
  settled_dirs w dir -> regular (w_nodes w !! t) ->
  wp m (fun _ => stored w dir temp name (w_nodes w !! t) bytes)
    (fun _ => safe w dir temp name (w_nodes w !! t) bytes) (safe w dir temp name (w_nodes w !! t) bytes) w ->
  (forall nodes, plain nodes dir -> regular (nodes !! t) -> load (reboot nodes) = (Done (content (nodes !! t)), reboot nodes)) ->
  m w = (x, w') ->
  let reads nodes := (load (reboot nodes)).1 in
  (forall nodes, found w' nodes -> reads nodes = reads (w_nodes w) \/ reads nodes = Done (content (Some (private_file bytes))))
  /\ (x = Done (Ok tt) -> forall nodes, found w' nodes -> reads nodes = Done (content (Some (private_file bytes))))
  /\ settled_dirs w' dir.
Proof.
  intros Hsd Hr Hw Hload Hs reads. unfold reads. clear reads. pose proof (replaced_settled _ _ _ _ _ Hsd Hs Hw) as Hsd'.
  destruct (replacement_of_wp m w t name dir bytes x w' eq_refl Hs) as (R1 & R2 & _); [eapply wp_mono; [exact Hw|simpl; eauto..]|].
  pose proof (Hload (w_nodes w) (proj1 Hsd) Hr) as Hold. split; [|split; [|done]].
  - intros nodes Hf. pose proof (found_plain _ _ _ Hsd' Hf) as Hp. rewrite Hold. destruct (R1 nodes Hf) as [E|E].
    + left. by rewrite Hload, E by (by rewrite ?E).
    + right. by rewrite Hload, E by (by rewrite ?E).
  - intros Hx nodes Hf. pose proof (found_plain _ _ _ Hsd' Hf) as Hp. pose proof (R2 Hx nodes Hf) as E. by rewrite Hload, E by (by rewrite ?E).
Qed.

(** The profile metadata is replaced atomically and durably, in directories that
    exist and are no links: after any failure, crash and loss of power the binding that
    was loaded before is loaded, or the new one, and after success always the new one. *)
Theorem stored_profile_is_durable binding w x w' :
  settled_dirs w dir -> durable w t -> regular (w_nodes w !! t) ->
  ProfileBinding_validate binding = Ok tt -> len (to_json binding) <= MAX_PROFILE_BYTES ->
  store_profile t binding w = (x, w') ->
  let reads nodes := (load_profile t (reboot nodes)).1 in
  (forall nodes, found w' nodes -> reads nodes = reads (w_nodes w) \/ reads nodes = Done (Ok (Some binding)))
  /\ (x = Done (Ok tt) -> forall nodes, found w' nodes -> reads nodes = Done (Ok (Some binding))).
Proof.
  intros Hsd Hd Hr Hv Hl Hs reads. unfold reads. clear reads.
  assert (profile_content (Some (private_file (to_json binding))) = Ok (Some binding)) as Hc.
  { simpl. rewrite to_json_nonempty. simpl. rewrite (proj2 (Z.ltb_ge _ _)) by done. rewrite serde_roundtrip. simpl. by rewrite Hv. }
  destruct (replaced_reads (store_profile t binding) (load_profile t) profile_content w (to_json binding) x w' Hsd Hr) as (R1 & R2 & _); [|apply load_profile_content|done|].
  { by apply store_profile_wp; [|apply Hsd]. }
  rewrite Hc in R1, R2. split; [|done]. intros nodes Hf. by apply R1.
Qed.
End ProfileTheorem.
