(* ===== verification/Status.v ===== *)
(** * Status: what a harness publishes about itself (psst-application/src/harness_status.rs)

    The harness writes a small record of its activation machine into a file beside the
    profile, on every change and at least every thirty seconds; whoever can read the file
    learns the phase and how recent it is.  This file has the Unix branches. *)
From stdpp Require Import gmap countable.
From Stdlib Require Import Ascii.
From S2P Require Import Prelude Text Core Dto Files Client Codec Profile Activation Engine Durability Recovery.

Definition HARNESS_STATUS_VERSION : Z := 1.
Definition MAX_HARNESS_STATUS_BYTES : Z := 16 * 1024.
Definition STATUS_POLL_INTERVAL : Duration := Duration_from_millis 250.
Definition STATUS_REFRESH_INTERVAL : Duration := Duration_from_secs 30.
(** Spans of the time crate, in nanoseconds. *)
Definition STATUS_STALE_AFTER : Z := 90 * 1000000000.
Definition STATUS_FUTURE_SKEW : Z := 5 * 60 * 1000000000.

Inductive HarnessAdapterKind : Set := ClaudeChannel | CodexAppServer.
Record HarnessStatusRecord : Set := {
  hs_version : Z; hs_profile : string; hs_adapter : HarnessAdapterKind; hs_phase : ActivationPhase; hs_retry_attempt : N;
  hs_pending_count : option Z; hs_highest_priority : option MessagePriorityDto; hs_owner_pid : Z; hs_observed_at : ApiTimestamp }.
Inductive HarnessStatusFreshness : Set := FrRecent | FrStale | FrStopped.
Record HarnessStatusView : Set := { hv_record : HarnessStatusRecord; hv_freshness : HarnessStatusFreshness }.

#[local] Instance status_priority_eq_dec : EqDecision MessagePriorityDto.
Proof. solve_decision. Defined.
#[global] Instance WakeMetadata_eq_dec : EqDecision WakeMetadata.
Proof. solve_decision. Defined.
#[global] Instance ActivationSnapshot_eq_dec : EqDecision ActivationSnapshot.
Proof. solve_decision. Defined.

(** ** The record *)
Definition pending_state_ok (count : option Z) (priority : option MessagePriorityDto) : bool :=
  match count, priority with
  | None, None => true
  | Some count, Some _ => (1 <=? count) && (count <=? MAX_WAKE_PENDING_COUNT)
  | _, _ => false
  end.
Definition phase_ok (phase : ActivationPhase) (has_pending : bool) : bool :=
  match phase with
  | PhQuiet | PhStopped => negb has_pending
  | PhPending | PhWaking | PhRunning | PhBackoff => has_pending
  | PhBlocked => true
  end.
Definition HarnessStatusRecord_validate (self : HarnessStatusRecord) : Result ConfigError unit :=
  if negb (hs_version self =? HARNESS_STATUS_VERSION) then Err (CfInvalid "harness status version")
  else
    _ ← validate_profile_name (hs_profile self);
    if (hs_owner_pid self =? 0) || (MAX_BACKOFF_ATTEMPTS <? hs_retry_attempt self)%N then Err (CfInvalid "harness status owner")
    else if negb (pending_state_ok (hs_pending_count self) (hs_highest_priority self)) then Err (CfInvalid "harness status pending state")
    else if negb (phase_ok (hs_phase self) (opt_is_some (hs_pending_count self))) then Err (CfInvalid "harness status phase")
    else Ok tt.

(** [pid] is [std::process::id()]. *)
Definition record_of_snapshot (pid : Z) (profile : string) (adapter : HarnessAdapterKind) (snapshot : ActivationSnapshot)
    (observed_at : ApiTimestamp) : HarnessStatusRecord :=
  {| hs_version := HARNESS_STATUS_VERSION; hs_profile := profile; hs_adapter := adapter; hs_phase := as_phase snapshot;
     hs_retry_attempt := as_retry_attempt snapshot; hs_pending_count := wm_pending_count <$> as_pending snapshot;
     hs_highest_priority := wm_highest_priority <$> as_pending snapshot; hs_owner_pid := pid; hs_observed_at := observed_at |}.
Definition from_snapshot (pid : Z) (profile : string) (adapter : HarnessAdapterKind) (snapshot : ActivationSnapshot)
    (observed_at : ApiTimestamp) : Result ConfigError HarnessStatusRecord :=
  let record := record_of_snapshot pid profile adapter snapshot observed_at in
  _ ← HarnessStatusRecord_validate record;
  Ok record.

(** ** The file *)
Definition status_parent_unavailable : IoError := io_error KindInvalidInput "status parent unavailable".
Definition status_name_unavailable : IoError := io_error KindInvalidInput "status name unavailable".
Definition status_too_large : IoError := io_error KindInvalidData "harness status record too large".
Definition status_invalid_data {A} (r : Result ConfigError A) : Result IoError A := map_err (invalid_data ConfigError_fmt) r.

Section Status.
Context `{Os} `{Serialize HarnessStatusRecord, !Deserialize HarnessStatusRecord}.

Definition store_harness_status (path : Path) (record : HarnessStatusRecord) : IO unit :=
  _ ← io (status_invalid_data (HarnessStatusRecord_validate record));
  parent ← io (ok_or (path_parent path) status_parent_unavailable);
  _ ← create_dir_all parent;
  _ ← reject_symlink parent;
  _ ← open_dir parent;
  let bytes := to_json record in
  if MAX_HARNESS_STATUS_BYTES <? len bytes then raise status_too_large
  else atomic_replace_unix path bytes.

Definition load_harness_status (path : Path) : IO (option HarnessStatusRecord) :=
  r ← attempt (symlink_metadata path);
  match r with
  | Ok (Symlink _) => raise (io_error KindPermissionDenied "harness status link substitution rejected")
  | Err error => if bool_decide (io_kind error = KindNotFound) then mret None else raise error
  | Ok _ =>
      parent ← io (ok_or (path_parent path) status_parent_unavailable);
      directory_guard ← open_dir parent;
      _ ← reject_symlink path;
      name ← io (ok_or (path_file_name path) status_name_unavailable);
      file ← openat_read directory_guard name;
      meta ← metadata file;
      let length := node_len meta in
      if (length =? 0) || (MAX_HARNESS_STATUS_BYTES <? length) then raise (io_error KindInvalidData "invalid harness status record size")
      else
        bytes ← read_upto file (MAX_HARNESS_STATUS_BYTES + 1);
        if MAX_HARNESS_STATUS_BYTES <? len bytes then raise status_too_large
        else
          record ← io (ok_or (from_slice bytes) (io_error KindInvalidData "invalid JSON"));
          _ ← io (status_invalid_data (HarnessStatusRecord_validate record));
          mret (Some record)
  end.

Definition status_view_at (record : HarnessStatusRecord) (now : Z) : HarnessStatusView :=
  let age := now - ts_nanos (hs_observed_at record) in
  let freshness :=
    if bool_decide (hs_phase record = PhStopped) then FrStopped
    else if (age <? - STATUS_FUTURE_SKEW) || (STATUS_STALE_AFTER <? age) then FrStale
    else FrRecent in
  {| hv_record := record; hv_freshness := freshness |}.
Definition load_harness_status_view (path : Path) (now : Z) : IO (option HarnessStatusView) :=
  record ← load_harness_status path;
  mret ((fun record => status_view_at record now) <$> record).

(** ** Publishing *)
Variable pid : Z.

(** [now.replace_nanosecond((now.nanosecond() / 1_000_000) * 1_000_000)]. *)
Definition whole_millis (now : Z) : Z := now / 1000000000 * 1000000000 + now mod 1000000000 / 1000000 * 1000000.
Definition publish_snapshot (path : Path) (profile : string) (adapter : HarnessAdapterKind) (snapshot : ActivationSnapshot) (now : Z) : IO unit :=
  observed_at ← io (map_err (invalid_data id) (ApiTimestamp_new (whole_millis now)));
  record ← io (status_invalid_data (from_snapshot pid profile adapter snapshot observed_at));
  store_harness_status path record.

(** What wakes the publisher: its stop channel, or the poll interval with the snapshot
    taken, the time it was taken at, and the clocks before and after the write. *)
Record Tick : Set := { tk_snapshot : ActivationSnapshot; tk_now : Z; tk_before : Duration; tk_after : Duration }.
Inductive StatusEvent : Set := EvChanged (stop : bool) | EvClosed | EvTick (tick : Tick).
(** The task waits for the next event, or it returned, possibly after stopping the
    activation. *)
Inductive PublisherState : Set :=
| PubWaiting (prior : ActivationSnapshot) (last_write : Duration)
| PubReturned (result : Result IoError unit) (activation_stopped : bool).

Fixpoint run_status_publisher (path : Path) (profile : string) (adapter : HarnessAdapterKind) (prior : ActivationSnapshot)
    (last_write : Duration) (events : list StatusEvent) : IO PublisherState :=
  match events with
  | [] => mret (PubWaiting prior last_write)
  | EvClosed :: _ => mret (PubReturned (Ok tt) false)
  | EvChanged stop :: rest =>
      if stop then mret (PubReturned (Ok tt) false) else run_status_publisher path profile adapter prior last_write rest
  | EvTick tick :: rest =>
      let current := tk_snapshot tick in
      if bool_decide (current <> prior) || (STATUS_REFRESH_INTERVAL <=? tk_before tick - last_write)%N
      then
        r ← attempt (publish_snapshot path profile adapter current (tk_now tick));
        match r with
        | Err error => mret (PubReturned (Err error) true)
        | Ok _ => run_status_publisher path profile adapter current (tk_after tick) rest
        end
      else run_status_publisher path profile adapter prior last_write rest
  end.

Record HarnessStatusPublisher : Set := { hp_path : Path; hp_profile : string; hp_adapter : HarnessAdapterKind }.
(** The path and the first record; the task starts with [initial] and the clock. *)
Definition Publisher_start (paths : ProfilePaths) (profile : string) (adapter : HarnessAdapterKind) (initial : ActivationSnapshot) (now : Z)
    : IO HarnessStatusPublisher :=
  path ← io (status_invalid_data (harness_status paths));
  _ ← publish_snapshot path profile adapter initial now;
  mret {| hp_path := path; hp_profile := profile; hp_adapter := adapter |}.
(** [task]: the result of the task, [None] when it panicked or was aborted, when it was
    not joined before; [final]: the activation's snapshot now. *)
Definition Publisher_shutdown (self : HarnessStatusPublisher) (task : option (option (Result IoError unit))) (final : ActivationSnapshot) (now : Z)
    : IO unit :=
  _ ← io (match task with
          | None => Ok tt
          | Some None => Err (io_error KindOther "harness status task failed")
          | Some (Some result) => result
          end);
  publish_snapshot (hp_path self) (hp_profile self) (hp_adapter self) final now.
End Status.

(** ** Snapshots are valid *)

(** A wake comes from [WakeMetadata::new] with an unsigned count. *)
Definition constructed (wm : WakeMetadata) : Prop :=
  exists profile squad count priority oldest, 0 <= count /\ WakeMetadata_new profile squad count priority oldest = Ok wm.
Lemma constructed_count wm : constructed wm -> 1 <= wm_pending_count wm <= MAX_WAKE_PENDING_COUNT.
Proof.
  intros (profile & squad & count & priority & oldest & Hc & E). unfold WakeMetadata_new in E.
  destruct (validate_identifier profile _ _ _); [|done]. destruct (validate_identifier squad _ _ _); [|done]. cbn [mbind result_bind] in E.
  destruct (_ || _) eqn:Eb; [done|]. destruct (validate_identifier oldest _ _ _); [|done]. injection E as <-. simpl.
  apply orb_false_iff in Eb as [E0%Z.eqb_neq E1%Z.ltb_ge]. lia.
Qed.
Lemma machine_snapshot_valid m pid profile adapter at_ :
  machine_ok m -> (forall wm, am_pending m = Some wm -> constructed wm) -> validate_profile_name profile = Ok tt -> pid <> 0 ->
  HarnessStatusRecord_validate (record_of_snapshot pid profile adapter (snapshot m) at_) = Ok tt.
Proof.
  intros [Hpo Hpe Hid _ _ Hbu _] Hc Hp Hn. unfold HarnessStatusRecord_validate, record_of_snapshot, snapshot. simpl.
  rewrite Hp. simpl. rewrite (proj2 (Z.eqb_neq _ _)) by done. pose proof (po_attempts _ Hpo) as [_ Hmax].
  rewrite (proj2 (N.ltb_ge _ _)) by lia. simpl. destruct (am_pending m) as [wm|] eqn:Ep; simpl.
  - pose proof (constructed_count wm (Hc wm eq_refl)) as [Hlo Hhi]. rewrite (proj2 (Z.leb_le _ _) Hlo), (proj2 (Z.leb_le _ _) Hhi). simpl.
    destruct (am_phase m) eqn:Ea; try done; destruct Hid as [? _]; auto; done.
  - destruct (am_phase m) eqn:Ea; try done; simpl in Hpe; exfalso; by apply Hpe.
Qed.

Section StatusTheorems.
Context `{Os} `{SerdeLaws HarnessStatusRecord}.
Variables (dir : Path) (name : string).
Abbreviation t := (path_join dir name).

(** Reading depends on the file alone. *)
Definition status_content (n : option Node) : Result IoError (option HarnessStatusRecord) :=
  match n with
  | Some (File _ bytes _) =>
      if (len bytes =? 0) || (MAX_HARNESS_STATUS_BYTES <? len bytes) then Err (io_error KindInvalidData "invalid harness status record size")
      else
        record ← ok_or (from_slice bytes) (io_error KindInvalidData "invalid JSON");
        _ ← status_invalid_data (HarnessStatusRecord_validate record);
        Ok (Some record)
  | _ => Ok None
  end.
Lemma load_status_content nodes :
  plain nodes dir -> regular (nodes !! t) -> load_harness_status t (reboot nodes) = (Done (status_content (nodes !! t)), reboot nodes).
Proof.
  intros Hp Hr. pose proof (fun follow => lookup_target dir name nodes follow Hp Hr) as Hl.
  destruct (plain_lookup (reboot nodes) false dir Hp) as (uid & mode & Hd).
  unfold load_harness_status, mbind, IO_bind, attempt, symlink_metadata, syscall, syscall_with. simpl. rewrite (Hl false).
  destruct (nodes !! t) as [[fmode bytes s| |]|] eqn:Et; simpl; try done.
  rewrite path_parent_join. simpl. rewrite Hd. simpl.
  unfold reject_symlink, mbind, IO_bind, attempt, symlink_metadata, syscall, syscall_with. simpl. rewrite (Hl false). simpl.
  rewrite path_file_name_join. simpl. rewrite Et. simpl. rewrite Et. simpl.
  destruct (_ || _) eqn:El; [done|]. simpl. rewrite Et. simpl.
  apply orb_false_iff in El as [_ El]. rewrite take_bytes_all by (apply Z.ltb_ge in El; unfold MAX_HARNESS_STATUS_BYTES in *; lia).
  rewrite El. unfold io. destruct (from_slice bytes) as [value|]; simpl; [|done].
  by destruct (HarnessStatusRecord_validate value).
Qed.

Definition storable (record : HarnessStatusRecord) : bool :=
  is_ok (HarnessStatusRecord_validate record) && (len (to_json record) <=? MAX_HARNESS_STATUS_BYTES).
Lemma stored_status_content record :
  storable record = true -> status_content (Some (private_file (to_json record))) = Ok (Some record).
Proof.
  intros [Hv Hl%Z.leb_le]%andb_true_iff. simpl. rewrite to_json_nonempty. simpl. rewrite (proj2 (Z.ltb_ge _ _)) by done.
  rewrite serde_roundtrip. simpl. by destruct (HarnessStatusRecord_validate record).
Qed.
Lemma store_status_wp w record :
  durable w t -> plain (w_nodes w) dir ->
  wp (store_harness_status t record) (fun _ => stored w dir (temp_of name) name (w_nodes w !! t) (to_json record))
    (fun _ => safe w dir (temp_of name) name (w_nodes w !! t) (to_json record)) (safe w dir (temp_of name) name (w_nodes w !! t) (to_json record)) w.
Proof.
  intros Hd Hp. pose proof (profile_temp_ne name) as Hne.
  assert (forall w2, (forall p, kept p w w2) -> safe w dir (temp_of name) name (w_nodes w !! t) (to_json record) w2) as Hq
    by (intros w2 Hk2; apply untouched_safe; [done|done|intros p _; apply Hk2]).
  unfold store_harness_status. apply wp_bind, wp_io; [intros _ _|intros; by apply Hq].
  rewrite path_parent_join. apply wp_bind, wp_io; [intros p [= <-]|done].
  apply wp_bind, wp_create_dir_all; [done| |intros; by apply Hq..]. intros k1. apply wp_bind.
  eapply wp_mono; [apply (looks_wp _ (fun w1 => forall p, kept p w w1)); [apply looks_reject_symlink|intros w1 k Hk p; exact (Hk p)|done]
    | |simpl; auto..].
  intros ? w1 Hk. apply wp_bind, wp_open_dir; [by apply (kept_plain w)| |intros; by apply Hq..]. intros k2.
  destruct (_ <? _); [by apply Hq|by apply atomic_replace_wp].
Qed.
Lemma unstorable_wp w record :
  storable record = false -> plain (w_nodes w) dir ->
  wp (store_harness_status t record) (fun _ _ => False) (fun _ w' => forall p, kept p w w') (fun w' => forall p, kept p w w') w.
Proof.
  intros Hs Hp. unfold store_harness_status. apply wp_bind. unfold storable in Hs.
  destruct (HarnessStatusRecord_validate record) as [[]|e] eqn:Ev; [|by apply wp_io]. apply wp_io; [intros [] _|done].
  apply Z.leb_gt in Hs. rewrite path_parent_join. apply wp_bind, wp_io; [intros p [= <-]|done].
  apply wp_bind, wp_create_dir_all; [done| |done..]. intros k1. apply wp_bind.
  eapply wp_mono; [apply (looks_wp _ (fun w1 => forall p, kept p w w1)); [apply looks_reject_symlink|intros w1 k Hk p; exact (Hk p)|done]
    | |simpl; auto..].
  intros ? w1 Hk. apply wp_bind, wp_open_dir; [by apply (kept_plain w)| |done..]. intros k2.
  rewrite (proj2 (Z.ltb_lt _ _)) by done. by apply wp_io.
Qed.

(** ** The publisher *)
Variables (pid : Z) (profile : string) (adapter : HarnessAdapterKind).
Abbreviation reads nodes := ((load_harness_status t (reboot nodes)).1).

(** The record shows the snapshot. *)
Definition shows (s : ActivationSnapshot) (r : HarnessStatusRecord) : Prop := exists at_, r = record_of_snapshot pid profile adapter s at_.
(** A file that a loss of power leaves alone, in directories that it leaves alone. *)
Definition steady (w : World) : Prop := settled_dirs w dir /\ durable w t /\ regular (w_nodes w !! t).
Definition always (w : World) (P : HarnessStatusRecord -> Prop) : Prop :=
  forall nodes, found w nodes -> exists r, reads nodes = Done (Ok (Some r)) /\ P r.

Lemma kept_steady w w' : (forall p, kept p w w') -> steady w -> steady w'.
Proof.
  intros Hk ([Hp He] & Hd & Hr). split_and!; [split|by apply (kept_durable w)|].
  - by apply (kept_plain w).
  - intros k. destruct (Hk (take k dir)) as [_ Hs]. rewrite He in Hs. by apply list_nil_subseteq in Hs.
  - destruct (Hk t) as [E _]. by rewrite E.
Qed.
Lemma steady_reads w nodes : steady w -> found w nodes -> reads nodes = Done (status_content (w_nodes w !! t)).
Proof.
  intros (Hsd & Hd & Hr) Hf. pose proof (only_found _ _ _ _ Hd Hf) as E. simpl in E. rewrite load_status_content, E; [done| |by rewrite E].
  by apply (found_plain w).
Qed.
Lemma store_status_cases record w x w' :
  steady w -> store_harness_status t record w = (x, w') ->
  (x = Done (Ok tt) -> steady w' /\ always w' (eq record))
  /\ (forall nodes, found w' nodes -> reads nodes = reads (w_nodes w) \/ reads nodes = Done (Ok (Some record))).
Proof.
  intros Hst Hs. pose proof Hst as (Hsd & Hd & Hr). destruct (storable record) eqn:Ev.
  - pose proof (store_status_wp w record Hd (proj1 Hsd)) as Hw.
    destruct (replaced_reads dir name _ (load_harness_status t) status_content w (to_json record) x w' Hsd Hr Hw load_status_content Hs) as (R1 & R2 & Hsd').
    rewrite stored_status_content in R1, R2 by done. split; [|done]. intros ->. split; [|intros nodes Hf; exists record; by rewrite R2].
    pose proof (wp_run _ _ _ _ _ _ _ Hw Hs) as [_ Ho]. split_and!; [done|by eapply only_durable|].
    pose proof (only_now _ _ _ Ho) as E. simpl in E. by rewrite E.
  - pose proof (wp_run _ _ _ _ _ _ _ (unstorable_wp w record Ev (proj1 Hsd)) Hs) as Hk.
    assert (forall p, kept p w w') as Hk' by (by destruct x as [[[]|e]|]). split; [by intros ->|]. intros nodes Hf. left.
    rewrite (steady_reads w' nodes); [|by eapply kept_steady|done]. rewrite (steady_reads w (w_nodes w)); [|done|by left].
    destruct (Hk' t) as [E _]. by rewrite E.
Qed.
Lemma publish_cases s now w x w' :
  steady w -> publish_snapshot pid t profile adapter s now w = (x, w') ->
  (x = Done (Ok tt) -> steady w' /\ always w' (shows s))
  /\ (forall nodes, found w' nodes -> reads nodes = reads (w_nodes w) \/ exists r, reads nodes = Done (Ok (Some r)) /\ shows s r).
Proof.
  intros Hst. pose proof (fun nodes => steady_reads w nodes Hst) as Hre. assert (reads (w_nodes w) = Done (status_content (w_nodes w !! t))) as Hre0 by (apply Hre; by left).
  unfold publish_snapshot, mbind, IO_bind, io. destruct (ApiTimestamp_new _) as [at_|e]; simpl;
    [|intros [= <- <-]; split; [done|intros nodes Hf; left; by rewrite Hre0, Hre]].
  unfold from_snapshot. destruct (HarnessStatusRecord_validate _) as [[]|e]; simpl;
    [|intros [= <- <-]; split; [done|intros nodes Hf; left; by rewrite Hre0, Hre]].
  intros Hs. destruct (store_status_cases _ _ _ _ Hst Hs) as [Hx1 Hx2]. split.
  - intros Hx. destruct (Hx1 Hx) as [Hst' Ha]. split; [done|]. intros nodes Hf. destruct (Ha nodes Hf) as (r & Hr & <-).
    eexists. split; [exact Hr|by eexists].
  - intros nodes Hf. destruct (Hx2 nodes Hf) as [E|E]; [by left|right]. eexists. split; [exact E|by eexists].
Qed.

Definition last_snapshot (prior : ActivationSnapshot) (events : list StatusEvent) : ActivationSnapshot :=
  fold_left (fun s event => match event with EvTick tick => tk_snapshot tick | _ => s end) events prior.
Lemma publisher_loop prior last events w x w' :
  steady w -> always w (shows prior) -> run_status_publisher pid t profile adapter prior last events w = (x, w') ->
  always w' (fun _ => True)
  /\ match x with
     | Done (Ok (PubWaiting now _)) => now = last_snapshot prior events /\ always w' (shows now)
     | Done (Ok (PubReturned result stopped)) => stopped = negb (is_ok result)
     | Done (Err _) => False
     | Crashed => True
     end.
Proof.
  revert prior last w. induction events as [|[[]| |tick] rest IH]; intros prior last w Hst Ha; simpl.
  - intros [= <- <-]. split; [|done]. intros nodes Hf. destruct (Ha nodes Hf) as (r & ? & _). by exists r.
  - intros [= <- <-]. split; [|done]. intros nodes Hf. destruct (Ha nodes Hf) as (r & ? & _). by exists r.
  - by apply IH.
  - intros [= <- <-]. split; [|done]. intros nodes Hf. destruct (Ha nodes Hf) as (r & ? & _). by exists r.
  - destruct (bool_decide _ || _) eqn:Eb.
    2: { apply orb_false_iff in Eb as [Eb%bool_decide_eq_false _]. apply dec_stable in Eb. rewrite Eb. by apply IH. }
    unfold mbind, IO_bind, attempt. destruct (publish_snapshot pid t profile adapter (tk_snapshot tick) (tk_now tick) w) as [y w1] eqn:Ep.
    destruct (publish_cases _ _ _ _ _ Hst Ep) as [Hx1 Hx2].
    assert (always w1 (fun _ => True)) as Hw1.
    { intros nodes Hf. destruct (Hx2 nodes Hf) as [->|(r & Hr & _)]; [|by exists r].
      destruct (Ha (w_nodes w)) as (r & Hr & _); [by left|]. by exists r. }
    destruct y as [[[]|e]|]; [|by intros [= <- <-]..]. destruct (Hx1 eq_refl) as [Hst1 Ha1]. by apply IH.
Qed.

(** C34: The published status follows the activation.  While the publisher runs, whatever
    failed before and whatever a loss of power takes back, the status file holds a valid
    record of the last snapshot polled; when a write fails the activation is stopped and
    the publisher returns the error, and the file still holds a valid record.  Only while
    the very first record is written can a reader find what was there before. *)
Theorem published_status_follows_activation paths initial now last events w x w' :
  harness_status paths = Ok t -> steady w ->
  (self ← Publisher_start pid paths profile adapter initial now;
   run_status_publisher pid (hp_path self) (hp_profile self) (hp_adapter self) initial last events) w = (x, w') ->
  match x with
  | Done (Ok (PubWaiting s _)) => s = last_snapshot initial events /\ always w' (shows s)
  | Done (Ok (PubReturned result stopped)) => stopped = negb (is_ok result) /\ always w' (fun _ => True)
  | Done (Err _) | Crashed =>
      forall nodes, found w' nodes -> reads nodes = reads (w_nodes w) \/ exists r, reads nodes = Done (Ok (Some r))
  end.
Proof.
  intros Hpath Hst. unfold Publisher_start, mbind, IO_bind, io. rewrite Hpath. simpl.
  destruct (publish_snapshot pid t profile adapter initial now w) as [y w1] eqn:Ep.
  destruct (publish_cases _ _ _ _ _ Hst Ep) as [Hx1 Hx2].
  assert (forall nodes, found w1 nodes -> reads nodes = reads (w_nodes w) \/ exists r, reads nodes = Done (Ok (Some r))) as Hold
    by (intros nodes Hf; destruct (Hx2 nodes Hf) as [?|(r & ? & _)]; eauto).
  destruct y as [[[]|e]|]; [|by intros [= <- <-]..]. destruct (Hx1 eq_refl) as [Hst1 Ha1]. simpl. intros Hrun.
  destruct (publisher_loop _ _ _ _ _ _ Hst1 Ha1 Hrun) as [Hany Hcase]. destruct x as [[[s lw|result stopped]|e]|]; try done.
  intros nodes Hf. destruct (Hany nodes Hf) as (r & Hr & _). eauto.
Qed.
End StatusTheorems.

(** Every state of the activation can be published.  The snapshot of a machine that
    any sequence of operations reached, its wakes built by their constructor, passes the
    validation of the status record, for any valid profile name. *)
Theorem reachable_snapshot_is_publishable m pid profile adapter observed_at :
  activation_reachable m -> (forall wm, am_pending m = Some wm -> constructed wm) ->
  validate_profile_name profile = Ok tt -> pid <> 0 ->
  from_snapshot pid profile adapter (snapshot m) observed_at = Ok (record_of_snapshot pid profile adapter (snapshot m) observed_at).
Proof.
  intros (policy & m0 & Hn & Hr) Hc Hp Hpid. unfold from_snapshot. rewrite machine_snapshot_valid; [done| |done..].
  eapply steps_ok; [by eapply new_machine_ok|exact Hr].
Qed.

(** ** A run *)
#[local] Instance status_os : Os := {| effective_uid := 1000; umask := 18 |}.
#[local] Instance adapter_eq_dec : EqDecision HarnessAdapterKind.
Proof. solve_decision. Defined.
#[local] Instance status_eq_dec : EqDecision HarnessStatusRecord.
Proof. solve_decision. Defined.
#[local] Instance adapter_countable : Countable HarnessAdapterKind.
Proof.
  refine (inj_countable' (fun a => match a with ClaudeChannel => false | CodexAppServer => true end)
    (fun b : bool => if b then CodexAppServer else ClaudeChannel) _). by intros [].
Defined.
#[local] Instance phase_countable : Countable ActivationPhase.
Proof.
  refine (inj_countable' (fun p => match p with PhQuiet => 0 | PhPending => 1 | PhWaking => 2 | PhRunning => 3 | PhBackoff => 4 | PhBlocked => 5 | PhStopped => 6 end)%nat
    (fun n => match n with 0 => PhQuiet | 1 => PhPending | 2 => PhWaking | 3 => PhRunning | 4 => PhBackoff | 5 => PhBlocked | _ => PhStopped end)%nat _). by intros [].
Defined.
#[local] Instance priority_countable : Countable MessagePriorityDto.
Proof.
  refine (inj_countable' (fun a => match a with NormalDto => false | HighDto => true end)
    (fun b : bool => if b then HighDto else NormalDto) _). by intros [].
Defined.
#[local] Instance status_countable : Countable HarnessStatusRecord.
Proof.
  refine (inj_countable' (fun r => (hs_version r, hs_profile r, hs_adapter r, hs_phase r, (hs_retry_attempt r, hs_pending_count r, hs_highest_priority r, hs_owner_pid r, hs_observed_at r)))
    (fun '(v, f, a, p, (n, c, h, o, t)) => {| hs_version := v; hs_profile := f; hs_adapter := a; hs_phase := p; hs_retry_attempt := n; hs_pending_count := c;
       hs_highest_priority := h; hs_owner_pid := o; hs_observed_at := t |}) _). by intros [].
Defined.
#[local] Existing Instances countable_serialize countable_deserialize countable_laws.

Definition status_dir : Path := ["srv"; "profiles"].
Definition status_paths : ProfilePaths :=
  {| pp_metadata := path_join status_dir "work.json"; pp_credential := ["srv"; "work.json"]; pp_lock := ["run"; "work.lock"] |}.
Definition status_world (script : list Event) : World :=
  {| w_nodes := <[["srv"] := Directory 1000 448]> (<[status_dir := Directory 1000 448]> ∅); w_earlier := ∅; w_script := script; w_entropy := [] |}.
Definition status_tick (m : ActivationMachine) (at_ : N) : StatusEvent :=
  EvTick {| tk_snapshot := snapshot m; tk_now := 1700000000123456789; tk_before := at_; tk_after := at_ |}.
Definition status_events : list StatusEvent :=
  [EvChanged false; status_tick pending_machine 250000000%N; status_tick pending_machine 500000000%N].
Abbreviation status_run :=
  ((self ← Publisher_start 7 status_paths "work" CodexAppServer (snapshot quiet_machine) 1700000000000000000;
   run_status_publisher 7 (hp_path self) (hp_profile self) (hp_adapter self) (snapshot quiet_machine) 0%N status_events) (status_world [])).
Lemma status_steady script : steady status_dir "work.harness-v1.json" (status_world script).
Proof.
  split; [split|split].
  - intros [|[|[|k]]] Hk; simpl in Hk; try lia; exists 1000, 448; reflexivity.
  - intros k. reflexivity.
  - apply synced_durable; [reflexivity|exact I].
  - exact I.
Qed.
Lemma published_status_follows_activation_witness :
  status_run.1 = Done (Ok (PubWaiting (snapshot pending_machine) 250000000%N))
  /\ always status_dir "work.harness-v1.json" status_run.2 (shows 7 "work" CodexAppServer (snapshot pending_machine)).
Proof.
  assert (status_run.1 = Done (Ok (PubWaiting (snapshot pending_machine) 250000000%N))) as Hx by (vm_compute; reflexivity).
  assert (status_run = (Done (Ok (PubWaiting (snapshot pending_machine) 250000000%N)), status_run.2)) as Hs by (rewrite <- Hx; apply surjective_pairing).
  split; [exact Hx|].
  exact (proj2 (published_status_follows_activation status_dir "work.harness-v1.json" 7 "work" CodexAppServer status_paths
    (snapshot quiet_machine) 1700000000000000000 0%N status_events (status_world []) _ _ eq_refl (status_steady []) Hs)).
Defined.
Lemma reachable_snapshot_is_publishable_witness :
  is_ok (from_snapshot 7 "work" ClaudeChannel (snapshot quiet_machine) {| ts_nanos := 0 |}) = true.
Proof.
  rewrite (reachable_snapshot_is_publishable quiet_machine 7 "work" ClaudeChannel {| ts_nanos := 0 |} quiet_reachable);
    [reflexivity|intros wm [=]|reflexivity|discriminate].
Defined.
