(* ===== verification/Codex.v ===== *)
(** * Codex: what the App Server host guarantees

    Serving a turn ends; the host never forwards an acknowledgement of a message that the
    turn did not retrieve; a host keeps the thread it has. *)
From stdpp Require Import gmap strings.
From Stdlib Require Import Ascii.
From S2P Require Import Prelude Text Core Files Client Profile Config Activation Json AppServer Codec Durability.

Section Codex.
Context `{Serialize Value, !Deserialize Value} `{Serialize string}.
Implicit Types (self : JsonLines) (c : AppServerClient).

(** ** Turns end *)
Definition backlog self : nat := length (jl_pending self) + length (jl_input self).

Lemma write_line_same v self r self' :
  write_line v self = (r, self') -> jl_pending self' = jl_pending self /\ jl_input self' = jl_input self.
Proof.
  unfold write_line. destruct (_ <? _); [by intros [= <- <-]|]. destruct (jl_faults self) as [|[[]|] fs]; by intros [= <- <-].
Qed.
Lemma read_wire_backlog self r self' :
  read_from_wire self = (r, self') -> jl_pending self' = jl_pending self /\ jl_input self' = tl (jl_input self) /\ (is_ok r = true -> jl_input self <> []).
Proof.
  unfold read_from_wire. destruct (jl_input self) as [|w rest] eqn:E; [intros [= <- <-]; by rewrite E|]. destruct (decode_line w); by intros [= <- <-].
Qed.
Lemma await_backlog input id self r self' :
  await_response input id self = (r, self') -> (backlog self' <= backlog self)%nat.
Proof.
  assert (forall self r self', read_from_wire self = (r, self') -> (backlog self' <= backlog self)%nat) as Hread.
  { intros s r0 s' (Hp & Hi & _)%read_wire_backlog. unfold backlog. rewrite Hp, Hi. destruct (jl_input s); simpl; lia. }
  revert self. induction input as [|w rest IH]; intros self; simpl; [by apply Hread|].
  destruct (read_from_wire self) as [[v|e] self1] eqn:E; [|intros [= <- <-]; by eapply Hread].
  apply read_wire_backlog in E as (Hp & Hi & Hn). specialize (Hn eq_refl). case_bool_decide; intros Ha.
  - apply IH in Ha. unfold backlog, push_back in *. simpl in Ha. rewrite length_app, Hp, Hi in Ha. destruct (jl_input self); simpl in *; [done|lia].
  - injection Ha as <- <-. unfold backlog. rewrite Hp, Hi. destruct (jl_input self); simpl; lia.
Qed.
Lemma request_backlog id method params self r self' : request id method params self = (r, self') -> (backlog self' <= backlog self)%nat.
Proof.
  unfold request, mbind, Pipe_bind. destruct (write_line _ self) as [[[]|e] self1] eqn:E.
  - intros Ha%await_backlog. apply write_line_same in E as [Hp Hi]. unfold backlog in *. by rewrite Hp, Hi in Ha.
  - intros [= <- <-]. apply write_line_same in E as [Hp Hi]. unfold backlog. by rewrite Hp, Hi.
Qed.

(** Invariants of the client's operations: [P] before and after, whatever the result. *)
Definition keeps {A} (P : AppServerClient -> Prop) (m : App A) : Prop := forall c, P c -> P (m c).2.
Lemma keeps_bind {A B} P (m : App A) (k : A -> App B) : keeps P m -> (forall a, keeps P (k a)) -> keeps P (m ≫= k).
Proof. intros Hm Hk c Hc. specialize (Hm c Hc). unfold mbind, App_bind. destruct (m c) as [[a|e] c']; [by apply Hk|done]. Qed.
Lemma keeps_result {A} P (r : Result AppServerError A) : keeps P (app_result r).
Proof. by intros c. Qed.
Lemma keeps_ret {A} P (a : A) : keeps P (mret a : App A).
Proof. by intros c. Qed.

Definition shorter (n : nat) c : Prop := (backlog (ac_protocol c) <= n)%nat.
Lemma handle_shorter n message turn : keeps (shorter n) (handle_tool_call message turn).
Proof.
  apply keeps_bind; [by intros c|]. intros self. apply keeps_bind; [apply keeps_result|]. intros call.
  apply keeps_bind; [intros c Hc; unfold take_id; by destruct (_ =? _)|]. intros id.
  apply keeps_bind.
  { intros c Hc. unfold protocol. destruct (request _ _ _ (ac_protocol c)) as [r p] eqn:E. apply request_backlog in E.
    unfold shorter in *. simpl. lia. }
  intros reply. cbv zeta. apply keeps_bind; [apply keeps_result|]. intros output. apply keeps_bind.
  { destruct (negb _); [|apply keeps_ret]. destruct (dw_acknowledged call) as [ids|].
    - apply keeps_bind; [apply keeps_result|]. intros confirmed. case_bool_decide; [apply keeps_result|by intros c].
    - apply keeps_bind; [apply keeps_result|]. by intros ids c. }
  intros _ c Hc. unfold protocol. destruct (response _ _ (ac_protocol c)) as [r p] eqn:E. apply write_line_same in E as [Hp Hi].
  unfold shorter, backlog in *. simpl. by rewrite Hp, Hi.
Qed.
Lemma read_shorter c v c' :
  protocol read_with_timeout c = (Ok v, c') -> (backlog (ac_protocol c') < backlog (ac_protocol c))%nat.
Proof.
  unfold protocol, read_with_timeout. destruct (jl_pending (ac_protocol c)) as [|m rest] eqn:Ep.
  - destruct (read_from_wire (ac_protocol c)) as [r p] eqn:E. intros [= -> <-]. apply read_wire_backlog in E as (Hp & Hi & Hn). specialize (Hn eq_refl).
    unfold backlog. simpl. rewrite Hp, Hi, Ep. destruct (jl_input (ac_protocol c)); [done|simpl; lia].
  - intros [= <- <-]. unfold backlog. simpl. rewrite Ep. simpl. lia.
Qed.
Lemma wait_loop_ends fuel turn c : (backlog (ac_protocol c) < fuel)%nat -> (wait_loop fuel turn c).1 <> None.
Proof.
  revert c. induction fuel as [|fuel IH]; intros c Hf; simpl; [lia|].
  destruct (protocol read_with_timeout c) as [[v|e] c1] eqn:E; [|done]. apply read_shorter in E.
  case_bool_decide.
  - pose proof (handle_shorter (backlog (ac_protocol c1)) v turn c1 (le_n _)) as Hh.
    destruct (handle_tool_call v turn c1) as [[[]|e] c2]; [|done]. apply IH. unfold shorter in Hh. simpl in Hh. lia.
  - destruct (completion_result v _ turn); [done|]. apply IH. lia.
Qed.

(** ** Only what the turn retrieved is acknowledged *)

(** A monitor of the traffic: the messages retrieved and not acknowledged since, and the
    call forwarded to the MCP server that has no answer yet, with what it acknowledges. *)
Record Monitor : Set := { mo_retrieved : gset string; mo_open : option (Z * option (gset string)) }.
Definition fresh : Monitor := {| mo_retrieved := ∅; mo_open := None |}.
Definition watch_write (m : Monitor) (v : Value) : option Monitor :=
  if bool_decide (get_str "method" v = Some "mcpServer/tool/call") then
    id ← get "id" v ≫= as_u64;
    tool ← pointer ["params"; "tool"] v ≫= as_str;
    arguments ← pointer ["params"; "arguments"] v;
    match mo_open m with
    | Some _ => None
    | None =>
        if bool_decide (tool = "message_receive") then
          if empty_array (get "acknowledge_ids" arguments ≫= as_array) then Some {| mo_retrieved := mo_retrieved m; mo_open := Some (id, None) |} else None
        else if bool_decide (tool = "message_acknowledge") then
          match message_ids arguments with
          | Ok ids => if bool_decide (ids ⊆ mo_retrieved m) then Some {| mo_retrieved := mo_retrieved m; mo_open := Some (id, Some ids) |} else None
          | Err _ => None
          end
        else None
    end
  else Some m.
Definition reply_output (reply : Value) : option Value :=
  if bool_decide (get "isError" reply ≫= as_bool = Some true) then None
  else match get "structuredContent" reply with Some v => Some v | None => get "content" reply end.
(** What a reply retrieves, or acknowledges. *)
Definition settle (ack : option (gset string)) (retrieved : gset string) (reply : Value) : gset string :=
  match reply_output reply with
  | None => retrieved
  | Some output =>
      match ack with
      | None => match received_message_ids output with Ok ids => retrieved ∪ ids | Err _ => retrieved end
      | Some ids => match acknowledged_message_ids output with
                    | Ok confirmed => if bool_decide (confirmed = ids) then retrieved ∖ ids else retrieved
                    | Err _ => retrieved
                    end
      end
  end.
Definition watch_read (m : Monitor) (v : Value) : Monitor :=
  match mo_open m with
  | Some (id, ack) =>
      if bool_decide (get "id" v ≫= as_u64 = Some id)
      then {| mo_retrieved := match answer v with Ok reply => settle ack (mo_retrieved m) reply | Err _ => mo_retrieved m end; mo_open := None |}
      else m
  | None => m
  end.
Fixpoint watch (m : Monitor) (log : list Frame) : option Monitor :=
  match log with
  | [] => Some m
  | Wrote v :: rest => m ← watch_write m v; watch m rest
  | Read v :: rest => watch (watch_read m v) rest
  | Closed :: rest => watch m rest
  end.
Definition watched self : option Monitor := watch fresh (jl_log self).

Lemma watch_app m l1 l2 : watch m (l1 ++ l2) = (m' ← watch m l1; watch m' l2).
Proof.
  revert m. induction l1 as [|[v|v|] l1 IH]; intros m; simpl; [done| |apply IH|apply IH]. destruct (watch_write m v) as [m'|]; simpl; [apply IH|done].
Qed.
Lemma write_watched v self r self' m :
  write_line v self = (r, self') -> watched self = Some m -> watch_write m v <> None ->
  (r = Ok tt /\ watched self' = watch_write m v \/ is_ok r = false /\ watched self' <> None).
Proof.
  intros Hw Hm Hv. assert (watch fresh (jl_log self ++ [Wrote v]) = watch_write m v) as Ha.
  { rewrite watch_app. unfold watched in Hm. rewrite Hm. simpl. by destruct (watch_write m v). }
  unfold write_line in Hw. destruct (_ <? _); [injection Hw as <- <-; right; by rewrite Hm|].
  destruct (jl_faults self) as [|[[]|] fs]; injection Hw as <- <-; unfold watched; simpl; rewrite ?Ha; auto.
  right. unfold watched in Hm. by rewrite Hm.
Qed.
Lemma read_watched self r self' m :
  read_from_wire self = (r, self') -> watched self = Some m ->
  watched self' = Some (match r with Ok v => watch_read m v | Err _ => m end).
Proof.
  unfold read_from_wire, watched. intros Hr Hm. destruct (jl_input self) as [|w rest]; [by injection Hr as <- <-|].
  destruct (decode_line w); injection Hr as <- <-; simpl; [|done]. rewrite watch_app, Hm. done.
Qed.
Lemma await_watched self id r self' m ack :
  await id self = (r, self') -> watched self = Some m -> mo_open m = Some (id, ack) ->
  match r with
  | Ok reply => watched self' = Some {| mo_retrieved := settle ack (mo_retrieved m) reply; mo_open := None |}
  | Err _ => watched self' <> None
  end.
Proof.
  unfold await. remember (jl_input self) as input eqn:Ei. revert self Ei. induction input as [|w rest IH]; intros self Ei Ha Hm Ho; simpl in Ha.
  { unfold read_from_wire in Ha. rewrite <- Ei in Ha. injection Ha as <- <-. by rewrite Hm. }
  destruct (read_from_wire self) as [[v|e] self1] eqn:E; [|injection Ha as <- <-; by rewrite (read_watched _ _ _ _ E Hm)].
  pose proof (read_watched _ _ _ _ E Hm) as Hm1. simpl in Hm1. apply read_wire_backlog in E as (_ & Hi & _). rewrite <- Ei in Hi. simpl in Hi.
  unfold watch_read in Hm1. rewrite Ho in Hm1. destruct (decide (get "id" v ≫= as_u64 = Some id)) as [Hid|Hid].
  - rewrite bool_decide_eq_true_2 in Hm1 by done. rewrite bool_decide_eq_false_2 in Ha by (by intros ?). injection Ha as <- <-.
    by destruct (answer v); rewrite Hm1.
  - rewrite bool_decide_eq_false_2 in Hm1 by done. rewrite bool_decide_eq_true_2 in Ha by done.
    apply (IH (push_back v self1)); [done|done|exact Hm1|done].
Qed.
Lemma await_quiet input id self r self' m :
  await_response input id self = (r, self') -> watched self = Some m -> mo_open m = None -> watched self' = Some m.
Proof.
  assert (forall self r self', read_from_wire self = (r, self') -> watched self = Some m -> mo_open m = None -> watched self' = Some m) as Hread.
  { intros s r0 s' Hr Hm Ho. rewrite (read_watched _ _ _ _ Hr Hm). unfold watch_read. rewrite Ho. by destruct r0. }
  revert self. induction input as [|w rest IH]; intros self; simpl; [apply Hread|]. intros Ha Hm Ho.
  destruct (read_from_wire self) as [[v|e] self1] eqn:E; [|injection Ha as <- <-; by eapply Hread]. pose proof (Hread _ _ _ E Hm Ho) as Hm1.
  case_bool_decide; [apply (IH (push_back v self1)); [done|exact Hm1|done]|by injection Ha as <- <-].
Qed.

(** A weakest precondition for the client's operations. *)
Definition awp {A} (m : App A) (Q : A -> AppServerClient -> Prop) (E : AppServerClient -> Prop) c : Prop :=
  match m c with (Ok a, c') => Q a c' | (Err _, c') => E c' end.
Lemma awp_bind {A B} (m : App A) (k : A -> App B) Q E c : awp m (fun a => awp (k a) Q E) E c -> awp (m ≫= k) Q E c.
Proof. unfold awp, mbind, App_bind. by destruct (m c) as [[a|e] c']. Qed.
Lemma awp_result {A} (r : Result AppServerError A) (Q : A -> AppServerClient -> Prop) (E : AppServerClient -> Prop) c :
  (forall a, r = Ok a -> Q a c) -> E c -> awp (app_result r) Q E c.
Proof. intros HQ HE. unfold awp, app_result. destruct r; auto. Qed.
Lemma awp_protocol {A} (m : Pipe A) (Q : A -> AppServerClient -> Prop) (E : AppServerClient -> Prop) c :
  (forall r p, m (ac_protocol c) = (r, p) -> match r with Ok a => Q a (set_protocol c p) | Err _ => E (set_protocol c p) end) -> awp (protocol m) Q E c.
Proof. intros Hm. unfold awp, protocol. destruct (m (ac_protocol c)) as [r p] eqn:E0. specialize (Hm _ _ eq_refl). by destruct r. Qed.

Definition within c : Prop := 0 <= ac_next_id c <= u64_max.
Definition agrees c : Prop := watched (ac_protocol c) = Some {| mo_retrieved := ac_retrieved c; mo_open := None |} /\ within c.
Definition unharmed c : Prop := watched (ac_protocol c) <> None.
Lemma agrees_unharmed c : agrees c -> unharmed c.
Proof. intros [Hw _]. unfold unharmed. by rewrite Hw. Qed.

Definition call_frame (id : Z) (thread : string) (call : DynamicWakeCall) : Value :=
  VObject [("method", VString "mcpServer/tool/call"); ("id", v_int id); ("params", call_params thread call)].
Lemma as_u64_int id : 0 <= id <= u64_max -> as_u64 (v_int id) = Some id.
Proof. intros Hid. unfold as_u64, v_int. by rewrite (proj2 (Z.leb_le _ _)), (proj2 (Z.leb_le _ _)) by lia. Qed.
Lemma parsed_call_accepted message thread turn retrieved call id :
  parse_tool_call message thread turn retrieved = Ok call -> 0 <= id <= u64_max ->
  watch_write {| mo_retrieved := retrieved; mo_open := None |} (call_frame id thread call)
  = Some {| mo_retrieved := retrieved; mo_open := Some (id, dw_acknowledged call) |}.
Proof.
  unfold parse_tool_call. intros Hp Hid. apply try_bind_ok in Hp as (request_id & _ & Hp). apply try_bind_ok in Hp as (params & _ & Hp).
  destruct (bool_decide _ || _ || _) in Hp; [done|]. apply try_bind_ok in Hp as (tool & _ & Hp). apply try_bind_ok in Hp as (arguments & _ & Hp).
  apply try_bind_ok in Hp as (kind & Hk & Hp). injection Hp as <-. simpl.
  unfold watch_write. rewrite bool_decide_eq_true_2 by done. set (v := call_frame _ _ _).
  assert (get "id" v = Some (v_int id)) as -> by done. assert (pointer ["params"; "tool"] v = Some (VString kind.1)) as -> by done.
  assert (pointer ["params"; "arguments"] v = Some arguments) as -> by done. cbn [mbind option_bind]. rewrite as_u64_int by done.
  cbn [mbind option_bind as_str mo_open mo_retrieved].
  destruct (bool_decide (tool = RECEIVE_TOOL) && empty_array _) eqn:Er.
  - apply andb_true_iff in Er as [_ Er]. injection Hk as <-. simpl. by rewrite Er.
  - destruct (bool_decide (tool = ACKNOWLEDGE_TOOL)); [|done]. apply try_bind_ok in Hk as (ids & Em & Hk).
    destruct (bool_decide (ids ⊆ retrieved)) eqn:Es; [|done]. injection Hk as <-. simpl. by rewrite Em, Es.
Qed.
Lemma handle_watched message turn c : agrees c -> awp (handle_tool_call message turn) (fun _ => agrees) unharmed c.
Proof.
  intros Hc. pose proof (agrees_unharmed _ Hc) as Hu. pose proof Hc as [Hw Hn]. apply awp_bind. change (awp current) with (awp current). unfold awp at 1, current.
  apply awp_bind, awp_result; [|done]. intros call Hcall. apply awp_bind. unfold awp at 1, take_id.
  destruct (_ =? _) eqn:En; [done|]. apply Z.eqb_neq in En. unfold within in Hn.
  set (c1 := {| ac_child := _; ac_protocol := _; ac_thread_id := _; ac_cwd := _; ac_next_id := _; ac_retrieved := _ |}).
  assert (within c1) as Hn1 by (unfold within; simpl; lia).
  pose proof (parsed_call_accepted _ _ _ _ _ (ac_next_id c) Hcall Hn) as Hacc.
  apply awp_bind, awp_protocol. intros r p Hreq. unfold request, mbind, Pipe_bind in Hreq.
  destruct (write_line _ _) as [r1 p1] eqn:Ew in Hreq. fold (call_frame (ac_next_id c) (ac_thread_id c) call) in Ew.
  destruct (write_watched _ _ _ _ _ Ew Hw) as [[-> Hp1]|[Hr1 Hp1]]; [by rewrite Hacc| |].
  2: { destruct r1; [done|]. injection Hreq as <- <-. exact Hp1. }
  rewrite Hacc in Hp1. pose proof (await_watched _ _ _ _ _ _ Hreq Hp1 eq_refl) as Hr. destruct r as [reply|e]; [|exact Hr]. simpl in Hr.
  set (c2 := set_protocol c1 p). assert (unharmed c2) as Hu2 by (unfold unharmed; simpl; by rewrite Hr).
  cbv zeta. set (success := negb _). apply awp_bind, awp_result; [|done]. intros output Hout. apply awp_bind.
  assert (forall c3, agrees c3 -> awp (protocol (response (dw_request_id call)
    (VObject [("contentItems", VArray [VObject [("type", VString "inputText"); ("text", VString (to_json output))]]); ("success", VBool success)])))
    (fun _ => agrees) unharmed c3) as Hend.
  { intros c3 [Hw3 Hn3]. apply awp_protocol. intros r p3 Hresp. destruct (write_watched _ _ _ _ _ Hresp Hw3) as [[-> Hp]|[Hr3 Hp]]; [done|by split|].
    destruct r; [done|exact Hp]. }
  assert (reply_output reply = if success then Some output else None) as Hro.
  { unfold reply_output, success. destruct (bool_decide _); simpl; [done|].
    destruct (match get "structuredContent" reply with Some v => Some v | None => get "content" reply end); [|done]. simpl in Hout. congruence. }
  clearbody success. unfold settle in Hr. rewrite Hro in Hr. destruct success; [|apply Hend; by split].
  destruct (dw_acknowledged call) as [ids|].
  - apply awp_bind, awp_result; [|done]. intros confirmed Hconf. rewrite Hconf in Hr. destruct (decide (confirmed = ids)) as [->|Hne].
    + rewrite bool_decide_eq_false_2 by (by intros []). rewrite bool_decide_eq_true_2 in Hr by done. apply Hend. by split.
    + by rewrite bool_decide_eq_true_2 by done.
  - apply awp_bind, awp_result; [|done]. intros ids Hids. rewrite Hids in Hr. apply Hend. by split.
Qed.
Lemma wait_watched fuel turn c : agrees c -> unharmed (wait_loop fuel turn c).2.
Proof.
  revert c. induction fuel as [|fuel IH]; intros c Hc; simpl; [by apply agrees_unharmed|].
  destruct (protocol read_with_timeout c) as [r c1] eqn:E.
  assert (agrees c1) as Hc1.
  { destruct Hc as [Hw Hn]. unfold protocol in E. destruct (read_with_timeout (ac_protocol c)) as [r0 p] eqn:Er. injection E as <- <-. split; [|done].
    simpl. unfold read_with_timeout in Er. destruct (jl_pending (ac_protocol c)); [|by injection Er as <- <-].
    rewrite (read_watched _ _ _ _ Er Hw). by destruct r0. }
  destruct r as [v|e]; [|by apply agrees_unharmed]. case_bool_decide.
  - pose proof (handle_watched v turn c1 Hc1) as Hh. unfold awp in Hh. destruct (handle_tool_call v turn c1) as [[[]|e] c2]; [by apply IH|done].
  - destruct (completion_result v _ turn); [by apply agrees_unharmed|by apply IH].
Qed.

(** ** Launching *)
Definition silent self : Prop := watched self = Some fresh.
Definition uncalled (v : Value) : Prop := get_str "method" v <> Some "mcpServer/tool/call"%string.
Lemma write_silent v self : uncalled v -> silent self -> silent (write_line v self).2.
Proof.
  intros Hv Hs. destruct (write_line v self) as [r self'] eqn:E. assert (watch_write fresh v = Some fresh) as Hf
    by (unfold watch_write; by rewrite bool_decide_eq_false_2).
  unfold silent, watched in *. unfold write_line in E. destruct (_ <? _); [injection E as <- <-; done|].
  destruct (jl_faults self) as [|[[]|] fs]; injection E as <- <-; simpl; rewrite ?watch_app, ?Hs; simpl; rewrite ?Hf; done.
Qed.
Lemma request_silent id method params self : method <> "mcpServer/tool/call"%string -> silent self -> silent (request id method params self).2.
Proof.
  intros Hm Hs. unfold request, mbind, Pipe_bind. set (v := VObject _).
  assert (silent (write_line v self).2) as Hw by (apply write_silent; [intros Hx; change (Some method = Some "mcpServer/tool/call"%string) in Hx; congruence|done]).
  destruct (write_line v self) as [[[]|e] p]; [|done]. destruct (await id p) as [r p'] eqn:E. exact (await_quiet _ _ _ _ _ _ E Hw eq_refl).
Qed.
Lemma pipe_silent {A B} (m : Pipe A) (k : A -> Pipe B) self : silent (m self).2 -> (forall a p, silent p -> silent (k a p).2) -> silent ((m ≫= k) self).2.
Proof. intros Hm Hk. unfold mbind, Pipe_bind. destruct (m self) as [[a|e] p]; [by apply Hk|done]. Qed.
Lemma open_thread_silent config self : silent self -> silent (open_thread config self).2.
Proof.
  intros Hs. apply pipe_silent; [by apply request_silent|]. intros _ p1 H1. apply pipe_silent; [by apply write_silent|]. intros _ p2 H2.
  cbv zeta. destruct (cx_thread config) as [t|r].
  - apply pipe_silent; [by apply request_silent|]. intros reply p3 H3. apply pipe_silent; [done|]. intros t' p4 H4. by case_bool_decide.
  - apply pipe_silent; [by apply request_silent|]. intros reply p3 H3. apply pipe_silent; [done|]. by intros t' p4 H4.
Qed.

Context `{Os}.
Lemma launch_client config spawn w client w' :
  launch config spawn w = (Done (Ok (Ok client)), w') ->
  silent (ac_protocol client) /\ ac_next_id client = 3 /\ ac_retrieved client = ∅
  /\ match cx_thread config with
     | Resume t => ac_thread_id client = t
     | Create record => persist_thread_id record (ac_thread_id client) w = (Done (Ok (Ok tt)), w')
     end.
Proof.
  unfold launch. destruct (mcp_override config) as [override|e]; [|done]. destruct (spawn _ override) as [[[child input] faults]|]; [|done].
  pose proof (open_thread_silent config (JsonLines_new input faults) eq_refl) as Hsil.
  destruct (open_thread config (JsonLines_new input faults)) as [[t|e] p] eqn:Eo; [|done]. simpl in Hsil.
  destruct (cx_thread config) as [expected|record] eqn:Et.
  - cbv [mbind IO_bind mret IO_ret result_bind]. intros [= <- <-]. split_and!; try done. simpl.
    unfold open_thread in Eo. rewrite Et in Eo. cbv [mbind Pipe_bind] in Eo.
    destruct (request 1 _ _ _) as [[?|?] p1]; [|done]. destruct (notification _ _ p1) as [[?|?] p2]; [|done].
    destruct (request 2 _ _ p2) as [[reply|?] p3]; [|done]. unfold pipe_result in Eo. destruct (identifier_of _) as [t'|?]; [|done].
    destruct (decide (expected = t')) as [->|Hd]; [|by rewrite bool_decide_eq_true_2 in Eo]. rewrite bool_decide_eq_false_2 in Eo by (by intros []). by injection Eo as <- _.
  - unfold mbind at 1, IO_bind. destruct (persist_thread_id record t w) as [[[[[]|e]|e]|] w1] eqn:Ep; cbv [mret IO_ret mbind result_bind]; try done.
    intros [= <- <-]. split_and!; done.
Qed.
Lemma start_turn_agrees client turn client1 :
  silent (ac_protocol client) -> ac_next_id client = 3 -> start_turn client = (Ok turn, client1) ->
  agrees client1 /\ ac_thread_id client1 = ac_thread_id client.
Proof.
  intros Hs Hn. unfold start_turn, set_retrieved, take_id, current, mbind, App_bind. simpl. rewrite Hn. simpl. unfold protocol. simpl.
  destruct (request 3 _ _ _) as [[reply|e] p] eqn:E; [|done]. intros Hr. unfold app_result in Hr. injection Hr as _ <-. split; [|done].
  split; [|unfold within; simpl; unfold u64_max; lia]. simpl.
  pose proof (request_silent 3 "turn/start" (turn_params (ac_thread_id client) (ac_cwd client)) (ac_protocol client) ltac:(done) Hs) as Hq.
  by rewrite E in Hq.
Qed.

(** C18: Only messages that the turn retrieved are acknowledged.  Serving a turn always
    ends, and whatever the App Server sends, loses or reorders, the traffic passes the
    monitor: every acknowledgement forwarded to the MCP server names only messages that an
    earlier answer in the same turn delivered and that were not acknowledged since,
    retrieving never acknowledges, and at most one call is open at a time. *)
Theorem only_retrieved_messages_are_acknowledged config spawn w client w' turn client1 :
  launch config spawn w = (Done (Ok (Ok client)), w') -> start_turn client = (Ok turn, client1) ->
  exists result client2, wait_completed turn client1 = (Some result, client2) /\ watched (ac_protocol client2) <> None.
Proof.
  intros (Hs & Hn & _ & _)%launch_client Ht. destruct (start_turn_agrees _ _ _ Hs Hn Ht) as [Ha _].
  pose proof (wait_watched (S (backlog (ac_protocol client1))) turn client1 Ha) as Hw.
  pose proof (wait_loop_ends (S (backlog (ac_protocol client1))) turn client1 (le_n _)) as He. unfold wait_completed. fold (backlog (ac_protocol client1)).
  destruct (wait_loop _ turn client1) as [[result|] client2]; [|done]. by exists result, client2.
Qed.

(** ** A host keeps its thread *)
Inductive host_step : HostState * World -> HostState * World -> Prop :=
| hst_start s w spawn r s' w' : host_start s spawn w = (Done (Ok (r, s')), w') -> host_step (s, w) (s', w')
| hst_completed s w turn r s' : turn_completed s turn = (Some r, s') -> host_step (s, w) (s', w)
| hst_shutdown s w r s' : host_shutdown s = (r, s') -> host_step (s, w) (s', w).

Definition host_ok (s : HostState) : Prop :=
  match ho_client s with Some client => cx_thread (ho_config s) = Resume (ac_thread_id client) | None => True end.
Lemma shutdown_thread c : ac_thread_id (client_shutdown c).2 = ac_thread_id c.
Proof. unfold client_shutdown. by repeat case_match. Qed.
Lemma host_start_cases s w spawn r s' w' :
  host_start s spawn w = (Done (Ok (r, s')), w') ->
  s' = s \/ exists client w1, launch (ho_config s) spawn w = (Done (Ok (Ok client)), w1) /\ w' = w1
    /\ ho_config s' = resuming (ho_config s) (ac_thread_id client)
    /\ match ho_client s' with Some client1 => ac_thread_id client1 = ac_thread_id client | None => True end.
Proof.
  unfold host_start. destruct (ho_client s); [intros [= _ <- _]; by left|]. unfold mbind, IO_bind.
  destruct (launch (ho_config s) spawn w) as [[[[client|e]|e]|] w1] eqn:El; try done; [|intros [= _ <- _]; by left].
  destruct (launch_client _ _ _ _ _ El) as (Hs & Hn & _). destruct (start_turn client) as [[turn|e] client1] eqn:Et; intros [= _ <- <-]; right; exists client, w1; [|done].
  split_and!; try done. simpl. by apply (start_turn_agrees _ _ _ Hs Hn Et).
Qed.
Lemma host_step_ok s w s' w' : host_step (s, w) (s', w') -> host_ok s -> host_ok s'.
Proof.
  inversion 1 as [? ? spawn r ? ? Hst|? ? turn r ? Hst|? ? r ? Hst]; subst; intros Hs.
  - apply host_start_cases in Hst as [->|(client & w1 & Hl & -> & Hc & Hcl)]; [done|]. unfold host_ok. destruct (ho_client s') as [c1|]; [|done].
    rewrite Hc, Hcl. apply launch_client in Hl as (_ & _ & _ & Hm). unfold resuming. by destruct (cx_thread (ho_config s)) as [t|record] eqn:Et; [rewrite Et, Hm|].
  - unfold turn_completed in Hst. destruct (ho_client s); [|done]. destruct (wait_completed turn a) as [[r0|] c]; [|done].
    destruct (client_shutdown c). by injection Hst as _ <-.
  - unfold host_shutdown in Hst. unfold host_ok in *. destruct (ho_client s) as [c|] eqn:Ec; [|injection Hst as _ <-; by rewrite Ec].
    pose proof (shutdown_thread c) as Hc. destruct (client_shutdown c) as [[[]|e] c1]; injection Hst as _ <-; simpl in *; [done|by rewrite Hc].
Qed.

#[local] Arguments Z.ldiff : simpl never.
Lemma persisted_thread path t w :
  wp (persist_thread_id path t)
    (fun r w' => r = Ok tt -> exists real mode, real_path (w_nodes w) false path = Ok real /\ w_nodes w' !! real = Some (File mode (t +:+ LF) true))
    (fun _ _ => True) (fun _ => True) w.
Proof.
  unfold persist_thread_id. apply wp_bind, wp_attempt, wp_syscall; [|done..]. intros k. simpl.
  destruct (real_path (w_nodes w) false path) as [real|e]; [|done]. destruct (node_at (w_nodes w) real); [done|].
  set (w1 := set_node _ _ _). assert (w_nodes w1 !! real = Some (File (Z.ldiff 438 umask) "" false)) as Hn1 by (unfold w1; simpl; by rewrite lookup_partial_alter_eq). clearbody w1.
  apply wp_bind, wp_attempt, wp_bind, wp_syscall_with; [|done..]. intros k1. unfold append_to. simpl. rewrite Hn1.
  apply wp_bind, wp_syscall_with; [|done..]. intros k2. unfold append_to. simpl. rewrite lookup_insert_eq. simpl.
  apply wp_syscall; [|done..]. intros k3. simpl. rewrite lookup_insert_eq. intros _. exists real, (Z.ldiff 438 umask). simpl. by rewrite lookup_insert_eq.
Qed.

Lemma host_step_config s w s' w' :
  host_step (s, w) (s', w') ->
  ho_config s' = ho_config s
  \/ exists record t real mode, cx_thread (ho_config s) = Create record /\ cx_thread (ho_config s') = Resume t
       /\ real_path (w_nodes w) false record = Ok real /\ w_nodes w' !! real = Some (File mode (t +:+ LF) true).
Proof.
  inversion 1 as [? ? spawn r ? ? Hst|? ? turn r ? Hst|? ? r ? Hst]; subst.
  - apply host_start_cases in Hst as [->|(client & w1 & Hl & -> & Hc & _)]; [by left|]. rewrite Hc. unfold resuming.
    apply launch_client in Hl as (_ & _ & _ & Hm). destruct (cx_thread (ho_config s)) as [t|record]; [by left|right].
    pose proof (wp_run _ _ _ _ _ _ _ (persisted_thread record (ac_thread_id client) w) Hm eq_refl) as (real & mode & Hr & Hf). by exists record, (ac_thread_id client), real, mode.
  - left. unfold turn_completed in Hst. destruct (ho_client s); [|done]. destruct (wait_completed turn a) as [[r0|] c]; [|done].
    destruct (client_shutdown c). by injection Hst as _ <-.
  - left. unfold host_shutdown in Hst. destruct (ho_client s) as [c|]; [|by injection Hst as _ <-].
    by destruct (client_shutdown c) as [[[]|e] c1]; injection Hst as _ <-.
Qed.

(** C38: A host keeps the thread it has.  From a prepared host, through any sequence of wakes,
    completions and shutdowns: the client that runs serves the thread the configuration
    resumes; once the configuration resumes a thread it always will, so later wakes serve
    the same thread; and a created thread is in its record, written and synced, before the
    host counts on it. *)
Theorem host_keeps_its_thread s0 w0 s w s' w' t :
  ho_client s0 = None -> rtc host_step (s0, w0) (s, w) -> rtc host_step (s, w) (s', w') ->
  (cx_thread (ho_config s) = Resume t ->
     cx_thread (ho_config s') = Resume t /\ forall client, ho_client s' = Some client -> ac_thread_id client = t)
  /\ (forall record, cx_thread (ho_config s) = Create record -> host_step (s, w) (s', w') -> cx_thread (ho_config s') = Resume t ->
       exists real mode, real_path (w_nodes w) false record = Ok real /\ w_nodes w' !! real = Some (File mode (t +:+ LF) true)).
Proof.
  intros Hnone Hr Hr'. assert (forall x y, rtc host_step x y -> host_ok x.1 -> host_ok y.1) as Hok.
  { induction 1 as [|x y z Hxy _ IH]; [done|]. intros Hx. apply IH. destruct x, y. by eapply host_step_ok. }
  assert (host_ok s') as Hs' by (apply (Hok _ _ Hr'), (Hok _ _ Hr); unfold host_ok; simpl; by rewrite Hnone). split.
  - intros Ht. assert (cx_thread (ho_config s') = Resume t) as Ht'.
    { change (cx_thread (ho_config (s', w').1) = Resume t). change (cx_thread (ho_config (s, w).1) = Resume t) in Ht. clear -Hr' Ht.
      induction Hr' as [|x y z Hxy _ IH]; [done|]. apply IH. destruct x as [x wx], y as [y wy].
      destruct (host_step_config _ _ _ _ Hxy) as [E|(? & ? & ? & ? & E & _)]; simpl in *; congruence. }
    split; [done|]. intros client Hc. unfold host_ok in Hs'. rewrite Hc in Hs'. congruence.
  - intros record Hrec Hst Ht. destruct (host_step_config _ _ _ _ Hst) as [E|(record' & t' & real & mode & E1 & E2 & E3 & E4)]; [congruence|].
    exists real, mode. split; congruence.
Qed.

(** The ids of requests in the two directions are not told apart: a request of the App Server
    that happens to carry the id of the open request is taken for its answer, and fails it,
    although the answer may still follow. *)
Theorem colliding_request_fails_the_call id message w rest self :
  jl_input self = w :: rest -> decode_line w = Ok message -> get_str "method" message = Some "item/tool/call"%string ->
  get "id" message ≫= as_u64 = Some id -> get "error" message = None -> get "result" message = None ->
  (await id self).1 = Err AeProtocol.
Proof.
  intros Hi Hd _ Hid He Hres. unfold await. rewrite Hi. simpl. unfold read_from_wire. rewrite Hi, Hd. rewrite bool_decide_eq_false_2 by (by intros []).
  unfold answer. by rewrite He, Hres.
Qed.
End Codex.

(** ** A turn *)
Definition reply_to (id : Z) (result : Value) : Value := VObject [("id", v_int id); ("result", result)].
Definition tool_call (id : Z) (tool : string) (arguments : list (string * Value)) : Value :=
  VObject [("method", VString "item/tool/call"); ("id", v_int id);
    ("params", VObject [("threadId", VString "th_1"); ("turnId", VString "tu_1"); ("tool", VString tool); ("arguments", VObject arguments)])].
Definition script_value (s : string) : option Value :=
  match s with
  | "1" => Some (reply_to 1 (VObject []))
  | "2" => Some (reply_to 2 (VObject [("thread", VObject [("id", VString "th_1")])]))
  | "3" => Some (reply_to 3 (VObject [("turn", VObject [("id", VString "tu_1")])]))
  | "4" => Some (tool_call 0 RECEIVE_TOOL [("acknowledge_ids", VArray [])])
  | "5" => Some (reply_to 4 (VObject [("structuredContent", VObject [("messages", VArray [VObject [("id", VString "m1")]])])]))
  | "6" => Some (tool_call 1 ACKNOWLEDGE_TOOL [("message_ids", VArray [VString "m1"])])
  | "7" => Some (reply_to 5 (VObject [("structuredContent", VObject [("acknowledged_ids", VArray [VString "m1"])])]))
  | "8" => Some (VObject [("method", VString "turn/completed");
      ("params", VObject [("threadId", VString "th_1"); ("turn", VObject [("id", VString "tu_1"); ("status", VString "completed")])])])
  | _ => None
  end%string.
#[local] Instance script_serialize : Serialize Value := fun _ => "{}"%string.
#[local] Instance script_deserialize : Deserialize Value := script_value.
#[local] Instance script_text : Serialize string := fun s => s.
#[local] Instance script_os : Os := {| effective_uid := 1000; umask := 18 |}.

(** The second tool call arrives before the answer to the first. *)
Definition script_lines : list Wire := map (fun s => WLine (s +:+ LF)) ["1"; "2"; "3"; "4"; "6"; "5"; "7"; "8"]%string.
Definition script_spawn : Spawn := fun _ _ =>
  Some ({| ch_try_wait := Some false; ch_wait := WaitExited; ch_kill := true; ch_killed := WaitExited |}, script_lines, []).
Definition script_config : AppServerConfig :=
  {| cx_command := "/bin/codex"; cx_mcp_command := "/bin/psst-mcp"; cx_mcp_environment := []; cx_thread := Create ["srv"; "thread"]; cx_cwd := "/srv" |}.
Definition script_world : World :=
  {| w_nodes := <[["srv"] := Directory 1000 448]> ∅; w_earlier := ∅; w_script := []; w_entropy := [] |}.
Definition script_client : AppServerClient :=
  {| ac_child := {| ch_try_wait := Some false; ch_wait := WaitExited; ch_kill := true; ch_killed := WaitExited |};
     ac_protocol := (open_thread script_config (JsonLines_new script_lines [])).2; ac_thread_id := "th_1"; ac_cwd := "/srv"; ac_next_id := 3;
     ac_retrieved := ∅ |}.
Lemma only_retrieved_messages_are_acknowledged_witness :
  exists result client2, wait_completed "tu_1" (start_turn script_client).2 = (Some result, client2) /\ watched (ac_protocol client2) <> None.
Proof.
  apply (only_retrieved_messages_are_acknowledged script_config script_spawn script_world script_client (launch script_config script_spawn script_world).2).
  - vm_compute. reflexivity.
  - vm_compute. reflexivity.
Defined.
Example script_turn_completes :
  (wait_completed "tu_1" (start_turn script_client).2).1 = Some (Ok tt).
Proof. vm_compute. reflexivity. Qed.

Definition script_host : HostState := {| ho_config := script_config; ho_client := None |}.
Definition script_started : Exit (Result HostFailure string * HostState) * World := host_start script_host script_spawn script_world.
Definition script_resuming : HostState := {| ho_config := resuming script_config "th_1"; ho_client := Some (start_turn script_client).2 |}.
Lemma host_keeps_its_thread_witness :
  exists real mode, real_path (w_nodes script_world) false ["srv"; "thread"] = Ok real
    /\ w_nodes script_started.2 !! real = Some (File mode ("th_1" +:+ LF) true).
Proof.
  assert (host_step (script_host, script_world) (script_resuming, script_started.2)) as Hstep.
  { apply (hst_start _ _ script_spawn (Ok "tu_1"%string)). vm_compute. reflexivity. }
  destruct (host_keeps_its_thread script_host script_world script_host script_world script_resuming script_started.2 "th_1" eq_refl
    (rtc_refl _ _) (rtc_once _ _ Hstep)) as [_ Hrec].
  exact (Hrec ["srv"; "thread"]%string eq_refl Hstep eq_refl).
Defined.
