(* ===== verification/Startup.v ===== *)
(** * Startup: binding, starting and cleaning up a session (psst-application/src/session.rs)

    What a session does before its tasks run: joining and binding a profile, starting a
    bound one (which finishes a leave that was interrupted), resuming an expired lease, and
    removing the local authority after a confirmed leave.  The programs work on the file
    system and on the relay, behind the [SessionTransport] trait. *)
From stdpp Require Import gmap.
From Stdlib Require Import Ascii.
From S2P Require Import Prelude Text Core Files Credential Dto Validation Client Failure Profile Journal CredentialStore.

(** [psst_client::Session]. *)
Record Session : Set := { ses_response : SessionResponse; ses_credential : Credential }.

(** ** [trait SessionTransport], over the state [N] of the network *)
Class SessionTransport (N : Type) := {
  st_join : string -> JoinSquadRequest -> N -> Result ClientError Session * N;
  st_leave : string -> Credential -> N -> Result ClientError LeaveSquadResponse * N;
  st_heartbeat : HeartbeatRequest -> Credential -> N -> Result ClientError HeartbeatResponse * N;
  st_resume : string -> ResumeSquadRequest -> Credential -> N -> Result ClientError Session * N;
  st_send_prepared : PreparedSend -> Credential -> N -> Result ClientError SendMessageResponse * N }.

(** ** Programs *)
Inductive SExit (A : Type) : Type := SDone (r : Result SessionError A) | SCrashed.
Arguments SDone {A} r.
Arguments SCrashed {A}.

Section Programs.
Context {N : Type}.
Definition Sess (A : Type) : Type := World * N -> SExit A * (World * N).
#[global] Instance Sess_ret : MRet Sess := fun A a s => (SDone (Ok a), s).
#[global] Instance Sess_bind : MBind Sess := fun A B k m s =>
  match m s with
  | (SDone (Ok a), s') => k a s'
  | (SDone (Err e), s') => (SDone (Err e), s')
  | (SCrashed, s') => (SCrashed, s')
  end.
Definition s_try {A} (r : Result SessionError A) : Sess A := fun s => (SDone r, s).
Definition s_fail {A} (e : SessionError) : Sess A := s_try (Err e).
(** A file operation, its error converted by [From<io::Error>]. *)
Definition local {A} (m : IO A) : Sess A := fun '(w, n) =>
  match m w with
  | (Done r, w') => (SDone (map_err SeLocal r), (w', n))
  | (Crashed, w') => (SCrashed, (w', n))
  end.
(** A file operation whose result the program looks at. *)
Definition local_result {A} (m : IO A) : Sess (Result IoError A) := local (attempt m).
Definition remote {A} (f : N -> Result ClientError A * N) : Sess (Result ClientError A) := fun '(w, n) =>
  let '(r, n') := f n in (SDone (Ok r), (w, n')).
End Programs.
Arguments Sess N A : clear implicits.

(** ** Cleaning up *)
Inductive CleanupStep : Set := CleanCredential | CleanProfile | CleanJournal.
(** [trait CleanupSeam]; [NoCleanupFault] never fails. *)
Definition CleanupSeam : Set := CleanupStep -> Result IoError unit.
Definition NoCleanupFault : CleanupSeam := fun _ => Ok tt.

Definition cleanup_confirmed_leave (store : CredentialStore) (metadata_path : Path) (journal : LeaveJournalStore)
    (seam : CleanupSeam) : IO unit :=
  _ ← io (seam CleanCredential);
  _ ← clear store;
  _ ← io (seam CleanProfile);
  _ ← clear_profile metadata_path;
  _ ← io (seam CleanJournal);
  journal_remove journal.

(** ** Specifications of a runtime *)
Record RuntimeSpec : Set := {
  rs_profile : ProfileBinding; rs_paths : ProfilePaths; rs_mode : AgentModeDto; rs_client_metadata : ClientMetadata;
  rs_shutdown_bound : Duration }.
Record UnboundRuntimeSpec : Set := {
  us_relay_origin : string; us_profile_name : string; us_squad : string; us_paths : ProfilePaths;
  us_shutdown_bound : Duration }.

Inductive SessionHealth : Set := HealthReady | HealthDegraded | HealthOutcomeUnknown | HealthRotationFailed | HealthStopped.
#[global] Instance SessionHealth_eq_dec : EqDecision SessionHealth.
Proof. solve_decision. Defined.

Record Shared : Set := {
  sh_credential : Credential; sh_instance_id : string; sh_heartbeat_interval_seconds : Z; sh_lease_expires_at : ApiTimestamp;
  sh_availability : AvailabilityDto; sh_availability_source : AvailabilitySourceDto; sh_health : SessionHealth;
  sh_generation : Z }.

(** What a started runtime owns: its stores, its binding and the state its tasks share. *)
Record Started : Set := {
  sd_store : CredentialStore; sd_journal : LeaveJournalStore; sd_binding : CredentialBinding; sd_shared : Shared }.

(** [trait JournalIssuer]. *)
Record JournalIssuer : Set := {
  issue_intent : ProfileBinding -> Result IoError LeaveJournal;
  issue_confirm : LeaveJournal -> Result IoError LeaveJournal }.

(** [SystemJournalIssuer::now] on the clock's nanoseconds, cut to whole milliseconds. *)
Definition system_now (nanos : Z) : Result IoError ApiTimestamp :=
  map_err (fun _ => io_error KindOther "system time cannot be represented")
    (ApiTimestamp_new ((nanos / 1000000) * 1000000)).
Definition SystemJournalIssuer `{UrlCrate} (random : Result IoError string) (nanos : Z) : JournalIssuer := {|
  issue_intent binding :=
    bytes ← random;
    now ← system_now nanos;
    intent binding (hex bytes) now;
  issue_confirm journal := now ← system_now nanos; confirmed journal now |}.

Section Starting.
Context {N : Type} `{SessionTransport N} `{Os} `{UrlCrate} `{HttpHeaders} `{Crypto}.
Context `{Serialize LeaveJournal, !Deserialize LeaveJournal}.
Context `{Serialize CredentialRecord, !Deserialize CredentialRecord}.
Context `{Serialize ProfileBinding, !Deserialize ProfileBinding}.

(** The relay must be the one the profile is bound to. *)
Definition require_client_origin (client : Client) (relay_origin : string) : Result SessionError unit :=
  expected ← ok_or (url_parse relay_origin) (SeRelay CeInvalidBaseUrl);
  if bool_decide (origin client <> url_as_str (url_set_path expected "/")) then Err (SeRelay CeInvalidBaseUrl) else Ok tt.

(** ** Resuming *)
Inductive ResumeTransactionError : Set := RteRelay (e : ClientError) | RtePersist (e : IoError) | RteTask.
Definition resume_session_error (error : ResumeTransactionError) : SessionError :=
  match error with
  | RteRelay error => SeRelay error
  | RtePersist error => SeLocal error
  | RteTask => SeLocal (io_error KindOther "resume transaction task failed")
  end.

(** The outcome is a value: a crash is the only other end. *)
Definition resume_transaction (store : CredentialStore) (binding : CredentialBinding) (squad : string)
    (request : ResumeSquadRequest) (credential : Credential) : Sess N (Result ResumeTransactionError Session) :=
  session ← remote (st_resume squad request credential);
  match session with
  | Err error => mret (Err (RteRelay error))
  | Ok session =>
      if bool_decide (ss_id (sep_squad (ses_response session)) <> cb_squad_id binding)
         || bool_decide (ss_name (sep_squad (ses_response session)) <> squad)
         || bool_decide (sep_membership_id (ses_response session) <> cb_member_id binding)
      then mret (Err (RteRelay (CeMalformedResponse 200)))
      else
        persisted ← local_result (credential_store store binding (ses_credential session));
        match persisted with
        | Ok _ => mret (Ok session)
        | Err error => mret (Err (RtePersist error))
        end
  end.

(** ** Starting a bound profile *)
Definition is_confirmed (pending : option LeaveJournal) : bool :=
  match pending with Some value => bool_decide (lj_phase value = Confirmed) | None => false end.
(** [if pending_leave.is_some() { journal.remove()?; }]. *)
Definition forget_intent (pending : option LeaveJournal) (journal : LeaveJournalStore) : Sess N unit :=
  if opt_is_some pending then local (journal_remove journal) else mret tt.

Definition started (store : CredentialStore) (journal : LeaveJournalStore) (binding : CredentialBinding)
    (credential : Credential) (heartbeat : HeartbeatResponse) (generation : Z) : Started :=
  {| sd_store := store; sd_journal := journal; sd_binding := binding;
     sd_shared := {| sh_credential := credential; sh_instance_id := cd_instance_id credential;
                     sh_heartbeat_interval_seconds := hbp_heartbeat_interval_seconds heartbeat;
                     sh_lease_expires_at := hbp_lease_expires_at heartbeat; sh_availability := AvUnknownDto;
                     sh_availability_source := SrcUnknownDto; sh_health := HealthReady; sh_generation := generation |} |}.

(** The rest of [start_locked_with], once the pending leave is known. *)
Definition start_pending (spec : RuntimeSpec) (journal_issuer : JournalIssuer) (cleanup_seam : CleanupSeam)
    (store : CredentialStore) (journal : LeaveJournalStore) (binding : CredentialBinding)
    (pending_leave : option LeaveJournal) : Sess N Started :=
  let profile := rs_profile spec in
  if is_confirmed pending_leave then
    _ ← local (cleanup_confirmed_leave store (pp_metadata (rs_paths spec)) journal cleanup_seam);
    s_fail SeUnbound
  else
    credential ← local (credential_load store binding);
    reply ← remote (st_heartbeat {| hbr_availability := AvUnknownDto; hbr_availability_source := SrcUnknownDto |} credential);
    match reply with
    | Ok value =>
        _ ← forget_intent pending_leave journal;
        mret (started store journal binding credential value 0)
    | Err (CeApi _ ApiLeaseExpired _) =>
        resumed ← resume_transaction store binding (pb_squad_name profile)
          {| rsr_mode := rs_mode spec; rsr_client := rs_client_metadata spec |} credential;
        session ← s_try (map_err resume_session_error resumed);
        _ ← forget_intent pending_leave journal;
        mret (started store journal binding (ses_credential session)
          {| hbp_lease_expires_at := sep_lease_expires_at (ses_response session);
             hbp_heartbeat_interval_seconds := sep_heartbeat_interval_seconds (ses_response session) |} 1)
    | Err error =>
        match error, pending_leave with
        | CeApi _ (ApiNotMember | ApiSquadArchived) _, Some pending =>
            confirmed ← local (io (issue_confirm journal_issuer pending));
            _ ← local (journal_store journal confirmed);
            _ ← local (cleanup_confirmed_leave store (pp_metadata (rs_paths spec)) journal cleanup_seam);
            s_fail SeUnbound
        | _, _ => s_fail (SeRelay error)
        end
    end.

Definition start_locked_with (spec : RuntimeSpec) (journal_issuer : JournalIssuer) (cleanup_seam : CleanupSeam)
    : Sess N Started :=
  let profile := rs_profile spec in
  store ← local (CredentialStore_open (pp_credential (rs_paths spec)));
  journal ← local (LeaveJournalStore_open (pp_metadata (rs_paths spec)));
  binding ← local (io (CredentialBinding_new (pb_relay_origin profile) (pb_profile profile) (pb_squad_id profile)
                         (pb_member_id profile)));
  pending_leave ← local (journal_load journal profile);
  start_pending spec journal_issuer cleanup_seam store journal binding pending_leave.

Definition start_locked (spec : RuntimeSpec) (issuer : JournalIssuer) : Sess N Started :=
  start_locked_with spec issuer NoCleanupFault.

(** [lock]: what [ProfileLock::acquire] returns. *)
Definition start (client : Client) (spec : RuntimeSpec) (lock : Result IoError unit) (issuer : JournalIssuer)
    : Sess N Started :=
  _ ← s_try (require_client_origin client (pb_relay_origin (rs_profile spec)));
  _ ← local (io lock);
  profile ← local (load_profile (pp_metadata (rs_paths spec)));
  if bool_decide (profile <> Some (rs_profile spec)) then s_fail SeUnbound
  else start_locked spec issuer.

(** ** Finishing a leave whose profile is gone *)
Definition recover_orphaned_leave (paths : ProfilePaths) (relay_origin profile_name : string) (lock : Result IoError unit)
    : Sess N bool :=
  _ ← local (io lock);
  dir ← (match path_parent (pp_metadata paths) with Some parent => local (is_dir parent) | None => mret false end);
  if negb dir then mret false
  else
    profile ← local (load_profile (pp_metadata paths));
    if opt_is_some profile then mret false
    else
      journal ← local (LeaveJournalStore_open (pp_metadata paths));
      record ← local (load_for_profile_key journal relay_origin profile_name);
      match record with
      | None => mret false
      | Some (pending, _) =>
          if bool_decide (lj_phase pending <> Confirmed) then s_fail SeRecoveryOutcomeUnknown
          else
            store ← local (CredentialStore_open (pp_credential paths));
            _ ← local (cleanup_confirmed_leave store (pp_metadata paths) journal NoCleanupFault);
            mret true
      end.

(** ** Joining and binding a profile *)
Definition join_and_bind (client : Client) (spec : UnboundRuntimeSpec) (request : JoinSquadRequest)
    (lock : Result IoError unit) (issuer : JournalIssuer) : Sess N (Started * SessionResponse) :=
  _ ← s_try (require_client_origin client (us_relay_origin spec));
  _ ← local (io lock);
  bound ← local (path_exists (pp_metadata (us_paths spec)));
  bound ← (if bound : bool then mret true else local (path_exists (pp_credential (us_paths spec))));
  if bound : bool then s_fail (SeLocal (io_error KindAlreadyExists "profile is already bound"))
  else
    session ← remote (st_join (us_squad spec) request);
    session ← s_try (map_err SeRelay session);
    let response := ses_response session in
    if bool_decide (ss_name (sep_squad response) <> us_squad spec)
       || bool_decide (sep_member_name response <> jsr_name request) || bool_decide (sep_role response <> jsr_role request)
    then s_fail (SeRelay (CeMalformedResponse 200))
    else
      profile ← s_try (map_err (fun _ => SeLocal (io_error KindInvalidData "joined profile is invalid"))
        (ProfileBinding_new (us_profile_name spec) (us_relay_origin spec) (ss_name (sep_squad response))
           (ss_id (sep_squad response)) (sep_membership_id response)));
      store ← local (CredentialStore_open (pp_credential (us_paths spec)));
      binding ← local (io (CredentialBinding_new (pb_relay_origin profile) (pb_profile profile) (pb_squad_id profile)
                             (pb_member_id profile)));
      _ ← local (credential_store store binding (ses_credential session));
      saved ← local_result (store_profile (pp_metadata (us_paths spec)) profile);
      match saved with
      | Err error => _ ← local (clear store); s_fail (SeLocal error)
      | Ok _ =>
          runtime ← start_locked
            {| rs_profile := profile; rs_paths := us_paths spec; rs_mode := jsr_mode request;
               rs_client_metadata := jsr_client request; rs_shutdown_bound := us_shutdown_bound spec |} issuer;
          mret (runtime, response)
      end.
End Starting.

(** ** [impl SessionTransport for Client] *)
Section ClientTransport.
Context `{HttpHeaders} `{Crypto} `{UrlCrate} `{Transport Net}.
Context `{!Deserialize ErrorEnvelope, !Deserialize SessionResponse, !Deserialize LeaveSquadResponse,
          !Deserialize HeartbeatResponse, !Deserialize SendMessageResponse}.

(** The result of a call.  A call that ends without an answer, by a panic, is given the
    error of a lost one. *)
Definition returned {A} (m : C (Net := Net) A) (n : Net) : Result ClientError A * Net :=
  match m n with
  | (Answered r, n') => (r, n')
  | (_, n') => (Err CeTimeout, n')
  end.
Definition session_of (m : C (Net := Net) (SessionResponse * Credential)) : C (Net := Net) Session :=
  '(response, credential) ← m; mret {| ses_response := response; ses_credential := credential |}.
#[global] Instance client_transport (self : Client) : SessionTransport Net := {|
  st_join squad request := returned (session_of (Client_join self squad request));
  st_leave squad credential := returned (Client_leave self squad credential);
  st_heartbeat request credential := returned (Client_heartbeat self request credential);
  st_resume squad request credential := returned (session_of (Client_resume self squad request credential));
  st_send_prepared request credential := returned (Client_send_prepared self request credential) |}.
End ClientTransport.
