(* ===== verification/Departure.v ===== *)
(** * Departure: removing the local authority after a leave *)
From stdpp Require Import gmap.
From Stdlib Require Import Ascii.
From S2P Require Import Prelude Text Core Files Credential Dto Validation Client Failure Profile Journal CredentialStore Durability Recovery Startup.

(** ** Removing a file *)

(** Only [t] differs. *)
Definition except (t : Path) (w w' : World) : Prop := forall p, p <> t -> kept p w w'.
#[global] Instance except_refl t : Reflexive (except t).
Proof. by intros w p _. Qed.
#[global] Instance except_trans t : Transitive (except t).
Proof. intros w1 w2 w3 H12 H23 p Hp. etrans; [by apply H12|by apply H23]. Qed.

Section Remove.
Variables (dir : Path) (name : string).
Abbreviation t := (path_join dir name).
Variables (w0 : World) (old : option Node).

(** Still there; taken out of the directory; durably gone; any of these. *)
Definition present (w : World) : Prop := except t w0 w /\ only w t (fun n => n = old).
Definition gone (w : World) : Prop := except t w0 w /\ only w t (fun n => n = None).
Definition fading (w : World) : Prop := except t w0 w /\ only w t (fun n => n = old \/ n = None).
Definition dropped (w : World) : Prop := fading w /\ w_nodes w !! t = None.

Lemma present_fading w : present w -> fading w.
Proof. intros [He Ho]. split; [done|]. eapply only_weaken; [done|]. by left. Qed.
Lemma present_step w k : present w -> present (set_script w k).
Proof. by intros [He Ho]. Qed.
Lemma present_gone w : present w -> w_nodes w !! t = None -> gone w.
Proof.
  intros [He Ho] Hn. pose proof (only_now _ _ _ Ho) as E. simpl in E. split; [done|].
  eapply only_weaken; [done|]. simpl. congruence.
Qed.

Lemma wp_unlink (Q : Result IoError unit -> World -> Prop) E (K : World -> Prop) w :
  present w -> (forall w', dropped w' -> Q (Ok tt) w') -> (forall w', gone w' -> Q (Err ENOENT) w') ->
  (forall e w', present w' -> io_kind e <> KindNotFound -> Q (Err e) w') -> (forall w', fading w' -> K w') ->
  wp (attempt (unlinkat dir name)) Q E K w.
Proof.
  intros Hp HQ Hgone HE HK. apply wp_attempt, wp_syscall.
  - intros k. pose proof (present_step _ k Hp) as Hp'. simpl.
    assert (dropped (set_node (set_script w k) t None)) as Hd.
    { split; [|apply set_node_eq]. split.
      - etrans; [apply Hp'|]. intros p Hne. by apply kept_set_node.
      - intros n Hn. rewrite set_node_eq in Hn. unfold earlier in Hn. simpl in Hn. rewrite lookup_insert_eq in Hn. simpl in Hn.
        apply elem_of_cons in Hn as [->|Hn]; [split; [by right|done]|]. destruct Hp' as [_ Ho]. destruct (Ho n Hn). split; [by left|done]. }
    destruct (w_nodes w !! t) as [[]|] eqn:E0; try (by apply HQ); try (by apply HE).
    by apply Hgone, present_gone.
  - intros f k. apply HE; [by apply present_step|]. by destruct f.
  - intros k. by apply HK, present_fading, present_step.
Qed.

Lemma wp_unlink_or (Q : unit -> World -> Prop) (E : IoError -> World -> Prop) (K : World -> Prop) w :
  present w -> (forall w', dropped w' -> Q tt w') -> (forall e w', fading w' -> E e w') -> (forall w', fading w' -> K w') ->
  wp (unlinkat dir name) Q E K w.
Proof.
  intros Hp HQ HE HK.
  assert (wp (attempt (unlinkat dir name))
    (fun r w' => match r with Ok _ => dropped w' | Err _ => fading w' end) (fun _ _ => False) fading w) as Hw.
  { apply wp_unlink; try done; [|intros; by apply present_fading].
    intros w' [He Ho]. split; [done|]. eapply only_weaken; [done|]. by right. }
  unfold wp, attempt in *. destruct (unlinkat dir name w) as [[[[]|e]|] w']; auto.
Qed.

Lemma wp_sync_gone (Q : unit -> World -> Prop) (E : IoError -> World -> Prop) (K : World -> Prop) w :
  dropped w -> (forall w', gone w' -> Q tt w') -> (forall e w', fading w' -> E e w') -> (forall w', fading w' -> K w') ->
  wp (sync_dir dir) Q E K w.
Proof.
  intros [Hf Hn] HQ HE HK. apply wp_syscall; [|intros; by apply HE|intros; by apply HK].
  intros k. apply HQ. set (w' := {| w_nodes := _; w_earlier := _; w_script := _; w_entropy := _ |}).
  assert (forall p, kept p w w') as Hk.
  { intros p. split; [done|]. unfold earlier. simpl. rewrite map_lookup_filter. destruct (w_earlier w !! p); simpl; [|done].
    case_guard; simpl; [done|apply list_subseteq_nil]. }
  split; [etrans; [apply Hf|intros p _; apply Hk]|]. intros n Hx. simpl in Hx. unfold earlier in Hx. simpl in Hx.
  rewrite Hn, map_lookup_filter in Hx. pose proof (path_parent_join dir name) as Hpp. destruct (w_earlier w !! t); simpl in Hx.
  - rewrite option_guard_False in Hx by (by intros []). by apply list_elem_of_singleton in Hx as ->.
  - by apply list_elem_of_singleton in Hx as ->.
Qed.
End Remove.

Lemma clear_wp self name w0 old w :
  path_file_name (cs_path self) = Some name -> present (cs_directory_guard self) name w0 old w ->
  wp (clear self) (fun _ => gone (cs_directory_guard self) name w0) (fun _ => fading (cs_directory_guard self) name w0 old)
    (fading (cs_directory_guard self) name w0 old) w.
Proof.
  intros Hn Hp. unfold clear. rewrite Hn. apply wp_bind, wp_ret, wp_bind.
  eapply wp_unlink; [done|..].
  - intros w' Hd. eapply wp_sync_gone; eauto.
  - intros w' Hg. by apply wp_ret.
  - intros e w' Hp' Hk. rewrite bool_decide_eq_false_2 by done. by apply wp_raise, present_fading.
  - done.
Qed.

Lemma journal_remove_wp self name w0 old w :
  target_name self = Ok name -> present (js_directory self) name w0 old w ->
  wp (journal_remove self) (fun _ => gone (js_directory self) name w0) (fun _ => fading (js_directory self) name w0 old)
    (fading (js_directory self) name w0 old) w.
Proof.
  intros Hn Hp. unfold journal_remove, remove_with_fault. rewrite Hn. apply wp_bind, wp_ret, wp_bind, wp_ret, wp_bind.
  eapply wp_unlink; [done|..].
  - intros w' Hd. apply wp_bind, wp_ret. eapply wp_sync_gone; eauto.
  - intros w' Hg. by apply wp_ret.
  - intros e w' Hp' Hk. rewrite bool_decide_eq_false_2 by done. by apply wp_raise, present_fading.
  - done.
Qed.

(** No call fails; the process can still die at any call. *)
Definition steady (w : World) : Prop := Forall (fun e => match e with Fails _ _ => False | _ => True end) (w_script w).

Section ClearProfile.
Context `{Os} `{UrlCrate}.
Variables (dir : Path) (name : string) (w0 : World) (old : option Node).
Abbreviation t := (path_join dir name).

Lemma lookup_regular w follow :
  plain (w_nodes w) dir -> regular (w_nodes w !! t) -> lookup_path w follow t = (n ← ok_or (w_nodes w !! t) ENOENT; Ok (t, n)).
Proof.
  intros Hp Hr. unfold lookup_path, real_path, path_join.
  rewrite (resolve_plain_last 40 (w_nodes w) follow dir name Hp) by (intros target E; unfold path_join in Hr; by rewrite E in Hr).
  unfold mbind, result_bind, node_at. by destruct dir.
Qed.

Lemma wp_path_exists (Q : bool -> World -> Prop) E (K : World -> Prop) w :
  plain (w_nodes w) dir -> regular (w_nodes w !! t) ->
  (forall k, Q (opt_is_some (w_nodes w !! t)) (set_script w k)) -> (~ steady w -> forall k, Q false (set_script w k)) ->
  (forall k, K (set_script w k)) -> wp (path_exists t) Q E K w.
Proof.
  intros Hp Hr HQ HF HK. unfold wp, path_exists, syscall, syscall_with. destruct (w_script w) as [|[|f n|n] k] eqn:Es.
  - rewrite lookup_regular by done. specialize (HQ []). rewrite <- Es in HQ.
    assert (set_script w (w_script w) = w) as Hw by (by destruct w). rewrite Hw in HQ. by destruct (w_nodes w !! t).
  - rewrite lookup_regular by done. specialize (HQ k). simpl. by destruct (w_nodes w !! t).
  - simpl. apply HF. unfold steady. rewrite Es. by intros []%Forall_cons.
  - apply HK.
Qed.

Lemma except_plain w : plain (w_nodes w0) dir -> except t w0 w -> plain (w_nodes w) dir.
Proof.
  intros Hp He. apply (kept_plain w0); [|done]. intros k. apply He. intros E%(f_equal length). unfold path_join in E.
  rewrite length_app, length_take in E. simpl in E. lia.
Qed.

Lemma clear_profile_wp w :
  plain (w_nodes w0) dir -> regular old -> present dir name w0 old w ->
  wp (clear_profile t) (fun _ w' => gone dir name w0 w' \/ ~ steady w /\ present dir name w0 old w') (fun _ => fading dir name w0 old)
    (fading dir name w0 old) w.
Proof.
  intros Hp Hr Hpr. assert (forall w, present dir name w0 old w -> w_nodes w !! t = old) as Hnow
    by (intros w1 [_ Ho]; exact (only_now _ _ _ Ho)).
  unfold clear_profile. apply wp_bind, wp_path_exists;
    [apply except_plain; [done|apply Hpr]|by rewrite Hnow| |intros Hst k|intros k; by apply present_fading, present_step].
  2: { apply wp_ret. right. by split; [|apply present_step]. }
  intros k. rewrite (Hnow w Hpr). apply (present_step _ _ _ _ _ k) in Hpr. generalize dependent (set_script w k). intros w1 Hp1.
  destruct (opt_is_some old) eqn:En; simpl.
  2: { apply wp_ret. left. eapply present_gone; [exact Hp1|]. rewrite Hnow by done. by destruct old. }
  apply wp_bind. eapply wp_mono;
    [apply (looks_wp _ (present dir name w0 old)); [apply looks_reject_symlink|intros; by apply present_step|done]
    | |intros ? ? Hx; by apply present_fading|intros ? Hx; by apply present_fading].
  intros ? w2 Hp2. simpl in Hp2. rewrite path_parent_join. apply wp_bind, wp_ret, wp_bind.
  apply wp_open_dir; [apply except_plain; [done|apply Hp2]| |intros; by apply present_fading, present_step..]. intros k2.
  rewrite path_file_name_join. apply wp_bind, wp_ret, wp_bind.
  apply (present_step _ _ _ _ _ k2) in Hp2. generalize dependent (set_script w2 k2). intros w3 Hp3.
  eapply wp_unlink_or; [exact Hp3|..]; try done.
  - intros w4 Hd. eapply wp_sync_gone; [exact Hd|by left|done..].
Qed.
End ClearProfile.

(** Programs consume the script from its front. *)
Definition forwards {A} (m : IO A) : Prop := forall w, steady w -> steady (m w).2.
Lemma forwards_bind {A B} (m : IO A) (k : A -> IO B) : forwards m -> (forall a, forwards (k a)) -> forwards (m ≫= k).
Proof.
  intros Hm Hk w Hw. specialize (Hm w Hw). unfold mbind, IO_bind. destruct (m w) as [[[a|e]|] w']; simpl in *; auto. by apply Hk.
Qed.
Lemma forwards_attempt {A} (m : IO A) : forwards m -> forwards (attempt m).
Proof. intros Hm w Hw. specialize (Hm w Hw). unfold attempt. by destruct (m w) as [[r|] w']. Qed.
Lemma forwards_here {A} (x : Exit A) : forwards (fun w => (x, w)).
Proof. by intros w. Qed.
Lemma forwards_syscall {A} (act : World -> Result IoError A * World) :
  (forall w, w_script (act w).2 = w_script w) -> forwards (syscall act).
Proof.
  intros Ha w Hw. unfold steady, syscall, syscall_with in *. destruct (w_script w) as [|[|f n|n] k] eqn:Es; simpl.
  - specialize (Ha w). destruct (act w) as [r w']. simpl in *. rewrite Ha, Es. done.
  - apply Forall_cons in Hw as [_ Hw]. specialize (Ha (set_script w k)). destruct (act _) as [r w']. simpl in *. by rewrite Ha.
  - by apply Forall_cons in Hw as [? _].
  - by apply Forall_cons in Hw as [_ Hw].
Qed.
Lemma forwards_clear self : forwards (clear self).
Proof.
  apply forwards_bind; [apply forwards_here|]. intros n. apply forwards_bind.
  - apply forwards_attempt, forwards_syscall. intros w. by destruct (w_nodes w !! _) as [[]|].
  - intros [[]|e]; [by apply forwards_syscall|]. case_bool_decide; apply forwards_here.
Qed.

Section Cleanup.
Context `{Os} `{UrlCrate}.
Variables (store : CredentialStore) (dir : Path) (pname : string) (journal : LeaveJournalStore) (cname jname : string).
Abbreviation tc := (path_join (cs_directory_guard store) cname).
Abbreviation tp := (path_join dir pname).
Abbreviation tj := (path_join (js_directory journal) jname).

(** The three files of a bound profile, where a restart finds them. *)
Record bound (w : World) : Prop := {
  bd_credential : path_file_name (cs_path store) = Some cname;
  bd_journal : target_name journal = Ok jname;
  bd_cp : tc <> tp; bd_cj : tc <> tj; bd_pj : tp <> tj;
  bd_c : durable w tc; bd_p : durable w tp; bd_j : durable w tj;
  bd_dirs : plain (w_nodes w) dir; bd_regular : regular (w_nodes w !! tp);
  bd_above : forall k, take k dir <> tc }.

(** The journal is as it was, or the authority is gone for good. *)
Definition accounted (w w' : World) : Prop :=
  only w' tj (fun n => n = w_nodes w !! tj)
  \/ only w' tc (fun n => n = None) /\ (steady w -> only w' tp (fun n => n = None)).

Lemma durable_present w w1 d n : durable w (path_join d n) -> kept (path_join d n) w w1 -> present d n w1 (w_nodes w !! path_join d n) w1.
Proof. intros Hd Hk. split; [done|]. apply (only_kept w); [done|done]. Qed.

Lemma cleanup_wp seam w :
  bound w ->
  wp (cleanup_confirmed_leave store tp journal seam)
    (fun _ w' => only w' tc (fun n => n = None) /\ only w' tj (fun n => n = None) /\ (steady w -> only w' tp (fun n => n = None)))
    (fun _ => accounted w) (accounted w) w.
Proof.
  intros []. unfold cleanup_confirmed_leave.
  assert (only w tj (fun n => n = w_nodes w !! tj)) as Hj by done.
  apply wp_bind, wp_io; [intros _ _|by left]. apply wp_bind.
  assert (forall w1, except tc w w1 -> accounted w w1) as A1 by (intros w1 He; left; apply (only_kept w); [by apply He|done]).
  assert (present (cs_directory_guard store) cname w (w_nodes w !! tc) w) as Hpc by (by apply durable_present).
  pose proof (clear_wp store cname w _ w bd_credential0 Hpc) as Hc. pose proof (forwards_clear store w) as Hfw.
  unfold wp in Hc |- *. destruct (clear store w) as [[[[]|e]|] w1]; simpl in *; [|by apply A1, Hc..].
  destruct Hc as [He1 Hc1].
  apply (wp_bind (io _)), wp_io; [intros _ _|intros; by apply A1]. apply wp_bind.
  assert (present dir pname w1 (w_nodes w !! tp) w1) as Hpp by (apply durable_present; [done|by apply He1]).
  assert (plain (w_nodes w1) dir) as Hpl by (apply (kept_plain w); [intros k; by apply He1|done]).
  assert (forall w2, except tp w1 w2 -> only w2 tj (fun n => n = w_nodes w !! tj)) as Hj2.
  { intros w2 He2. apply (only_kept w); [|done]. etrans; [by apply He1|by apply He2]. }
  eapply wp_mono; [by apply clear_profile_wp| |intros ? w2 [He2 _]; left; by apply Hj2|intros w2 [He2 _]; left; by apply Hj2].
  intros ? w2 Hg. simpl in Hg. assert (except tp w1 w2) as He2 by (destruct Hg as [[? _]|[_ [? _]]]; done).
  assert (steady w -> only w2 tp (fun n => n = None)) as Hp2.
  { intros Hst. destruct Hg as [[_ Hg]|[Hns _]]; [done|]. exfalso. auto. }
  assert (only w2 tc (fun n => n = None)) as Hc2 by (apply (only_kept w1); [by apply He2|done]).
  apply wp_bind, wp_io; [intros _ _|intros; left; by apply Hj2].
  assert (present (js_directory journal) jname w2 (w_nodes w !! tj) w2) as Hpj by (split; [done|by apply Hj2]).
  assert (forall w3, except tj w2 w3 -> only w3 tc (fun n => n = None) /\ (steady w -> only w3 tp (fun n => n = None))) as Hfin.
  { intros w3 He3. split; [apply (only_kept w2); [by apply He3|done]|]. intros Hst. apply (only_kept w2); [by apply He3|auto]. }
  eapply wp_mono; [by apply journal_remove_wp|..].
  - intros ? w3 [He3 Hg3]. destruct (Hfin w3 He3). done.
  - intros ? w3 [He3 _]. right. by apply Hfin.
  - intros w3 [He3 _]. right. by apply Hfin.
Qed.
End Cleanup.


(** A repeated removal is not durable.  When the removal of the credential went
    through but the sync of its directory failed, the next removal finds no file, reports
    success without syncing, and a loss of power brings the credential back. *)
Theorem replayed_clear_is_not_durable self name f n mode bytes w :
  path_file_name (cs_path self) = Some name -> w_script w = [Works; Fails f n] ->
  w_nodes w !! path_join (cs_directory_guard self) name = Some (File mode bytes true) ->
  exists w1 w2,
    clear self w = (Done (Err (fault_error f)), w1) /\ clear self w1 = (Done (Ok tt), w2)
    /\ exists nodes, power_loss w2 nodes
       /\ nodes !! path_join (cs_directory_guard self) name = Some (File mode bytes true).
Proof.
  intros Hn Hs Hfile. set (t := path_join (cs_directory_guard self) name) in *.
  set (w1 := set_node (set_script w []) t None).
  assert (clear self w = (Done (Err (fault_error f)), w1)) as H1.
  { unfold clear. rewrite Hn. unfold mbind, IO_bind, io, attempt, unlinkat, sync_dir, syscall, syscall_with. simpl. rewrite Hs. simpl.
    fold t. rewrite Hfile. simpl. done. }
  assert (clear self w1 = (Done (Ok tt), w1)) as H2.
  { unfold clear. rewrite Hn. unfold mbind, IO_bind, io, attempt, unlinkat, syscall, syscall_with. simpl. fold t.
    assert (w_nodes w1 !! t = None) as E by apply set_node_eq. simpl in E. by rewrite E. }
  exists w1, w1. split; [done|]. split; [done|].
  exists (<[t := File mode bytes true]> (map_imap (fun p n => match n with File m b false => Some (File m b true) | x => Some x end) (w_nodes w))).
  split; [|apply lookup_insert_eq].
  intros p. destruct (decide (p = t)) as [->|Hne].
  - exists (Some (File mode bytes true)). rewrite lookup_insert_eq. split; [|done]. right. unfold earlier. simpl.
    rewrite lookup_insert_eq. simpl. rewrite Hfile. left.
  - assert (w_nodes w1 !! p = w_nodes w !! p) as Hp by (unfold w1, set_node; simpl; by rewrite lookup_partial_alter_ne).
    exists (w_nodes w1 !! p). rewrite lookup_insert_ne by done. split.
    + left.
    + rewrite Hp, map_lookup_imap. destruct (w_nodes w !! p) as [[m b []| |]|]; simpl; done.
Qed.

(** A failed existence test is taken for absence: the profile is reported as cleared. *)
Lemma failed_stat_keeps_profile dir name f n rest w :
  w_script w = Fails f n :: rest -> clear_profile (path_join dir name) w = (Done (Ok tt), set_script w rest).
Proof. intros Hs. unfold clear_profile, mbind, IO_bind, path_exists, syscall, syscall_with. by rewrite Hs. Qed.
