(* ===== verification/Restart.v ===== *)
(** * Restart: what starting a session does to the local authority *)
From stdpp Require Import gmap.
From Stdlib Require Import Ascii.
From S2P Require Import Prelude Text Core Files Credential Dto Validation Client Failure Profile Journal CredentialStore Durability Recovery Startup Departure.

(** ** The logic of the programs that also talk to the relay *)
Section Swp.
Context {N : Type}.
Definition swp {A} (m : Sess N A) (Q : A -> World * N -> Prop) (E : SessionError -> World * N -> Prop)
    (K : World * N -> Prop) (s : World * N) : Prop :=
  match m s with
  | (SDone (Ok a), s') => Q a s'
  | (SDone (Err e), s') => E e s'
  | (SCrashed, s') => K s'
  end.
Lemma swp_bind {A B} (m : Sess N A) (k : A -> Sess N B) Q E K s :
  swp m (fun a => swp (k a) Q E K) E K s -> swp (m ≫= k) Q E K s.
Proof. unfold swp, mbind, Sess_bind. destruct (m s) as [[[a|e]|] s']; auto. Qed.
Lemma swp_ret {A} (a : A) (Q : A -> World * N -> Prop) E K s : Q a s -> swp (mret a) Q E K s.
Proof. done. Qed.
Lemma swp_fail {A} e (Q : A -> World * N -> Prop) (E : SessionError -> World * N -> Prop) K s : E e s -> swp (s_fail e) Q E K s.
Proof. done. Qed.
Lemma swp_try {A} (r : Result SessionError A) (Q : A -> World * N -> Prop) (E : SessionError -> World * N -> Prop) K s :
  (forall a, r = Ok a -> Q a s) -> (forall e, r = Err e -> E e s) -> swp (s_try r) Q E K s.
Proof. unfold swp, s_try. destruct r; auto. Qed.
Lemma swp_local {A} (m : IO A) (Q : A -> World * N -> Prop) (E : SessionError -> World * N -> Prop) (K : World * N -> Prop) w n :
  wp m (fun a w' => Q a (w', n)) (fun e w' => E (SeLocal e) (w', n)) (fun w' => K (w', n)) w -> swp (local m) Q E K (w, n).
Proof. unfold swp, wp, local. by destruct (m w) as [[[a|e]|] w']. Qed.
Lemma swp_remote {A} (f : N -> Result ClientError A * N) (Q : Result ClientError A -> World * N -> Prop) E K w n :
  Q (f n).1 (w, (f n).2) -> swp (remote f) Q E K (w, n).
Proof. unfold swp, remote. by destruct (f n). Qed.
Lemma swp_mono {A} (m : Sess N A) (Q Q' : A -> World * N -> Prop) (E E' : SessionError -> World * N -> Prop) (K K' : World * N -> Prop) s :
  swp m Q E K s -> (forall a s', Q a s' -> Q' a s') -> (forall e s', E e s' -> E' e s') -> (forall s', K s' -> K' s') -> swp m Q' E' K' s.
Proof. unfold swp. destruct (m s) as [[[a|e]|] s']; auto. Qed.
Lemma swp_any {A} (m : Sess N A) (Q : A -> World * N -> Prop) (E : SessionError -> World * N -> Prop) (K : World * N -> Prop) s :
  (forall a s', Q a s') -> (forall e s', E e s') -> (forall s', K s') -> swp m Q E K s.
Proof. intros HQ HE HK. unfold swp. by destruct (m s) as [[[a|e]|] s']. Qed.
End Swp.

Lemma wp_any {A} (m : IO A) (Q : A -> World -> Prop) (E : IoError -> World -> Prop) (K : World -> Prop) w :
  (forall a w', Q a w') -> (forall e w', E e w') -> (forall w', K w') -> wp m Q E K w.
Proof. intros HQ HE HK. unfold wp. by destruct (m w) as [[[a|e]|] w']. Qed.

(** ** Opening the stores *)
Section Opening.
Context `{Os} `{UrlCrate}.

Lemma wp_quiet {A} (m : IO A) (Q : A -> World -> Prop) (E : IoError -> World -> Prop) (K : World -> Prop) w w1 :
  looks m -> (forall p, kept p w w1) -> (forall a w', (forall p, kept p w w') -> Q a w') ->
  (forall e w', (forall p, kept p w w') -> E e w') -> (forall w', (forall p, kept p w w') -> K w') -> wp m Q E K w1.
Proof.
  intros Hl Hk HQ HE HK.
  eapply wp_mono; [apply (looks_wp m (fun w' => forall p, kept p w w')); [done|intros w' k Hw p; exact (Hw p)|done]|eauto..].
Qed.

Lemma open_store_wp dir name w :
  plain (w_nodes w) dir ->
  let h := path_join dir ("." +:+ name +:+ ".credential-tmp-") in
  wp (CredentialStore_open (path_join dir name))
    (fun store w' => store = {| cs_path := path_join dir name; cs_directory_guard := dir |} /\ except h w w')
    (fun _ => except h w) (except h w) w.
Proof.
  intros Hp h. assert (forall w', (forall p, kept p w w') -> except h w w') as Hq by (intros w' Hk p _; apply Hk).
  unfold CredentialStore_open. rewrite path_parent_join. apply wp_bind, wp_ret, wp_bind.
  apply wp_create_dir_all; [done| |intros; by apply Hq..]. intros k1. apply wp_bind.
  apply (wp_quiet _ _ _ _ w); [apply looks_reject_symlink|done| |auto..]. intros [] w1 Hk1. apply wp_bind.
  apply wp_open_dir; [by apply (kept_plain w)| |intros; by apply Hq..]. intros k2. apply wp_bind.
  apply (wp_quiet _ _ _ _ w); [|done| |auto..].
  { apply looks_bind; [apply looks_syscall|]. intros []; try apply looks_here. destruct (_ && _); apply looks_here. }
  intros [] w2 Hk2. apply wp_bind. unfold recover_temps, credential_temp_prefix. simpl. rewrite path_file_name_join.
  apply wp_bind, wp_ret, wp_bind, wp_attempt.
  assert (forall k, except h w (set_script w2 k)) as Hs by (intros k; by apply Hq).
  apply wp_syscall; [|intros f k; by destruct f; apply wp_raise; apply Hs|done].
  intros k. simpl. fold h.
  assert (except h w (set_node (set_script w2 k) h None)) as Hd
    by (etrans; [apply (Hs k)|]; intros p Hne; by apply kept_set_node).
  destruct (w_nodes w2 !! h) as [[]|]; simpl; try (apply wp_ret, wp_ret; by split); apply Hs.
Qed.

Lemma open_components_wp cur todo w w1 (Q : Path -> World -> Prop) (E : IoError -> World -> Prop) (K : World -> Prop) :
  plain (w_nodes w) (cur ++ todo) -> (forall p, kept p w w1) -> (forall w', (forall p, kept p w w') -> Q (cur ++ todo) w') ->
  (forall e w', (forall p, kept p w w') -> E e w') -> (forall w', (forall p, kept p w w') -> K w') ->
  wp (open_components cur todo) Q E K w1.
Proof.
  revert cur w1. induction todo as [|name rest IH]; intros cur w1 Hp Hk HQ HE HK; simpl.
  { apply wp_ret. rewrite app_nil_r in HQ. by apply HQ. }
  assert (cur ++ name :: rest = path_join cur name ++ rest) as Ea by (unfold path_join; by rewrite <- app_assoc).
  apply wp_bind, (wp_open_dir (path_join cur name)).
  - apply (kept_plain w); [intros k; apply Hk|]. pose proof (plain_take _ _ (S (length cur)) Hp) as Ht.
    rewrite Ea, take_app_length' in Ht by (unfold path_join; rewrite length_app; simpl; lia). done.
  - intros k. apply IH; try done; by rewrite <- Ea.
  - intros f k. by apply HE.
  - intros k. by apply HK.
Qed.

Definition journal_name (name : string) : string := file_stem_of name +:+ ".leave-v1.json".

Lemma open_journal_wp dir name w w1 (Q : LeaveJournalStore -> World -> Prop) (E : IoError -> World -> Prop) (K : World -> Prop) :
  plain (w_nodes w) dir -> (forall p, kept p w w1) ->
  (forall w', (forall p, kept p w w') -> Q {| js_path := path_join dir (journal_name name); js_directory := dir |} w') ->
  (forall e w', (forall p, kept p w w') -> E e w') -> (forall w', (forall p, kept p w w') -> K w') ->
  wp (LeaveJournalStore_open (path_join dir name)) Q E K w1.
Proof.
  intros Hp Hk HQ HE HK. unfold LeaveJournalStore_open, sibling_path, path_file_stem. rewrite path_parent_join, path_file_name_join.
  apply wp_bind, wp_ret. fold (journal_name name). simpl. rewrite path_parent_join. apply wp_bind, wp_ret, wp_bind.
  assert (looks (is_dir dir)) as Hl.
  { intros w2. unfold is_dir. destruct (looks_syscall (fun w => lookup_path w true dir) w2) as [k Ek].
    exists k. rewrite <- Ek. by destruct (syscall _ w2) as [[[[? []]|]|] w3]. }
  apply (wp_quiet _ _ _ _ w); [done|done| |done..]. intros d w2 Hk2. destruct d; simpl; [|apply wp_raise; by apply HE].
  apply wp_bind, (wp_quiet _ _ _ _ w); [|done| |done..].
  { apply looks_bind; [apply looks_attempt, looks_syscall|]. intros [[]|e]; try apply looks_here. case_bool_decide; apply looks_here. }
  intros _ w3 Hk3. apply wp_bind. unfold open_unix_directory_chain.
  destruct (path_file_name dir) as [trusted|] eqn:En; [|apply (wp_bind (io _)), wp_io; [done|intros; by apply HE]].
  assert (exists parent, path_parent dir = Some parent /\ dir = path_join parent trusted) as (parent & -> & Ed).
  { unfold path_file_name in En. apply last_Some in En as [parent ->]. exists parent. split; [|done]. apply path_parent_join. }
  apply wp_bind, wp_ret, wp_bind, wp_ret, wp_bind.
  assert (plain (w_nodes w) parent) as Hpp.
  { pose proof (plain_take _ _ (length parent) Hp) as Ht. rewrite Ed in Ht. unfold path_join in Ht. by rewrite take_app_length' in Ht. }
  apply wp_syscall; [|intros f k; by apply HE|intros k; by apply HK].
  intros k. destruct (plain_lookup (set_script w3 k) true parent) as (uid & mode & ->).
  { apply (kept_plain w); [intros j; by apply Hk3|done]. }
  simpl. apply wp_bind, (wp_open_dir []); [intros j Hj; simpl in Hj; lia| |intros f k'; by apply HE|intros k'; by apply HK].
  intros k'. apply open_components_wp with (w := w); [by rewrite app_nil_l, <- Ed|done| |done..].
  rewrite app_nil_l, <- Ed. intros w4 Hk4. apply wp_bind, (wp_quiet _ _ _ _ w); [|done| |done..].
  { apply looks_bind; [apply looks_syscall|]. intros []; try apply looks_here. destruct (_ || _); apply looks_here. }
  intros _ w5 Hk5. apply wp_bind, (wp_quiet _ _ _ _ w); [|done| |done..].
  { apply looks_bind; [apply looks_open_target|]. intros; apply looks_here. }
  intros _ w6 Hk6. apply wp_ret. by apply HQ.
Qed.
End Opening.

(** ** Reading the journal *)
Section Reading.
Context `{Os} `{UrlCrate} `{Serialize LeaveJournal, !Deserialize LeaveJournal}.

(** When a read succeeds, it gives what the file holds. *)
Lemma journal_load_wp self name binding w w1 (Q : option LeaveJournal -> World -> Prop) (E : IoError -> World -> Prop) (K : World -> Prop) :
  target_name self = Ok name -> (forall p, kept p w w1) ->
  (forall pending w', (forall p, kept p w w') ->
     journal_content binding (w_nodes w !! path_join (js_directory self) name) = Ok pending -> Q pending w') ->
  (forall e w', (forall p, kept p w w') -> E e w') -> (forall w', (forall p, kept p w w') -> K w') ->
  wp (journal_load self binding) Q E K w1.
Proof.
  intros Hn Hk HQ HE HK. set (t := path_join (js_directory self) name) in *.
  assert (forall w2, (forall p, kept p w w2) -> w_nodes w2 !! t = w_nodes w !! t) as Ht by (intros w2 Hk2; apply Hk2).
  unfold journal_load, load_record, open_target. rewrite Hn. apply wp_bind, wp_bind, wp_bind, wp_ret, wp_bind, wp_attempt.
  apply wp_syscall; [|intros f k; rewrite bool_decide_eq_false_2 by (by destruct f); by apply HE|intros k; by apply HK].
  intros k. fold t. simpl. rewrite Ht by done.
  assert (forall p, kept p w (set_script w1 k)) as Hk1 by done. generalize dependent (set_script w1 k). clear w1 k Hk. intros w1 Hk.
  destruct (w_nodes w !! t) as [[mode bytes s| |]|] eqn:Et; simpl.
  - apply wp_bind, wp_syscall; [|intros f k; by apply HE|intros k; by apply HK]. intros k. simpl. rewrite Ht by done. simpl.
    apply wp_bind, wp_bind, wp_syscall; [|intros f k'; by apply HE|intros k'; by apply HK]. intros k'. simpl. rewrite Ht by done. simpl.
    destruct (Z.land mode 511 =? 384) eqn:Em; [|apply wp_raise; by apply HE]. apply wp_ret, wp_ret, wp_bind.
    apply wp_syscall; [|intros f k2; by apply HE|intros k2; by apply HK]. intros k2. simpl. rewrite Ht by done. simpl.
    destruct ((len bytes =? 0) || (MAX_JOURNAL_BYTES <? len bytes)) eqn:El; [apply wp_raise; by apply HE|].
    apply wp_bind, wp_syscall; [|intros f k3; by apply HE|intros k3; by apply HK]. intros k3. simpl. rewrite Ht by done.
    pose proof El as [_ El']%orb_false_iff. rewrite take_bytes_all by (apply Z.ltb_ge in El'; unfold MAX_JOURNAL_BYTES in *; lia).
    rewrite El'. unfold journal_content in HQ. rewrite Em, El in HQ. simpl in HQ.
    apply wp_bind, wp_io; [|intros e _; by apply HE]. intros value Ev. rewrite Ev in HQ. simpl in HQ.
    apply wp_bind, wp_io; [|intros e _; by apply HE]. intros [] Er. rewrite Er in HQ. simpl in HQ. apply wp_ret.
    apply wp_bind, wp_io; [|intros e _; by apply HE]. intros [] Evv. rewrite Evv in HQ. by apply wp_ret, HQ.
  - apply wp_bind, wp_syscall; [|intros f k; by apply HE|intros k; by apply HK]. intros k. simpl. rewrite Ht by done. simpl.
    by apply HE.
  - by apply HE.
  - apply wp_ret, wp_ret. by apply HQ.
Qed.

Lemma looks_credential_load `{HttpHeaders} `{Crypto} `{!Deserialize CredentialRecord} self expected : looks (credential_load self expected).
Proof.
  apply looks_bind; [apply looks_here|]. intros b. apply looks_bind; [apply looks_here|]. intros n.
  apply looks_bind; [apply looks_syscall|]. intros file. apply looks_bind; [apply looks_verify_restricted|]. intros [].
  apply looks_bind; [apply looks_syscall|]. intros meta. simpl. destruct (_ || _); [apply looks_here|].
  apply looks_bind; [apply looks_syscall|]. intros bytes. destruct (_ <? _); apply looks_here.
Qed.
End Reading.

(** ** Starting *)
Section Start.
Context {N : Type} `{SessionTransport N} `{Os} `{UrlCrate} `{HttpHeadersLaws} `{Crypto}.
Context `{SerdeLaws LeaveJournal} `{Serialize CredentialRecord, !Deserialize CredentialRecord}.
Context `{Serialize ProfileBinding, !Deserialize ProfileBinding}.
Variables (spec : RuntimeSpec) (cdir : Path) (cname : string) (pdir : Path) (pname : string).
Abbreviation tc := (path_join cdir cname).
Abbreviation tp := (path_join pdir pname).
Abbreviation tj := (path_join pdir (journal_name pname)).
Abbreviation temp_path := (path_join cdir ("." +:+ cname +:+ ".credential-tmp-")).
Definition the_store : CredentialStore := {| cs_path := tc; cs_directory_guard := cdir |}.
Definition the_journal : LeaveJournalStore := {| js_path := tj; js_directory := pdir |}.

(** The files of the profile, at rest. *)
Record at_rest (w : World) : Prop := {
  ar_credential : pp_credential (rs_paths spec) = tc; ar_metadata : pp_metadata (rs_paths spec) = tp;
  ar_cdir : plain (w_nodes w) cdir; ar_pdir : plain (w_nodes w) pdir; ar_apart : cdir <> pdir;
  ar_name : pname <> journal_name pname; ar_visible : ~ hidden pdir tp;
  ar_c : durable w tc; ar_p : durable w tp; ar_j : durable w tj;
  ar_file : regular (w_nodes w !! tc); ar_profile : regular (w_nodes w !! tp); ar_temp : regular (w_nodes w !! temp_path) }.

Lemma join_apart a b : path_join cdir a = path_join pdir b -> cdir <> pdir -> False.
Proof. unfold path_join. intros [E _]%app_inj_tail. done. Qed.

Lemma above_regular w p q k : plain (w_nodes w) p -> regular (w_nodes w !! q) -> q <> [] -> take k p <> q.
Proof.
  intros Hp Hr Hq E. destruct (Hp (Nat.min k (length p))) as (uid & mode & En).
  { destruct p as [|x p]; [by rewrite take_nil in E|]. destruct k; [done|]. simpl. lia. }
  assert (take (Nat.min k (length p)) p = q) as Eq.
  { rewrite <- E. destruct (Nat.le_gt_cases k (length p)); [by rewrite Nat.min_l|]. rewrite Nat.min_r by lia. by rewrite !take_ge by lia. }
  rewrite Eq in En. by rewrite En in Hr.
Qed.

Lemma at_rest_bound w w1 :
  at_rest w -> except temp_path w w1 ->
  bound the_store pdir pname the_journal cname (journal_name pname) w1
  /\ w_nodes w1 !! tc = w_nodes w !! tc /\ w_nodes w1 !! tp = w_nodes w !! tp /\ w_nodes w1 !! tj = w_nodes w !! tj.
Proof.
  intros [] Hk.
  assert (forall p, p = tc \/ p = tp \/ p = tj -> kept p w w1) as Hk3.
  { intros p Hp. apply Hk. intros ->. destruct Hp as [E|[E|E]]; [|by eapply join_apart..].
    unfold path_join in E. apply app_inj_tail in E as [_ E]. by apply (credential_temp_ne cname). }
  assert (forall p, p = tc \/ p = tp \/ p = tj -> durable w p -> durable w1 p) as Hd.
  { intros p Hp. by apply kept_durable, Hk3. }
  assert (w_nodes w1 !! tp = w_nodes w !! tp) as Etp by (apply Hk3; auto).
  assert (forall d n, path_join d n <> []) as Hne by (intros d n E; unfold path_join in E; by destruct d).
  split; [|split_and!; apply Hk3; auto].
  constructor; simpl; auto; try (intros E; by eapply join_apart).
  - apply path_file_name_join.
  - unfold target_name. simpl. by rewrite path_file_name_join.
  - intros [_ E]%app_inj_tail. done.
  - apply (kept_plain w); [|done]. intros k. apply Hk. by eapply above_regular.
  - by rewrite Etp.
  - intros k. by eapply above_regular.
Qed.

(** What the relay answers to a member that left or whose squad is archived. *)
Definition denied {A} (r : Result ClientError A) : Prop :=
  match r with Err (CeApi _ (ApiNotMember | ApiSquadArchived) _) => True | _ => False end.
Definition first_heartbeat : HeartbeatRequest := {| hbr_availability := AvUnknownDto; hbr_availability_source := SrcUnknownDto |}.

(** A leave is on record, and it was confirmed then or is confirmed now. *)
Definition leave_confirmed (w : World) (n : N) : Prop :=
  exists pending, journal_content (rs_profile spec) (w_nodes w !! tj) = Ok (Some pending)
    /\ (lj_phase pending = Confirmed \/ exists c, denied (st_heartbeat first_heartbeat c n).1).
Definition retained (w w' : World) : Prop :=
  only w' tp (fun x => x = w_nodes w !! tp) /\ only w' tc (fun x => is_Some (w_nodes w !! tc) -> is_Some x).

Lemma rest_retained w w1 : at_rest w -> kept tp w w1 -> kept tc w w1 -> retained w w1.
Proof.
  intros Hr Hp Hc. split; [apply (only_kept w); [done|apply Hr]|].
  apply (only_kept w); [done|]. eapply only_weaken; [apply Hr|]. by intros x ->.
Qed.

Lemma safe_retained w w1 w' bytes :
  at_rest w -> except temp_path w w1 ->
  safe w1 cdir ("." +:+ cname +:+ ".credential-tmp-") cname (w_nodes w1 !! tc) bytes w' -> retained w w'.
Proof.
  intros Hr Hk [Hs Ho]. destruct (at_rest_bound _ _ Hr Hk) as (Hb & Ec & Ep & Ej). rewrite Ec in Ho. split.
  - apply (only_kept w1); [|rewrite <- Ep; apply Hb].
    apply Hs; intros E; eapply join_apart; try done; apply Hr.
  - eapply only_weaken; [exact Ho|]. intros x [-> | ->]; [done|by eauto].
Qed.

(** The authority is retained and the journal is as it was. *)
Definition holding (w w1 : World) : Prop := retained w w1 /\ kept tj w w1.

Lemma except_holding w w1 : at_rest w -> except temp_path w w1 -> holding w w1.
Proof.
  intros Hr Hk. assert (forall a, path_join pdir a <> temp_path) as Hp by (intros a E; eapply join_apart; [by symmetry|apply Hr]).
  split; [|by apply Hk]. apply rest_retained; [done|by apply Hk|]. apply Hk.
  unfold path_join. intros [_ E]%app_inj_tail. by apply (credential_temp_ne cname).
Qed.
Lemma safe_holding w w1 w' bytes :
  at_rest w -> except temp_path w w1 ->
  safe w1 cdir ("." +:+ cname +:+ ".credential-tmp-") cname (w_nodes w1 !! tc) bytes w' -> holding w w'.
Proof.
  intros Hr Hk Hs. split; [by eapply safe_retained|]. etrans; [by apply except_holding|]. destruct Hs as [Hs _].
  apply Hs; intros E; eapply join_apart; try done; apply Hr.
Qed.

Lemma forget_retained pending w w1 n (Q : unit -> World * N -> Prop) (E : SessionError -> World * N -> Prop) (K : World * N -> Prop) :
  at_rest w -> holding w w1 -> (forall w', retained w w' -> Q tt (w', n)) -> (forall e w', retained w w' -> E e (w', n)) ->
  (forall w', retained w w' -> K (w', n)) -> swp (forget_intent pending the_journal) Q E K (w1, n).
Proof.
  intros Hr [Hre Hk] HQ HE HK. unfold forget_intent. destruct (opt_is_some pending); [|by apply swp_ret, HQ].
  assert (forall w', except tj w1 w' -> retained w w') as Hex.
  { intros w' He. destruct Hre as [Hre1 Hre2]. split; (apply (only_kept w1); [apply He|done]).
    - unfold path_join. intros [_ E0]%app_inj_tail. by apply (ar_name _ Hr).
    - intros E0. eapply join_apart; [done|apply Hr]. }
  assert (present pdir (journal_name pname) w1 (w_nodes w !! tj) w1) as Hp by (apply durable_present; [apply Hr|done]).
  apply swp_local. eapply wp_mono; [apply (journal_remove_wp the_journal (journal_name pname) w1); [|exact Hp]|..].
  - unfold target_name. simpl. by rewrite path_file_name_join.
  - intros [] w' [He _]. by apply HQ, Hex.
  - intros e w' [He _]. by apply HE, Hex.
  - intros w' [He _]. by apply HK, Hex.
Qed.

Lemma resume_holding binding squad request c w w1 n (Q : Result ResumeTransactionError Session -> World * N -> Prop)
    (E : SessionError -> World * N -> Prop) (K : World * N -> Prop) :
  at_rest w -> except temp_path w w1 -> (forall r w' n', holding w w' -> Q r (w', n')) -> (forall w' n', holding w w' -> K (w', n')) ->
  swp (resume_transaction the_store binding squad request c) Q E K (w1, n).
Proof.
  intros Hr Hk HQ HK. unfold resume_transaction. apply swp_bind, swp_remote. destruct (st_resume _ _ _ _) as [[session|e] n']; simpl.
  2: { apply swp_ret, HQ. by apply except_holding. }
  destruct (_ || _); [apply swp_ret, HQ; by apply except_holding|]. apply swp_bind, swp_local, wp_attempt.
  destruct (at_rest_bound _ _ Hr Hk) as (Hb & _).
  eapply wp_mono; [apply (credential_store_wp the_store cname (path_file_name_join _ _) w1 w1); [apply Hb|done]|..].
  - intros [] w' (text & _ & Hs & _). apply swp_ret, HQ. by eapply safe_holding.
  - intros e w' [bytes Hs]. apply swp_ret, HQ. by eapply safe_holding.
  - intros w' [bytes Hs]. apply HK. by eapply safe_holding.
Qed.

(** What is common to every start: the stores are opened and the journal is read. *)
Lemma start_wp issuer seam w n (Q : Started -> World * N -> Prop) (E : SessionError -> World * N -> Prop) (K : World * N -> Prop) :
  at_rest w ->
  (forall e w1, except temp_path w w1 -> E (SeLocal e) (w1, n)) -> (forall w1, except temp_path w w1 -> K (w1, n)) ->
  (forall binding pending w1, except temp_path w w1 ->
     journal_content (rs_profile spec) (w_nodes w !! tj) = Ok pending ->
     swp (start_pending spec issuer seam the_store the_journal binding pending) Q E K (w1, n)) ->
  swp (start_locked_with spec issuer seam) Q E K (w, n).
Proof.
  intros Hr HE HK HQ. unfold start_locked_with. rewrite (ar_credential _ Hr), (ar_metadata _ Hr).
  apply swp_bind, swp_local. eapply wp_mono; [apply open_store_wp, Hr|simpl|by auto|by auto].
  intros store w1 [-> Hk]. apply swp_bind, swp_local. fold the_store.
  destruct (at_rest_bound _ _ Hr Hk) as (Hb & Ec & Ep & Ej).
  assert (forall w2, (forall p, kept p w1 w2) -> except temp_path w w2) as Hex by (intros w2 Hk2 p Hp; etrans; [by apply Hk|apply Hk2]).
  apply (open_journal_wp pdir pname w1); [apply Hb|done| |intros; apply HE; by apply Hex|intros; apply HK; by apply Hex].
  intros w2 Hk2. fold the_journal. apply swp_bind, swp_local, wp_io; [|intros e _; apply HE; by apply Hex].
  intros binding _. apply swp_bind, swp_local.
  apply (journal_load_wp the_journal (journal_name pname) _ w1); [|done| |intros; apply HE; by apply Hex|intros; apply HK; by apply Hex].
  { unfold target_name. simpl. by rewrite path_file_name_join. }
  intros pending w3 Hk3 Hj. simpl in Hj. rewrite Ej in Hj. apply HQ; [by apply Hex|done].
Qed.

Lemma start_retained issuer seam w n :
  at_rest w ->
  let fine w' := retained w w' \/ leave_confirmed w n in
  swp (start_locked_with spec issuer seam) (fun _ s => fine s.1) (fun _ s => fine s.1) (fun s => fine s.1) (w, n).
Proof.
  intros Hr fine. assert (forall w1, holding w w1 -> fine w1) as Hh by (intros w1 [? _]; by left).
  assert (forall w1, except temp_path w w1 -> fine w1) as Hx by (intros w1 He; by apply Hh, except_holding).
  apply start_wp; [done|simpl; auto..]. intros binding pending w1 Hk Hj. unfold start_pending. rewrite (ar_metadata _ Hr).
  assert (forall j, pending = Some j -> lj_phase j = Confirmed -> forall w2, fine w2) as Hconf.
  { intros j -> Hc w2. right. exists j. eauto. }
  assert (forall j c, pending = Some j -> denied (st_heartbeat first_heartbeat c n).1 -> forall w2, fine w2) as Hden.
  { intros j c -> Hc w2. right. exists j. eauto. }
  destruct (is_confirmed pending) eqn:Ec.
  { destruct pending as [j|]; [|done]. apply bool_decide_eq_true in Ec. apply swp_bind, swp_local.
    apply wp_any; [intros; apply swp_fail|..]; intros; by eapply Hconf. }
  apply swp_bind, swp_local, (wp_quiet _ _ _ _ w1); [apply looks_credential_load|done| |intros e w2 Hk2; apply Hx; intros p Hp; etrans; [by apply Hk|done]|intros w2 Hk2; apply Hx; intros p Hp; etrans; [by apply Hk|done]].
  intros c w2 Hk2. assert (except temp_path w w2) as He2 by (intros p Hp; etrans; [by apply Hk|done]).
  apply swp_bind, swp_remote. fold first_heartbeat.
  destruct (st_heartbeat first_heartbeat c n) as [[value|e] n1] eqn:Eh; simpl.
  { apply swp_bind, (forget_retained _ w); [done|by apply except_holding| |by left..]. intros w3 Hre. apply swp_ret. by left. }
  destruct e as [| | | | | | |status code rb| | | | |]; try (apply swp_fail; by apply Hx).
  destruct code; try (apply swp_fail; by apply Hx).
  - destruct pending as [j|]; [|apply swp_fail; by apply Hx].
    assert (forall w3, fine w3) as Hf by (intros w3; apply (Hden j c); [done|by rewrite Eh]).
    apply swp_any; intros; apply Hf.
  - destruct pending as [j|]; [|apply swp_fail; by apply Hx].
    assert (forall w3, fine w3) as Hf by (intros w3; apply (Hden j c); [done|by rewrite Eh]).
    apply swp_any; intros; apply Hf.
  - apply swp_bind, (resume_holding _ _ _ _ w); [done|done| |by auto]. intros r w3 n3 Hh3.
    apply swp_bind, swp_try; [|intros; by apply Hh]. intros session _.
    apply swp_bind, (forget_retained _ w); [done|done| |by left..]. intros w4 Hre. apply swp_ret. by left.
Qed.

Lemma start_confirmed issuer seam w n pending :
  at_rest w -> journal_content (rs_profile spec) (w_nodes w !! tj) = Ok (Some pending) -> lj_phase pending = Confirmed ->
  swp (start_locked_with spec issuer seam) (fun _ _ => False)
    (fun e s => s.2 = n /\ (e = SeUnbound -> only s.1 tc (fun x => x = None) /\ only s.1 tj (fun x => x = None)))
    (fun s => s.2 = n) (w, n).
Proof.
  intros Hr Hj Hc. apply start_wp; [done|simpl; done..|]. intros binding pending' w1 Hk Hj'.
  assert (pending' = Some pending) as -> by congruence. unfold start_pending. simpl. rewrite bool_decide_eq_true_2 by done.
  rewrite (ar_metadata _ Hr). destruct (at_rest_bound _ _ Hr Hk) as (Hb & _). apply swp_bind, swp_local.
  eapply wp_mono; [apply (cleanup_wp _ _ _ _ _ _ seam w1 Hb)|simpl; by intros ? w2 (? & ? & _)|done..].
Qed.

(** The leave on record: what reading the journal gives. *)
Definition recorded_leave (w : World) : Exit (option LeaveJournal) :=
  (journal_load the_journal (rs_profile spec) (reboot (w_nodes w))).1.
Lemma recorded_content w : recorded_leave w = Done (journal_content (rs_profile spec) (w_nodes w !! tj)).
Proof.
  unfold recorded_leave. rewrite (journal_load_content the_journal (journal_name pname)); [done|].
  unfold target_name. simpl. by rewrite path_file_name_join.
Qed.

Lemma swp_run {A} (m : Sess N A) Q E K s x s' :
  swp m Q E K s -> m s = (x, s') -> match x with SDone (Ok a) => Q a s' | SDone (Err e) => E e s' | SCrashed => K s' end.
Proof. unfold swp. intros Hs Hm. rewrite Hm in Hs. exact Hs. Qed.

(** C10: starting a session never gives up unconfirmed authority.  Unless the journal
    records a leave that was confirmed, or one that the relay confirms now by denying the
    membership, then whatever the relay answers, whatever fails, wherever the process dies
    and whatever power is lost, a restart finds the profile as it was and a credential if
    there was one. *)
Theorem startup_keeps_unconfirmed_authority issuer seam w n x w' n' :
  at_rest w -> start_locked_with spec issuer seam (w, n) = (x, (w', n')) ->
  (forall pending, recorded_leave w = Done (Ok (Some pending)) ->
     lj_phase pending = Intent /\ forall c, ~ denied (st_heartbeat first_heartbeat c n).1) ->
  forall nodes, found w' nodes ->
  nodes !! tp = w_nodes w !! tp /\ (is_Some (w_nodes w !! tc) -> is_Some (nodes !! tc)).
Proof.
  intros Hr Hs Hun nodes Hf. pose proof (swp_run _ _ _ _ _ _ _ (start_retained issuer seam w n Hr) Hs) as Hfin.
  assert (retained w w' \/ leave_confirmed w n) as [[Hp Hc]|(pending & Hj & Hcase)] by (by destruct x as [[a|e]|]).
  - split; [exact (only_found _ _ _ _ Hp Hf)|exact (only_found _ _ _ _ Hc Hf)].
  - exfalso. destruct (Hun pending) as [Hi Hd]; [by rewrite recorded_content, Hj|].
    destruct Hcase as [Hc|[c Hc]]; [congruence|by apply (Hd c)].
Qed.

End Start.
