(* ===== verification/Leaving.v ===== *)
(** * Leaving: the supervisor of a running session (psst-application/src/session.rs)

    The tasks of a session share a supervisor.  An operation runs on the file system and on
    a [Run]: the network, the supervisor, and what the other tasks do whenever the operation
    waits, one function for each wait. *)
From stdpp Require Import gmap.
From S2P Require Import Prelude Text Core Files Credential Dto Validation Client Failure Profile Journal CredentialStore Ledger Startup.

Inductive LifecycleState : Set := LsStarting | LsReady | LsLeaving | LsLeft | LsRecovering | LsRotationFailed | LsOutcomeUnknown.
#[global] Instance LifecycleState_eq_dec : EqDecision LifecycleState.
Proof. solve_decision. Defined.

(** The parts of a [SupervisorState] that never change. *)
Record Bindings : Set := {
  bi_profile : ProfileBinding; bi_binding : CredentialBinding; bi_squad_name : string; bi_store : CredentialStore;
  bi_metadata_path : Path; bi_journal : LeaveJournalStore; bi_journal_issuer : JournalIssuer; bi_cleanup_seam : CleanupSeam;
  bi_mode : AgentModeDto; bi_client_metadata : ClientMetadata }.

(** The others.  A cancellation token is whether it was cancelled; [sv_task] is whether the
    scheduler's handle is still there. *)
Record Supervisor : Set := {
  sv_shared : Shared; sv_lifecycle : LifecycleState; sv_sends : SendLedger; sv_reports : ReportTracker;
  sv_shutdown_requested : bool; sv_cancel : bool; sv_operation_cancel : bool; sv_read_cancel : bool; sv_task : bool;
  sv_profile_lock : bool }.

Definition set_shared (s : Supervisor) (x : Shared) : Supervisor :=
  {| sv_shared := x; sv_lifecycle := sv_lifecycle s; sv_sends := sv_sends s; sv_reports := sv_reports s;
     sv_shutdown_requested := sv_shutdown_requested s; sv_cancel := sv_cancel s; sv_operation_cancel := sv_operation_cancel s;
     sv_read_cancel := sv_read_cancel s; sv_task := sv_task s; sv_profile_lock := sv_profile_lock s |}.
Definition set_lifecycle (s : Supervisor) (x : LifecycleState) : Supervisor :=
  {| sv_shared := sv_shared s; sv_lifecycle := x; sv_sends := sv_sends s; sv_reports := sv_reports s;
     sv_shutdown_requested := sv_shutdown_requested s; sv_cancel := sv_cancel s; sv_operation_cancel := sv_operation_cancel s;
     sv_read_cancel := sv_read_cancel s; sv_task := sv_task s; sv_profile_lock := sv_profile_lock s |}.
Definition set_sends (s : Supervisor) (x : SendLedger) : Supervisor :=
  {| sv_shared := sv_shared s; sv_lifecycle := sv_lifecycle s; sv_sends := x; sv_reports := sv_reports s;
     sv_shutdown_requested := sv_shutdown_requested s; sv_cancel := sv_cancel s; sv_operation_cancel := sv_operation_cancel s;
     sv_read_cancel := sv_read_cancel s; sv_task := sv_task s; sv_profile_lock := sv_profile_lock s |}.
Definition set_reports (s : Supervisor) (x : ReportTracker) : Supervisor :=
  {| sv_shared := sv_shared s; sv_lifecycle := sv_lifecycle s; sv_sends := sv_sends s; sv_reports := x;
     sv_shutdown_requested := sv_shutdown_requested s; sv_cancel := sv_cancel s; sv_operation_cancel := sv_operation_cancel s;
     sv_read_cancel := sv_read_cancel s; sv_task := sv_task s; sv_profile_lock := sv_profile_lock s |}.
Definition set_read_cancel (s : Supervisor) (x : bool) : Supervisor :=
  {| sv_shared := sv_shared s; sv_lifecycle := sv_lifecycle s; sv_sends := sv_sends s; sv_reports := sv_reports s;
     sv_shutdown_requested := sv_shutdown_requested s; sv_cancel := sv_cancel s; sv_operation_cancel := sv_operation_cancel s;
     sv_read_cancel := x; sv_task := sv_task s; sv_profile_lock := sv_profile_lock s |}.
Definition set_cancels (s : Supervisor) (shutdown_requested cancel operation_cancel task profile_lock : bool) : Supervisor :=
  {| sv_shared := sv_shared s; sv_lifecycle := sv_lifecycle s; sv_sends := sv_sends s; sv_reports := sv_reports s;
     sv_shutdown_requested := shutdown_requested; sv_cancel := cancel; sv_operation_cancel := operation_cancel;
     sv_read_cancel := sv_read_cancel s; sv_task := task; sv_profile_lock := profile_lock |}.
Definition set_health (s : Supervisor) (health : SessionHealth) : Supervisor :=
  let x := sv_shared s in
  set_shared s {| sh_credential := sh_credential x; sh_instance_id := sh_instance_id x;
                  sh_heartbeat_interval_seconds := sh_heartbeat_interval_seconds x; sh_lease_expires_at := sh_lease_expires_at x;
                  sh_availability := sh_availability x; sh_availability_source := sh_availability_source x;
                  sh_health := health; sh_generation := sh_generation x |}.

(** What the tasks share: the files, the network and the supervisor. *)
Definition Scene (N : Type) : Type := World * N * Supervisor.
Record Run (N : Type) : Type := {
  rn_net : N; rn_sup : Supervisor;
  (** What the other tasks do during each wait, and the outcomes of races. *)
  rn_others : list (Scene N -> Scene N); rn_choices : list bool }.
Arguments rn_net {N} r.
Arguments rn_sup {N} r.
Arguments rn_others {N} r.
Arguments rn_choices {N} r.

Section Supervised.
Context {N : Type} `{SessionTransport N} `{Os} `{UrlCrate} `{HttpHeaders} `{Crypto}.
Context `{Serialize LeaveJournal, !Deserialize LeaveJournal}.
Context `{Serialize CredentialRecord, !Deserialize CredentialRecord}.
Variable b : Bindings.

Abbreviation Op := (Sess (Run N)).

Definition with_sup (r : Run N) (s : Supervisor) : Run N :=
  {| rn_net := rn_net r; rn_sup := s; rn_others := rn_others r; rn_choices := rn_choices r |}.
Definition with_net (r : Run N) (n : N) : Run N :=
  {| rn_net := n; rn_sup := rn_sup r; rn_others := rn_others r; rn_choices := rn_choices r |}.
Definition get : Op Supervisor := fun '(w, r) => (SDone (Ok (rn_sup r)), (w, r)).
Definition modify (f : Supervisor -> Supervisor) : Op unit := fun '(w, r) => (SDone (Ok tt), (w, with_sup r (f (rn_sup r)))).
(** A wait: for a gate, a lock, a notification or an answer. *)
Definition wait : Op unit := fun '(w, r) =>
  match rn_others r with
  | [] => (SDone (Ok tt), (w, r))
  | f :: rest =>
      let '(w', n', s') := f (w, rn_net r, rn_sup r) in
      (SDone (Ok tt), (w', {| rn_net := n'; rn_sup := s'; rn_others := rest; rn_choices := rn_choices r |}))
  end.
(** The outcome of a race: of a task against a deadline, of an answer against a
    cancellation. *)
Definition choose : Op bool := fun '(w, r) =>
  match rn_choices r with
  | [] => (SDone (Ok false), (w, r))
  | x :: rest => (SDone (Ok x), (w, {| rn_net := rn_net r; rn_sup := rn_sup r; rn_others := rn_others r; rn_choices := rest |}))
  end.
(** A call of the transport: the request goes out, the others run, the answer comes. *)
Definition call {A} (f : N -> Result ClientError A * N) : Op (Result ClientError A) := fun '(w, r) =>
  let '(a, n) := f (rn_net r) in (SDone (Ok a), (w, with_net r n)).
Definition exchange {A} (f : N -> Result ClientError A * N) : Op (Result ClientError A) :=
  a ← call f; _ ← wait; mret a.

(** [lock.read().await] and [*lock.write().await = ..]. *)
Definition read : Op Supervisor := _ ← wait; get.
Definition write (f : Supervisor -> Supervisor) : Op unit := _ ← wait; modify f.
(** Publishing a health and a lifecycle. *)
Definition publish (health : SessionHealth) (lifecycle : LifecycleState) : Op unit :=
  _ ← write (fun s => set_health s health);
  write (fun s => set_lifecycle s lifecycle).

(** ** Draining *)

(** [ReportTracker::drain]: within the bound, until no report is active. *)
Definition drain_reports : Op unit :=
  s ← get;
  if rt_active (sv_reports s) =? 0 then mret tt
  else
    s ← read;
    if rt_active (sv_reports s) =? 0 then mret tt else s_fail SeShutdownTimedOut.
(** [SendLedger::stop_and_drain]. *)
Definition stop_and_drain : Op unit :=
  _ ← modify (fun s => set_sends s (stop_admission (sv_sends s)));
  _ ← write (fun s => set_sends s (stop_accepting (sv_sends s)));
  s ← get;
  if drained (sv_sends s) then mret tt
  else
    s ← read;
    if drained (sv_sends s) then mret tt else s_fail SeShutdownTimedOut.

(** The result of a program as a value, for [if let Err(error)]. *)
Definition outcome {A} (m : Op A) : Op (Result SessionError A) := fun s =>
  match m s with (SDone r, s') => (SDone (Ok r), s') | (SCrashed, s') => (SCrashed, s') end.

(** ** Leaving *)
Definition cleanup : IO unit :=
  cleanup_confirmed_leave (bi_store b) (bi_metadata_path b) (bi_journal b) (bi_cleanup_seam b).

Definition begin_leave : Op unit :=
  s ← read;
  match sv_lifecycle s with
  | LsReady => modify (fun s => set_lifecycle (set_read_cancel s true) LsLeaving)
  | LsLeft => _ ← local cleanup; s_fail SeUnbound
  | _ => s_fail SeNotReady
  end.

Definition rollback_leave : Op unit :=
  s ← get;
  if sv_shutdown_requested s then mret tt
  else
    _ ← modify (fun s => set_read_cancel s false);
    _ ← write (fun s => set_sends s (reopen_admission (sv_sends s)));
    _ ← modify (fun s => set_reports s (ReportTracker_reopen (sv_reports s)));
    s ← get;
    if sv_shutdown_requested s then mret tt
    else write (fun s => set_lifecycle s LsReady).

Definition unknown {A} (error : SessionError) : Op A :=
  _ ← publish HealthOutcomeUnknown LsOutcomeUnknown;
  s_fail error.

(** [take_scheduler], and waiting for the scheduler within the bound. *)
Definition join_scheduler : Op unit :=
  s ← get;
  _ ← modify (fun s => set_cancels s (sv_shutdown_requested s) (sv_cancel s) (sv_operation_cancel s) false (sv_profile_lock s));
  if sv_task s then
    _ ← wait;
    late ← choose;
    if late : bool then s_fail SeShutdownTimedOut else mret tt
  else mret tt.

(** After the relay confirmed: the confirmation is stored and the authority removed. *)
Definition finish_leave (pending : LeaveJournal) (response : Result ClientError LeaveSquadResponse) : Op LeaveSquadResponse :=
  match issue_confirm (bi_journal_issuer b) pending with
  | Err error => unknown (SeLocal error)
  | Ok confirmed =>
      stored ← local_result (journal_store (bi_journal b) confirmed);
      match stored with
      | Err error => unknown (SeLocal error)
      | Ok _ =>
          _ ← modify (fun s => set_cancels s (sv_shutdown_requested s) true true (sv_task s) (sv_profile_lock s));
          cleanup ← local_result cleanup;
          _ ← publish HealthStopped LsLeft;
          _ ← join_scheduler;
          _ ← s_try (map_err SeLocal cleanup);
          s_try (map_err SeRelay response)
      end
  end.

(** What the relay's answer is followed by. *)
Definition settle_leave (intent : LeaveJournal) (reply : Result ClientError LeaveSquadResponse) : Op LeaveSquadResponse :=
  match reply with
  | Ok response =>
      if bool_decide (lsr_membership_id response = cb_member_id (bi_binding b)) then finish_leave intent (Ok response)
      else unknown (SeRelay (CeMalformedResponse 200))
  | Err (CeApi _ (ApiNotMember | ApiSquadArchived) _ as error) => finish_leave intent (Err error)
  | Err (CeApi _ _ _ as error) =>
      removed ← local_result (journal_remove (bi_journal b));
      match removed with
      | Err error => unknown (SeLocal error)
      | Ok _ => _ ← rollback_leave; s_fail (SeRelay error)
      end
  | Err error => unknown (SeRelay error)
  end.

(** With the gates held and nothing in flight: the intent is stored, the relay asked. *)
Definition ask_relay : Op LeaveSquadResponse :=
  s ← read;
  let credential := sh_credential (sv_shared s) in
  match issue_intent (bi_journal_issuer b) (bi_profile b) with
  | Err error => _ ← rollback_leave; s_fail (SeLocal error)
  | Ok intent =>
      stored ← local_result (journal_store (bi_journal b) intent);
      match stored with
      | Err error => _ ← rollback_leave; s_fail (SeLocal error)
      | Ok _ =>
          reply ← exchange (st_leave (bi_squad_name b) credential);
          settle_leave intent reply
      end
  end.

Definition reopen_reports : Op unit :=
  s ← get;
  if sv_shutdown_requested s then mret tt
  else
    s ← read;
    if bool_decide (sv_lifecycle s = LsReady) then modify (fun s => set_reports s (ReportTracker_reopen (sv_reports s)))
    else mret tt.

(** The transaction [leave] spawns: the operation gate, the reports, the sends, the
    heartbeat gate. *)
Definition session_leave : Op LeaveSquadResponse :=
  _ ← wait;
  _ ← modify (fun s => set_reports s (ReportTracker_cancel (sv_reports s)));
  reports ← outcome drain_reports;
  match reports with
  | Err error => _ ← reopen_reports; s_fail error
  | Ok _ =>
      _ ← begin_leave;
      sends ← outcome stop_and_drain;
      match sends with
      | Err error => _ ← rollback_leave; s_fail error
      | Ok _ => _ ← wait; ask_relay
      end
  end.
End Supervised.
