(* ===== verification/Farewell.v ===== *)
(** * Farewell: leaving a squad from a running session

    The other tasks are assumed to keep to the protocol of the gates ([polite]); then, at any
    failure, crash and loss of power, the local authority is given up only after the relay
    confirmed the leave, and what the relay may have done is on record. *)
From stdpp Require Import gmap.
From S2P Require Import Prelude Text Core Files Credential Dto Validation Client Failure Profile Journal CredentialStore Durability Recovery Ledger Startup Departure Restart Leaving.

(** ** Issuing journal records *)
Record lawful `{UrlCrate} (issuer : JournalIssuer) (profile : ProfileBinding) : Prop := {
  il_intent : forall j, issue_intent issuer profile = Ok j -> LeaveJournal_validate j profile = Ok tt;
  il_confirm : forall j c, issue_confirm issuer j = Ok c ->
    lj_phase c = Confirmed
    /\ (LeaveJournal_validate j profile = Ok tt -> validate_record c = Ok tt -> LeaveJournal_validate c profile = Ok tt) }.

(** The system's issuer keeps the law, whatever its randomness and whenever it is asked. *)
Lemma system_issuer_lawful `{UrlCrate} random nanos nanos' profile :
  lawful {| issue_intent := issue_intent (SystemJournalIssuer random nanos);
            issue_confirm := issue_confirm (SystemJournalIssuer random nanos') |} profile.
Proof.
  split; simpl.
  - intros j. unfold mbind, result_bind, intent. destruct random as [bytes|]; [|done]. destruct (system_now nanos); [|done].
    set (value := {| lj_version := _ |}). unfold mbind, result_bind. destruct (LeaveJournal_validate value profile) as [[]|] eqn:Ev; [|done].
    by intros [= <-].
  - intros j c. unfold mbind, result_bind, confirmed. destruct (system_now nanos'); [|done]. case_bool_decide; [done|].
    intros [= <-]. split; [done|]. unfold LeaveJournal_validate, mbind, result_bind. simpl.
    destruct (map_err _ _); [|done]. destruct (validate_record j); [|done]. by intros Hj ->.
Qed.

Section Farewell.
Context {N : Type} `{SessionTransport N} `{Os} `{UrlCrate} `{HttpHeaders} `{Crypto}.
Context `{Hcodec : SerdeLaws LeaveJournal} `{Serialize CredentialRecord, !Deserialize CredentialRecord}.
Variables (b : Bindings) (pname cname jname : string).
(** The relay has not been asked to leave. *)
Variable quiet : N -> Prop.
Abbreviation dir := (js_directory (bi_journal b)).
Abbreviation tc := (path_join (cs_directory_guard (bi_store b)) cname).
Abbreviation tp := (path_join dir pname).
Abbreviation tj := (path_join dir jname).
Implicit Types (w : World) (n : N) (r : Run N).

(** ** What the other tasks may do *)
Definition settling (s : Supervisor) : Prop := sv_lifecycle s = LsLeaving \/ sv_lifecycle s = LsLeft.
(** The profile, the journal and the directories are left alone. *)
Definition respects (w w' : World) : Prop := kept tp w w' /\ kept tj w w' /\ forall k, kept (take k dir) w w'.
Definition still (w w' : World) : Prop := respects w w' /\ kept tc w w'.

(** What the credential can be only grows by new credentials. *)
Definition rotates (w w' : World) : Prop :=
  forall S : option Node -> Prop, (forall node, S (Some node)) -> only w tc S -> only w' tc S.
(** A session that is ready has its credential durably stored. *)
Definition sound (w : World) (s : Supervisor) : Prop := sv_lifecycle s = LsReady -> durable w tc.

(** Only while no leave is under way may the credential be rotated, and nobody else
    begins to leave, or asks the relay to. *)
Definition polite (f : Scene N -> Scene N) : Prop := forall w n s w' n' s',
  f (w, n, s) = (w', n', s') -> sound w s ->
  respects w w' /\ (quiet n -> quiet n')
  /\ (settling s -> kept tc w w' /\ sv_lifecycle s' = sv_lifecycle s)
  /\ (~ settling s -> rotates w w' /\ sound w' s' /\ ~ settling s').
Lemma settling_sound w s : settling s -> sound w s.
Proof. intros [E|E] Hr; congruence. Qed.

(** ** Worlds *)
Lemma respects_trans w1 w2 w3 : respects w1 w2 -> respects w2 w3 -> respects w1 w3.
Proof. intros (Hp & Hj & Hd) (Hp' & Hj' & Hd'). split; [by etrans|]. split; [by etrans|]. intros k. etrans; [apply Hd|apply Hd']. Qed.

(** The files of the session, at rest. *)
Record leavable (w : World) : Prop := {
  lv_bound : bound (bi_store b) dir pname (bi_journal b) cname jname w;
  lv_metadata : bi_metadata_path b = tp; lv_c : ~ hidden dir tc; lv_p : ~ hidden dir tp }.

Lemma leavable_respects w w' : leavable w -> respects w w' -> durable w' tc -> leavable w'.
Proof.
  intros [Hb ? ? ?] (Hp & Hj & Hd) Hc. split; [|done..]. destruct Hb. split; try done.
  - by apply (kept_durable w).
  - by apply (kept_durable w).
  - by apply (kept_plain w).
  - destruct Hp as [-> _]. done.
Qed.
Lemma leavable_still w w' : leavable w -> still w w' -> leavable w'.
Proof. intros Hl [Hr Hc]. eapply leavable_respects; [done..|]. apply (kept_durable w); [done|apply Hl]. Qed.
(** Around the journal, the store is still. *)
Lemma around_leavable w w' :
  leavable w -> (forall p, p <> tj -> ~ hidden dir p -> kept p w w') -> durable w' tj -> leavable w'.
Proof.
  intros Hl Ha Hj. pose proof (lv_bound _ Hl) as [].
  assert (kept tc w w' /\ kept tp w w') as [Hc Hp] by (split; (apply Ha; [done|apply Hl])).
  destruct Hl as [_ ? ? ?]. split; [|done..]. split; try done; try (by apply (kept_durable w)).
  - apply (kept_plain w); [|done]. intros k. apply Ha; [|intros [x E]]; [intros E|]; apply (f_equal length) in E; unfold path_join in E;
      rewrite length_app, length_take in E; simpl in E; lia.
  - destruct Hp as [-> _]. done.
Qed.

Section From.
Variable w0 : World.
(** The authority of [w0], for good. *)
Definition held (w : World) : Prop :=
  only w tp (fun x => x = w_nodes w0 !! tp) /\ only w tc (fun x => is_Some (w_nodes w0 !! tc) -> is_Some x).
Definition good (w : World) : Prop :=
  leavable w /\ w_nodes w !! tp = w_nodes w0 !! tp /\ (is_Some (w_nodes w0 !! tc) -> is_Some (w_nodes w !! tc)).
Definition readable (x : option Node) : Prop := exists j, journal_content (bi_profile b) x = Ok (Some j).
Definition confirmation (x : option Node) : Prop :=
  exists j, journal_content (bi_profile b) x = Ok (Some j) /\ lj_phase j = Confirmed.

Lemma good_held w : good w -> held w.
Proof.
  intros (Hl & Hp & Hc). pose proof (lv_bound _ Hl) as []. split.
  - rewrite <- Hp. done.
  - eapply only_weaken; [exact bd_c|]. by intros x ->.
Qed.
Lemma good_still w w' : still w w' -> good w -> good w'.
Proof.
  intros Hs (Hl & Hp & Hc). split; [by eapply leavable_still|]. destruct Hs as [([Ep _] & _) [Ec _]]. by rewrite Ep, Ec.
Qed.
Lemma held_kept w w' : kept tp w w' -> kept tc w w' -> held w -> held w'.
Proof. intros Hp Hc [Ha Hb]. split; [by apply (only_kept w)|by apply (only_kept w)]. Qed.
Lemma around_good w w' :
  good w -> (forall p, p <> tj -> ~ hidden dir p -> kept p w w') -> durable w' tj -> good w'.
Proof.
  intros (Hl & Hp & Hc) Ha Hj. split; [by eapply around_leavable|]. pose proof (lv_bound _ Hl) as [].
  destruct (Ha tc) as [Ec _]; [done|apply Hl|]. destruct (Ha tp) as [Ep _]; [done|apply Hl|]. by rewrite Ep, Ec.
Qed.
Lemma around_held w w' : good w -> (forall p, p <> tj -> ~ hidden dir p -> kept p w w') -> held w'.
Proof.
  intros Hg Ha. pose proof (good_held _ Hg) as Hh. destruct Hg as (Hl & _). pose proof (lv_bound _ Hl) as [].
  apply (held_kept w); [apply Ha; [done|apply Hl]..|done].
Qed.

(** ** Waiting while leaving *)
Definition stable (P : World -> N -> Prop) : Prop :=
  forall w w' n n', still w w' -> (quiet n -> quiet n') -> P w n -> P w' n'.
Definition during (P : World -> N -> Prop) (s : World * Run N) : Prop :=
  Forall polite (rn_others s.2) /\ settling (rn_sup s.2) /\ P s.1 (rn_net s.2).

Lemma during_intro P w r : Forall polite (rn_others r) -> settling (rn_sup r) -> P w (rn_net r) -> during P (w, r).
Proof. done. Qed.

Section Waiting.
Variable P : World -> N -> Prop.
Hypothesis HP : stable P.
Implicit Types (E : SessionError -> World * Run N -> Prop) (K : World * Run N -> Prop).

Lemma swp_get (Q : Supervisor -> World * Run N -> Prop) E K s : Q (rn_sup s.2) s -> swp get Q E K s.
Proof. by destruct s. Qed.
Lemma swp_modify f (Q : unit -> World * Run N -> Prop) E K s :
  during P s -> (forall x, settling x -> settling (f x)) -> (forall s', during P s' -> Q tt s') -> swp (modify f) Q E K s.
Proof. destruct s as [w r]. intros (Ho & Hs & Hp) Hf HQ. apply HQ. repeat split; simpl; auto. Qed.
Lemma swp_wait (Q : unit -> World * Run N -> Prop) E K s :
  during P s -> (forall s', during P s' -> Q tt s') -> swp wait Q E K s.
Proof using HP.
  destruct s as [w r]. intros (Ho & Hs & Hp) HQ. unfold swp, wait. simpl in *. destruct (rn_others r) as [|f rest] eqn:Er.
  - apply HQ. repeat split; simpl; try done. by rewrite Er.
  - apply Forall_cons in Ho as [Hf Ho]. destruct (f _) as [[w' n'] s'] eqn:Ef. destruct (Hf _ _ _ _ _ _ Ef) as (Hr & Hq & Hset & _); [by apply settling_sound|].
    destruct (Hset Hs) as [Hc Hl]. apply HQ. repeat split; simpl; try done.
    + unfold settling in *. by rewrite Hl.
    + by eapply HP.
Qed.
Lemma swp_write f (Q : unit -> World * Run N -> Prop) E K s :
  during P s -> (forall x, settling x -> settling (f x)) -> (forall s', during P s' -> Q tt s') -> swp (write f) Q E K s.
Proof using HP. intros Hd Hf HQ. apply swp_bind, swp_wait; [done|]. intros s' Hd'. by apply swp_modify. Qed.
(** The last write of an operation may end the leave. *)
Lemma swp_write_last f (Q : unit -> World * Run N -> Prop) E K s :
  during P s -> (forall w r, P w (rn_net r) -> Q tt (w, r)) -> swp (write f) Q E K s.
Proof using HP.
  intros Hd HQ. apply swp_bind, swp_wait; [done|]. intros [w r] (_ & _ & Hp). by apply HQ.
Qed.

Lemma rollback_wp (Q : unit -> World * Run N -> Prop) E K s :
  during P s -> (forall w r, P w (rn_net r) -> Q tt (w, r)) -> swp rollback_leave Q E K s.
Proof using HP.
  intros Hd HQ. assert (forall s', during P s' -> Q tt s') as HQ' by (intros [w r] (_ & _ & Hp); by apply HQ).
  unfold rollback_leave. apply swp_bind, swp_get. destruct (sv_shutdown_requested _); [by apply swp_ret, HQ'|].
  apply swp_bind, swp_modify; [done..|]. intros s1 Hd1. apply swp_bind, swp_write; [done..|]. intros s2 Hd2.
  apply swp_bind, swp_modify; [done..|]. intros s3 Hd3. apply swp_bind, swp_get.
  destruct (sv_shutdown_requested _); [by apply swp_ret, HQ'|]. by apply swp_write_last.
Qed.
Lemma publish_wp health lifecycle (Q : unit -> World * Run N -> Prop) E K s :
  during P s -> (forall w r, P w (rn_net r) -> Q tt (w, r)) -> swp (publish health lifecycle) Q E K s.
Proof using HP. intros Hd HQ. apply swp_bind, swp_write; [done..|]. intros s1 Hd1. by apply swp_write_last. Qed.
Lemma unknown_wp {A} error (Q : A -> World * Run N -> Prop) E K s :
  during P s -> (forall w r, P w (rn_net r) -> E error (w, r)) -> swp (unknown error) Q E K s.
Proof using HP. intros Hd HE. apply swp_bind, publish_wp; [done|]. intros. by apply swp_fail, HE. Qed.
End Waiting.

(** A file operation while leaving. *)
Lemma swp_local_result {A} (m : IO A) P (Q : Result IoError A -> World * Run N -> Prop) E (K : World * Run N -> Prop) s :
  during P s ->
  wp m (fun a w' => forall r, Forall polite (rn_others r) -> settling (rn_sup r) -> rn_net r = rn_net s.2 -> Q (Ok a) (w', r))
    (fun e w' => forall r, Forall polite (rn_others r) -> settling (rn_sup r) -> rn_net r = rn_net s.2 -> Q (Err e) (w', r))
    (fun w' => K (w', s.2)) s.1 ->
  swp (local_result m) Q E K s.
Proof.
  destruct s as [w r]. intros (Ho & Hs & _) Hw. apply swp_local, wp_attempt. eapply wp_mono; [exact Hw|simpl; auto..].
Qed.
Lemma swp_choose P (Q : bool -> World * Run N -> Prop) E K s :
  during P s -> (forall x s', during P s' -> Q x s') -> swp choose Q E K s.
Proof.
  destruct s as [w r]. intros (Ho & Hs & Hp) HQ. unfold swp, choose. destruct (rn_choices r); apply HQ; by repeat split.
Qed.
Lemma join_scheduler_wp P (Q : unit -> World * Run N -> Prop) E K s :
  stable P -> during P s -> (forall s', during P s' -> Q tt s') -> (forall s', during P s' -> E SeShutdownTimedOut s') ->
  swp join_scheduler Q E K s.
Proof.
  intros HP Hd HQ HE. unfold join_scheduler. apply swp_bind, swp_get, swp_bind, (swp_modify P); [done..|]. intros s1 Hd1.
  destruct (sv_task _); [|by apply swp_ret, HQ]. apply swp_bind, (swp_wait P HP); [done|]. intros s2 Hd2.
  apply swp_bind, (swp_choose P); [done|]. intros [] s3 Hd3; [by apply swp_fail, HE|by apply swp_ret, HQ].
Qed.

(** ** After the relay answered *)
Hypothesis Hissuer : lawful (bi_journal_issuer b) (bi_profile b).
Hypothesis Hmask : Z.ldiff 384 umask = 384.

(** The intent is on record, and nothing else has changed. *)
Definition asked (j : LeaveJournal) (w : World) : Prop :=
  good w /\ journal_content (bi_profile b) (w_nodes w !! tj) = Ok (Some j) /\ LeaveJournal_validate j (bi_profile b) = Ok tt.
(** The leave is on record, with the authority or confirmed, or the credential is gone. *)
Definition granted (w : World) : Prop :=
  held w /\ only w tj readable \/ only w tj confirmation \/ only w tc (fun x => x = None).
Definition cleared (w : World) : Prop := only w tc (fun x => x = None) /\ only w tj (fun x => x = None).

Lemma stable_world (S : World -> Prop) : (forall w w', still w w' -> S w -> S w') -> stable (fun w _ => S w).
Proof. intros HS w w' n n' Hs _. by apply HS. Qed.
Lemma stable_asked j : stable (fun w _ => asked j w).
Proof.
  apply stable_world. intros w w' Hs (Hg & Hj & Hv). split; [by eapply good_still|]. destruct Hs as [(_ & [Ej _] & _) _]. by rewrite Ej.
Qed.
Lemma held_still w w' : still w w' -> held w -> held w'.
Proof. intros [(Hp & _) Hc]. by apply held_kept. Qed.
Lemma only_still w w' S : still w w' -> only w tj S -> only w' tj S.
Proof. intros [(_ & Hj & _) _]. by apply only_kept. Qed.
Lemma granted_still w w' : still w w' -> granted w -> granted w'.
Proof.
  intros Hs [[Hh Hj]|[Hj|Hc]]; [left|right; left|right; right].
  - split; [by eapply held_still|by eapply only_still].
  - by eapply only_still.
  - destruct Hs as [_ Hk]. by apply (only_kept w).
Qed.
Lemma cleared_still w w' : still w w' -> cleared w -> cleared w'.
Proof. intros Hs [Hc Hj]. split; [destruct Hs as [_ Hk]; by apply (only_kept w)|by eapply only_still]. Qed.
Lemma asked_recorded j w : asked j w -> held w /\ only w tj readable.
Proof.
  intros (Hg & Hj & _). split; [by apply good_held|]. destruct Hg as (Hl & _). pose proof (lv_bound _ Hl) as [].
  eapply only_weaken; [exact bd_j|]. intros x ->. by exists j.
Qed.

(** Removing the authority. *)
Lemma cleanup_granted w :
  good w -> confirmation (w_nodes w !! tj) ->
  wp (cleanup b) (fun _ w' => granted w' /\ cleared w') (fun _ => granted) granted w.
Proof.
  intros (Hl & _) Hc. unfold cleanup. rewrite (lv_metadata _ Hl).
  assert (forall w', accounted (bi_store b) dir pname (bi_journal b) cname jname w w' -> granted w') as Ha.
  { intros w' [Hj|[Hg _]]; right; [left|by right]. eapply only_weaken; [exact Hj|]. by intros x ->. }
  eapply wp_mono; [apply (cleanup_wp _ _ _ _ _ _ (bi_cleanup_seam b) w (lv_bound _ Hl))|simpl; auto..].
  intros _ w' (Hcc & Hjj & _). split; [by right; right|by split].
Qed.

Lemma finish_wp pending response s :
  during (fun w _ => asked pending w) s ->
  swp (finish_leave b pending response) (fun _ s' => granted s'.1 /\ cleared s'.1) (fun _ s' => granted s'.1)
    (fun s' => granted s'.1) s.
Proof using Hcodec Hissuer Hmask.
  intros Hd. unfold finish_leave.
  assert (stable (fun w _ => granted w)) as Hsg by (apply stable_world, granted_still).
  destruct (issue_confirm _ _) as [confirmed|error] eqn:Ec.
  2: { eapply (unknown_wp (fun w _ => asked pending w)); [apply stable_asked|done|]. intros w r Ha. left. by eapply asked_recorded. }
  pose proof (il_confirm _ _ Hissuer _ _ Ec) as [Hph Hval]. pose proof Hd as (Ho & Hs & Ha). destruct s as [w r]. simpl in *.
  pose proof Ha as (Hg & Hj & Hv). pose proof Hg as (Hl & _). pose proof (lv_bound _ Hl) as [].
  assert (forall w', (forall p, p <> tj -> ~ hidden dir p -> kept p w w') /\
    only w' tj (fun x => x = w_nodes w !! tj \/ journal_content (bi_profile b) x = Ok (Some confirmed)) -> granted w') as Htorn.
  { intros w' [Har Hon]. left. split; [by eapply around_held|]. eapply only_weaken; [exact Hon|]. intros x [-> |Hx]; eexists; done. }
  apply swp_bind. eapply swp_local_result; [exact Hd|]. simpl.
  eapply wp_mono; [apply (journal_store_wp _ jname confirmed (bi_profile b) NoFault w); [done|done|by apply Hval|done]|simpl..].
  2: { intros e w' Ht r' Hor Hsr _. eapply (unknown_wp (fun w _ => granted w)); [done| |done]. repeat split; auto. }
  2: { auto. }
  intros [] w1 (Har & node & Hnode & Hon) r1 Hor Hsr _.
  assert (good w1) as Hg1 by (eapply around_good; [done..|by eapply only_durable]).
  assert (confirmation (w_nodes w1 !! tj)) as Hc1 by (pose proof (only_now _ _ _ Hon) as E; simpl in E; rewrite E; by exists confirmed).
  set (P1 := fun (w : World) (_ : N) => w = w1).
  apply swp_bind, (swp_modify P1); [by repeat split|done|]. intros [w2 r2] (Ho2 & Hs2 & E2). simpl in Ho2, Hs2, E2. unfold P1 in E2. subst w2.
  apply swp_bind. eapply (swp_local_result _ (fun _ _ => True)); [by repeat split|]. simpl.
  (* what remains, for either result of the cleanup *)
  assert (forall c w3 r3, Forall polite (rn_others r3) -> settling (rn_sup r3) -> granted w3 /\ (c = Ok tt -> cleared w3) ->
    swp (_ ← publish HealthStopped LsLeft; _ ← join_scheduler; _ ← s_try (map_err SeLocal c); s_try (map_err SeRelay response))
      (fun _ s' => granted s'.1 /\ cleared s'.1) (fun _ s' => granted s'.1) (fun s' => granted s'.1) (w3, r3)) as Hrest.
  { intros c w3 r3 Ho3 Hs3 Hp3. set (P := fun (w : World) (_ : N) => granted w /\ (c = Ok tt -> cleared w)).
    assert (stable P) as HP by (apply stable_world; intros ? ? Hst [? ?]; split; [by eapply granted_still|intros; eapply cleared_still; eauto]).
    apply swp_bind, swp_bind, (swp_write P HP); [split; [done|split; [done|exact Hp3]]|done|]. intros s4 Hd4.
    apply (swp_write P HP); [done|by right|]. intros s5 Hd5.
    apply swp_bind, (join_scheduler_wp P); [done|done| |intros s6 (_ & _ & [? _]); done]. intros s6 (_ & _ & [Hgr Hcl]).
    apply swp_bind, swp_try; [|done]. intros [] Ecl. apply swp_try; [|done]. intros a _. split; [done|].
    apply Hcl. by destruct c as [[]|]. }
  eapply wp_mono; [by apply cleanup_granted|simpl..].
  - intros [] w3 [Hgr Hcl] r3 Ho3 Hs3 _. by apply (Hrest (Ok tt)).
  - intros e w3 Hgr r3 Ho3 Hs3 _. by apply (Hrest (Err e)).
  - done.
Qed.

(** What the relay's answer means for the membership. *)
Inductive Verdict : Set := Granted | Refused | Ambiguous.
Definition verdict (reply : Result ClientError LeaveSquadResponse) : Verdict :=
  match reply with
  | Ok response => if bool_decide (lsr_membership_id response = cb_member_id (bi_binding b)) then Granted else Ambiguous
  | Err (CeApi _ (ApiNotMember | ApiSquadArchived) _) => Granted
  | Err (CeApi _ _ _) => Refused
  | Err _ => Ambiguous
  end.
Definition answered (v : Verdict) (w : World) : Prop :=
  match v with Granted => granted w | Refused => held w | Ambiguous => held w /\ only w tj readable end.

(** A refused leave is taken off the record. *)
Lemma refuse_wp pending error s :
  during (fun w _ => asked pending w) s ->
  swp (removed ← local_result (journal_remove (bi_journal b));
       match removed with
       | Err error => unknown (SeLocal error)
       | Ok _ => _ ← rollback_leave; s_fail (SeRelay error)
       end : Sess (Run N) LeaveSquadResponse)
    (fun _ _ => False) (fun _ s' => held s'.1) (fun s' => held s'.1) s.
Proof.
  intros Hd. pose proof Hd as (Ho & Hs & Hg & _). destruct s as [w r]. simpl in *. pose proof Hg as (Hl & _). pose proof (lv_bound _ Hl) as [].
  assert (forall w', except tj w w' -> held w') as He.
  { intros w' Hx. apply (held_kept w); [by apply Hx|by apply Hx|by apply good_held]. }
  assert (stable (fun w _ => held w)) as Hsh by (apply stable_world, held_still).
  apply swp_bind. eapply swp_local_result; [exact Hd|]. simpl.
  eapply wp_mono; [apply (journal_remove_wp _ jname w (w_nodes w !! tj) w); [done|by split]|simpl..].
  - intros [] w' [Hx _] r' Ho' Hs' _. apply swp_bind, (rollback_wp _ Hsh); [by apply during_intro; auto|].
    intros w2 r2 Hh. by apply swp_fail.
  - intros e w' [Hx _] r' Ho' Hs' _. apply (unknown_wp _ Hsh); [by apply during_intro; auto|done].
  - intros w' [Hx _]. by apply He.
Qed.

Lemma settle_wp pending reply s :
  during (fun w _ => asked pending w) s ->
  swp (settle_leave b pending reply) (fun _ s' => answered (verdict reply) s'.1 /\ cleared s'.1)
    (fun _ s' => answered (verdict reply) s'.1) (fun s' => answered (verdict reply) s'.1) s.
Proof using Hcodec Hissuer Hmask.
  intros Hd. unfold settle_leave, verdict.
  assert (forall error, swp (unknown error) (fun (_ : LeaveSquadResponse) s' => answered Ambiguous s'.1 /\ cleared s'.1)
    (fun _ s' => answered Ambiguous s'.1) (fun s' => answered Ambiguous s'.1) s) as Hunk.
  { intros error. apply (unknown_wp _ (stable_asked pending)); [done|]. intros w r. apply asked_recorded. }
  assert (forall error, swp (removed ← local_result (journal_remove (bi_journal b));
       match removed with Err error => unknown (SeLocal error) | Ok _ => _ ← rollback_leave; s_fail (SeRelay error) end)
    (fun (_ : LeaveSquadResponse) s' => answered Refused s'.1 /\ cleared s'.1) (fun _ s' => answered Refused s'.1) (fun s' => answered Refused s'.1) s) as Href.
  { intros error. eapply swp_mono; [by eapply refuse_wp|simpl..]; done. }
  destruct reply as [response|e]; [case_bool_decide; [by apply finish_wp|apply Hunk]|].
  destruct e as [| | | | | | |status code rb| | | | |]; try apply Hunk. destruct code; try apply Href; by apply finish_wp.
Qed.

(** ** The transaction *)

(** The relay was not asked, or was asked and answered. *)
Definition ended (w : World) (n : N) : Prop :=
  held w /\ quiet n
  \/ exists c n1, quiet n1 /\ answered (verdict (st_leave (bi_squad_name b) c n1).1) w.

Definition peaceful (w : World) (n : N) : Prop := good w /\ quiet n.
Lemma stable_peaceful : stable peaceful.
Proof. intros w w' n n' Hs Hq [Hg Hn]. split; [by eapply good_still|auto]. Qed.
Lemma peaceful_ended w n : peaceful w n -> ended w n.
Proof. intros [Hg Hn]. left. split; [by apply good_held|done]. Qed.
Lemma stable_quiet_held : stable (fun w n => held w /\ quiet n).
Proof. intros w w' n n' Hs Hq [Hh Hn]. split; [by eapply held_still|auto]. Qed.

Lemma call_wp {A} (f : N -> Result ClientError A * N) (Q : Result ClientError A -> World * Run N -> Prop) E K s :
  Q (f (rn_net s.2)).1 (s.1, with_net s.2 (f (rn_net s.2)).2) -> swp (call f) Q E K s.
Proof. destruct s as [w r]. unfold swp, call. simpl. by destruct (f (rn_net r)). Qed.

Lemma ask_wp s :
  during peaceful s ->
  swp (ask_relay b) (fun _ s' => ended s'.1 (rn_net s'.2) /\ cleared s'.1) (fun _ s' => ended s'.1 (rn_net s'.2))
    (fun s' => ended s'.1 (rn_net s'.2)) s.
Proof using Hcodec Hissuer Hmask.
  intros Hd. unfold ask_relay. apply swp_bind, swp_bind, (swp_wait _ stable_peaceful); [done|]. clear s Hd. intros s Hd.
  apply swp_get. destruct (issue_intent _ _) as [j|error] eqn:Ej.
  2: { apply swp_bind, (rollback_wp _ stable_peaceful); [done|]. intros. by apply swp_fail, peaceful_ended. }
  pose proof (il_intent _ _ Hissuer _ Ej) as Hv. destruct s as [w r]. set (credential := sh_credential _).
  pose proof Hd as (Ho & Hs & Hg & Hq). simpl in *. pose proof Hg as (Hl & _). pose proof (lv_bound _ Hl) as [].
  apply swp_bind. eapply swp_local_result; [exact Hd|]. simpl.
  eapply wp_mono; [apply (journal_store_wp _ jname j (bi_profile b) NoFault w); done|simpl..].
  2: { intros e w' [Har _] r' Hor Hsr En. apply swp_bind, (rollback_wp _ stable_quiet_held).
       - apply during_intro; auto. split; [by eapply around_held|by rewrite En].
       - intros. apply swp_fail. by left. }
  2: { intros w' [Har _]. left. split; [by eapply around_held|done]. }
  intros [] w1 (Har & node & Hnode & Hon) r1 Hor Hsr En. apply swp_bind, swp_bind, call_wp. simpl.
  assert (asked j w1) as Ha.
  { split; [eapply around_good; [done..|by eapply only_durable]|]. pose proof (only_now _ _ _ Hon) as E. simpl in E. by rewrite E. }
  rewrite En. destruct (st_leave (bi_squad_name b) credential (rn_net r)) as [reply n2] eqn:El. simpl.
  apply swp_bind, (swp_wait _ (stable_asked j)); [by split|]. intros s2 Hd2. apply swp_ret.
  assert (forall w', answered (verdict reply) w' -> forall n', ended w' n') as Hend.
  { intros w' Hans n'. right. exists credential, (rn_net r). by rewrite El. }
  eapply swp_mono; [by apply (settle_wp j reply)|simpl; auto..]. intros _ s' [Hans Hcl]. auto.
Qed.

(** Before the leave begins, other tasks may still rotate the credential. *)
Definition before (s : World * Run N) : Prop :=
  Forall polite (rn_others s.2) /\ ~ settling (rn_sup s.2) /\ quiet (rn_net s.2)
  /\ respects w0 s.1 /\ held s.1 /\ sound s.1 (rn_sup s.2).

Section Before.
Hypothesis Hleavable : leavable w0.
Implicit Types (E : SessionError -> World * Run N -> Prop) (K : World * Run N -> Prop).
Lemma swp_wait_before (Q : unit -> World * Run N -> Prop) E K s :
  before s -> (forall s', before s' -> Q tt s') -> swp wait Q E K s.
Proof.
  destruct s as [w r]. intros (Ho & Hs & Hq & Hre & [Hhp Hhc] & Hso) HQ. unfold swp, wait. simpl in *.
  destruct (rn_others r) as [|f rest] eqn:Er.
  { apply HQ. split; [by simpl; rewrite Er|done]. }
  apply Forall_cons in Ho as [Hf Ho]. destruct (f _) as [[w' n'] s'] eqn:Ef.
  destruct (Hf _ _ _ _ _ _ Ef Hso) as (Hr & Hqn & _ & Hset). destruct (Hset Hs) as (Hrot & Hso' & Hs').
  apply HQ. split_and!; simpl; try done; [by apply Hqn|by eapply respects_trans|]. split; [|apply Hrot; [intros node _; by exists node|done]].
  apply (only_kept w); [apply Hr|done].
Qed.
Lemma swp_modify_before f (Q : unit -> World * Run N -> Prop) E K s :
  before s -> (forall x, sv_lifecycle (f x) = sv_lifecycle x) -> (forall s', before s' -> Q tt s') -> swp (modify f) Q E K s.
Proof.
  destruct s as [w r]. intros (Ho & Hs & Hq & Hre & Hh & Hso) Hf HQ. apply HQ. split_and!; try done; unfold settling, sound in *; simpl; by rewrite Hf.
Qed.
Lemma before_ready w r : before (w, r) -> sv_lifecycle (rn_sup r) = LsReady -> peaceful w (rn_net r).
Proof using Hleavable.
  intros (Ho & Hs & Hq & Hre & Hh & Hso) Hl. simpl in *. split; [|done]. split; [by eapply leavable_respects; [..|apply Hso]|].
  destruct Hh as [_ Hc]. split; [apply Hre|exact (only_now _ _ _ Hc)].
Qed.
Lemma swp_outcome {A} (m : Sess (Run N) A) (Q : Result SessionError A -> World * Run N -> Prop) E K s :
  swp m (fun a => Q (Ok a)) (fun e => Q (Err e)) K s -> swp (outcome m) Q E K s.
Proof. unfold swp, outcome. by destruct (m s) as [[[a|e]|] s']. Qed.
Lemma before_ended s : before s -> ended s.1 (rn_net s.2).
Proof. intros (_ & _ & Hq & _ & Hh & _). by left. Qed.

Lemma drain_reports_wp (Q : unit -> World * Run N -> Prop) E K s :
  before s -> (forall s', before s' -> Q tt s') -> (forall s', before s' -> E SeShutdownTimedOut s') -> swp drain_reports Q E K s.
Proof.
  intros Hb HQ HE. apply swp_bind, swp_get. destruct (_ =? _); [by apply swp_ret, HQ|].
  apply swp_bind, swp_bind, swp_wait_before; [done|]. intros s1 Hb1. apply swp_get.
  destruct (_ =? _); [by apply swp_ret, HQ|by apply swp_fail, HE].
Qed.
Lemma reopen_reports_wp (Q : unit -> World * Run N -> Prop) E K s :
  before s -> (forall s', before s' -> Q tt s') -> swp reopen_reports Q E K s.
Proof.
  intros Hb HQ. apply swp_bind, swp_get. destruct (sv_shutdown_requested _); [by apply swp_ret, HQ|].
  apply swp_bind, swp_bind, swp_wait_before; [done|]. intros s1 Hb1. apply swp_get.
  case_bool_decide; [by apply swp_modify_before|by apply swp_ret, HQ].
Qed.
Lemma begin_leave_wp (Q : unit -> World * Run N -> Prop) E K s :
  before s -> (forall s', during peaceful s' -> Q tt s') -> (forall s', before s' -> E SeNotReady s') -> swp (begin_leave b) Q E K s.
Proof using Hleavable.
  intros Hb HQ HE. apply swp_bind, swp_bind, swp_wait_before; [done|]. intros [w r] Hb1. apply swp_get. simpl.
  pose proof Hb1 as (Ho & Hs & _). destruct (sv_lifecycle (rn_sup r)) eqn:El; try (by apply swp_fail, HE).
  - apply HQ. apply during_intro; [done|by left|exact (before_ready _ _ Hb1 El)].
  - destruct Hs. by right.
Qed.
Lemma stop_and_drain_wp (Q : unit -> World * Run N -> Prop) E K s :
  during peaceful s -> (forall s', during peaceful s' -> Q tt s') -> (forall s', during peaceful s' -> E SeShutdownTimedOut s') ->
  swp stop_and_drain Q E K s.
Proof.
  intros Hd HQ HE. apply swp_bind, (swp_modify peaceful); [done..|]. intros s1 Hd1.
  apply swp_bind, (swp_write _ stable_peaceful); [done..|]. intros s2 Hd2. apply swp_bind, swp_get.
  destruct (drained _); [by apply swp_ret, HQ|]. apply swp_bind, swp_bind, (swp_wait _ stable_peaceful); [done|]. intros s3 Hd3.
  apply swp_get. destruct (drained _); [by apply swp_ret, HQ|by apply swp_fail, HE].
Qed.

Lemma session_leave_wp s :
  before s ->
  swp (session_leave b) (fun _ s' => ended s'.1 (rn_net s'.2) /\ cleared s'.1) (fun _ s' => ended s'.1 (rn_net s'.2))
    (fun s' => ended s'.1 (rn_net s'.2)) s.
Proof using Hcodec Hissuer Hmask Hleavable.
  intros Hb. apply swp_bind, swp_wait_before; [done|]. intros s1 Hb1. apply swp_bind, swp_modify_before; [done..|]. intros s2 Hb2.
  apply swp_bind, swp_outcome, drain_reports_wp; [done| |].
  2: { intros s3 Hb3. apply swp_bind, reopen_reports_wp; [done|]. intros s4 Hb4. by apply swp_fail, before_ended. }
  intros s3 Hb3. apply swp_bind, begin_leave_wp; [done| |apply before_ended]. intros s4 Hd4.
  apply swp_bind, swp_outcome, stop_and_drain_wp; [done| |].
  2: { intros s5 Hd5. apply swp_bind, (rollback_wp _ stable_peaceful); [done|]. intros. by apply swp_fail, peaceful_ended. }
  intros s5 Hd5. apply swp_bind, (swp_wait _ stable_peaceful); [done|]. apply ask_wp.
Qed.
End Before.
End From.

(** What a leave that began in [w] leaves behind, at whatever it ended.  The relay was not
    asked and the authority is as it was; or it was asked, and when it refused, the authority
    is as it was; when its answer was lost or makes no sense, the authority is as it was and
    the leave is on record; when it granted the leave, the leave is on record, beside the
    authority or as confirmed, or the credential is gone.  After a success, credential and
    journal are gone. *)
Definition write_ahead (w : World) (x : SExit LeaveSquadResponse) (w' : World) (n' : N) : Prop :=
  forall nodes, found w' nodes ->
  let authority := nodes !! tp = w_nodes w !! tp /\ (is_Some (w_nodes w !! tc) -> is_Some (nodes !! tc)) in
  let reads P := exists j, (journal_load (bi_journal b) (bi_profile b) (reboot nodes)).1 = Done (Ok (Some j)) /\ P (lj_phase j) in
  (authority /\ quiet n'
   \/ exists c n1, quiet n1 /\
      match verdict (st_leave (bi_squad_name b) c n1).1 with
      | Refused => authority
      | Ambiguous => authority /\ reads (fun _ => True)
      | Granted => authority /\ reads (fun _ => True) \/ reads (eq Confirmed) \/ nodes !! tc = None
      end)
  /\ (forall response, x = SDone (Ok response) -> nodes !! tc = None /\ nodes !! tj = None).

Lemma polite_leave w r x w' r' :
  lawful (bi_journal_issuer b) (bi_profile b) -> Z.ldiff 384 umask = 384 -> leavable w ->
  Forall polite (rn_others r) -> ~ settling (rn_sup r) -> quiet (rn_net r) ->
  session_leave b (w, r) = (x, (w', r')) -> write_ahead w x w' (rn_net r').
Proof.
  intros Hi Hm Hl Ho Hs Hq Hx nodes Hf authority reads.
  assert (before w (w, r)) as Hb.
  { pose proof (lv_bound _ Hl) as []. split; [done|]. split; [done|]. split; [done|]. split; [done|]. split; [by apply good_held|by intros _]. }
  pose proof (swp_run _ _ _ _ _ _ _ (session_leave_wp w Hi Hm Hl _ Hb) Hx) as Hr.
  assert (forall p S, only w' p S -> S (nodes !! p)) as Hof by (intros p S Hop; exact (only_found _ _ _ _ Hop Hf)).
  pose proof (lv_bound _ Hl) as [].
  assert (held w w' -> authority) as Hau by (intros [Ha Hc]; split; [exact (Hof _ _ Ha)|exact (Hof _ _ Hc)]).
  assert (only w' tj readable -> reads (fun _ => True)) as Hre.
  { intros Hop. destruct (Hof _ _ Hop) as [j Hj]. exists j. rewrite (journal_load_content _ _ bd_journal). simpl. by rewrite Hj. }
  assert (only w' tj confirmation -> reads (eq Confirmed)) as Hco.
  { intros Hop. destruct (Hof _ _ Hop) as (j & Hj & Hp). exists j. rewrite (journal_load_content _ _ bd_journal). simpl. by rewrite Hj. }
  split.
  - assert (ended w w' (rn_net r')) as [[Hh Hn]|(c & n1 & Hn1 & Hans)] by (destruct x as [[a|e]|]; [apply Hr|done..]).
    { left. auto. }
    right. exists c, n1. split; [done|]. destruct (verdict _); simpl in Hans; [|auto|destruct Hans; auto].
    destruct Hans as [[Hh Hj]|[Hj|Hg]]; [left; auto|right; left; auto|right; right; exact (Hof _ _ Hg)].
  - intros response ->. destruct Hr as [_ [Hc Hj]]. split; [exact (Hof _ _ Hc)|exact (Hof _ _ Hj)].
Qed.
End Farewell.
