(* ===== verification/Running.v ===== *)
(** * Running: the tasks of a session (psst-application/src/session.rs)

    The operations of [SessionRuntime], the heartbeat and the availability reports, on the
    supervisor of [Leaving].  Between the parts of a task that other tasks can come
    between, the program is cut: a heartbeat and a report are a request and what follows
    its answer. *)
From stdpp Require Import gmap.
From S2P Require Import Prelude Text Core Files Credential Dto Validation Client Failure Profile Journal CredentialStore Ledger Startup Leaving.

Record AuthoritySnapshot : Set := {
  as_credential : Credential; as_generation : Z; as_relay_origin : string; as_profile : string; as_squad_id : string;
  as_squad_name : string; as_member_id : string }.
Record SessionSnapshot : Set := {
  sn_health : SessionHealth; sn_generation : Z; sn_instance_id : string; sn_heartbeat_interval_seconds : Z;
  sn_lease_expires_at : ApiTimestamp; sn_availability : AvailabilityDto; sn_availability_source : AvailabilitySourceDto }.

(** ** Changes of the shared state *)

(** After a heartbeat the relay accepted. *)
Definition renewed (x : Shared) (response : HeartbeatResponse) : Shared :=
  {| sh_credential := sh_credential x; sh_instance_id := sh_instance_id x;
     sh_heartbeat_interval_seconds := hbp_heartbeat_interval_seconds response;
     sh_lease_expires_at := hbp_lease_expires_at response; sh_availability := sh_availability x;
     sh_availability_source := sh_availability_source x; sh_health := HealthReady; sh_generation := sh_generation x |}.
(** After a rotation; [u64::saturating_add]. *)
Definition rotated (x : Shared) (session : Session) : Shared :=
  {| sh_credential := ses_credential session; sh_instance_id := sep_instance_id (ses_response session);
     sh_heartbeat_interval_seconds := sep_heartbeat_interval_seconds (ses_response session);
     sh_lease_expires_at := sep_lease_expires_at (ses_response session); sh_availability := sh_availability x;
     sh_availability_source := sh_availability_source x; sh_health := HealthReady;
     sh_generation := usize_saturating_add (sh_generation x) 1 |}.
Definition reporting (x : Shared) (availability : AvailabilityDto) (source : AvailabilitySourceDto) : Shared :=
  {| sh_credential := sh_credential x; sh_instance_id := sh_instance_id x;
     sh_heartbeat_interval_seconds := sh_heartbeat_interval_seconds x; sh_lease_expires_at := sh_lease_expires_at x;
     sh_availability := availability; sh_availability_source := source; sh_health := sh_health x;
     sh_generation := sh_generation x |}.
Definition update (f : Shared -> Shared) (s : Supervisor) : Supervisor := set_shared s (f (sv_shared s)).

Section Running.
Context {N : Type} `{SessionTransport N} `{Os} `{UrlCrate} `{HttpHeaders} `{Crypto}.
Context `{Serialize CredentialRecord, !Deserialize CredentialRecord}.
Variable b : Bindings.
Abbreviation Op := (Sess (Run N)).

(** The transport of an operation. *)
Definition lift {A} (f : N -> Result ClientError A * N) (r : Run N) : Result ClientError A * Run N :=
  let '(a, n) := f (rn_net r) in (a, with_net r n).
#[global] Instance run_transport : SessionTransport (Run N) := {|
  st_join squad request := lift (st_join squad request);
  st_leave squad credential := lift (st_leave squad credential);
  st_heartbeat request credential := lift (st_heartbeat request credential);
  st_resume squad request credential := lift (st_resume squad request credential);
  st_send_prepared request credential := lift (st_send_prepared request credential) |}.

(** ** Authority *)
Definition snapshot : Op SessionSnapshot :=
  s ← read;
  let value := sv_shared s in
  mret {| sn_health := sh_health value; sn_generation := sh_generation value; sn_instance_id := sh_instance_id value;
          sn_heartbeat_interval_seconds := sh_heartbeat_interval_seconds value; sn_lease_expires_at := sh_lease_expires_at value;
          sn_availability := sh_availability value; sn_availability_source := sh_availability_source value |}.

Definition authority : Op AuthoritySnapshot :=
  s ← get;
  if sv_shutdown_requested s then s_fail SeNotReady
  else
    s ← read;
    if bool_decide (sv_lifecycle s <> LsReady) then s_fail SeNotReady
    else
      s ← read;
      let value := sv_shared s in
      later ← (if bool_decide (sh_health value <> HealthReady) then mret s else read);
      if bool_decide (sh_health value <> HealthReady) || bool_decide (sv_lifecycle later <> LsReady)
         || sv_shutdown_requested later
      then s_fail SeNotReady
      else mret {| as_credential := sh_credential value; as_generation := sh_generation value;
                   as_relay_origin := cb_relay_origin (bi_binding b); as_profile := cb_profile (bi_binding b);
                   as_squad_id := cb_squad_id (bi_binding b); as_squad_name := bi_squad_name b;
                   as_member_id := cb_member_id (bi_binding b) |}.

(** [read_with_epoch] around a call of the client: a cancelled epoch wins.  The epoch is
    cancelled when it is still the current one and that is cancelled, or when a leave that
    was rolled back since cancelled it. *)
Definition read_with_epoch {A} (f : N -> Result ClientError A * N) : Op A :=
  reply ← exchange f;
  s ← get;
  replaced ← choose;
  if sv_read_cancel s || replaced then s_fail SeNotReady else s_try (map_err SeRelay reply).
(** [roster], [inbox] and [transcript]: a read with the current authority. *)
Definition session_read {A} (f : Credential -> N -> Result ClientError A * N) : Op A :=
  authority ← authority;
  read_with_epoch (f (as_credential authority)).
(** [archive] and [acknowledge]: with the operation gate; a cancelled operation wins. *)
Definition session_operate {A} (f : Credential -> N -> Result ClientError A * N) : Op A :=
  s ← read;
  if sv_operation_cancel s then s_fail SeNotReady
  else
    authority ← authority;
    reply ← exchange (f (as_credential authority));
    s ← get;
    if sv_operation_cancel s then s_fail SeNotReady else s_try (map_err SeRelay reply).

(** ** Sending *)
Definition validated (request : PreparedSend) (squad_name : string) (reply : Result ClientError SendMessageResponse) : SendTerminal :=
  match reply with
  | Err error => Err (StoredRelay (StoredClientError_capture error))
  | Ok response => _ ← validate_owned_send_response request squad_name response; Ok response
  end.
(** The task that owns a send, with the heartbeat gate. *)
Definition owned_send (authority : AuthoritySnapshot) (request : PreparedSend) (entry : SendEntry) : Op unit :=
  s ← read;
  let lifecycle := sv_lifecycle s in
  s ← read;
  let state := sv_shared s in
  let authority_is_current :=
    (sh_generation state =? as_generation authority) && bool_decide (sh_health state = HealthReady)
    && bool_decide (lifecycle = LsReady \/ lifecycle = LsLeaving) in
  result ← (if authority_is_current then
              reply ← exchange (st_send_prepared request (as_credential authority));
              mret (validated request (as_squad_name authority) reply)
            else mret (Err StoredNotReady));
  write (fun s => set_sends s (finish (sv_sends s) (ps_identity request) entry result)).

(** [send_prepared] with the task it spawns; its caller then waits for the result of the
    entry, [await_send]. *)
Definition send_prepared (request : PreparedSend) : Op SendEntry :=
  authority ← authority;
  s ← get;
  let open_before := negb (sl_permanently_closed (sv_sends s)) && sl_admission_open (sv_sends s) in
  s ← read;
  let '(reservation, sends) := reserve (sv_sends s) open_before request in
  _ ← modify (fun s => set_sends s sends);
  reservation ← s_try reservation;
  match reservation with
  | Existing entry => mret entry
  | New entry => _ ← owned_send authority request entry; mret entry
  end.

(** ** Recovering an expired lease *)
Definition resume (credential : Credential) : Op (Result ResumeTransactionError Session) :=
  resume_transaction (bi_store b) (bi_binding b) (bi_squad_name b)
    {| rsr_mode := bi_mode b; rsr_client := bi_client_metadata b |} credential.
Definition resume_failure (error : ResumeTransactionError) : LifecycleState * SessionHealth :=
  match error with
  | RteRelay CeOutcomeUnknown => (LsOutcomeUnknown, HealthOutcomeUnknown)
  | RteRelay _ => (LsReady, HealthDegraded)
  | RtePersist _ => (LsRotationFailed, HealthRotationFailed)
  | RteTask => (LsReady, HealthDegraded)
  end.
(** Publishing it; false when the session is no longer recovering. *)
Definition publish_failure (error : ResumeTransactionError) : Op bool :=
  s ← read;
  if bool_decide (sv_lifecycle s <> LsRecovering) then mret false
  else
    let '(lifecycle, health) := resume_failure error in
    _ ← modify (fun s => set_lifecycle (set_health s health) lifecycle);
    mret true.
Definition publish_resume_failure (error : ResumeTransactionError) : Op SessionError :=
  _ ← publish_failure error;
  mret (resume_session_error error).
(** Entering and leaving the recovery; false when the session is not in the state before. *)
Definition transit (before after : LifecycleState) : Op bool :=
  s ← read;
  if bool_decide (sv_lifecycle s <> before) then mret false
  else _ ← modify (fun s => set_lifecycle s after); mret true.

(** ** Heartbeats *)

(** [tokio::select!] against the session's cancellation: true when that wins. *)
Definition cancelled : Op bool :=
  s ← read;
  if sv_cancel s then choose else mret false.

(** How a turn of the loop goes on, with the backoff. *)
Inductive Turn : Set := Again (backoff : Duration) | Stop.

(** The lifecycle decides between beating, skipping the turn and stopping. *)
Definition beat_gate (backoff : Duration) : Op (option Turn) :=
  s ← get;
  if sv_cancel s then mret (Some Stop)
  else
    s ← read;
    mret (match sv_lifecycle s with LsLeaving => Some (Again backoff) | LsReady => None | _ => Some Stop end).

(** One turn up to the relay's answer. *)
Definition heartbeat_request (backoff : Duration)
    : Op (Turn + Credential * Result ClientError HeartbeatResponse) :=
  _ ← read;
  slept ← cancelled;
  if slept : bool then mret (inl Stop)
  else
    gate ← cancelled;
    if gate : bool then mret (inl Stop)
    else
      turn ← beat_gate backoff;
      match turn with
      | Some turn => mret (inl turn)
      | None =>
          s ← read;
          let request := {| hbr_availability := sh_availability (sv_shared s);
                            hbr_availability_source := sh_availability_source (sv_shared s) |} in
          s ← read;
          let credential := sh_credential (sv_shared s) in
          reply ← exchange (st_heartbeat request credential);
          lost ← cancelled;
          mret (if lost : bool then inl Stop else inr (credential, reply))
      end.

(** The recovery of a turn. *)
Definition heartbeat_recover (backoff : Duration) (credential : Credential) : Op Turn :=
  entered ← transit LsReady LsRecovering;
  if negb entered then mret (Again backoff)
  else
    resumed ← resume credential;
    ready ← (match resumed with
             | Ok session =>
                 _ ← write (update (fun x => rotated x session));
                 transit LsRecovering LsReady
             | Err error => publish_failure error
             end);
    if negb ready then mret Stop
    else s ← get; mret (if sv_cancel s then Stop else Again backoff).

(** What follows the answer. *)
Definition heartbeat_reply (backoff : Duration) (credential : Credential) (heartbeat : Result ClientError HeartbeatResponse)
    : Op Turn :=
  turn ← beat_gate backoff;
  match turn with
  | Some turn => mret turn
  | None =>
      match heartbeat with
      | Ok response =>
          _ ← write (update (fun x => renewed x response));
          mret (Again (Duration_from_secs 1))
      | Err (CeApi _ ApiLeaseExpired _) => heartbeat_recover backoff credential
      | Err CeOutcomeUnknown => _ ← write (fun s => set_health s HealthOutcomeUnknown); mret (Again backoff)
      | Err _ =>
          _ ← write (fun s => set_health s HealthDegraded);
          stop ← cancelled;
          mret (if stop : bool then Stop else Again (N.min (backoff * 2) (Duration_from_secs 30)))
      end
  end.

(** The loop, for a number of turns. *)
Fixpoint run_heartbeat (turns : nat) (backoff : Duration) : Op Turn :=
  match turns with
  | O => mret (Again backoff)
  | S turns =>
      asked ← heartbeat_request backoff;
      turn ← (match asked with
              | inl turn => mret turn
              | inr (credential, reply) => heartbeat_reply backoff credential reply
              end);
      match turn with Again backoff => run_heartbeat turns backoff | Stop => mret Stop end
  end.

(** ** Reports of availability *)
Definition report_source (availability : AvailabilityDto) : AvailabilitySourceDto :=
  match availability with AvUnknownDto => SrcUnknownDto | _ => AgentReportedDto end.

Definition ready_or_fail : Op unit :=
  s ← read;
  if bool_decide (sv_lifecycle s <> LsReady) then s_fail SeNotReady else mret tt.

(** Up to the relay's answer; a cancelled report wins over the gate and over the answer. *)
Definition report_request (availability : AvailabilityDto) (source : AvailabilitySourceDto)
    : Op (Credential * Result ClientError HeartbeatResponse) :=
  _ ← wait;
  cancel ← choose;
  if cancel : bool then s_fail SeNotReady
  else
    s ← get;
    if sv_operation_cancel s then s_fail SeNotReady
    else
      _ ← ready_or_fail;
      s ← read;
      let credential := sh_credential (sv_shared s) in
      reply ← exchange (st_heartbeat {| hbr_availability := availability; hbr_availability_source := source |} credential);
      cancel ← choose;
      if cancel : bool then s_fail SeNotReady else mret (credential, reply).

Definition report_recover (availability : AvailabilityDto) (source : AvailabilitySourceDto) (credential : Credential) : Op unit :=
  entered ← transit LsReady LsRecovering;
  if negb entered then s_fail SeNotReady
  else
    session ← resume credential;
    match session with
    | Ok session =>
        _ ← write (update (fun x => reporting (rotated x session) availability source));
        ready ← transit LsRecovering LsReady;
        if negb ready then s_fail SeNotReady else mret tt
    | Err error =>
        s ← read;
        if bool_decide (sv_lifecycle s = LsLeaving) then s_fail (resume_session_error error)
        else e ← publish_resume_failure error; s_fail e
    end.

Definition report_reply (availability : AvailabilityDto) (source : AvailabilitySourceDto) (credential : Credential)
    (response : Result ClientError HeartbeatResponse) : Op unit :=
  _ ← ready_or_fail;
  match response with
  | Ok response => write (update (fun x => reporting (renewed x response) availability source))
  | Err (CeApi _ ApiLeaseExpired _) => report_recover availability source credential
  | Err error =>
      s ← read;
      _ ← (if bool_decide (sv_lifecycle s = LsReady)
           then write (fun s => set_health s (match error with CeOutcomeUnknown => HealthOutcomeUnknown | _ => HealthDegraded end))
           else mret tt);
      s_fail (SeRelay error)
  end.
Definition report_availability_owned (availability : AvailabilityDto) (source : AvailabilitySourceDto) : Op unit :=
  '(credential, response) ← report_request availability source;
  report_reply availability source credential response.

(** [seen]: what the exchanges of [register] that fail observe. *)
Definition report_register (seen : list Z) : Op unit :=
  s ← get;
  tracker ← s_try (register (sv_reports s) seen);
  modify (fun s => set_reports s tracker).
Definition report_finish : Op unit := modify (fun s => set_reports s (ReportTracker_finish (sv_reports s))).
Definition report_availability (availability : AvailabilityDto) (seen : list Z) : Op unit :=
  _ ← report_register seen;
  result ← outcome (report_availability_owned availability (report_source availability));
  _ ← report_finish;
  s_try result.

(** ** Shutting down *)
Definition request_shutdown : Op unit :=
  modify (fun s => set_cancels (set_read_cancel (set_reports (set_sends s (SendLedger_close_permanently (sv_sends s)))
    (ReportTracker_close_permanently (sv_reports s))) true) true true true (sv_task s) (sv_profile_lock s)).

Definition shutdown : Op unit :=
  _ ← modify (fun s => set_cancels s true (sv_cancel s) (sv_operation_cancel s) (sv_task s) (sv_profile_lock s));
  _ ← modify (fun s => set_sends s (SendLedger_close_permanently (sv_sends s)));
  _ ← modify (fun s => set_reports s (ReportTracker_close_permanently (sv_reports s)));
  _ ← drain_reports;
  _ ← stop_and_drain;
  _ ← modify (fun s => set_cancels (set_read_cancel s true) (sv_shutdown_requested s) true true (sv_task s) (sv_profile_lock s));
  _ ← join_scheduler;
  _ ← wait;
  late ← choose;
  if late : bool then s_fail SeShutdownTimedOut
  else
    _ ← write (fun s => set_health s HealthStopped);
    modify (fun s => set_cancels s (sv_shutdown_requested s) (sv_cancel s) (sv_operation_cancel s) (sv_task s) false).
End Running.

(** ** The operations that go through the client *)
Section Operations.
Context `{HttpHeaders} `{Crypto} `{UrlCrate} `{Transport Net}.
Context `{!Deserialize ErrorEnvelope, !Deserialize RosterResponse, !Deserialize InboxResponse, !Deserialize TranscriptResponse,
          !Deserialize ArchiveSquadResponse, !Deserialize AckMessagesResponse}.
Variables (b : Bindings) (client : Client).
Abbreviation Op := (Sess (Run Net)).

Definition session_roster : Op RosterResponse :=
  session_read b (fun c => returned (Client_roster client (bi_squad_name b) c)).
Definition session_inbox (limit wait_seconds : Z) : Op InboxResponse :=
  session_read b (fun c => returned (Client_inbox client limit wait_seconds c)).
Definition session_transcript (after : MessageSequence) (limit : Z) : Op TranscriptResponse :=
  session_read b (fun c => returned (Client_transcript client (bi_squad_name b) after limit c)).
Definition session_archive : Op ArchiveSquadResponse :=
  session_operate b (fun c => returned (Client_archive_squad client (bi_squad_name b) c)).
Definition session_acknowledge (request : AckMessagesRequest) : Op AckMessagesResponse :=
  session_operate b (fun c => returned (Client_acknowledge client request c)).
End Operations.
