(* ===== verification/Company.v ===== *)
(** * Company: the tasks of a session beside each other

    Every task of a running session keeps to the protocol that leaving relies on, and a
    session that is ready has published the credential that its file holds. *)
From stdpp Require Import gmap.
From S2P Require Import Prelude Text Core Files Credential Dto Validation Client Failure Profile Journal CredentialStore Durability Recovery Ledger Startup Departure Restart Leaving Farewell Running.

Section Company.
Context {N : Type} `{SessionTransport N} `{Os} `{UrlCrate} `{HttpHeaders} `{Crypto}.
Context `{Serialize CredentialRecord, !Deserialize CredentialRecord}.
Variables (b : Bindings) (pname cname jname : string).
Variable quiet : N -> Prop.
Abbreviation dir := (js_directory (bi_journal b)).
Abbreviation cdir := (cs_directory_guard (bi_store b)).
Abbreviation tc := (path_join cdir cname).
Abbreviation tp := (path_join dir pname).
Abbreviation tj := (path_join dir jname).
Abbreviation Op := (Sess (Run N)).
Implicit Types (s : World * Run N).

(** Only asking to leave ends the quiet. *)
Record discreet : Prop := {
  dc_heartbeat : forall q c n, quiet n -> quiet (st_heartbeat q c n).2;
  dc_resume : forall squad q c n, quiet n -> quiet (st_resume squad q c n).2;
  dc_send : forall q c n, quiet n -> quiet (st_send_prepared q c n).2 }.

(** The paths of the credential and its temporary file are apart from the others. *)
Record apart : Prop := {
  ap_name : path_file_name (cs_path (bi_store b)) = Some cname;
  ap_dirs : cdir <> dir;
  ap_above : forall k, take k dir <> tc /\ take k dir <> path_join cdir ("." +:+ cname +:+ ".credential-tmp-") }.

(** ** Parts of tasks that leave the files and the authority alone *)
Definition alone (s : World * Run N) : Prop := rn_others s.2 = [].
Definition calm (s s' : World * Run N) : Prop :=
  s'.1 = s.1 /\ alone s' /\ sv_lifecycle (rn_sup s'.2) = sv_lifecycle (rn_sup s.2)
  /\ sh_credential (sv_shared (rn_sup s'.2)) = sh_credential (sv_shared (rn_sup s.2))
  /\ (quiet (rn_net s.2) -> quiet (rn_net s'.2)).
Definition flat {A} (m : Op A) : Prop :=
  forall s, alone s -> swp m (fun _ => calm s) (fun _ => calm s) (fun _ => False) s.

Lemma calm_refl s : alone s -> calm s s.
Proof. by repeat split. Qed.
Lemma calm_trans s1 s2 s3 : calm s1 s2 -> calm s2 s3 -> calm s1 s3.
Proof. intros (E1 & A1 & L1 & C1 & Q1) (E2 & A2 & L2 & C2 & Q2). repeat split; [congruence|done|congruence|congruence|auto]. Qed.

Lemma flat_bind {A B} (m : Op A) (k : A -> Op B) : flat m -> (forall a, flat (k a)) -> flat (m ≫= k).
Proof.
  intros Hm Hk s Hs. apply swp_bind. eapply swp_mono; [by apply Hm|simpl|done|done].
  intros a s1 Hc. eapply swp_mono; [apply Hk, Hc|simpl; intros; by eapply calm_trans..|done].
Qed.
Lemma flat_try {A} (r : Result SessionError A) : flat (s_try r).
Proof. intros s Hs. apply swp_try; intros; by apply calm_refl. Qed.
Lemma flat_ret {A} (a : A) : flat (mret a).
Proof. intros s Hs. by apply swp_ret, calm_refl. Qed.
Lemma flat_get : flat get.
Proof. intros s Hs. by apply swp_get, calm_refl. Qed.
Lemma flat_modify f :
  (forall x, sv_lifecycle (f x) = sv_lifecycle x) -> (forall x, sh_credential (sv_shared (f x)) = sh_credential (sv_shared x)) ->
  flat (modify f).
Proof. intros Hl Hc [w r] Hs. by repeat split; simpl. Qed.
Lemma flat_wait : flat wait.
Proof. intros [w r] Hs. unfold swp, wait. unfold alone in Hs. simpl in Hs. rewrite Hs. by apply calm_refl. Qed.
Lemma flat_choose : flat choose.
Proof. intros [w r] Hs. unfold swp, choose. by destruct (rn_choices r). Qed.
Lemma flat_call {A} (f : N -> Result ClientError A * N) : (forall n, quiet n -> quiet (f n).2) -> flat (call f).
Proof. intros Hf [w r] Hs. apply call_wp. repeat split; simpl; auto. Qed.
Lemma flat_outcome {A} (m : Op A) : flat m -> flat (outcome m).
Proof. intros Hm s Hs. apply swp_outcome. by apply Hm. Qed.
Lemma flat_read : flat read.
Proof. apply flat_bind; [apply flat_wait|intros; apply flat_get]. Qed.
Lemma flat_write f :
  (forall x, sv_lifecycle (f x) = sv_lifecycle x) -> (forall x, sh_credential (sv_shared (f x)) = sh_credential (sv_shared x)) ->
  flat (write f).
Proof. intros. apply flat_bind; [apply flat_wait|intros; by apply flat_modify]. Qed.
Lemma flat_exchange {A} (f : N -> Result ClientError A * N) : (forall n, quiet n -> quiet (f n).2) -> flat (exchange f).
Proof. intros. apply flat_bind; [by apply flat_call|intros]. apply flat_bind; [apply flat_wait|intros; apply flat_ret]. Qed.

(** Programs made of such parts. *)
Ltac flatten := repeat (intros; match goal with
  | |- flat (_ ≫= _) => apply flat_bind
  | |- flat (mret _) => apply flat_ret
  | |- flat (s_fail _) => apply flat_try
  | |- flat (s_try _) => apply flat_try
  | |- flat get => apply flat_get
  | |- flat wait => apply flat_wait
  | |- flat choose => apply flat_choose
  | |- flat read => apply flat_read
  | |- flat (modify _) => apply flat_modify
  | |- flat (write _) => apply flat_write
  | |- flat (exchange _) => apply flat_exchange
  | |- flat (if ?x then _ else _) => destruct x
  | |- flat (match ?x with _ => _ end) => destruct x
  end); try done.

Lemma flat_authority : flat (authority b).
Proof. unfold authority. flatten. Qed.
Lemma flat_cancelled : flat cancelled.
Proof. unfold cancelled. flatten. Qed.
Lemma flat_beat_gate backoff : flat (beat_gate backoff).
Proof. unfold beat_gate. flatten. Qed.
Lemma flat_drains : flat drain_reports /\ flat stop_and_drain /\ flat join_scheduler.
Proof. unfold drain_reports, stop_and_drain, join_scheduler. split_and!; flatten. Qed.

Section Tasks.
Hypothesis Hdiscreet : discreet.

Lemma flat_heartbeat_request backoff : flat (heartbeat_request backoff).
Proof using Hdiscreet.
  unfold heartbeat_request. flatten; try apply flat_cancelled; [apply flat_beat_gate|by apply Hdiscreet].
Qed.
Lemma flat_report_request availability source : flat (report_request availability source).
Proof using Hdiscreet. unfold report_request, ready_or_fail. flatten. by apply Hdiscreet. Qed.
Lemma flat_owned_send authority request entry : flat (owned_send authority request entry).
Proof using Hdiscreet. unfold owned_send. flatten. by apply Hdiscreet. Qed.
Lemma flat_send_prepared request : flat (send_prepared b request).
Proof using Hdiscreet. unfold send_prepared. flatten; [apply flat_authority|apply flat_owned_send]. Qed.
Lemma flat_session_read {A} (f : Credential -> N -> Result ClientError A * N) :
  (forall c n, quiet n -> quiet (f c n).2) -> flat (session_read b f).
Proof. unfold session_read, read_with_epoch. flatten; [apply flat_authority|auto]. Qed.
Lemma flat_session_operate {A} (f : Credential -> N -> Result ClientError A * N) :
  (forall c n, quiet n -> quiet (f c n).2) -> flat (session_operate b f).
Proof. unfold session_operate. flatten; [apply flat_authority|auto]. Qed.
Lemma flat_request_shutdown : flat request_shutdown.
Proof. unfold request_shutdown. flatten. Qed.
Lemma flat_shutdown : flat shutdown.
Proof. unfold shutdown. flatten; apply flat_drains. Qed.

(** ** Rotating the credential *)
Section Rotating.
(** What the file of the credential is to hold, for a credential. *)
Variable holds : option Node -> Credential -> Prop.
Definition record_with (c : Credential) (text : string) : CredentialRecord :=
  {| rec_version := CREDENTIAL_VERSION; rec_relay_origin := cb_relay_origin (bi_binding b); rec_profile := cb_profile (bi_binding b);
     rec_squad_id := cb_squad_id (bi_binding b); rec_member_id := cb_member_id (bi_binding b); rec_instance_id := cd_instance_id c;
     rec_authorization := text |}.
Hypothesis Hholds : forall squad q c n session text,
  (st_resume squad q c n).1 = Ok session -> header_to_str (cd_value (ses_credential session)) = Some text ->
  holds (Some (private_file (to_json (record_with (ses_credential session) text)))) (ses_credential session).
Hypothesis Hapart : apart.

(** A ready session has published the credential that is durably stored. *)
Definition backed (w : World) (s : Supervisor) : Prop :=
  sv_lifecycle s = LsReady -> durable w tc /\ holds (w_nodes w !! tc) (sh_credential (sv_shared s)).

Abbreviation respects := (respects b pname jname).
Abbreviation rotates := (rotates b cname).
Definition moved (w w' : World) : Prop := respects w w' /\ rotates w w'.
Definition same (s s' : World * Run N) : Prop :=
  alone s' /\ rn_sup s'.2 = rn_sup s.2 /\ (quiet (rn_net s.2) -> quiet (rn_net s'.2)).

Lemma moved_refl w : moved w w.
Proof. split; [by split_and!|by intros S]. Qed.
Lemma safe_moved w w' bytes : safe w cdir ("." +:+ cname +:+ ".credential-tmp-") cname (w_nodes w !! tc) bytes w' -> moved w w'.
Proof using Hapart.
  intros [Hs Ho]. destruct Hapart as [_ Hd Ha].
  assert (forall x y, path_join dir x <> path_join cdir y) as Hne by (intros x y E; unfold path_join in E; apply app_inj_tail in E as [E _]; by apply Hd).
  split; [split_and!; [apply Hs; apply Hne..|intros k; apply Hs; apply Ha]|].
  intros S HS Hold. eapply only_weaken; [exact Ho|]. intros x [-> | ->]; [exact (only_now _ _ _ Hold)|apply HS].
Qed.

Lemma resume_wp c (Q : Result ResumeTransactionError Session -> World * Run N -> Prop) E K s :
  durable s.1 tc -> alone s ->
  (forall session s', same s s' -> moved s.1 s'.1 -> durable s'.1 tc -> holds (w_nodes s'.1 !! tc) (ses_credential session) -> Q (Ok session) s') ->
  (forall e s', same s s' -> moved s.1 s'.1 -> ((forall e', e <> RtePersist e') -> s'.1 = s.1) -> Q (Err e) s') ->
  (forall s', same s s' -> moved s.1 s'.1 -> K s') ->
  swp (resume b c) Q E K s.
Proof using Hdiscreet Hholds Hapart.
  destruct s as [w r]. simpl. intros Hd Hal HQ HE HK. unfold resume, resume_transaction. apply swp_bind, swp_remote. simpl. unfold lift.
  set (q := {| rsr_mode := _; rsr_client := _ |}).
  destruct (st_resume (bi_squad_name b) q c (rn_net r)) as [x n'] eqn:Ex. simpl.
  assert (forall w', same (w, r) (w', with_net r n')) as Hsame.
  { intros w'. split_and!; [done|done|]. simpl. intros Hq. pose proof (dc_resume Hdiscreet (bi_squad_name b) q c _ Hq) as Hn. by rewrite Ex in Hn. }
  destruct x as [session|e]; [|apply swp_ret, HE; [done|apply moved_refl|done]].
  destruct (_ || _); [apply swp_ret, HE; [done|apply moved_refl|done]|]. apply swp_bind, swp_local, wp_attempt.
  eapply wp_mono; [apply (credential_store_wp _ cname (ap_name Hapart) w w); done|simpl..].
  - intros [] w' (text & Ht & Hs & Ho). pose proof (only_now _ _ _ Ho) as En. simpl in En.
    apply swp_ret, HQ; [done|by eapply safe_moved|by eapply only_durable|]. simpl. rewrite En.
    eapply (Hholds (bi_squad_name b) q c (rn_net r)); [by rewrite Ex|done].
  - intros e w' [bytes Hs]. apply swp_ret, HE; [done|by eapply safe_moved|]. intros Hn. by destruct (Hn e).
  - intros w' [bytes Hs]. apply HK; [done|by eapply safe_moved].
Qed.

(** What a recovery may do. *)
Definition turned (s s' : World * Run N) : Prop :=
  moved s.1 s'.1 /\ (quiet (rn_net s.2) -> quiet (rn_net s'.2)) /\ backed s'.1 (rn_sup s'.2) /\ ~ settling (rn_sup s'.2).

Lemma swp_read_alone (Q : Supervisor -> World * Run N -> Prop) E K s : alone s -> Q (rn_sup s.2) s -> swp read Q E K s.
Proof. destruct s as [w r]. unfold alone, swp, read, mbind, Sess_bind, wait. simpl. by intros ->. Qed.
Lemma swp_write_alone f (Q : unit -> World * Run N -> Prop) E K s :
  alone s -> Q tt (s.1, with_sup s.2 (f (rn_sup s.2))) -> swp (write f) Q E K s.
Proof. destruct s as [w r]. unfold alone, swp, write, mbind, Sess_bind, wait. simpl. by intros ->. Qed.
Lemma swp_transit before after (Q : bool -> World * Run N -> Prop) E K s :
  alone s -> sv_lifecycle (rn_sup s.2) = before -> Q true (s.1, with_sup s.2 (set_lifecycle (rn_sup s.2) after)) ->
  swp (transit before after) Q E K s.
Proof.
  intros Hs Hl HQ. apply swp_bind, swp_read_alone; [done|]. rewrite bool_decide_eq_false_2 by auto. by destruct s.
Qed.

(** From a ready session, whose lifecycle becomes recovering. *)
Section Recovering.
Variables (s : World * Run N) (c : Credential).
Hypothesis Halone : alone s.
Hypothesis Hready : sv_lifecycle (rn_sup s.2) = LsReady.
Hypothesis Hbacked : backed s.1 (rn_sup s.2).
Definition recovering : World * Run N := (s.1, with_sup s.2 (set_lifecycle (rn_sup s.2) LsRecovering)).

(** A rotation is published after it is stored. *)
Lemma rotated_wp f session (Q : bool -> World * Run N -> Prop) E K s' :
  same recovering s' -> moved s.1 s'.1 -> durable s'.1 tc -> holds (w_nodes s'.1 !! tc) (ses_credential session) ->
  (forall x, sh_credential (f x) = ses_credential session) -> (forall s2, alone s2 -> turned s s2 -> Q true s2) ->
  swp (_ ← write (update f); transit LsRecovering LsReady) Q E K s'.
Proof.
  intros (Ha & Hsup & Hq) Hm Hd Hh Hf HQ. destruct s' as [w r]. simpl in *. apply swp_bind, swp_write_alone; [done|].
  apply swp_transit; [done|simpl; by rewrite Hsup|]. apply HQ; [done|]. split; [done|]. split; [done|]. split.
  - intros _. simpl. by rewrite Hf.
  - intros [E0|E0]; discriminate E0.
Qed.
(** A failure leaves the session ready only when nothing was stored. *)
Lemma failed_wp e (Q : bool -> World * Run N -> Prop) E K s' :
  same recovering s' -> moved s.1 s'.1 -> ((forall e', e <> RtePersist e') -> s'.1 = s.1) ->
  (forall s2, alone s2 -> turned s s2 -> Q true s2) -> swp (publish_failure e) Q E K s'.
Proof using Hready Hbacked.
  intros (Ha & Hsup & Hq) Hm He HQ. destruct s' as [w r]. simpl in *. apply swp_bind, swp_read_alone; [done|]. simpl. rewrite Hsup.
  rewrite bool_decide_eq_false_2 by (intros Hn; by apply Hn). destruct (resume_failure e) as [lifecycle health] eqn:Ef.
  apply HQ; [done|]. split; [done|]. split; [done|]. simpl. split.
  - intros El. simpl in El. subst lifecycle. simpl. rewrite Hsup. simpl.
    assert (forall e', e <> RtePersist e') as Hn by (intros e' ->; discriminate Ef). rewrite (He Hn). by apply Hbacked.
  - intros [E0|E0]; simpl in E0; subst lifecycle; destruct e as [[]| |]; discriminate Ef.
Qed.

Lemma heartbeat_recover_wp backoff :
  swp (heartbeat_recover b backoff c) (fun _ => turned s) (fun _ => turned s) (turned s) s.
Proof using Halone Hready Hbacked Hdiscreet Hholds Hapart.
  apply swp_bind, swp_transit; [done|done|]. apply swp_bind. fold recovering.
  apply resume_wp; [by apply Hbacked|done|..].
  - intros session s' Hs Hm Hd Hh. apply swp_bind, (rotated_wp _ session); [done..|]. intros s2 Ha Ht. by apply swp_bind, swp_get, swp_ret.
  - intros e s' Hs Hm He. apply swp_bind, failed_wp; [done..|]. intros s2 Ha Ht. by apply swp_bind, swp_get, swp_ret.
  - intros s' (Ha & Hsup & Hq) Hm. split; [done|]. split; [done|]. rewrite Hsup. split; [done|]. by intros [E0|E0].
Qed.
Lemma report_recover_wp availability source :
  swp (report_recover b availability source c) (fun _ => turned s) (fun _ => turned s) (turned s) s.
Proof using Halone Hready Hbacked Hdiscreet Hholds Hapart.
  apply swp_bind, swp_transit; [done|done|]. apply swp_bind. fold recovering.
  apply resume_wp; [by apply Hbacked|done|..].
  - intros session s' Hs Hm Hd Hh.
    pose proof (rotated_wp (fun x => reporting (rotated x session) availability source) session
      (fun ok s2 => ok = true /\ turned s s2) (fun _ _ => False) (fun _ => False) s' Hs Hm Hd Hh) as Hr.
    unfold swp, mbind, Sess_bind in *. destruct (write _ s') as [[[[]|e]|] s2]; try (by destruct Hr).
    destruct (transit _ _ s2) as [[[ok|e]|] s3]; try (by destruct Hr). destruct Hr as [-> Ht]; auto.
  - intros e s' Hs Hm He. pose proof Hs as (Ha & Hsup & _). apply swp_bind, swp_read_alone; [done|]. rewrite Hsup. simpl.
    apply swp_bind, swp_bind, failed_wp; [done..|]. intros s2 _ Ht. by apply swp_ret, swp_fail.
  - intros s' (Ha & Hsup & Hq) Hm. split; [done|]. split; [done|]. rewrite Hsup. split; [done|]. by intros [E0|E0].
Qed.
End Recovering.

(** ** Every task *)
Definition fair (s s' : World * Run N) : Prop :=
  respects s.1 s'.1 /\ (quiet (rn_net s.2) -> quiet (rn_net s'.2))
  /\ (settling (rn_sup s.2) -> kept tc s.1 s'.1 /\ sv_lifecycle (rn_sup s'.2) = sv_lifecycle (rn_sup s.2))
  /\ (~ settling (rn_sup s.2) -> rotates s.1 s'.1 /\ backed s'.1 (rn_sup s'.2) /\ ~ settling (rn_sup s'.2)).
Definition fairly {A} (m : Op A) : Prop :=
  forall s, alone s -> backed s.1 (rn_sup s.2) -> swp m (fun _ => fair s) (fun _ => fair s) (fair s) s.

Lemma calm_fair s s' : backed s.1 (rn_sup s.2) -> calm s s' -> fair s s'.
Proof.
  intros Hb (Ew & _ & El & Ec & Hq). destruct s as [w r], s' as [w' r']. simpl in *. subst w'. split; [by split_and!|]. split; [done|]. split; [done|].
  intros Hs. unfold backed, settling in *. simpl. rewrite El, Ec. split; [by intros S|done].
Qed.
Lemma turned_fair s s' : sv_lifecycle (rn_sup s.2) = LsReady -> turned s s' -> fair s s'.
Proof.
  intros Hl ([Hr Ho] & Hq & Hb & Hs). split; [done|]. split; [done|]. split; [|done]. intros [E|E]; congruence.
Qed.
Lemma fairly_flat {A} (m : Op A) : flat m -> fairly m.
Proof. intros Hm s Ha Hb. eapply swp_mono; [by apply Hm|simpl; intros; by apply calm_fair..|done]. Qed.

Lemma fairly_heartbeat_reply backoff c reply : fairly (heartbeat_reply b backoff c reply).
Proof using Hdiscreet Hholds Hapart.
  intros s Ha Hb. assert (fair s s) as Href by (apply calm_fair; [done|by apply calm_refl]).
  apply swp_bind, swp_bind, swp_get. destruct (sv_cancel _); [by apply swp_ret, swp_ret|].
  apply swp_bind, swp_read_alone; [done|]. apply swp_ret.
  destruct (sv_lifecycle (rn_sup s.2)) eqn:El; try (by apply swp_ret).
  assert (forall m : Op Turn, flat m -> swp m (fun _ => fair s) (fun _ => fair s) (fair s) s) as Hf by (intros m Hm; by apply fairly_flat).
  destruct reply as [response|e]; [apply Hf; flatten|].
  destruct e as [| | | | | | |status code rb| | | | |]; try (apply Hf; flatten; apply flat_cancelled).
  destruct code; try (apply Hf; flatten; apply flat_cancelled).
  eapply swp_mono; [by apply heartbeat_recover_wp|simpl; intros; by apply turned_fair..].
Qed.
Lemma fairly_report_reply availability source c reply : fairly (report_reply b availability source c reply).
Proof using Hdiscreet Hholds Hapart.
  intros s Ha Hb. assert (fair s s) as Href by (apply calm_fair; [done|by apply calm_refl]).
  apply swp_bind, swp_bind, swp_read_alone; [done|]. case_bool_decide as El; [by apply swp_fail|]. apply swp_ret.
  assert (sv_lifecycle (rn_sup s.2) = LsReady) as Hl by (by destruct (decide (sv_lifecycle (rn_sup s.2) = LsReady))).
  assert (forall m : Op unit, flat m -> swp m (fun _ => fair s) (fun _ => fair s) (fair s) s) as Hf by (intros m Hm; by apply fairly_flat).
  destruct reply as [response|e]; [apply Hf; flatten|].
  destruct e as [| | | | | | |status code rb| | | | |]; try (by apply Hf; flatten).
  destruct code; try (by apply Hf; flatten).
  eapply swp_mono; [by apply report_recover_wp|simpl; intros; by apply turned_fair..].
Qed.

(** What the tasks of a session do between two waits. *)
Inductive session_part : forall {A : Type}, Op A -> Prop :=
| sp_snapshot : session_part snapshot
| sp_read {A} (f : Credential -> N -> Result ClientError A * N) :
    (forall c n, quiet n -> quiet (f c n).2) -> session_part (session_read b f)
| sp_operate {A} (f : Credential -> N -> Result ClientError A * N) :
    (forall c n, quiet n -> quiet (f c n).2) -> session_part (session_operate b f)
| sp_send request : session_part (send_prepared b request)
| sp_owned_send authority request entry : session_part (owned_send authority request entry)
| sp_heartbeat_request backoff : session_part (heartbeat_request backoff)
| sp_heartbeat_reply backoff c reply : session_part (heartbeat_reply b backoff c reply)
| sp_report_register seen : session_part (report_register seen)
| sp_report_request availability source : session_part (report_request availability source)
| sp_report_reply availability source c reply : session_part (report_reply b availability source c reply)
| sp_report_finish : session_part report_finish
| sp_request_shutdown : session_part request_shutdown
| sp_shutdown : session_part shutdown.

Lemma fairly_part {A} (m : Op A) : session_part m -> fairly m.
Proof using Hdiscreet Hholds Hapart.
  intros [].
  all: try apply fairly_heartbeat_reply; try apply fairly_report_reply; apply fairly_flat.
  - unfold snapshot. flatten.
  - by apply flat_session_read.
  - by apply flat_session_operate.
  - apply flat_send_prepared.
  - apply flat_owned_send.
  - apply flat_heartbeat_request.
  - unfold report_register. flatten.
  - apply flat_report_request.
  - unfold report_finish. flatten.
  - apply flat_request_shutdown.
  - apply flat_shutdown.
Qed.

(** Such a part as what another task does during a wait; [choices] decide its races. *)
Definition task {A} (m : Op A) (choices : list bool) : Scene N -> Scene N := fun '(w, n, s) =>
  match m (w, {| rn_net := n; rn_sup := s; rn_others := []; rn_choices := choices |}) with
  | (_, (w', r')) => (w', rn_net r', rn_sup r')
  end.
Definition session_task (f : Scene N -> Scene N) : Prop :=
  exists (A : Type) (m : Op A) choices, session_part m /\ f = task m choices.

Lemma task_fair f w n v w' n' v' :
  session_task f -> backed w v -> f (w, n, v) = (w', n', v') ->
  respects w w' /\ (quiet n -> quiet n')
  /\ (settling v -> kept tc w w' /\ sv_lifecycle v' = sv_lifecycle v)
  /\ (~ settling v -> rotates w w' /\ backed w' v' /\ ~ settling v').
Proof using Hdiscreet Hholds Hapart.
  intros (A & m & choices & Hm & ->) Hb. unfold task. set (r := {| rn_net := n |}).
  pose proof (fairly_part m Hm (w, r) eq_refl Hb) as Hf. unfold swp in Hf.
  destruct (m (w, r)) as [x [w1 r1]]. intros [= <- <- <-]. destruct x as [[a|e]|]; exact Hf.
Qed.
End Rotating.
End Tasks.

(** The tasks keep to the protocol. *)
Lemma task_polite f : discreet -> apart -> session_task f -> polite b pname cname jname quiet f.
Proof.
  intros Hd Ha Hf w n v w' n' v' Hrun Hs.
  destruct (task_fair Hd (fun _ _ => True) (fun _ _ _ _ _ _ _ _ => I) Ha f w n v w' n' v' Hf) as (Hr & Hq & Hl & Hn); [|done|].
  { intros El. split; [by apply Hs|done]. }
  split_and!; try done; try (by apply Hl). intros Hns. destruct (Hn Hns) as (Hro & Hb & Hs'). split_and!; try done.
  intros El. by apply Hb.
Qed.
End Company.

(** C12: leaving is write-ahead logged, beside the other tasks of the session.  From a
    session at rest, with heartbeats, rotations, reports, sends, reads and shutdowns going
    on whenever the leave waits, whatever fails, wherever the process dies and whatever
    power is lost, the leave leaves behind what [write_ahead] says: authority is given up
    only after the relay granted the leave, and a leave the relay may have made effective is
    on record until then. *)
Theorem leave_is_write_ahead {N : Type} `{SessionTransport N} `{Os} `{UrlCrate} `{HttpHeaders} `{Crypto}
    `{SerdeLaws LeaveJournal} `{Serialize CredentialRecord, !Deserialize CredentialRecord}
    b pname cname jname (quiet : N -> Prop) w r x w' r' :
  lawful (bi_journal_issuer b) (bi_profile b) -> Z.ldiff 384 umask = 384 ->
  discreet quiet -> apart b cname -> leavable b pname cname jname w ->
  Forall (session_task b quiet) (rn_others r) -> ~ settling (rn_sup r) -> quiet (rn_net r) ->
  session_leave b (w, r) = (x, (w', r')) ->
  write_ahead b pname cname jname quiet w x w' (rn_net r').
Proof.
  intros Hi Hm Hd Ha Hl Ho. apply polite_leave; try done. eapply Forall_impl; [exact Ho|]. intros f. by apply task_polite.
Qed.

(** ** The published credential *)
Section Published.
Context {N : Type} `{SessionTransport N} `{Os} `{UrlCrate} `{HttpHeadersLaws} `{CryptoLaws}.
Context `{Hcodec : SerdeLaws CredentialRecord}.
Variables (b : Bindings) (cname : string).
Abbreviation cdir := (cs_directory_guard (bi_store b)).
Abbreviation tc := (path_join cdir cname).

(** The relay's credentials are well formed, and their records fit. *)
Definition issuing : Prop := forall squad q c n session,
  (st_resume squad q c n).1 = Ok session ->
  (exists header, Credential_from_response header = Ok (ses_credential session))
  /\ len (to_json (record_of (bi_binding b) (ses_credential session))) <= MAX_CREDENTIAL_BYTES.
(** What a restart would find is the credential in use. *)
Definition in_use (w : World) (v : Supervisor) : Prop :=
  sv_lifecycle v = LsReady -> forall nodes, found w nodes ->
  (credential_load (bi_store b) (bi_binding b) (reboot nodes)).1 = Done (Ok (sh_credential (sv_shared v))).

Lemma backed_in_use w v :
  path_file_name (cs_path (bi_store b)) = Some cname ->
  backed b cname (fun n c => credential_content (bi_binding b) n = Ok c) w v -> in_use w v.
Proof.
  intros Hn Hb El nodes Hf. destruct (Hb El) as [Hd Hc]. rewrite (credential_load_content _ _ Hn). simpl.
  pose proof (only_found _ _ _ _ Hd Hf) as E. simpl in E. by rewrite E, Hc.
Qed.

Lemma tasks_backed holds tasks w n v w' n' v' :
  discreet (fun _ : N => True) ->
  (forall squad q c n session text,
    (st_resume squad q c n).1 = Ok session -> header_to_str (cd_value (ses_credential session)) = Some text ->
    holds (Some (private_file (to_json (record_with b (ses_credential session) text)))) (ses_credential session)) ->
  apart b cname -> Forall (session_task b (fun _ => True)) tasks ->
  backed b cname holds w v -> foldl (fun s f => f s) (w, n, v) tasks = (w', n', v') -> backed b cname holds w' v'.
Proof.
  intros Hd Hh Ha Ht. revert w n v. induction Ht as [|f tasks Hf Ht IH]; intros w n v Hb; simpl; [by intros [= <- <- <-]|].
  destruct (f (w, n, v)) as [[w1 n1] v1] eqn:Ef. apply IH.
  destruct (task_fair b "" cname "" (fun _ => True) Hd holds Hh Ha f w n v w1 n1 v1 Hf Hb Ef) as (_ & _ & Hl & Hn).
  destruct (decide (sv_lifecycle v = LsLeaving \/ sv_lifecycle v = LsLeft)) as [Hs|Hs]; [|by apply Hn].
  intros El. destruct (Hl Hs) as [_ E]. destruct Hs; congruence.
Qed.

(** C13: a ready session uses the credential that its file holds.  Through any sequence of
    heartbeats, rotations, reports, sends and shutdowns, with any failures of the relay and
    of the file system, whenever the session is ready, a restart after any loss of power
    loads the very credential the session has published. *)
Theorem ready_session_uses_stored_credential tasks w n v w' n' v' :
  issuing -> rebind (bi_binding b) = Ok (bi_binding b) -> Z.ldiff 384 umask = 384 -> apart b cname ->
  durable w tc -> in_use w v -> Forall (session_task b (fun _ => True)) tasks ->
  foldl (fun s f => f s) (w, n, v) tasks = (w', n', v') -> in_use w' v'.
Proof.
  intros Hi Hr Hm Ha Hd Hu Ht Hrun. pose proof (ap_name _ _ Ha) as Hn. apply backed_in_use; [done|].
  eapply tasks_backed; [done| |done|done| |exact Hrun].
  - intros squad q c n1 session text Hs Htext. destruct (Hi _ _ _ _ _ Hs) as [[header Hh] Hl].
    destruct (issued_credential _ _ Hh) as (_ & _ & _ & Hva & _). rewrite (header_text _ Hva) in Htext. injection Htext as <-.
    by eapply credential_content_stored.
  - intros El. split; [done|]. pose proof (Hu El (w_nodes w) (or_introl eq_refl)) as E.
    rewrite (credential_load_content _ _ Hn) in E. simpl in E. by injection E.
Qed.
End Published.

(** A leave that is refused locally disables the reports.  A leave attempted while the
    session recovers its lease fails as not ready, but its cancellation of the reports is
    never undone: when the session is ready again, every report is refused. *)
Theorem failed_leave_disables_reports {N : Type} `{SessionTransport N} `{Os} `{UrlCrate} `{HttpHeaders} `{Crypto}
    `{Serialize LeaveJournal, !Deserialize LeaveJournal} `{Serialize CredentialRecord, !Deserialize CredentialRecord}
    b w (r : Run N) :
  rn_others r = [] -> sv_lifecycle (rn_sup r) = LsRecovering -> rt_active (sv_reports (rn_sup r)) = 0 ->
  exists r', session_leave b (w, r) = (SDone (Err SeNotReady), (w, r'))
    /\ forall availability seen, let ready := with_sup r' (set_lifecycle (rn_sup r') LsReady) in
         report_availability b availability seen (w, ready) = (SDone (Err SeNotReady), (w, ready)).
Proof.
  intros Ho Hl Ha. exists (with_sup r (set_reports (rn_sup r) (ReportTracker_cancel (sv_reports (rn_sup r))))). split.
  - unfold session_leave, outcome, drain_reports, begin_leave, read, wait, get, modify, with_sup, mbind, Sess_bind. simpl. rewrite Ho. simpl.
    rewrite Ha. simpl. rewrite Ho. simpl. by rewrite Hl.
  - intros availability seen ready. unfold report_availability, report_register, get, register, s_try, mbind, Sess_bind. simpl.
    by rewrite orb_true_r.
Qed.
