(* ===== verification/Desk.v ===== *)
(** * Desk: a profile on disk, to run the theorems of the stores on *)
From stdpp Require Import gmap countable.
From Stdlib Require Import Ascii.
From S2P Require Import Prelude Text Core Base64 Files Credential Dto Validation Client Codec Failure Profile Journal CredentialStore Durability Recovery Ledger Startup Departure Restart Leaving Farewell Running Company.

(** ** The environment *)
#[local] Instance desk_os : Os := {| effective_uid := 1000; umask := 18 |}.
#[local] Instance desk_urls : UrlCrate := {|
  url_parse s := host ← strip_prefix "http://" s;
    Some {| url_scheme := "http"; url_host := Some host; url_username := ""; url_password := None; url_port := None;
            url_query := None; url_fragment := None; url_path := "/" |};
  url_join u path := Some ("http://" +:+ default "" (url_host u) +:+ "/" +:+ path);
  url_as_str u := "http://" +:+ default "" (url_host u) +:+ url_path u |}.

#[local] Instance phase_countable : Countable LeavePhase.
Proof.
  refine (inj_countable' (fun p => match p with Intent => false | Confirmed => true end)
    (fun b : bool => if b then Confirmed else Intent) _). by intros [].
Defined.
#[local] Instance journal_eq_dec : EqDecision LeaveJournal.
Proof. solve_decision. Defined.
#[local] Instance journal_countable : Countable LeaveJournal.
Proof.
  refine (inj_countable
    (fun j => [countable.encode (lj_version j); countable.encode (lj_phase j); countable.encode (lj_relay_origin j); countable.encode (lj_profile j);
      countable.encode (lj_squad_name j); countable.encode (lj_squad_id j); countable.encode (lj_member_id j); countable.encode (lj_operation_id j);
      countable.encode (lj_created_at j); countable.encode (lj_confirmed_at j)])
    (fun l => match l with
      | [v; p; o; f; n; s; m; i; c; d] =>
          v ← countable.decode v; p ← countable.decode p; o ← countable.decode o; f ← countable.decode f; n ← countable.decode n; s ← countable.decode s; m ← countable.decode m; i ← countable.decode i;
          c ← countable.decode c; d ← countable.decode d;
          Some {| lj_version := v; lj_phase := p; lj_relay_origin := o; lj_profile := f; lj_squad_name := n; lj_squad_id := s;
                  lj_member_id := m; lj_operation_id := i; lj_created_at := c; lj_confirmed_at := d |}
      | _ => None
      end) _).
  intros []. by repeat (rewrite countable.decode_encode; cbn [mbind option_bind]).
Defined.
#[local] Instance record_eq_dec : EqDecision CredentialRecord.
Proof. solve_decision. Defined.
#[local] Instance record_countable : Countable CredentialRecord.
Proof.
  refine (inj_countable
    (fun r => [countable.encode (rec_version r); countable.encode (rec_relay_origin r); countable.encode (rec_profile r); countable.encode (rec_squad_id r);
      countable.encode (rec_member_id r); countable.encode (rec_instance_id r); countable.encode (rec_authorization r)])
    (fun l => match l with
      | [v; o; f; s; m; i; a] =>
          v ← countable.decode v; o ← countable.decode o; f ← countable.decode f; s ← countable.decode s; m ← countable.decode m; i ← countable.decode i; a ← countable.decode a;
          Some {| rec_version := v; rec_relay_origin := o; rec_profile := f; rec_squad_id := s; rec_member_id := m;
                  rec_instance_id := i; rec_authorization := a |}
      | _ => None
      end) _).
  intros []. by repeat (rewrite countable.decode_encode; cbn [mbind option_bind]).
Defined.
#[local] Instance profile_countable : Countable ProfileBinding.
Proof.
  refine (inj_countable
    (fun r => [countable.encode (pb_version r); countable.encode (pb_profile r); countable.encode (pb_relay_origin r); countable.encode (pb_squad_name r);
      countable.encode (pb_squad_id r); countable.encode (pb_member_id r)])
    (fun l => match l with
      | [v; f; o; n; s; m] =>
          v ← countable.decode v; f ← countable.decode f; o ← countable.decode o; n ← countable.decode n; s ← countable.decode s; m ← countable.decode m;
          Some {| pb_version := v; pb_profile := f; pb_relay_origin := o; pb_squad_name := n; pb_squad_id := s;
                  pb_member_id := m |}
      | _ => None
      end) _).
  intros []. by repeat (rewrite countable.decode_encode; cbn [mbind option_bind]).
Defined.
#[local] Existing Instances countable_serialize countable_deserialize countable_laws.

(** ** The records *)
Definition desk_profile : ProfileBinding :=
  {| pb_version := 1; pb_profile := "work"; pb_relay_origin := "http://relay"; pb_squad_name := "alpha";
     pb_squad_id := "sqd_1"; pb_member_id := "mem_1" |}.
Definition desk_binding : CredentialBinding :=
  {| cb_relay_origin := "http://relay"; cb_profile := "work"; cb_squad_id := "sqd_1"; cb_member_id := "mem_1" |}.
Definition desk_intent : LeaveJournal :=
  {| lj_version := 1; lj_phase := Intent; lj_relay_origin := "http://relay"; lj_profile := "work"; lj_squad_name := "alpha";
     lj_squad_id := "sqd_1"; lj_member_id := "mem_1"; lj_operation_id := "op1"; lj_created_at := {| ts_nanos := 0 |};
     lj_confirmed_at := None |}.
Definition desk_confirmed : LeaveJournal :=
  {| lj_version := 1; lj_phase := Confirmed; lj_relay_origin := "http://relay"; lj_profile := "work"; lj_squad_name := "alpha";
     lj_squad_id := "sqd_1"; lj_member_id := "mem_1"; lj_operation_id := "op1"; lj_created_at := {| ts_nanos := 0 |};
     lj_confirmed_at := Some {| ts_nanos := 1000000 |} |}.
Definition desk_header : string := encoded example_credential.
Definition desk_credential : Client.Credential :=
  {| cd_value := "Bearer " +:+ desk_header; cd_instance_id := "ins_42" |}.

(** ** The files *)
Definition desk_cdir : Path := ["srv"; "credentials"].
Definition desk_pdir : Path := ["srv"; "profiles"].
Definition desk_world (journal : option LeaveJournal) (script : list Event) : World :=
  {| w_nodes :=
       match journal with
       | Some j => <[path_join desk_pdir "work.leave-v1.json" := File 384 (to_json j) true]>
       | None => id
       end
       (<[["srv"] := Directory 1000 448]> (<[desk_cdir := Directory 1000 448]> (<[desk_pdir := Directory 1000 448]>
       (<[path_join desk_cdir "work.json" := File 384 (to_json (record_of desk_binding desk_credential)) true]>
       (<[path_join desk_pdir "work.json" := File 384 (to_json desk_profile) true]> ∅)))));
     w_earlier := ∅; w_script := script; w_entropy := ["0123456789abcdef"; "fedcba9876543210"] |}.
Definition desk_spec : RuntimeSpec :=
  {| rs_profile := desk_profile;
     rs_paths := {| pp_metadata := path_join desk_pdir "work.json"; pp_credential := path_join desk_cdir "work.json";
                    pp_lock := ["run"; "work.lock"] |};
     rs_mode := HarnessedDto; rs_client_metadata := {| cm_kind := "test"; cm_hostname := None; cm_version := None |};
     rs_shutdown_bound := 0%N |}.
Definition desk_store : CredentialStore := the_store desk_cdir "work.json".
Definition desk_journal : LeaveJournalStore := the_journal desk_pdir "work.json".

Lemma desk_plain_c journal script : plain (w_nodes (desk_world journal script)) desk_cdir.
Proof. intros [|[|[|k]]] Hk; simpl in Hk; try lia; exists 1000, 448; destruct journal; reflexivity. Qed.
Lemma desk_plain_p journal script : plain (w_nodes (desk_world journal script)) desk_pdir.
Proof. intros [|[|[|k]]] Hk; simpl in Hk; try lia; exists 1000, 448; destruct journal; reflexivity. Qed.

Lemma desk_durable journal script p : settled (w_nodes (desk_world journal script) !! p) -> durable (desk_world journal script) p.
Proof. by apply synced_durable. Qed.

(** ** Storing *)
Definition desk_stored : Exit unit * World := store_with_fault desk_journal desk_intent NoFault (desk_world None []).
Lemma leave_journal_is_durable_witness :
  desk_stored.1 = Done (Ok tt)
  /\ forall nodes, found desk_stored.2 nodes ->
       (journal_load desk_journal desk_profile (reboot nodes)).1 = Done (Ok (Some desk_intent)).
Proof.
  split; [vm_compute; reflexivity|].
  destruct (leave_journal_is_durable desk_journal "work.leave-v1.json" desk_intent desk_profile NoFault (desk_world None [])
    desk_stored.1 desk_stored.2) as (_ & Hok & _).
  - vm_compute. reflexivity.
  - apply desk_durable. exact I.
  - vm_compute. reflexivity.
  - vm_compute. reflexivity.
  - exact (surjective_pairing desk_stored).
  - apply Hok. vm_compute. reflexivity.
Defined.

Definition desk_rotated : Exit unit * World :=
  credential_store_with_fault desk_store desk_binding desk_credential CfBeforeReplace (desk_world None []).
Lemma stored_credential_is_durable_witness :
  desk_rotated.1 = Done (Err credential_injected)
  /\ forall nodes, found desk_rotated.2 nodes ->
       (credential_load desk_store desk_binding (reboot nodes)).1 = Done (Ok desk_credential).
Proof.
  split; [vm_compute; reflexivity|]. intros nodes Hf.
  destruct (stored_credential_is_durable desk_store "work.json" desk_binding desk_header desk_credential CfBeforeReplace
    (desk_world None []) desk_rotated.1 desk_rotated.2) as (Hold & _ & _).
  - vm_compute. reflexivity.
  - apply desk_durable. exact I.
  - vm_compute. reflexivity.
  - vm_compute. reflexivity.
  - vm_compute. reflexivity.
  - vm_compute. discriminate.
  - exact (surjective_pairing desk_rotated).
  - destruct (Hold nodes Hf) as [E|E]; [|exact E]. rewrite E. vm_compute. reflexivity.
Defined.

Definition desk_saved : Exit unit * World := store_profile (path_join desk_pdir "work.json") desk_profile (desk_world None [Works; Crashes 0]).
Lemma stored_profile_is_durable_witness :
  desk_saved.1 = Crashed
  /\ forall nodes, found desk_saved.2 nodes ->
       (load_profile (path_join desk_pdir "work.json") (reboot nodes)).1 = Done (Ok (Some desk_profile)).
Proof.
  split; [vm_compute; reflexivity|]. intros nodes Hf.
  destruct (stored_profile_is_durable desk_pdir "work.json" desk_profile (desk_world None [Works; Crashes 0]) desk_saved.1 desk_saved.2)
    as (Hold & _).
  - split; [apply desk_plain_p|]. intros k. reflexivity.
  - apply desk_durable. exact I.
  - exact I.
  - vm_compute. reflexivity.
  - vm_compute. discriminate.
  - unfold desk_saved. destruct (store_profile _ _ _). reflexivity.
  - destruct (Hold nodes Hf) as [E|E]; [|exact E]. rewrite E. vm_compute. reflexivity.
Defined.

(** ** Leaving *)
Lemma desk_bound script : bound desk_store desk_pdir "work.json" desk_journal "work.json" "work.leave-v1.json" (desk_world (Some desk_confirmed) script).
Proof.
  constructor; try reflexivity; try (apply desk_durable; exact I); try (vm_compute; discriminate).
  - apply desk_plain_p.
  - intros [|[|[|k]]]; vm_compute; discriminate.
Qed.

Definition desk_cleaned : Exit unit * World :=
  cleanup_confirmed_leave desk_store (path_join desk_pdir "work.json") desk_journal NoCleanupFault (desk_world (Some desk_confirmed) []).

Lemma replayed_clear_is_not_durable_witness :
  exists w1 w2, clear desk_store (desk_world None [Works; Fails EIO 0]) = (Done (Err (fault_error EIO)), w1)
    /\ clear desk_store w1 = (Done (Ok tt), w2)
    /\ exists nodes, power_loss w2 nodes
       /\ nodes !! path_join desk_cdir "work.json" = Some (File 384 (to_json (record_of desk_binding desk_credential)) true).
Proof.
  apply (replayed_clear_is_not_durable desk_store "work.json" EIO 0 384 (to_json (record_of desk_binding desk_credential))
    (desk_world None [Works; Fails EIO 0])).
  - vm_compute. reflexivity.
  - reflexivity.
  - reflexivity.
Defined.

(** ** Starting *)
Definition desk_heartbeat : HeartbeatResponse :=
  {| hbp_lease_expires_at := {| ts_nanos := 30000000000 |}; hbp_heartbeat_interval_seconds := 10 |}.
#[local] Instance desk_relay : SessionTransport unit := {|
  st_join _ _ n := (Err CeTimeout, n); st_leave _ _ n := (Err CeTimeout, n);
  st_heartbeat _ _ n := (Ok desk_heartbeat, n); st_resume _ _ _ n := (Err CeTimeout, n);
  st_send_prepared _ _ n := (Err CeTimeout, n) |}.
Definition desk_issuer : JournalIssuer := SystemJournalIssuer (Ok "0123456789abcdef") 0.

Lemma desk_at_rest journal script : at_rest desk_spec desk_cdir "work.json" desk_pdir "work.json" (desk_world journal script).
Proof.
  constructor.
  - reflexivity.
  - reflexivity.
  - apply desk_plain_c.
  - apply desk_plain_p.
  - discriminate.
  - discriminate.
  - intros [name E]. unfold path_join, desk_pdir in E. injection E as E. discriminate E.
  - apply desk_durable. destruct journal; exact I.
  - apply desk_durable. destruct journal; exact I.
  - apply desk_durable. destruct journal; exact I.
  - destruct journal; exact I.
  - destruct journal; exact I.
  - destruct journal; exact I.
Qed.

Definition desk_start (journal : LeaveJournal) : SExit Started * (World * unit) :=
  start_locked_with desk_spec desk_issuer NoCleanupFault (desk_world (Some journal) [], tt).
Lemma startup_keeps_unconfirmed_authority_witness :
  (desk_start desk_intent).1 = SDone (Ok (started desk_store desk_journal desk_binding desk_credential desk_heartbeat 0))
  /\ forall nodes, found (desk_start desk_intent).2.1 nodes -> is_Some (nodes !! path_join desk_cdir "work.json").
Proof.
  split; [vm_compute; reflexivity|]. intros nodes Hf.
  destruct (startup_keeps_unconfirmed_authority desk_spec desk_cdir "work.json" desk_pdir "work.json" desk_issuer NoCleanupFault
    (desk_world (Some desk_intent) []) tt (desk_start desk_intent).1 (desk_start desk_intent).2.1 (desk_start desk_intent).2.2)
    with (nodes := nodes) as [_ Hc].
  - apply desk_at_rest.
  - unfold desk_start. by destruct (start_locked_with _ _ _ _) as [x [w' n']].
  - intros pending Hj. split; [|intros c Hd; exact Hd]. vm_compute in Hj. injection Hj as <-. reflexivity.
  - exact Hf.
  - apply Hc. exists (File 384 (to_json (record_of desk_binding desk_credential)) true). reflexivity.
Defined.


(** ** A running session *)
Definition desk_bindings : Bindings :=
  {| bi_profile := desk_profile; bi_binding := desk_binding; bi_squad_name := "alpha"; bi_store := desk_store;
     bi_metadata_path := path_join desk_pdir "work.json"; bi_journal := desk_journal; bi_journal_issuer := desk_issuer;
     bi_cleanup_seam := NoCleanupFault; bi_mode := HarnessedDto; bi_client_metadata := rs_client_metadata desk_spec |}.
Definition desk_supervisor (lifecycle : LifecycleState) : Supervisor :=
  {| sv_shared := sd_shared (started desk_store desk_journal desk_binding desk_credential desk_heartbeat 0);
     sv_lifecycle := lifecycle; sv_sends := SendLedger_new; sv_reports := ReportTracker_new; sv_shutdown_requested := false;
     sv_cancel := false; sv_operation_cancel := false; sv_read_cancel := false; sv_task := true; sv_profile_lock := true |}.
Definition desk_next_header : string := "ins_43.MDEyMzQ1Njc4OWFiY2RlZjAxMjM0NTY3ODlhYmNkZWY".
Definition desk_next : Client.Credential := {| cd_value := "Bearer " +:+ desk_next_header; cd_instance_id := "ins_43" |}.
Definition desk_session : Session :=
  {| ses_response := {| sep_agent_id := "agt_1"; sep_membership_id := "mem_1"; sep_instance_id := "ins_43";
       sep_squad := {| ss_id := "sqd_1"; ss_name := "alpha"; ss_mission := "m"; ss_state := SqActiveDto;
                       ss_created_at := {| ts_nanos := 0 |}; ss_archived_at := None |};
       sep_member_name := "ada"; sep_role := "dev"; sep_heartbeat_interval_seconds := 10; sep_lease_seconds := 30;
       sep_lease_expires_at := {| ts_nanos := 30000000000 |} |};
     ses_credential := desk_next |}.
(** A relay that counts the leaves it was asked for. *)
Definition desk_leave_response : LeaveSquadResponse := {| lsr_membership_id := "mem_1"; lsr_left_at := {| ts_nanos := 0 |} |}.
#[local] Instance desk_counter : SessionTransport nat := {|
  st_join _ _ n := (Err CeTimeout, n); st_leave _ _ n := (Ok desk_leave_response, S n);
  st_heartbeat _ _ n := (Ok desk_heartbeat, n); st_resume _ _ _ n := (Ok desk_session, n);
  st_send_prepared _ _ n := (Err CeTimeout, n) |}.
(** The heartbeat finds its lease expired, and rotates the credential. *)
Definition desk_rotation : Scene nat -> Scene nat :=
  task (heartbeat_reply desk_bindings (Duration_from_secs 1) desk_credential (Err (CeApi 409 ApiLeaseExpired false))) [].
Definition desk_beat : Scene nat -> Scene nat := task (heartbeat_request (Duration_from_secs 1)) [].
Definition desk_run (lifecycle : LifecycleState) (others : list (Scene nat -> Scene nat)) : Run nat :=
  {| rn_net := O; rn_sup := desk_supervisor lifecycle; rn_others := others; rn_choices := [] |}.

Lemma desk_apart : apart desk_bindings "work.json".
Proof.
  constructor; [reflexivity|discriminate|]. intros [|[|[|k]]]; vm_compute; split; discriminate.
Qed.
Lemma desk_leavable : leavable desk_bindings "work.json" "work.json" "work.leave-v1.json" (desk_world None []).
Proof.
  constructor; [|reflexivity|intros [n E]; discriminate E|intros [n E]; discriminate E].
  constructor; try reflexivity; try (apply desk_durable; exact I); try (vm_compute; discriminate).
  - apply desk_plain_p.
  - intros [|[|[|k]]]; vm_compute; discriminate.
Qed.
Lemma desk_rotation_task quiet : session_task desk_bindings quiet desk_rotation.
Proof. eexists _, _, _. split; [|reflexivity]. constructor. Qed.
Lemma desk_beat_task quiet : session_task desk_bindings quiet desk_beat.
Proof. eexists _, _, _. split; [|reflexivity]. constructor. Qed.

Definition desk_left : SExit LeaveSquadResponse * (World * Run nat) :=
  session_leave desk_bindings (desk_world None [], desk_run LsReady [desk_rotation; desk_beat]).
Lemma leave_is_write_ahead_witness :
  desk_left.1 = SDone (Ok desk_leave_response) /\ rn_net desk_left.2.2 = 1%nat
  /\ forall nodes, found desk_left.2.1 nodes -> nodes !! path_join desk_cdir "work.json" = None.
Proof.
  assert (desk_left.1 = SDone (Ok desk_leave_response)) as Hx by (vm_compute; reflexivity).
  split; [exact Hx|]. split; [vm_compute; reflexivity|]. intros nodes Hf.
  assert (write_ahead desk_bindings "work.json" "work.json" "work.leave-v1.json" (fun n => n = O) (desk_world None [])
    desk_left.1 desk_left.2.1 (rn_net desk_left.2.2)) as Hw.
  { apply (leave_is_write_ahead desk_bindings "work.json" "work.json" "work.leave-v1.json" (fun n => n = O) (desk_world None [])
      (desk_run LsReady [desk_rotation; desk_beat])).
    - exact (system_issuer_lawful (Ok "0123456789abcdef") 0 0 desk_profile).
    - vm_compute. reflexivity.
    - constructor; intros; assumption.
    - apply desk_apart.
    - apply desk_leavable.
    - constructor; [apply desk_rotation_task|]. constructor; [apply desk_beat_task|]. constructor.
    - intros [E|E]; discriminate E.
    - reflexivity.
    - unfold desk_left. by destruct (session_leave _ _) as [x [w' r']]. }
  destruct (Hw nodes Hf) as [_ Hok]. by destruct (Hok desk_leave_response Hx).
Defined.

Definition desk_turns : Scene nat := foldl (fun s f => f s) (desk_world None [], O, desk_supervisor LsReady) [desk_beat; desk_rotation].
Lemma ready_session_uses_stored_credential_witness :
  sv_lifecycle desk_turns.2 = LsReady
  /\ forall nodes, found desk_turns.1.1 nodes -> (credential_load desk_store desk_binding (reboot nodes)).1 = Done (Ok desk_next).
Proof.
  assert (sv_lifecycle desk_turns.2 = LsReady) as Hl by (vm_compute; reflexivity). split; [exact Hl|].
  assert (sh_credential (sv_shared desk_turns.2) = desk_next) as Hc by (vm_compute; reflexivity). rewrite <- Hc.
  apply (ready_session_uses_stored_credential desk_bindings "work.json" [desk_beat; desk_rotation] (desk_world None []) O
    (desk_supervisor LsReady) desk_turns.1.1 desk_turns.1.2 desk_turns.2); [| | | | | | | |exact Hl].
  - intros squad q c n session [= <-]. split; [exists desk_next_header; vm_compute; reflexivity|vm_compute; discriminate].
  - vm_compute. reflexivity.
  - vm_compute. reflexivity.
  - apply desk_apart.
  - apply desk_durable. exact I.
  - intros _ nodes Hf. rewrite (credential_load_content desk_store "work.json" eq_refl). simpl.
    assert (durable (desk_world None []) (path_join desk_cdir "work.json")) as Hd by (apply desk_durable; exact I).
    pose proof (only_found _ _ _ _ Hd Hf) as E. 
    refine (eq_trans (f_equal (fun x => Done (credential_content desk_binding x)) E) _). vm_compute. reflexivity.
  - constructor; [apply desk_beat_task|]. constructor; [apply desk_rotation_task|]. constructor.
  - unfold desk_turns. by destruct (foldl _ _ _) as [[w' n'] v'].
Defined.

Lemma failed_leave_disables_reports_witness :
  exists r', session_leave desk_bindings (desk_world None [], desk_run LsRecovering []) = (SDone (Err SeNotReady), (desk_world None [], r'))
    /\ (report_availability desk_bindings BusyDto [] (desk_world None [], with_sup r' (set_lifecycle (rn_sup r') LsReady))).1 = SDone (Err SeNotReady).
Proof.
  destruct (failed_leave_disables_reports desk_bindings (desk_world None []) (desk_run LsRecovering [])) as (r' & E & R).
  - reflexivity.
  - reflexivity.
  - reflexivity.
  - exists r'. split; [exact E|]. by rewrite R.
Defined.
