(* ===== verification/Arguments.v ===== *)
(** * Arguments: the server of the tools accepts what the relay's client accepts

    The validators of psst-mcp/src/server.rs are written beside those of psst-core.  They
    agree, but for the correlation id: there the server follows the declared schema. *)
From stdpp Require Import gmap strings.
From Stdlib Require Import Ascii.
From S2P Require Import Prelude Text Core Files Dto Validation Client Failure Config Json AppServer Tools.

(** ** Routing names *)
Lemma all_from_spec f i bytes : all_from f i bytes = true <-> forall k b, bytes !! k = Some b -> f (i + Z.of_nat k) b = true.
Proof.
  revert i. induction bytes as [|b bytes IH]; intros i; simpl; [done|]. rewrite andb_true_iff, IH. split.
  - intros [Hb Hr] [|k] b'; simpl; [intros [= <-]; by rewrite Z.add_0_r|]. intros Hk%Hr. by rewrite <- Hk; f_equal; lia.
  - intros Hall. split; [by rewrite <- (Z.add_0_r i); apply (Hall 0%nat)|]. intros k b' Hk.
    rewrite <- (Hall (S k) b' Hk). f_equal. lia.
Qed.

Definition route_char (member : bool) (b : ascii) : bool :=
  is_ascii_lowercase b || is_ascii_digit b || bool_decide (b = "-"%char)
  || (member && (bool_decide (b = "_"%char) || bool_decide (b = "."%char))).
Definition name_ok (member : bool) : string -> bool := if member then valid_member_name else valid_squad_name.

Lemma route_edge member b : route_char member b = true -> is_ascii_alphanumeric b = is_ascii_lowercase b || is_ascii_digit b.
Proof.
  intros Hb. apply eqb_prop. revert b Hb. destruct member; apply char_cases; vm_compute; reflexivity.
Qed.
Lemma routing_byte_edge length member index b :
  ~ (0 < index /\ index + 1 < length) -> routing_byte length member index b = is_ascii_lowercase b || is_ascii_digit b.
Proof.
  intros Hi. unfold routing_byte. assert ((0 <? index) && (index + 1 <? length) = false) as ->.
  { apply not_true_iff_false. rewrite andb_true_iff, !Z.ltb_lt. done. }
  by rewrite orb_false_r.
Qed.
Lemma routing_byte_inner length member index b :
  0 < index -> index + 1 < length -> routing_byte length member index b = route_char member b.
Proof.
  intros Hi Hl. unfold routing_byte, route_char. rewrite (proj2 (Z.ltb_lt _ _) Hi), (proj2 (Z.ltb_lt _ _) Hl). simpl.
  apply eqb_prop. revert b. destruct member; apply bytes_all; vm_compute; reflexivity.
Qed.
Lemma routing_all member bytes :
  bytes <> [] ->
  all_from (routing_byte (Z.of_nat (length bytes)) member) 0 bytes = true <->
  from_option is_ascii_alphanumeric false (head bytes) = true /\ from_option is_ascii_alphanumeric false (last bytes) = true
  /\ forallb (route_char member) bytes = true.
Proof.
  intros Hne. rewrite all_from_spec, forallb_forall. assert (0 < length bytes)%nat as Hl by (destruct bytes; simpl; [done|lia]).
  assert (forall k b, bytes !! k = Some b -> (k < length bytes)%nat) as Hk by (intros; by eapply lookup_lt_Some).
  assert (forall k b, routing_byte (Z.of_nat (length bytes)) member k b = true -> route_char member b = true) as Hw.
  { intros k b. destruct (decide (0 < k /\ k + 1 < Z.of_nat (length bytes))) as [[H1 H2]|Hn]; [by rewrite routing_byte_inner|].
    rewrite routing_byte_edge by done. unfold route_char. by intros ->. }
  split.
  - intros Hall. assert (forall b, b ∈ bytes -> route_char member b = true) as Hr.
    { intros b [k Hb]%list_elem_of_lookup. by eapply Hw, Hall. }
    assert (forall k b, bytes !! k = Some b -> k = 0%nat \/ k = pred (length bytes) -> is_ascii_alphanumeric b = true) as He.
    { intros k b Hb Ho. rewrite (route_edge member) by (by apply Hr, list_elem_of_lookup; exists k).
      rewrite <- (Hall k b Hb). symmetry. apply routing_byte_edge. lia. }
    split; [|split].
    + destruct bytes as [|b bytes]; [done|]. apply (He 0%nat); auto.
    + rewrite last_lookup. destruct (lookup_lt_is_Some_2 bytes (pred (length bytes))) as [b Hb]; [lia|]. rewrite Hb. simpl. eapply He; eauto.
    + intros b Hb. by apply Hr, list_elem_of_In.
  - intros (Hh & Hlast & Hr) k b Hb. assert (route_char member b = true) as Hc.
    { apply Hr, list_elem_of_In, list_elem_of_lookup. by exists k. }
    rewrite Z.add_0_l. destruct (decide (0 < Z.of_nat k /\ Z.of_nat k + 1 < Z.of_nat (length bytes))) as [[H1 H2]|Hn].
    { by rewrite routing_byte_inner. }
    rewrite routing_byte_edge, <- (route_edge member) by done. specialize (Hk k b Hb).
    assert (k = 0%nat \/ k = pred (length bytes)) as [->| ->] by lia.
    + by rewrite <- head_lookup in Hb; rewrite Hb in Hh.
    + by rewrite <- last_lookup in Hb; rewrite Hb in Hlast.
Qed.
Lemma valid_routing_name value max member : valid_routing value max member = text_ok max (name_ok member) value.
Proof.
  unfold valid_routing, text_ok. destruct (is_empty value) eqn:E; [done|]. simpl. f_equal.
  apply eq_true_iff_eq. unfold len. rewrite <- length_as_bytes, routing_all.
  2: { intros Hn. unfold is_empty in E. apply bool_decide_eq_false in E. by destruct value. }
  unfold name_ok, valid_member_name, valid_squad_name, from_option, route_char.
  destruct member; rewrite !andb_true_iff, !forallb_forall; simpl; (split; [intros (H1 & H2 & H3)|intros [[H1 H2] H3]]); (split_and!; [done..|]);
    intros b Hb; specialize (H3 b Hb); rewrite ?orb_false_r, <- ?orb_assoc in *; done.
Qed.

(** ** Ids and trimmed text *)
Lemma valid_message_id_ok value : valid_message_id value = id_ok "msg" value.
Proof.
  unfold valid_message_id, id_ok. change ("msg" +:+ "_") with "msg_". destruct (strip_prefix "msg_" value) as [suffix|] eqn:E.
  2: { by rewrite andb_false_r. }
  apply strip_prefix_Some in E as ->. rewrite len_app. change (len "msg_") with 4.
  unfold id_char. f_equal. f_equal.
  destruct suffix as [|b suffix]; [done|]. simpl. apply Z.leb_le. rewrite len_String. pose proof (len_nonneg suffix). lia.
Qed.
Lemma valid_trimmed_ok value max : valid_trimmed value max = text_ok max trimmed_nonempty value.
Proof.
  unfold valid_trimmed, text_ok, trimmed_nonempty. destruct (is_empty value) eqn:E; [done|]. simpl. f_equal.
  destruct (decide (trim value = value)) as [Ht|Ht]; [|by rewrite bool_decide_eq_false_2].
  rewrite bool_decide_eq_true_2, Ht, E by done. done.
Qed.

(** ** Correlation ids *)
Lemma chars_concat bs : concat (chars bs) = bs.
Proof.
  induction bs as [|b bs IH]; [done|]. simpl. destruct (chars bs) as [|c cs]; simpl in *; [by subst|].
  destruct (starts_with_continuation c); simpl; by rewrite IH.
Qed.
Lemma skip_while_head {A} (f : A -> bool) l : from_option (fun a => negb (f a)) true (head l) = true -> skip_while f l = l.
Proof. destruct l as [|a l]; [done|]. simpl. by destruct (f a). Qed.
Lemma trim_id value :
  let characters := chars (as_bytes value) in
  from_option (fun c => negb (is_whitespace c)) true (head characters) = true ->
  from_option (fun c => negb (is_whitespace c)) true (last characters) = true -> trim value = value.
Proof.
  cbv zeta. intros Hh Hl. unfold trim. cbv zeta. rewrite (skip_while_head _ _ Hh), (skip_while_head _ (rev _)).
  2: { rewrite rev_alt. exact (eq_trans (f_equal _ (head_reverse _)) Hl). }
  rewrite rev_involutive, chars_concat. apply String.string_of_list_ascii_of_string.
Qed.

(** A control character of C1, from U+0080 to U+009F. *)
Definition c1_control (c : list ascii) : bool := (128 <=? code_point c) && (code_point c <=? 159).
Definition has_c1_control (value : string) : bool := existsb c1_control (chars (as_bytes value)).

Lemma is_control_split c : is_control c = ascii_control c || c1_control c.
Proof.
  unfold is_control, ascii_control, c1_control. cbv zeta. apply eq_true_iff_eq.
  rewrite !orb_true_iff, !andb_true_iff, !Z.leb_le, Z.eqb_eq. lia.
Qed.
Lemma whitespace_split c : is_whitespace c = true -> ecmascript_whitespace c = true \/ c1_control c = true.
Proof.
  unfold is_whitespace, ecmascript_whitespace, c1_control. cbv zeta.
  rewrite !orb_true_iff, !andb_true_iff, !Z.leb_le, !Z.eqb_eq. lia.
Qed.
Lemma not_whitespace_edge o (characters : list (list ascii)) :
  (forall c, o = Some c -> In c characters) -> existsb c1_control characters = false ->
  match o with Some c => negb (ecmascript_whitespace c) | None => false end = true ->
  from_option (fun c => negb (is_whitespace c)) true o = true.
Proof.
  destruct o as [c|]; [|done]. simpl. intros Hin Hc1 Hw%negb_true_iff. apply negb_true_iff, not_true_iff_false.
  intros [Hs|Hs]%whitespace_split; [congruence|]. assert (existsb c1_control characters = true); [|congruence].
  apply existsb_exists. eauto.
Qed.

(** The server follows the schema's pattern, the client the validator of psst-core: an id
    that the server accepts is one of the client's unless it has a C1 control. *)
Lemma correlation_id_ok value : valid_correlation_id value = true -> text_ok 256 printable value = negb (has_c1_control value).
Proof.
  unfold valid_correlation_id, text_ok, printable, trimmed_nonempty, has_c1_control. cbv zeta. intros Hv. bool_to_prop.
  match goal with H : is_empty value = false |- _ => rename H into He end.
  match goal with H : forallb _ _ = true |- _ => rename H into Hf end.
  rewrite (proj2 (Z.leb_le _ _)) by done. rewrite He. simpl.
  assert (existsb is_control (chars (as_bytes value)) = existsb c1_control (chars (as_bytes value))) as ->.
  { apply eq_true_iff_eq. rewrite !existsb_exists. rewrite forallb_forall in Hf.
    split; intros (c & Hc & Hp); exists c; (split; [done|]); rewrite is_control_split in *.
    - specialize (Hf c Hc). apply negb_true_iff in Hf. by rewrite Hf in Hp.
    - by rewrite Hp, orb_true_r. }
  destruct (existsb c1_control _) eqn:E; [by rewrite andb_false_r|]. rewrite trim_id.
  - by rewrite bool_decide_eq_true_2, He.
  - eapply not_whitespace_edge; [|done..]. intros c Hc. destruct (chars _); [done|]. injection Hc as ->. by left.
  - eapply not_whitespace_edge; [|done..]. intros c [k Hk]%last_Some. rewrite Hk. apply in_app_iff. right. by left.
Qed.

(** ** Distinct ids *)
Lemma all_new_iff values : forall seen, all_new seen values = true <-> NoDup values /\ forall v, v ∈ values -> v ∉ seen.
Proof.
  induction values as [|v values IH]; intros seen; simpl.
  { split; [|done]. intros _. split; [constructor|]. by intros v Hv%elem_of_nil. }
  rewrite andb_true_iff, bool_decide_eq_true, IH, NoDup_cons. set_solver.
Qed.
Lemma unique_iff values : unique values = true <-> NoDup values.
Proof. unfold unique. rewrite all_new_iff. set_solver. Qed.

(** ** Verdicts *)
Lemma valid_iff {ok} `{!Validator (checked ok) new raw} value : valid (new value) = Ok tt <-> ok value = true.
Proof.
  split.
  - destruct (new value) as [x|] eqn:E; [|done]. intros _. apply new_iff in E as <-. apply raw_true.
  - intros [x <-]%checked_exists. apply valid_ok.
Qed.
Lemma valid_opt_iff {ok} `{!Validator (checked ok) new raw} o : valid_opt new o = Ok tt <-> none_or ok o = true.
Proof. destruct o as [value|]; simpl; [apply valid_iff|done]. Qed.
Lemma then_ok {E B} (r : Result E unit) (k : Result E B) b : (_ ← r; k) = Ok b <-> r = Ok tt /\ k = Ok b.
Proof. destruct r as [[]|]; simpl; naive_solver. Qed.
Lemma refuse_iff condition error : refuse condition error = Ok tt <-> condition = false.
Proof. by destruct condition. Qed.
Lemma valid_ids_iff ids : valid_all (fun id => valid (MessageId_new id)) ids = Ok tt <-> forallb valid_message_id ids = true.
Proof.
  induction ids as [|id ids IH]; [done|]. simpl. by rewrite then_ok, andb_true_iff, valid_iff, valid_message_id_ok, IH.
Qed.

Definition graphic (b : ascii) : bool := (33 <=? byte_val b) && (byte_val b <=? 126).
Lemma chars_graphic bs : forallb graphic bs = true -> chars bs = map (fun b => [b]) bs.
Proof.
  induction bs as [|b bs IH]; [done|]. simpl. intros [_ Hbs]%andb_true_iff. rewrite IH by done.
  destruct bs as [|b' bs]; [done|]. simpl. assert (is_continuation b' = false) as ->; [|done].
  simpl in Hbs. apply andb_true_iff in Hbs as [Hb' _]. unfold graphic in Hb'. bool_to_prop.
  apply not_true_iff_false. unfold is_continuation. rewrite andb_true_iff, Z.leb_le. lia.
Qed.
Lemma graphic_printable value : is_empty value = false -> forallb graphic (as_bytes value) = true -> printable value = true.
Proof.
  intros He Hg. unfold printable, trimmed_nonempty. rewrite (chars_graphic _ Hg).
  assert (forall c, In c (map (fun b => [b]) (as_bytes value)) -> is_whitespace c = false /\ is_control c = false) as Hc.
  { intros c (b & <- & Hb)%in_map_iff. rewrite forallb_forall in Hg. specialize (Hg b Hb). unfold graphic in Hg. bool_to_prop.
    unfold is_whitespace, is_control. simpl. split; apply not_true_iff_false;
      rewrite ?orb_true_iff, ?andb_true_iff, ?Z.leb_le, ?Z.eqb_eq; lia. }
  rewrite trim_id, bool_decide_eq_true_2, He; [|done| |]; rewrite ?(chars_graphic _ Hg).
  - simpl. apply negb_true_iff, not_true_iff_false. intros (c & Hin & Hp)%existsb_exists. destruct (Hc c Hin). congruence.
  - destruct (map _ _) as [|c cs]; [done|]. simpl. by rewrite (proj1 (Hc c (or_introl eq_refl))).
  - destruct (last _) as [c|] eqn:El; [|done]. simpl. apply last_Some in El as [cs Hcs]. rewrite Hcs in Hc.
    rewrite (proj1 (Hc c ltac:(apply in_app_iff; right; by left))). done.
Qed.
Lemma dedupe_key_ok bytes : len bytes = 16 -> text_ok 256 printable ("sdk-" +:+ hex bytes) = true.
Proof.
  intros Hl. unfold text_ok. rewrite graphic_printable; [| |].
  - rewrite len_app, hex_len, Hl. done.
  - done.
  - rewrite as_bytes_app, forallb_app. apply andb_true_iff. split; [done|].
    eapply forallb_impl; [|apply hex_chars]. apply char_cases. vm_compute. reflexivity.
Qed.

(** ** What the server lets through *)

(** The requests that a decoded call puts to the relay pass the client's own checks. *)
Definition acceptable (mode : AgentModeDto) (call : ToolCall) : Prop :=
  match call with
  | CallLeave | CallList | CallRoster | CallStatus _ => True
  | CallJoin input => valid (SquadName_new (sji_squad input)) = Ok tt /\ validate (join_request mode input) = Ok tt
  | CallDescribe input => is_ok (squad_path (sdi_squad input) "") = true
  | CallSend input =>
      valid (MemberName_new (msi_recipient input)) = Ok tt /\ valid (MessageBody_new (msi_body input)) = Ok tt
      /\ valid_opt MessageId_new (msi_reply_to input) = Ok tt
      /\ none_or valid_correlation_id (msi_correlation_id input) = true
  | CallReceive input =>
      validate {| iqd_limit := Z.of_N (mri_limit input); iqd_wait_seconds := Z.of_N (mri_wait_seconds input) |} = Ok tt
      /\ NoDup (mri_acknowledge_ids input)
      /\ (mri_acknowledge_ids input = [] \/ validate {| amr_message_ids := mri_acknowledge_ids input |} = Ok tt)
  | CallAcknowledge input =>
      NoDup (mai_message_ids input) /\ validate {| amr_message_ids := mai_message_ids input |} = Ok tt
  end.

Lemma valid_join_iff mode input : valid_join input = true <-> acceptable mode (CallJoin input).
Proof.
  unfold valid_join, valid_squad, valid_member. simpl. unfold validate, JoinSquadRequest_validate. simpl.
  rewrite !andb_true_iff, !then_ok, !valid_iff, valid_opt_iff, !valid_routing_name, valid_trimmed_ok.
  destruct (sji_mission input) as [m|]; simpl; [rewrite valid_trimmed_ok|]; change (validate_client_dto mcp_metadata) with (Ok (E := InvalidValue) tt); tauto.
Qed.
Lemma describe_iff mode input : valid_squad (sdi_squad input) = true <-> acceptable mode (CallDescribe input).
Proof.
  unfold valid_squad. rewrite valid_routing_name. simpl. unfold squad_path. rewrite <- (valid_iff (new := SquadName_new)).
  by destruct (SquadName_new _).
Qed.
Lemma body_iff body : ((1 <=? len body) && (len body <=? 65536)) = body_ok body.
Proof.
  unfold body_ok, MAX_BYTES. change (64 * 1024) with 65536. f_equal. destruct body as [|b body]; [done|]. simpl.
  apply Z.leb_le. rewrite len_String. pose proof (len_nonneg body). lia.
Qed.
Lemma valid_send_iff mode input : valid_send input = true <-> acceptable mode (CallSend input).
Proof.
  unfold valid_send, valid_member. simpl. rewrite !andb_true_iff, !valid_iff, valid_opt_iff, valid_routing_name, <- body_iff, andb_true_iff.
  destruct (msi_reply_to input); simpl; rewrite ?valid_message_id_ok; tauto.
Qed.
Lemma ack_iff ids :
  validate {| amr_message_ids := ids |} = Ok tt <-> (1 <= list_len ids <= 100) /\ forallb valid_message_id ids = true.
Proof.
  unfold validate, AckMessagesRequest_validate. rewrite then_ok, refuse_iff, valid_ids_iff. simpl.
  rewrite orb_false_iff, Z.eqb_neq, Z.ltb_ge. unfold list_len, MAX_ACK_MESSAGES_DTO. split; intros [? ?]; (split; [lia|done]).
Qed.
Lemma valid_receive_iff mode input : valid_receive input = true <-> acceptable mode (CallReceive input).
Proof.
  unfold valid_receive. simpl. rewrite ack_iff. unfold validate, InboxQuery_validate. simpl.
  rewrite !andb_true_iff, !Z.leb_le, unique_iff, then_ok, !refuse_iff, orb_false_iff, Z.eqb_neq, !Z.ltb_ge.
  unfold MAX_INBOX_MESSAGES_DTO, MAX_WAIT_SECONDS. destruct (mri_acknowledge_ids input) as [|id ids]; simpl.
  - split; [intros ((((? & ?) & ?) & ?) & ?)|intros ((? & ?) & ? & _)]; split_and!; auto; try lia. unfold list_len. simpl. lia.
  - unfold list_len. simpl. split.
    + intros ((((? & ?) & ?) & ?) & ?). split_and!; auto; try lia. right. split; [lia|done].
    + intros ((? & ?) & ? & [[=]|[? ?]]). split_and!; auto; lia.
Qed.
Lemma valid_acknowledge_iff mode input : valid_acknowledge input = true <-> acceptable mode (CallAcknowledge input).
Proof.
  unfold valid_acknowledge. simpl. rewrite ack_iff, !andb_true_iff, !Z.leb_le, unique_iff. tauto.
Qed.

(** Preparing an accepted message makes its request, unless the id has a C1 control. *)
Definition send_request (input : MessageSendInput) (key : string) : SendMessageRequest :=
  {| smr_recipient := msi_recipient input; smr_recipient_membership_id := None; smr_body := msi_body input;
     smr_priority := send_priority (msi_priority input); smr_dedupe_key := key; smr_reply_to := msi_reply_to input;
     smr_correlation_id := msi_correlation_id input |}.
Lemma prepare_accepted mode input bytes :
  acceptable mode (CallSend input) -> len bytes = 16 ->
  prepare_tool_send (Some bytes) input =
    if from_option has_c1_control false (msi_correlation_id input) then Err CeInvalidRequest
    else Ok {| ps_request := send_request input ("sdk-" +:+ hex bytes); ps_identity := "sdk-" +:+ hex bytes |}.
Proof.
  intros (Hr & Hb & Hm & Hc) Hl. unfold prepare_tool_send, prepare_send, validate, SendMessageRequest_validate. simpl.
  rewrite Hr, Hb, Hm. simpl. rewrite (proj2 (valid_iff (new := DedupeKey_new) _)) by by apply dedupe_key_ok. simpl.
  destruct (msi_correlation_id input) as [v|] eqn:E; simpl in *.
  - pose proof (correlation_id_ok v Hc) as Hv. destruct (has_c1_control v); simpl in Hv.
    + assert (valid (CorrelationId_new v) <> Ok tt) as Hn by (rewrite valid_iff; congruence).
      by destruct (CorrelationId_new v).
    + rewrite (proj2 (valid_iff (new := CorrelationId_new) _) Hv). simpl. unfold send_request. by rewrite E.
  - unfold send_request. by rewrite E.
Qed.

Section Accepted.
Context `{ToolInputs}.

Lemma decoded {T} `{FromValue T} (valid : T -> bool) (make : T -> ToolCall) (ok : ToolCall -> Prop) arguments :
  (forall input, valid input = true <-> ok (make input)) ->
  is_ok_and (from_value (VObject arguments)) valid = true <-> exists call, make <$> decode_arguments arguments = Ok call /\ ok call.
Proof.
  intros Hok. unfold decode_arguments. destruct (from_value (VObject arguments)) as [input|]; simpl; [rewrite Hok|].
  - split; [by exists (make input)|]. by intros (call & [= <-] & ?).
  - split; [done|]. by intros (call & [=] & _).
Qed.

End Accepted.

(** A correlation id that is accepted, and refused when the message is prepared. *)
Definition c1_correlation : MessageSendInput :=
  {| msi_recipient := "one"; msi_body := "x"; msi_priority := TpNormal; msi_reply_to := None;
     msi_correlation_id := Some (String "a" (String "194" (String "128" (String "b" "")))) |}.
Lemma c1_correlation_is_refused_late :
  valid_send c1_correlation = true /\ prepare_tool_send (Some "0123456789abcdef") c1_correlation = Err CeInvalidRequest.
Proof. split; vm_compute; reflexivity. Qed.
