(* ===== verification/Adapter.v ===== *)
(** * Adapter: the session of the MCP server (psst-mcp/src/dispatch.rs)

    [DispatchState] keeps one slot for the session of its profile, behind a lock that no
    call holds while it talks to the relay.  A call is a program of the parts that run
    under the lock, the operations it asks of sessions and of the client (Startup, Leaving,
    Running and Client model them), and the tasks it leaves to the runtime. *)
From stdpp Require Import gmap strings.
From S2P Require Import Prelude Text Core Files Dto Validation Client Failure Profile Config Json AppServer Startup Running Tools.

#[local] Set Warnings "-register-all".

(** A [SessionRuntime], by the identity of its [Arc]. *)
Abbreviation Runtime := nat.
Inductive RuntimeSlot : Set := Unbound | Dormant (binding : ProfileBinding) | InTransition | Bound (runtime : Runtime).
#[global] Instance RuntimeSlot_eq_dec : EqDecision RuntimeSlot.
Proof. solve_decision. Defined.

(** ** Programs *)
Inductive SessionOp : Set :=
| OpStart (spec : RuntimeSpec)
| OpJoinAndBind (spec : UnboundRuntimeSpec) (request : JoinSquadRequest)
| OpLeave (runtime : Runtime)
| OpShutdown (runtime : Runtime)
| OpAuthority (runtime : Runtime)
| OpRoster (runtime : Runtime)
| OpSendPrepared (runtime : Runtime) (prepared : PreparedSend)
| OpAcknowledge (runtime : Runtime) (request : AckMessagesRequest)
| OpInbox (runtime : Runtime) (limit wait_seconds : Z)
| OpReportAvailability (runtime : Runtime) (availability : AvailabilityDto)
| OpSnapshot (runtime : Runtime)
| OpListSquads
| OpDescribeSquad (squad : string)
| OpRandom
| OpLoadProfile (path : Path).
(** What an operation returns; [OpRandom] the sixteen bytes of a send's key. *)
Definition Returned (op : SessionOp) : Set :=
  match op with
  | OpStart _ => Result SessionError Runtime
  | OpJoinAndBind _ _ => Result SessionError (Runtime * SessionResponse)
  | OpLeave _ => Result SessionError LeaveSquadResponse
  | OpShutdown _ | OpAuthority _ | OpReportAvailability _ _ => Result SessionError unit
  | OpRoster _ => Result SessionError RosterResponse
  | OpSendPrepared _ _ => Result SessionError SendMessageResponse
  | OpAcknowledge _ _ => Result SessionError AckMessagesResponse
  | OpInbox _ _ _ => Result SessionError InboxResponse
  | OpSnapshot _ => SessionSnapshot
  | OpListSquads => Result ClientError (list SquadSummary)
  | OpDescribeSquad _ => Result ClientError SquadSummary
  | OpRandom => option string
  | OpLoadProfile _ => Result IoError (option ProfileBinding)
  end.

(** [Lock]: a block under the lock of the slot.  [Owned p]: [tokio::spawn(p).await]; who
    waits for it may be dropped, [p] goes on.  [Register]: [transition_done.notified()];
    [WaitSettled late]: awaiting it for five seconds, with [late] when they have passed;
    when it comes the loop around it starts again. *)
Inductive Prog (A : Type) : Type :=
| Give (a : A)
| Lock (section : RuntimeSlot -> RuntimeSlot * Prog A)
| Ask (op : SessionOp) (k : Returned op -> Prog A)
| Owned (p : Prog A)
| NotifyWaiters (p : Prog A)
| Register (p : Prog A)
| WaitSettled (late : Prog A).
Arguments Give {A} a.
Arguments Lock {A} section.
Arguments Ask {A} op k.
Arguments Owned {A} p.
Arguments NotifyWaiters {A} p.
Arguments Register {A} p.
Arguments WaitSettled {A} late.

Fixpoint prog_bind {A B} (k : A -> Prog B) (p : Prog A) : Prog B :=
  match p with
  | Give a => k a
  | Lock section => Lock (fun slot => let '(slot', p') := section slot in (slot', prog_bind k p'))
  | Ask op k' => Ask op (fun r => prog_bind k (k' r))
  | Owned p' => Owned (prog_bind k p')
  | NotifyWaiters p' => NotifyWaiters (prog_bind k p')
  | Register p' => Register (prog_bind k p')
  | WaitSettled late => WaitSettled (prog_bind k late)
  end.
(** Programs that can fail, with [?]. *)
Definition Disp (A : Type) : Type := Prog (Result LocalErrorCode A).
#[global] Instance Disp_ret : MRet Disp := fun A a => Give (Ok a).
#[global] Instance Disp_bind : MBind Disp := fun A B k m =>
  prog_bind (fun r => match r with Ok a => k a | Err e => Give (Err e) end) m.
Definition give {A} (r : Result LocalErrorCode A) : Disp A := Give r.
Definition ask (op : SessionOp) : Disp (Returned op) := Ask op (fun r => Give (Ok r)).
Definition session_failure {A} (r : Result SessionError A) : Disp A := give (map_err map_session_error r).
Definition client_failure {A} (r : Result ClientError A) : Disp A := give (map_err map_client_error r).

Definition locked {A} (section : RuntimeSlot -> RuntimeSlot * Disp A) : Disp A := Lock section.
Definition owned {A} (p : Disp A) : Disp A := Owned p.
Definition announce {A} (p : Disp A) : Disp A := NotifyWaiters p.
Definition register_settled {A} (p : Disp A) : Disp A := Register p.
Definition wait_settled {A} (late : Disp A) : Disp A := WaitSettled late.

(** ** The calls *)
Section Dispatch.
Context `{Calendar} `{EnumValues} `{ToolInputs} `{!ToValue ToolOutput}.
(** [serde_json::to_string]. *)
Variable canonical_tool_text : Value -> option string.
(** The fields of [DispatchState] that do not change. *)
Variables (profile relay_origin : string) (mode : AgentModeDto) (paths : ProfilePaths).

Definition output_value (output : ToolOutput) : Disp Value := give (ok_or (to_value output) LcInternal).

Definition active_begin (slot : RuntimeSlot) : RuntimeSlot * Disp (Runtime + ProfileBinding) :=
  match slot with
  | Dormant binding => (InTransition, mret (inr binding))
  | Bound runtime => (Bound runtime, mret (inl runtime))
  | Unbound => (Unbound, give (Err LcProfileUnbound))
  | InTransition => (InTransition, give (Err LcLocalLock))
  end.
Definition start_spec (binding : ProfileBinding) : RuntimeSpec :=
  {| rs_profile := binding; rs_paths := paths; rs_mode := mode; rs_client_metadata := mcp_metadata;
     rs_shutdown_bound := Duration_from_secs 5 |}.
Definition active : Disp Runtime :=
  taken ← locked active_begin;
  match taken with
  | inl runtime => mret runtime
  | inr binding =>
      started ← ask (OpStart (start_spec binding));
      match started with
      | Ok runtime => locked (fun _ => (Bound runtime, announce (mret runtime)))
      | Err error => locked (fun _ => (Dormant binding, announce (session_failure (Err error))))
      end
  end.

Definition join_spec (input : SquadJoinInput) : UnboundRuntimeSpec :=
  {| us_relay_origin := relay_origin; us_profile_name := profile; us_squad := sji_squad input; us_paths := paths;
     us_shutdown_bound := Duration_from_secs 5 |}.
Definition join_owned (input : SquadJoinInput) : Disp Value :=
  joined ← ask (OpJoinAndBind (join_spec input) (join_request mode input));
  match joined with
  | Err error => locked (fun _ => (Unbound, announce (session_failure (Err error))))
  | Ok (runtime, response) => locked (fun _ => (Bound runtime, announce (output_value (SquadJoinOutput (session_view response)))))
  end.
Definition join_begin (slot : RuntimeSlot) : RuntimeSlot * Disp unit :=
  match slot with
  | Unbound => (InTransition, mret tt)
  | Dormant _ | Bound _ => (slot, give (Err LcProfileAlreadyBound))
  | InTransition => (slot, give (Err LcLocalLock))
  end.
Definition dispatch_join (input : SquadJoinInput) : Disp Value :=
  _ ← locked join_begin;
  owned (join_owned input).

Definition leave_owned (runtime : Runtime) : Disp Value :=
  response ← ask (OpLeave runtime);
  match response with
  | Err error => locked (fun _ => (Bound runtime, announce (session_failure (Err error))))
  | Ok response =>
      locked (fun _ => (Unbound, announce (output_value (SquadLeaveOutput true (ApiTimestamp_fmt (lsr_left_at response))))))
  end.
Definition leave_begin (slot : RuntimeSlot) : RuntimeSlot * Disp Runtime :=
  match slot with
  | Bound runtime => (InTransition, mret runtime)
  | Dormant binding => (Dormant binding, give (Err LcLocalLock))
  | Unbound => (Unbound, give (Err LcProfileUnbound))
  | InTransition => (InTransition, give (Err LcLocalLock))
  end.
Definition dispatch_leave : Disp Value :=
  _ ← active;
  runtime ← locked leave_begin;
  owned (leave_owned runtime).

Definition send (input : MessageSendInput) : Disp Value :=
  random ← ask OpRandom;
  prepared ← client_failure (prepare_tool_send random input);
  runtime ← active;
  response ← ask (OpSendPrepared runtime prepared);
  response ← session_failure response;
  output_value (MessageSendOutput ParticipantContentIsUntrusted (tool_message_view (smp_message response)) (smp_idempotent_replay response)).
Definition acknowledge (runtime : Runtime) (ids : list string) : Disp (list string) :=
  response ← ask (OpAcknowledge runtime {| amr_message_ids := ids |});
  response ← session_failure response;
  mret (amp_acknowledged_ids response).
Definition receive (input : MessageReceiveInput) : Disp Value :=
  runtime ← active;
  acknowledged_ids ← (if bool_decide (mri_acknowledge_ids input = []) then mret [] else acknowledge runtime (mri_acknowledge_ids input));
  inbox ← ask (OpInbox runtime (Z.of_N (mri_limit input)) (Z.of_N (mri_wait_seconds input)));
  inbox ← session_failure inbox;
  output_value (MessageReceiveOutput ParticipantContentIsUntrusted acknowledged_ids (ibr_pending_count inbox)
           (map tool_message_view (ibr_messages inbox))).
Definition acknowledge_call (input : MessageAcknowledgeInput) : Disp Value :=
  runtime ← active;
  ids ← acknowledge runtime (mai_message_ids input);
  output_value (MessageAcknowledgeOutput ids).

Definition status_first (slot : RuntimeSlot) : RuntimeSlot * Disp bool :=
  (slot, match slot with
         | Dormant _ => mret true
         | Bound _ | Unbound => mret false
         | InTransition => give (Err LcLocalLock)
         end).
Definition status_second (slot : RuntimeSlot) : RuntimeSlot * Disp (option Runtime) :=
  (slot, match slot with
         | Bound runtime => mret (Some runtime)
         | Unbound => mret None
         | Dormant _ | InTransition => give (Err LcLocalLock)
         end).
Definition status (input : AgentStatusInput) : Disp Value :=
  dormant ← locked status_first;
  runtime ← (if dormant : bool then runtime ← active; mret (Some runtime) else locked status_second);
  match runtime with
  | None => output_value (AgentStatusOutput profile false false TaUnknown None None)
  | Some runtime =>
      _ ← (match asi_availability input with
           | Some availability =>
               reported ← ask (OpReportAvailability runtime (to_protocol_availability availability));
               session_failure reported
           | None => mret tt
           end);
      snapshot ← ask (OpSnapshot runtime);
      output_value (AgentStatusOutput profile (bool_decide (sn_health snapshot = HealthReady)) (bool_decide (sn_health snapshot <> HealthReady))
               (from_protocol_availability (sn_availability snapshot)) (Some (ApiTimestamp_fmt (sn_lease_expires_at snapshot)))
               (Some (sn_heartbeat_interval_seconds snapshot)))
  end.
Definition dispatch_roster : Disp Value :=
  runtime ← active;
  roster ← ask (OpRoster runtime);
  roster ← session_failure roster;
  output_value (SquadRosterOutput ParticipantContentIsUntrusted (participant (ror_squad roster)) (map roster_member_view (ror_members roster))).

Definition perform_call (call : ToolCall) : Disp Value :=
  match call with
  | CallJoin input => dispatch_join input
  | CallLeave => dispatch_leave
  | CallList =>
      squads ← ask OpListSquads;
      squads ← client_failure squads;
      output_value (SquadListOutput ParticipantContentIsUntrusted (map squad_view squads))
  | CallDescribe input =>
      squad ← ask (OpDescribeSquad (sdi_squad input));
      squad ← client_failure squad;
      output_value (SquadDescribeOutput ParticipantContentIsUntrusted (squad_view squad))
  | CallRoster => dispatch_roster
  | CallSend input => send input
  | CallReceive input => receive input
  | CallAcknowledge input => acknowledge_call input
  | CallStatus input => status input
  end.
Definition dispatch_call (name : string) (arguments : list (string * Value)) : Disp (Value * string) :=
  decoded ← give (decode_call name arguments);
  output ← perform_call decoded;
  text ← give (ok_or (canonical_tool_text output) LcInternal);
  mret (output, text).

(** The session that the channel observes, and the squad of its profile. *)
Definition dispatch_activation_runtime : Disp (Runtime * string) :=
  runtime ← active;
  authority ← ask (OpAuthority runtime);
  _ ← session_failure authority;
  binding ← ask (OpLoadProfile (pp_metadata paths));
  binding ← give (map_err local_io binding);
  binding ← give (ok_or binding LcProfileUnbound);
  mret (runtime, pb_squad_name binding).

(** One round of the loop of [shutdown]. *)
Definition shutdown_taken (taken : option Runtime) : Disp unit :=
  result ← (match taken with
            | Some runtime => r ← ask (OpShutdown runtime); mret (map_err map_session_error r)
            | None => mret (Ok tt)
            end);
  locked (fun _ => (Unbound, give result)).
Definition shutdown_begin (slot : RuntimeSlot) : RuntimeSlot * Disp unit :=
  match slot with
  | Bound runtime => (InTransition, shutdown_taken (Some runtime))
  | Dormant _ | Unbound => (InTransition, shutdown_taken None)
  | InTransition => (InTransition, wait_settled (give (Err LcOutcomeUnknown)))
  end.
Definition dispatch_shutdown : Disp unit := register_settled (locked shutdown_begin).
End Dispatch.
