(* ===== verification/Slot.v ===== *)
(** * Slot: concurrent calls of the MCP server and the one session they share

    The calls of [Adapter] beside each other, interleaved at every wait: no two sessions of
    the profile, none left behind, and no shutdown that waits for a transition that is
    over. *)
From stdpp Require Import gmap strings.
From S2P Require Import Prelude Text Core Files Dto Validation Client Failure Profile Config Json AppServer Startup Running Tools Adapter.

#[local] Set Warnings "-register-all".

(** ** Who holds the transition

    The mode of a program: [None] while it has not taken the slot, [Some r] while it has,
    with [r] the session it has in hand. *)
Abbreviation Mode := (option (option Runtime)).

Definition slot_session (slot : RuntimeSlot) (r : option Runtime) : Prop :=
  match slot with Bound runtime => r = Some runtime | Unbound | Dormant _ => r = None | InTransition => False end.
(** Only the holder starts and ends sessions, one at a time. *)
Definition allowed (op : SessionOp) (m : Mode) : Prop :=
  match op with
  | OpStart _ | OpJoinAndBind _ _ => m = Some None
  | OpLeave runtime | OpShutdown runtime => m = Some (Some runtime)
  | _ => True
  end.
Definition after_op (op : SessionOp) : Returned op -> option Runtime -> option Runtime :=
  match op with
  | OpStart _ => fun a r => match a with Ok runtime => Some runtime | Err _ => r end
  | OpJoinAndBind _ _ => fun a r => match a with Ok (runtime, _) => Some runtime | Err _ => r end
  | OpLeave _ => fun a r => match a with Ok _ => None | Err _ => r end
  | OpShutdown _ => fun _ _ => None
  | _ => fun _ r => r
  end.
(** [None]: a call, which announces that it is done with the slot.  [Some registered]: a
    shutdown, which may wait for announcements once it has registered for them. *)
Abbreviation Kind := (option bool).
Definition is_notify {A} (p : Prog A) : bool := match p with NotifyWaiters _ => true | _ => false end.
Definition is_wait {A} (p : Prog A) : bool := match p with WaitSettled _ => true | _ => false end.
(** A shutdown starts to wait under the lock, where it saw a transition, and nowhere else. *)
Definition steady {A} (w : Kind) (p : Prog A) : Prop := w <> None -> is_wait p = false.
Fixpoint keeps {A} (w : Kind) (m : Mode) (p : Prog A) : Prop :=
  match p with
  | Give _ => m = None
  | Lock section =>
      match m with
      | None => forall slot,
          let '(slot', p') := section slot in
          (slot' = slot /\ keeps w None p' /\ (slot <> InTransition -> steady w p'))
          \/ (slot' = InTransition /\ (exists r, slot_session slot r /\ keeps w (Some r) p') /\ steady w p')
      | Some r =>
          let '(slot', p') := section InTransition in
          slot_session slot' r /\ keeps w None p' /\ steady w p' /\ (w = None -> is_notify p' = true)
      end
  | Ask op k => allowed op m /\ forall a, keeps w (after_op op a <$> m) (k a) /\ steady w (k a)
  | Owned p' | NotifyWaiters p' => keeps w m p' /\ steady w p'
  | Register p' => keeps ((fun _ => true) <$> w) m p' /\ steady w p'
  | WaitSettled late => w = Some true /\ m = None /\ keeps w None late /\ steady w late
  end.

Lemma steady_call {A} (p : Prog A) : steady None p.
Proof. by intros []. Qed.
#[local] Hint Resolve steady_call : core.
Lemma is_notify_bind {A B} (k : A -> Prog B) p : is_notify p = true -> is_notify (prog_bind k p) = true.
Proof. by destruct p. Qed.
Lemma holds_through_bind {A B} (k : A -> Prog B) : (forall a, keeps None None (k a)) -> forall p m, keeps None m p -> keeps None m (prog_bind k p).
Proof.
  intros Hk. fix IH 1. intros [a|section|op k'|p|p|p|late] m; simpl.
  - intros ->. apply Hk.
  - destruct m as [r|].
    + specialize (IH (section InTransition).2). destruct (section InTransition) as [slot' p']. simpl in IH.
      intros (Hs & Hp & _ & Hn). split_and!; [done|by apply IH|apply steady_call|]. intros _. by apply is_notify_bind, Hn.
    + intros Hs slot. specialize (Hs slot). specialize (IH (section slot).2). destruct (section slot) as [slot' p']. simpl in IH.
      destruct Hs as [(-> & Hp & _)|(-> & (r & Hr & Hp) & _)]; [left|right]; split_and!; eauto.
  - intros [Ha Hp]. split; [done|]. intros a. split; [apply IH, Hp|auto].
  - intros [Hp _]. split; [by apply IH|auto].
  - intros [Hp _]. split; [by apply IH|auto].
  - intros [Hp _]. split; [by apply IH|auto].
  - by intros [? ?].
Qed.

(** A program cannot hold the slot and not hold it. *)
Definition some_return (op : SessionOp) : Returned op :=
  match op with
  | OpSnapshot _ => {| sn_health := HealthStopped; sn_generation := 0; sn_instance_id := ""; sn_heartbeat_interval_seconds := 0;
                       sn_lease_expires_at := {| ts_nanos := 0 |}; sn_availability := AvUnknownDto; sn_availability_source := SrcUnknownDto |}
  | OpListSquads | OpDescribeSquad _ => Err CeTimeout
  | OpRandom => None
  | OpLoadProfile _ => Ok None
  | _ => Err SeNotReady
  end.
Lemma keeps_exclusive {A} : forall (p : Prog A) w w' r, keeps w None p -> keeps w' (Some r) p -> False.
Proof.
  fix IH 1. intros [a|section|op k|p|p|p|late] w w' r; simpl.
  - done.
  - intros Hn. specialize (Hn InTransition). destruct (section InTransition) as [slot' p'].
    destruct Hn as [(-> & _)|(-> & _)]; by intros (? & _).
  - intros [_ Hn] [_ Hs]. eapply IH; [apply (Hn (some_return op))|apply (Hs (some_return op))].
  - intros [Hn _] [Hs _]. by eapply IH.
  - intros [Hn _] [Hs _]. by eapply IH.
  - intros [Hn _] [Hs _]. by eapply IH.
  - by intros _ (_ & [=] & _).
Qed.

(** A call that comes back without the slot. *)
Definition proper {A} (c : Disp A) : Prop := keeps None None c.
Lemma proper_bind {A B} (c : Disp A) (k : A -> Disp B) : proper c -> (forall a, proper (k a)) -> proper (c ≫= k).
Proof. intros Hc Hk. apply holds_through_bind; [|done]. intros [a|e]; [apply Hk|done]. Qed.
Lemma proper_lift {A} (r : Result LocalErrorCode A) : proper (give r).
Proof. done. Qed.
Lemma proper_ret {A} (a : A) : proper (mret a).
Proof. done. Qed.
Lemma proper_ask op : (forall m, allowed op m) -> proper (ask op).
Proof. intros Ha. split; [apply Ha|]. intros a. by split; [|auto]. Qed.
Lemma proper_session {A} (r : Result SessionError A) : proper (session_failure r).
Proof. done. Qed.
Lemma proper_client {A} (r : Result ClientError A) : proper (client_failure r).
Proof. done. Qed.
Create HintDb slot.
#[local] Hint Resolve proper_bind proper_lift proper_ret proper_session proper_client : slot.
#[local] Hint Extern 2 (proper (ask _)) => apply proper_ask; done : slot.
#[local] Hint Extern 1 (proper (if ?b then _ else _)) => destruct b : slot.
#[local] Hint Extern 1 (proper (match ?o with _ => _ end)) => destruct o : slot.

Section Calls.
Context {CAL : Calendar} {ENUMS : EnumValues} {INPUTS : ToolInputs} {OUTPUTS : ToValue ToolOutput}.
Variable canonical_tool_text : Value -> option string.
Variables (profile relay_origin : string) (mode : AgentModeDto) (paths : ProfilePaths).

Lemma proper_output_value output : proper (output_value output).
Proof. done. Qed.
#[local] Hint Resolve proper_output_value : slot.

(** A call that takes the slot has the session of the slot in hand. *)
Ltac takes r := right; split; [done|]; split; [|try done; auto]; exists r; split; [done|].
Lemma proper_active : proper (active mode paths).
Proof.
  intros [|binding| |runtime]; simpl; auto. takes (@None Runtime). split; [done|]. intros [runtime|e]; simpl; auto.
Qed.
Lemma proper_join input : proper (dispatch_join profile relay_origin mode paths input).
Proof.
  intros [|binding| |runtime]; simpl; auto. takes (@None Runtime). split; [|auto]. split; [done|].
  intros [[runtime response]|e]; simpl; auto.
Qed.
#[local] Hint Resolve proper_active proper_join : slot.
Lemma proper_leave : proper (dispatch_leave mode paths).
Proof.
  apply proper_bind; [apply proper_active|intros _]. intros [|binding| |runtime]; simpl; auto.
  takes (Some runtime). split; [|auto]. split; [done|]. intros [response|e]; simpl; auto.
Qed.
#[local] Hint Resolve proper_leave : slot.
Lemma proper_acknowledge runtime ids : proper (acknowledge runtime ids).
Proof. unfold acknowledge. eauto 10 with slot. Qed.
#[local] Hint Resolve proper_acknowledge : slot.
Lemma proper_status input : proper (status profile mode paths input).
Proof.
  apply proper_bind; [by intros []; left|]. intros dormant. apply proper_bind; [|eauto 10 with slot].
  destruct dormant; [eauto with slot|]. by intros []; left.
Qed.
#[local] Hint Resolve proper_status : slot.
Lemma proper_perform c : proper (perform_call profile relay_origin mode paths c).
Proof. destruct c; unfold perform_call, dispatch_roster, send, receive, acknowledge_call; eauto 12 with slot. Qed.
#[local] Hint Resolve proper_perform : slot.
Lemma proper_call name arguments : proper (dispatch_call canonical_tool_text profile relay_origin mode paths name arguments).
Proof. unfold dispatch_call. eauto 10 with slot. Qed.
Lemma proper_activation_runtime : proper (dispatch_activation_runtime mode paths).
Proof. unfold dispatch_activation_runtime. eauto 12 with slot. Qed.

(** ** Tasks beside each other *)
Inductive Outcome : Set :=
| OutCall (r : Result LocalErrorCode (Value * string))
| OutActivation (r : Result LocalErrorCode (Runtime * string))
| OutShutdown (r : Result LocalErrorCode unit)
| OutDropped.
Definition task {A} (out : Result LocalErrorCode A -> Outcome) (c : Disp A) : Prog Outcome := prog_bind (fun r => Give (out r)) c.
Definition shutdown_task : Prog Outcome := task OutShutdown dispatch_shutdown.
(** What the server runs: calls of tools, and starts of the channel. *)
Inductive opens : Prog Outcome -> Prop :=
| opens_call name arguments : opens (task OutCall (dispatch_call canonical_tool_text profile relay_origin mode paths name arguments))
| opens_channel : opens (task OutActivation (dispatch_activation_runtime mode paths)).
Lemma opens_keeps p : opens p -> keeps None None p.
Proof.
  intros []; (apply holds_through_bind; [done|]); [apply proper_call|apply proper_activation_runtime].
Qed.
Lemma shutdown_keeps registered : keeps (Some registered) None shutdown_task.
Proof.
  split; [|done]. intros [|binding| |runtime]; simpl; [takes (@None Runtime)|takes (@None Runtime)| |takes (Some runtime)];
    [by split_and!..|left; by split_and!|]. split; [done|]. intros a. by split_and!.
Qed.

(** [tk_settled]: the future of the latest [notified()], and whether its notice came.
    [tk_shutdown]: the task of the shutdown, of which there is one. *)
Record Task : Type := { tk_prog : Prog Outcome; tk_owned : bool; tk_settled : option bool; tk_shutdown : bool }.
Record Sys : Type := {
  sy_slot : RuntimeSlot; sy_tasks : list Task; sy_live : list Runtime; sy_next : Runtime; sy_dropped : bool; sy_closing : bool }.
Definition kind_of (t : Task) : Kind := if tk_shutdown t then Some (opt_is_some (tk_settled t)) else None.
Definition with_prog (t : Task) (p : Prog Outcome) : Task :=
  {| tk_prog := p; tk_owned := tk_owned t; tk_settled := tk_settled t; tk_shutdown := tk_shutdown t |}.
Definition woken (t : Task) : Task :=
  {| tk_prog := tk_prog t; tk_owned := tk_owned t; tk_settled := (fun _ => true) <$> tk_settled t; tk_shutdown := tk_shutdown t |}.
Definition goes (s : Sys) (i : nat) (t : Task) : Sys :=
  {| sy_slot := sy_slot s; sy_tasks := <[i := t]> (sy_tasks s); sy_live := sy_live s; sy_next := sy_next s;
     sy_dropped := sy_dropped s; sy_closing := sy_closing s |}.

(** The sessions that run: started ones, until they are left or shut down. *)
Definition live_after (op : SessionOp) : Returned op -> list Runtime -> list Runtime :=
  match op with
  | OpStart _ => fun a live => match a with Ok runtime => runtime :: live | Err _ => live end
  | OpJoinAndBind _ _ => fun a live => match a with Ok (runtime, _) => runtime :: live | Err _ => live end
  | OpLeave runtime => fun a live => match a with Ok _ => filter (fun x => x <> runtime) live | Err _ => live end
  | OpShutdown runtime => fun _ live => filter (fun x => x <> runtime) live
  | _ => fun _ live => live
  end.
(** A started session is a new one. *)
Definition fresh_from (op : SessionOp) : Returned op -> Runtime -> Runtime -> Prop :=
  match op with
  | OpStart _ => fun a next next' => match a with Ok runtime => runtime = next /\ next' = S next | Err _ => next' = next end
  | OpJoinAndBind _ _ => fun a next next' => match a with Ok (runtime, _) => runtime = next /\ next' = S next | Err _ => next' = next end
  | _ => fun _ next next' => next' = next
  end.

(** Where a task awaits: only there it can be dropped. *)
Definition awaits (p : Prog Outcome) : bool := match p with Lock _ | Ask _ _ | WaitSettled _ => true | _ => false end.
(** A step of one task.  A task that the runtime does not own may be dropped; [busy] when it
    held the slot. *)
Inductive step : Sys -> Sys -> Prop :=
| step_enter s p : opens p ->
    step s {| sy_slot := sy_slot s; sy_tasks := sy_tasks s ++ [{| tk_prog := p; tk_owned := false; tk_settled := None; tk_shutdown := false |}];
              sy_live := sy_live s; sy_next := sy_next s; sy_dropped := sy_dropped s; sy_closing := sy_closing s |}
| step_close s : sy_closing s = false ->
    step s {| sy_slot := sy_slot s;
              sy_tasks := sy_tasks s ++ [{| tk_prog := shutdown_task; tk_owned := true; tk_settled := None; tk_shutdown := true |}];
              sy_live := sy_live s; sy_next := sy_next s; sy_dropped := sy_dropped s; sy_closing := true |}
| step_lock s i t section : sy_tasks s !! i = Some t -> tk_prog t = Lock section ->
    step s {| sy_slot := (section (sy_slot s)).1; sy_tasks := <[i := with_prog t (section (sy_slot s)).2]> (sy_tasks s);
              sy_live := sy_live s; sy_next := sy_next s; sy_dropped := sy_dropped s; sy_closing := sy_closing s |}
| step_ask s i t op k a next : sy_tasks s !! i = Some t -> tk_prog t = Ask op k -> fresh_from op a (sy_next s) next ->
    step s {| sy_slot := sy_slot s; sy_tasks := <[i := with_prog t (k a)]> (sy_tasks s); sy_live := live_after op a (sy_live s);
              sy_next := next; sy_dropped := sy_dropped s; sy_closing := sy_closing s |}
| step_owned s i t p : sy_tasks s !! i = Some t -> tk_prog t = Owned p ->
    step s (goes s i {| tk_prog := p; tk_owned := true; tk_settled := tk_settled t; tk_shutdown := tk_shutdown t |})
| step_register s i t p : sy_tasks s !! i = Some t -> tk_prog t = Register p ->
    step s (goes s i {| tk_prog := p; tk_owned := tk_owned t; tk_settled := Some false; tk_shutdown := tk_shutdown t |})
| step_notify s i t p : sy_tasks s !! i = Some t -> tk_prog t = NotifyWaiters p ->
    step s {| sy_slot := sy_slot s; sy_tasks := <[i := with_prog (woken t) p]> (woken <$> sy_tasks s); sy_live := sy_live s;
              sy_next := sy_next s; sy_dropped := sy_dropped s; sy_closing := sy_closing s |}
| step_settled s i t late : sy_tasks s !! i = Some t -> tk_prog t = WaitSettled late -> tk_settled t = Some true ->
    step s (goes s i (with_prog t shutdown_task))
| step_late s i t late : sy_tasks s !! i = Some t -> tk_prog t = WaitSettled late ->
    step s (goes s i (with_prog t late))
| step_drop s i t busy : sy_tasks s !! i = Some t -> tk_owned t = false -> awaits (tk_prog t) = true -> (busy = false <-> keeps (kind_of t) None (tk_prog t)) ->
    step s {| sy_slot := sy_slot s; sy_tasks := <[i := with_prog t (Give OutDropped)]> (sy_tasks s); sy_live := sy_live s;
              sy_next := sy_next s; sy_dropped := sy_dropped s || busy; sy_closing := sy_closing s |}.
(** The server starts with a dormant profile or none. *)
Inductive reachable (slot : RuntimeSlot) : Sys -> Prop :=
| reach_start : reachable slot {| sy_slot := slot; sy_tasks := []; sy_live := []; sy_next := 0; sy_dropped := false; sy_closing := false |}
| reach_step s s' : reachable slot s -> step s s' -> reachable slot s'.

(** ** The invariant *)

(** The mode of task [i] when [holder] has the slot. *)
Definition mode_at (holder : option (nat * option Runtime)) (i : nat) : Mode :=
  match holder with Some (j, r) => if decide (i = j) then Some r else None | None => None end.
Record slot_inv (holder : option (nat * option Runtime)) (s : Sys) : Prop := {
  si_keeps : forall i t, sy_tasks s !! i = Some t -> keeps (kind_of t) (mode_at holder i) (tk_prog t);
  si_session :
    match holder with
    | Some (i, r) => is_Some (sy_tasks s !! i) /\ sy_slot s = InTransition /\ sy_live s = option_list r /\ sy_dropped s = false
    | None =>
        if sy_dropped s then sy_slot s = InTransition /\ (length (sy_live s) <= 1)%nat
        else exists r, slot_session (sy_slot s) r /\ sy_live s = option_list r
    end;
  si_one_shutdown : forall i j t t', sy_tasks s !! i = Some t -> sy_tasks s !! j = Some t' ->
    tk_shutdown t = true -> tk_shutdown t' = true -> i = j /\ sy_closing s = true;
  si_waiting : forall i t, sy_tasks s !! i = Some t -> is_wait (tk_prog t) = true -> tk_settled t = Some false ->
    sy_slot s = InTransition \/ exists j t', sy_tasks s !! j = Some t' /\ is_notify (tk_prog t') = true }.

Lemma wait_is_shutdown t m : keeps (kind_of t) m (tk_prog t) -> is_wait (tk_prog t) = true -> tk_shutdown t = true.
Proof. unfold kind_of. destruct (tk_prog t); try done. simpl. intros [Hw _] _. by destruct (tk_shutdown t). Qed.

(** A step that changes one task, and the slot with it. *)
Lemma inv_update holder holder' s i t t' slot' live' next' dropped' :
  slot_inv holder s -> sy_tasks s !! i = Some t -> tk_shutdown t' = tk_shutdown t ->
  keeps (kind_of t') (mode_at holder' i) (tk_prog t') -> (forall j, j <> i -> mode_at holder' j = mode_at holder j) ->
  match holder' with
  | Some (j, r) => j = i \/ is_Some (sy_tasks s !! j)
  | None => True
  end ->
  match holder' with
  | Some (j, r) => slot' = InTransition /\ live' = option_list r /\ dropped' = false
  | None => if dropped' then slot' = InTransition /\ (length live' <= 1)%nat else exists r, slot_session slot' r /\ live' = option_list r
  end ->
  is_notify (tk_prog t) = false -> (is_wait (tk_prog t') = true -> tk_settled t' = Some false -> slot' = InTransition) ->
  (sy_slot s = InTransition -> slot' = InTransition \/ is_notify (tk_prog t') = true \/ tk_shutdown t = true) ->
  slot_inv holder' {| sy_slot := slot'; sy_tasks := <[i := t']> (sy_tasks s); sy_live := live'; sy_next := next';
                      sy_dropped := dropped'; sy_closing := sy_closing s |}.
Proof.
  intros [Hk Hs H1 Hw] Hi Hsd Hk' Hm Hh Hs' Hn Hwait Hslot.
  assert (forall j x, <[i := t']> (sy_tasks s) !! j = Some x -> j = i /\ x = t' \/ j <> i /\ sy_tasks s !! j = Some x) as Hj.
  { intros j x. destruct (decide (j = i)) as [->|Hne]; [|rewrite list_lookup_insert_ne by done; auto].
    rewrite list_lookup_insert_eq by by eapply lookup_lt_Some. intros [= <-]. auto. }
  constructor; simpl.
  - intros j x [[-> ->]|[Hne Hx]]%Hj; [done|]. rewrite Hm by done. by apply Hk.
  - destruct holder' as [[j r]|]; [|done]. split; [|done]. destruct (decide (j = i)) as [->|Hne].
    + rewrite list_lookup_insert_eq by by eapply lookup_lt_Some. done.
    + rewrite list_lookup_insert_ne by done. by destruct Hh.
  - intros j j' x x' [[-> ->]|[Hne Hx]]%Hj [[-> ->]|[Hne' Hx']]%Hj; rewrite ?Hsd; intros Hb Hb'; eauto.
  - intros j x [[-> ->]|[Hne Hx]]%Hj Hwx Hset; [left; auto|].
    assert (is_notify (tk_prog t') = true -> exists j t'0, <[i := t']> (sy_tasks s) !! j = Some t'0 /\ is_notify (tk_prog t'0) = true) as Hnew.
    { intros. exists i, t'. split; [|done]. apply list_lookup_insert_eq. by eapply lookup_lt_Some. }
    destruct (Hw j x Hx Hwx Hset) as [Hin|(j' & x' & Hx' & Hn')].
    + destruct (Hslot Hin) as [?|[?|Hsh]]; [by left|right; auto|]. exfalso. apply Hne.
      apply (H1 j i x t Hx Hi); [|done]. by eapply wait_is_shutdown; [apply Hk|].
    + right. exists j', x'. split; [|done]. rewrite list_lookup_insert_ne; [done|]. intros <-. congruence.
Qed.

Lemma inv_goes holder s i t t' :
  slot_inv holder s -> sy_tasks s !! i = Some t -> tk_shutdown t' = tk_shutdown t ->
  keeps (kind_of t') (mode_at holder i) (tk_prog t') -> is_notify (tk_prog t) = false -> is_wait (tk_prog t') = false ->
  slot_inv holder (goes s i t').
Proof.
  intros Hinv Hi Hsd Hk Hn Hw. pose proof (si_session _ _ Hinv) as Hs. eapply inv_update; try done.
  - destruct holder as [[j r]|]; [right; apply Hs|done].
  - destruct holder as [[j r]|]; [apply Hs|done].
  - congruence.
  - auto.
Qed.
Lemma steady_no_wait w m (p : Prog Outcome) : keeps w m p -> steady w p -> is_wait p = false.
Proof. destruct p; try done. simpl. intros [-> _] Hs. by apply Hs. Qed.

Lemma inv_enter holder s t :
  slot_inv holder s -> keeps (kind_of t) None (tk_prog t) -> is_wait (tk_prog t) = false -> (tk_shutdown t = true -> sy_closing s = false) ->
  slot_inv holder {| sy_slot := sy_slot s; sy_tasks := sy_tasks s ++ [t]; sy_live := sy_live s; sy_next := sy_next s;
                     sy_dropped := sy_dropped s; sy_closing := sy_closing s || tk_shutdown t |}.
Proof.
  intros [Hk Hs H1 Hw] Hkt Hwt Hc.
  assert (forall j x, (sy_tasks s ++ [t]) !! j = Some x -> sy_tasks s !! j = Some x \/ j = length (sy_tasks s) /\ x = t) as Hj.
  { intros j x [Hx|[Hle Hx]]%lookup_app_Some; [auto|]. right. apply list_lookup_singleton_Some in Hx as [Hx <-]. split; [lia|done]. }
  assert (forall j, is_Some (sy_tasks s !! j) -> is_Some ((sy_tasks s ++ [t]) !! j)) as Ha.
  { intros j [x Hx]. exists x. by apply lookup_app_l_Some. }
  assert (sy_tasks s !! length (sy_tasks s) = None) as Hl by by apply lookup_ge_None_2.
  constructor; simpl.
  - intros j x [Hx|[-> ->]]%Hj; [by apply Hk|]. destruct holder as [[j r]|]; [|done]. simpl.
    rewrite decide_False; [done|]. intros <-. destruct Hs as [[x Hx] _]. congruence.
  - destruct holder as [[j r]|]; [|done]. destruct Hs as [Hx Hs]. auto.
  - intros j j' x x' [Hx|[-> ->]]%Hj [Hx'|[-> ->]]%Hj Hb Hb'.
    + destruct (H1 j j' x x') as [-> ->]; auto.
    + destruct (H1 j j x x) as [_ E]; auto. rewrite Hc in E; done.
    + destruct (H1 j' j' x' x') as [_ E]; auto. rewrite Hc in E; done.
    + rewrite Hb. by rewrite orb_true_r.
  - intros j x [Hx|[-> ->]]%Hj Hwx Hset; [|congruence]. destruct (Hw j x Hx Hwx Hset) as [?|(j' & x' & Hx' & Hn)]; [by left|right].
    exists j', x'. split; [|done]. by apply lookup_app_l_Some.
Qed.

Lemma inv_notify holder s i t p :
  slot_inv holder s -> sy_tasks s !! i = Some t -> tk_prog t = NotifyWaiters p ->
  slot_inv holder {| sy_slot := sy_slot s; sy_tasks := <[i := with_prog (woken t) p]> (woken <$> sy_tasks s); sy_live := sy_live s;
                     sy_next := sy_next s; sy_dropped := sy_dropped s; sy_closing := sy_closing s |}.
Proof.
  intros [Hk Hs H1 Hw] Hi Hp. pose proof (Hk i t Hi) as Hki. rewrite Hp in Hki. destruct Hki as [Hki Hst].
  assert (forall x, kind_of (woken x) = kind_of x) as Hkind by (intros [? ? [[]|] []]; done).
  assert (forall j x, <[i := with_prog (woken t) p]> (woken <$> sy_tasks s) !! j = Some x ->
    j = i /\ x = with_prog (woken t) p \/ exists y, sy_tasks s !! j = Some y /\ x = woken y) as Hj.
  { intros j x. destruct (decide (j = i)) as [->|Hne].
    - rewrite list_lookup_insert_eq by (rewrite length_fmap; by eapply lookup_lt_Some). intros [= <-]. auto.
    - rewrite list_lookup_insert_ne, list_lookup_fmap by done. destruct (sy_tasks s !! j) as [y|]; [|done]. intros [= <-]. eauto. }
  constructor; simpl.
  - intros j x [[-> ->]|(y & Hy & ->)]%Hj; [unfold with_prog; simpl|by rewrite Hkind; apply Hk].
    change (kind_of _) with (kind_of (woken t)). by rewrite Hkind.
  - destruct holder as [[j r]|]; [|done]. destruct Hs as [[y Hy] Hs]. split; [|done].
    destruct (decide (j = i)) as [->|Hne]; [by rewrite list_lookup_insert_eq by (rewrite length_fmap; by eapply lookup_lt_Some)|].
    rewrite list_lookup_insert_ne, list_lookup_fmap, Hy by done. done.
  - intros j j' x x' [[-> ->]|(y & Hy & ->)]%Hj [[-> ->]|(y' & Hy' & ->)]%Hj; simpl; eauto.
  - intros j x [[-> ->]|(y & Hy & ->)]%Hj Hwx Hset; simpl in *; [|by destruct (tk_settled y)].
    rewrite (steady_no_wait _ _ _ Hki Hst) in Hwx. done.
Qed.

Lemma mode_at_self i r : mode_at (Some (i, r)) i = Some r.
Proof. simpl. by rewrite decide_True. Qed.
Lemma mode_at_other i j r : j <> i -> mode_at (Some (i, r)) j = None.
Proof. intros. simpl. by rewrite decide_False. Qed.
Lemma holder_of holder i r : mode_at holder i = Some r -> holder = Some (i, r).
Proof. destruct holder as [[j r']|]; [|done]. simpl. case_decide; [|done]. naive_solver. Qed.

Lemma inv_lock holder s i t section :
  slot_inv holder s -> sy_tasks s !! i = Some t -> tk_prog t = Lock section ->
  exists holder', slot_inv holder' {| sy_slot := (section (sy_slot s)).1; sy_tasks := <[i := with_prog t (section (sy_slot s)).2]> (sy_tasks s);
    sy_live := sy_live s; sy_next := sy_next s; sy_dropped := sy_dropped s; sy_closing := sy_closing s |}.
Proof.
  intros Hinv Hi Hp. pose proof (si_keeps _ _ Hinv i t Hi) as Hk. pose proof (si_session _ _ Hinv) as Hs. rewrite Hp in Hk. simpl in Hk.
  assert (is_notify (tk_prog t) = false) as Hn by by rewrite Hp. destruct (mode_at holder i) as [r|] eqn:Em.
  - apply holder_of in Em as ->. destruct Hs as (_ & Hslot & Hlive & Hd). rewrite Hslot, Hd. exists None.
    destruct (section InTransition) as [slot' p'] eqn:Es. destruct Hk as (Hr & Hk & Hst & Hnot). simpl.
    eapply inv_update; try done.
    + intros j Hj. by rewrite mode_at_other.
    + by exists r.
    + simpl. by rewrite (steady_no_wait _ _ _ Hk Hst).
    + intros _. right. unfold kind_of in Hnot. destruct (tk_shutdown t); [auto|]. left. by apply Hnot.
  - specialize (Hk (sy_slot s)). destruct (section (sy_slot s)) as [slot' p'] eqn:Es. simpl.
    destruct Hk as [(-> & Hk & Hst)|(-> & (r & Hr & Hk) & Hst)].
    + exists holder. eapply inv_update; try done.
      * simpl. by rewrite Em.
      * destruct holder as [[j r]|]; [right; apply Hs|done].
      * destruct holder as [[j r]|]; [apply Hs|done].
      * simpl. intros Hw _. destruct (decide (sy_slot s = InTransition)) as [|Hne]; [done|].
        by rewrite (steady_no_wait _ _ _ Hk (Hst Hne)) in Hw.
      * auto.
    + destruct holder as [[j r']|]; [destruct Hs as (_ & Hslot & _); by rewrite Hslot in Hr|].
      destruct (sy_dropped s); [destruct Hs as [Hslot _]; by rewrite Hslot in Hr|]. destruct Hs as (r' & Hr' & Hlive).
      assert (r' = r) as -> by (destruct (sy_slot s); simpl in Hr, Hr'; [congruence|congruence|done|congruence]).
      exists (Some (i, r)). eapply inv_update; try done; auto.
      * by rewrite mode_at_self.
      * intros j Hj. by rewrite mode_at_other.
Qed.

Lemma filter_self (r : Runtime) : filter (fun x => x <> r) [r] = [].
Proof. rewrite filter_cons_False; [done|naive_solver]. Qed.
Lemma live_after_ok op a r : allowed op (Some r) -> live_after op a (option_list r) = option_list (after_op op a r).
Proof.
  destruct op; simpl; try done; intros [= ->]; try (destruct a as [[]|]; done);
    [destruct a as [response|e]; [|done]|]; apply filter_self.
Qed.
Lemma live_after_none op a live : allowed op None -> live_after op a live = live.
Proof. by destruct op. Qed.

Lemma inv_ask holder s i t op k a next :
  slot_inv holder s -> sy_tasks s !! i = Some t -> tk_prog t = Ask op k ->
  exists holder', slot_inv holder' {| sy_slot := sy_slot s; sy_tasks := <[i := with_prog t (k a)]> (sy_tasks s);
    sy_live := live_after op a (sy_live s); sy_next := next; sy_dropped := sy_dropped s; sy_closing := sy_closing s |}.
Proof.
  intros Hinv Hi Hp. pose proof (si_keeps _ _ Hinv i t Hi) as Hk. pose proof (si_session _ _ Hinv) as Hs. rewrite Hp in Hk. simpl in Hk.
  assert (is_notify (tk_prog t) = false) as Hn by by rewrite Hp. destruct Hk as [Hall Hk]. destruct (Hk a) as [Hka Hst].
  pose proof (steady_no_wait _ _ _ Hka Hst) as Hw. destruct (mode_at holder i) as [r|] eqn:Em.
  - apply holder_of in Em as ->. destruct Hs as (Hsome & Hslot & Hlive & Hd). exists (Some (i, after_op op a r)).
    eapply inv_update; try done; auto.
    + by rewrite mode_at_self.
    + intros j Hj. by rewrite !mode_at_other.
    + by rewrite Hlive, live_after_ok.
  - exists holder. rewrite live_after_none by done. eapply inv_update; try done; auto.
    + simpl. by rewrite Em.
    + destruct holder as [[j r]|]; [right; apply Hs|done].
    + destruct holder as [[j r]|]; [apply Hs|done].
    + simpl. congruence.
Qed.

Lemma inv_drop holder s i t busy :
  slot_inv holder s -> sy_tasks s !! i = Some t -> awaits (tk_prog t) = true -> (busy = false <-> keeps (kind_of t) None (tk_prog t)) ->
  exists holder', slot_inv holder' {| sy_slot := sy_slot s; sy_tasks := <[i := with_prog t (Give OutDropped)]> (sy_tasks s);
    sy_live := sy_live s; sy_next := sy_next s; sy_dropped := sy_dropped s || busy; sy_closing := sy_closing s |}.
Proof.
  intros Hinv Hi Ha Hb. pose proof (si_keeps _ _ Hinv i t Hi) as Hk. pose proof (si_session _ _ Hinv) as Hs.
  assert (is_notify (tk_prog t) = false) as Hn by by destruct (tk_prog t). destruct (mode_at holder i) as [r|] eqn:Em.
  - destruct busy; [|exfalso; eapply keeps_exclusive; [by apply Hb|apply Hk]]. apply holder_of in Em as ->.
    destruct Hs as (_ & Hslot & Hlive & Hd). exists None. rewrite orb_true_r. eapply inv_update; try done; auto.
    + intros j Hj. by rewrite mode_at_other.
    + rewrite Hlive. split; [done|]. by destruct r; simpl; lia.
  - assert (busy = false) as -> by by apply Hb. rewrite orb_false_r. exists holder. eapply inv_update; try done; auto.
    + destruct holder as [[j r]|]; [right; apply Hs|done].
    + destruct holder as [[j r]|]; [apply Hs|done].
Qed.

Lemma inv_step s s' : step s s' -> (exists holder, slot_inv holder s) -> exists holder, slot_inv holder s'.
Proof.
  intros Hstep [holder Hinv]. destruct Hstep as [s p Ho|s Hc|s i t section Hi Hp|s i t op k a next Hi Hp Hf|s i t p Hi Hp|s i t p Hi Hp
    |s i t p Hi Hp|s i t late Hi Hp Hset|s i t late Hi Hp|s i t busy Hi Hown Ha Hb];
    try (pose proof (si_keeps _ _ Hinv i t Hi) as Hk; rewrite Hp in Hk; simpl in Hk).
  - exists holder. rewrite <- (orb_false_r (sy_closing s)).
    by apply (inv_enter _ s {| tk_prog := p; tk_owned := false; tk_settled := None; tk_shutdown := false |});
      [|apply opens_keeps|eapply steady_no_wait; [by apply opens_keeps|apply steady_call]|].
  - exists holder. pose proof (inv_enter holder s {| tk_prog := shutdown_task; tk_owned := true; tk_settled := None; tk_shutdown := true |}) as He.
    simpl in He. rewrite orb_true_r in He. apply He; [done|apply shutdown_keeps|done|done].
  - by eapply inv_lock.
  - by eapply inv_ask.
  - exists holder. eapply inv_goes; try done; [apply Hk|by rewrite Hp|]. by eapply steady_no_wait; apply Hk.
  - exists holder. eapply inv_goes; try done; [|by rewrite Hp|].
    + unfold kind_of in *. simpl. destruct (tk_shutdown t); apply Hk.
    + simpl. destruct Hk as [Hk Hst]. destruct (is_wait p) eqn:E; [|done]. destruct p; try done. simpl in Hk.
      destruct Hk as [Hk _]. apply Hst. by destruct (kind_of t).
  - exists holder. by eapply inv_notify.
  - exists holder. destruct Hk as (Hw & Hm & _). eapply inv_goes; try done; [|by rewrite Hp]. simpl. rewrite Hm.
    change (kind_of (with_prog t shutdown_task)) with (kind_of t). rewrite Hw. apply shutdown_keeps.
  - exists holder. destruct Hk as (Hw & Hm & Hk & Hst). eapply inv_goes; try done; [by rewrite Hm|by rewrite Hp|].
    by eapply steady_no_wait.
  - by eapply inv_drop.
Qed.
Lemma slot_reachable_inv slot s : slot <> InTransition -> (forall runtime, slot <> Bound runtime) -> reachable slot s -> exists holder, slot_inv holder s.
Proof.
  intros Hn Hb. induction 1 as [|s s' _ IH Hs]; [|by eapply inv_step]. exists None. constructor; simpl; try done.
  exists None. split; [|done]. by destruct slot; try done; destruct (Hb runtime).
Qed.

(** A task that holds the slot gives it back at the next block it runs under the lock,
    whatever its operations return. *)
Fixpoint gives_back {A} (p : Prog A) : Prop :=
  match p with
  | Give _ | WaitSettled _ => False
  | Lock section => (section InTransition).1 <> InTransition
  | Ask op k => forall a, gives_back (k a)
  | Owned p' | Register p' | NotifyWaiters p' => gives_back p'
  end.
Lemma holder_gives_back {A} : forall (p : Prog A) w r, keeps w (Some r) p -> gives_back p.
Proof.
  fix IH 1. intros [a|section|op k|p|p|p|late] w r; simpl; try done.
  - destruct (section InTransition) as [slot' p']. simpl. intros [Hs _] E. by rewrite E in Hs.
  - intros [_ Hk] a. eapply IH. apply Hk.
  - intros [Hk _]. by eapply IH.
  - intros [Hk _]. by eapply IH.
  - intros [Hk _]. by eapply IH.
  - by intros (_ & [=] & _).
Qed.

(** C19: The MCP server has at most one session of its profile, and knows it.  However the
    calls of tools, starts of the channel and the shutdown interleave, whatever the relay
    answers and wherever a caller is dropped: never two sessions run; a bound slot has the
    session that runs, an unbound or dormant one means that none runs, and in a transition
    one task is at work that gives the slot back.  Only a caller dropped while it activates
    the profile leaves the slot in transition, for good.  A shutdown that waits does so
    during a transition, or is about to be told of its end. *)
Theorem adapter_keeps_one_session slot s :
  slot <> InTransition -> (forall runtime, slot <> Bound runtime) -> reachable slot s ->
  (length (sy_live s) <= 1)%nat
  /\ (sy_dropped s = false ->
      match sy_slot s with
      | Bound runtime => sy_live s = [runtime]
      | Unbound | Dormant _ => sy_live s = []
      | InTransition => exists i t, sy_tasks s !! i = Some t /\ gives_back (tk_prog t)
      end)
  /\ (sy_dropped s = true -> sy_slot s = InTransition)
  /\ (forall i t, sy_tasks s !! i = Some t -> is_wait (tk_prog t) = true -> tk_settled t = Some false ->
       sy_slot s = InTransition \/ exists j t', sy_tasks s !! j = Some t' /\ is_notify (tk_prog t') = true).
Proof.
  intros Hn Hb [holder [Hk Hs _ Hw]]%slot_reachable_inv; [|done..]. destruct holder as [[i r]|].
  - destruct Hs as ([t Ht] & Hslot & Hlive & Hd). rewrite Hslot, Hlive, Hd. split_and!; [destruct r; simpl; lia| |done|intros; by left].
    intros _. exists i, t. split; [done|]. specialize (Hk i t Ht). rewrite mode_at_self in Hk. by eapply holder_gives_back.
  - destruct (sy_dropped s); [by destruct Hs|]. destruct Hs as (r & Hr & Hlive).
    split_and!; [rewrite Hlive; destruct r; simpl; lia| |done|done]. intros _. rewrite Hlive. by destruct (sy_slot s); simpl in Hr; subst.
Qed.
End Calls.

(** ** Example: the channel activates a dormant profile *)
Section Example.
#[local] Instance no_calendar : Calendar := {| year _ := 0; month _ := 0%N; day _ := 0%N; hour _ := 0%N; minute _ := 0%N; second _ := 0%N; millisecond _ := 0%N |}.
#[local] Instance no_enums : EnumValues := {| ev_squad_state _ := None; ev_membership_state _ := None; ev_presence _ := None;
  ev_availability _ := None; ev_availability_source _ := None; ev_mode _ := None |}.
#[local] Instance no_inputs : ToolInputs := {| in_empty _ := None; in_join _ := None; in_describe _ := None; in_send _ := None;
  in_receive _ := None; in_acknowledge _ := None; in_status _ := None |}.
#[local] Instance no_outputs : ToValue ToolOutput := fun _ => None.
Definition bench_profile : ProfileBinding := {| pb_version := 1; pb_profile := "work"; pb_relay_origin := "http://relay";
  pb_squad_name := "alpha"; pb_squad_id := "sqd_1"; pb_member_id := "mem_1" |}.
Definition bench_slot : RuntimeSlot := Dormant bench_profile.
Definition bench_paths : ProfilePaths := {| pp_metadata := []; pp_credential := []; pp_lock := [] |}.
Abbreviation bench_step := (step (fun _ => None) "work" "http://relay" HarnessedDto bench_paths).
Definition bench_task (p : Prog Outcome) : Task := {| tk_prog := p; tk_owned := false; tk_settled := None; tk_shutdown := false |}.
Definition bench_sys (slot : RuntimeSlot) (p : Prog Outcome) (live : list Runtime) (next : Runtime) (dropped : bool) : Sys :=
  {| sy_slot := slot; sy_tasks := [bench_task p]; sy_live := live; sy_next := next; sy_dropped := dropped; sy_closing := false |}.
Definition bench_start : Prog Outcome := task OutActivation (dispatch_activation_runtime HarnessedDto bench_paths).
(** The programs after the first block, and after the session has started. *)
Definition bench_starting : Prog Outcome := match bench_start with Lock section => (section bench_slot).2 | p => p end.
Definition bench_started : Prog Outcome :=
  match bench_starting with
  | Ask op k => match op return (Returned op -> Prog Outcome) -> Prog Outcome with OpStart _ => fun k => k (Ok 0%nat) | _ => fun _ => bench_starting end k
  | p => p
  end.
Definition bench_bound : RuntimeSlot * Prog Outcome := match bench_started with Lock section => section InTransition | p => (InTransition, p) end.
Abbreviation bench_reachable := (reachable (fun _ => None) "work" "http://relay" HarnessedDto bench_paths bench_slot).
Lemma bench_activating : bench_reachable (bench_sys InTransition bench_starting [] 0 false).
Proof.
  assert (bench_reachable (bench_sys bench_slot bench_start [] 0 false)) as Hr.
  { eapply reach_step; [apply reach_start|]. exact (step_enter _ _ _ _ _ {| sy_slot := bench_slot; sy_tasks := []; sy_live := [];
      sy_next := 0; sy_dropped := false; sy_closing := false |} bench_start (opens_channel _ _ _ _ _)). }
  eapply reach_step; [exact Hr|]. exact (step_lock _ _ _ _ _ (bench_sys bench_slot bench_start [] 0 false) 0 (bench_task bench_start) _ eq_refl eq_refl).
Qed.
Lemma bench_active : bench_reachable (bench_sys bench_bound.1 bench_bound.2 [0%nat] 1 false).
Proof.
  assert (bench_reachable (bench_sys InTransition bench_started [0%nat] 1 false)) as Hr.
  { eapply reach_step; [exact bench_activating|]. exact (step_ask _ _ _ _ _ (bench_sys InTransition bench_starting [] 0 false) 0
      (bench_task bench_starting) (OpStart (start_spec HarnessedDto bench_paths bench_profile)) _ (Ok 0%nat) 1%nat eq_refl eq_refl (conj eq_refl eq_refl)). }
  eapply reach_step; [exact Hr|].
  exact (step_lock _ _ _ _ _ (bench_sys InTransition bench_started [0%nat] 1 false) 0 (bench_task bench_started) _ eq_refl eq_refl).
Qed.

Lemma adapter_keeps_one_session_witness : bench_bound.1 = Bound 0 /\ sy_live (bench_sys bench_bound.1 bench_bound.2 [0%nat] 1 false) = [0%nat].
Proof.
  split; [reflexivity|].
  exact (proj1 (proj2 (adapter_keeps_one_session (fun _ => None) "work" "http://relay" HarnessedDto bench_paths bench_slot
    (bench_sys bench_bound.1 bench_bound.2 [0%nat] 1 false) ltac:(discriminate) ltac:(intros; discriminate) bench_active)) eq_refl).
Defined.

(** The caller is dropped while the session starts: the slot stays in transition, and
    further calls are refused. *)
Lemma dropped_activation_strands :
  bench_reachable (bench_sys InTransition (Give OutDropped) [] 0 true) /\ active_begin InTransition = (InTransition, give (Err LcLocalLock)).
Proof.
  split; [|reflexivity]. eapply reach_step; [exact bench_activating|].
  refine (step_drop _ _ _ _ _ (bench_sys InTransition bench_starting [] 0 false) 0 (bench_task bench_starting) true eq_refl eq_refl eq_refl _).
  split; [done|]. intros [Ha _]. discriminate Ha.
Qed.
End Example.
