(* ===== verification/Channel.v ===== *)
(** * Channel: waking Claude through its channel (psst-mcp/src/claude_channel.rs)

    A wake is a notification of the MCP server; its turn lasts until the message it told of
    is no longer the oldest pending one, or five minutes have passed. *)
From stdpp Require Import gmap pretty strings.
From S2P Require Import Prelude Text Core Files Dto Validation Client Failure Activation Config Json Server.

Definition CHANNEL_NOTIFICATION : string := "notifications/claude/channel".
Definition CHANNEL_ENVIRONMENT : string := "PSST_CLAUDE_CHANNEL".
Definition TURN_RECONCILE_WAIT : Z := 10.
Definition TURN_RECONCILE_INTERVAL : Duration := Duration_from_secs 1.
Definition CHANNEL_REGISTRATION_SETTLE : Duration := Duration_from_secs 1.
Definition MAX_TURN_OCCUPANCY : Duration := Duration_from_secs (5 * 60).
Definition CHANNEL_CONTENT : string :=
  "Psst has durable pending mail. Use message_receive to inspect it; retrieval does not acknowledge. Process the pending work, then explicitly call message_acknowledge for each completed message.".
Definition BLOCKED_DIAGNOSTIC : string :=
  "psst-mcp: Claude Channel activation blocked; the notification was not safely completed. Check the installed Claude Channels preview, organization policy, and MCP connection before restarting this profile.".

Definition parse_channel_enabled (value : option string) : option bool :=
  match value with
  | None => Some false
  | Some value => if bool_decide (value ∈ ["1"; "true"; "enabled"]) then Some true else None
  end.

(** ** The notification *)
Definition channel_params (wake : WakeMetadata) : Value :=
  VObject [("content", VString CHANNEL_CONTENT);
           ("meta", VObject [("profile", VString (wm_profile wake)); ("squad", VString (wm_squad wake));
                             ("pending_count", VString (pretty (wm_pending_count wake)));
                             ("highest_priority", VString (match wm_highest_priority wake with NormalDto => "normal" | HighDto => "high" end));
                             ("oldest_message_id", VString (wm_oldest_message_id wake))])].
Definition channel_notification (wake : WakeMetadata) : string * Value := (CHANNEL_NOTIFICATION, channel_params wake).

(** An [Instant], in nanoseconds. *)
Definition Instant : Set := Z.
(** [Instant + Duration]. *)
Definition later (now : Instant) (d : Duration) : Instant := now + Z.of_N d.

(** [ActivationHost::start].  The peer with the instant it may be told of, once connected;
    the notification is sent when that instant has come, and [sent] says whether it was. *)
Record ChannelTurn : Set := { ct_sent_after : Instant; ct_sent : string * Value; ct_notified_oldest : string }.
Definition channel_connected (now : Instant) : option Instant := Some (later now CHANNEL_REGISTRATION_SETTLE).
Definition channel_start (peer : option Instant) (sent : bool) (wake : WakeMetadata) : Result HostFailure ChannelTurn :=
  ready_at ← ok_or peer RetryableBeforeStart;
  if sent then Ok {| ct_sent_after := ready_at; ct_sent := channel_notification wake; ct_notified_oldest := wm_oldest_message_id wake |}
  else Err HostOutcomeUnknown.

(** ** The end of a turn *)

(** A round of the loop: when the deadline is checked, what is observed, and when the pause
    is computed. *)
Record Round : Set := { rd_check : Instant; rd_observed : Result HostFailure InboxResponse; rd_after : Instant }.
(** The message is no longer the oldest one pending. *)
Definition turn_over (notified_oldest : string) (inbox : InboxResponse) : bool :=
  (ibr_pending_count inbox =? 0) || negb (bool_decide (ibr_oldest_message_id inbox = Some notified_oldest)).
(** [None]: the loop goes on after the rounds. *)
Fixpoint await_turn_completion (notified_oldest : string) (deadline : Instant) (rounds : list Round) : option (Result HostFailure unit) :=
  match rounds with
  | [] => None
  | round :: rest =>
      if deadline <=? rd_check round then Some (Err HostOutcomeUnknown)
      else match rd_observed round with
      | Err failure => Some (Err failure)
      | Ok inbox => if turn_over notified_oldest inbox then Some (Ok tt) else await_turn_completion notified_oldest deadline rest
      end
  end.
Definition wake_at (deadline : Instant) (now : Instant) : Instant := Z.min (later now TURN_RECONCILE_INTERVAL) deadline.
(** [ActivationTurn::completed]: [inbox 1 TURN_RECONCILE_WAIT] is observed, each of its errors an unknown outcome. *)
Definition observe_turn (inbox : Z -> Z -> Result SessionError InboxResponse) : Result HostFailure InboxResponse :=
  map_err (fun _ => HostOutcomeUnknown) (inbox 1 TURN_RECONCILE_WAIT).
Definition channel_completed (now : Instant) (turn : ChannelTurn) (rounds : list Round) : option (Result HostFailure unit) :=
  await_turn_completion (ct_notified_oldest turn) (later now MAX_TURN_OCCUPANCY) rounds.

(** ** The diagnostics *)
Inductive MonitorEvent : Set := StopChanged (stop : option bool) | Sampled (phase : ActivationPhase).
(** What [monitor_activation] prints, and whether it is done; [StopChanged None]: the sender is gone. *)
Fixpoint monitor_activation (events : list MonitorEvent) : list string * bool :=
  match events with
  | [] => ([], false)
  | StopChanged (None | Some true) :: _ => ([], true)
  | StopChanged (Some false) :: rest => monitor_activation rest
  | Sampled PhBlocked :: _ => ([BLOCKED_DIAGNOSTIC], true)
  | Sampled PhStopped :: _ => ([], true)
  | Sampled _ :: rest => monitor_activation rest
  end.

(** ** A turn ends *)

(** The clock does not go back, and a pause lasts as long as it was meant to. *)
Fixpoint clocked (deadline : Instant) (now : Instant) (rounds : list Round) : Prop :=
  match rounds with
  | [] => True
  | round :: rest => now <= rd_check round /\ rd_check round <= rd_after round /\ clocked deadline (wake_at deadline (rd_after round)) rest
  end.
(** Rounds that can pass between two instants. *)
Definition rounds_between (now deadline : Instant) : nat := Z.to_nat ((deadline - now + Z.of_N TURN_RECONCILE_INTERVAL - 1) / Z.of_N TURN_RECONCILE_INTERVAL).

Lemma rounds_step now now' deadline :
  now < deadline -> now + Z.of_N TURN_RECONCILE_INTERVAL <= now' \/ deadline <= now' -> (S (rounds_between now' deadline) <= rounds_between now deadline)%nat.
Proof.
  unfold rounds_between. change (Z.of_N TURN_RECONCILE_INTERVAL) with 1000000000. intros Hd Hn.
  assert (1 <= (deadline - now + 1000000000 - 1) / 1000000000) as H1 by (apply Z.div_le_lower_bound; lia).
  destruct (Z.le_gt_cases deadline now') as [Hl|Hl].
  - assert ((deadline - now' + 1000000000 - 1) / 1000000000 <= 0) by (apply Z.lt_succ_r, Z.div_lt_upper_bound; lia). lia.
  - assert ((deadline - now' + 1000000000 - 1) / 1000000000 + 1 <= (deadline - now + 1000000000 - 1) / 1000000000); [|lia].
    rewrite <- Z.div_add by lia. apply Z.div_le_mono; lia.
Qed.
Lemma await_turn_ends oldest deadline now rounds :
  clocked deadline now rounds -> (rounds_between now deadline < length rounds)%nat -> exists r, await_turn_completion oldest deadline rounds = Some r.
Proof.
  revert now. induction rounds as [|round rounds IH]; intros now; [simpl; lia|]. intros (Hc & Ha & Hr) Hl. simpl in *.
  destruct (Z.leb_spec deadline (rd_check round)) as [Hd|Hd]; [eauto|]. destruct (rd_observed round) as [inbox|]; [|eauto].
  destruct (turn_over oldest inbox); [eauto|]. eapply IH; [done|].
  pose proof (rounds_step now (wake_at deadline (rd_after round)) deadline ltac:(lia)) as Hs. unfold wake_at, later in *. lia.
Qed.
Lemma await_turn_result oldest deadline rounds r :
  await_turn_completion oldest deadline rounds = Some r ->
  match r with
  | Ok _ => exists round inbox, round ∈ rounds /\ rd_observed round = Ok inbox /\ turn_over oldest inbox = true /\ rd_check round < deadline
  | Err failure => (exists round, round ∈ rounds /\ rd_observed round = Err failure) \/
                   (failure = HostOutcomeUnknown /\ exists round, round ∈ rounds /\ deadline <= rd_check round)
  end.
Proof.
  induction rounds as [|round rounds IH]; [done|]. simpl. destruct (Z.leb_spec deadline (rd_check round)) as [Hd|Hd].
  { intros [= <-]. right. split; [done|]. exists round. split; [by left|done]. }
  destruct (rd_observed round) as [inbox|failure] eqn:Eo.
  - destruct (turn_over oldest inbox) eqn:Et.
    + intros [= <-]. exists round, inbox. split_and!; auto. by left.
    + intros Hr. specialize (IH Hr). destruct r as [[]|failure].
      * destruct IH as (x & i & ? & ?). exists x, i. split; [by right|done].
      * destruct IH as [(x & ? & ?)|(? & x & ? & ?)]; [left|right; split; [done|]]; exists x; (split; [by right|done]).
  - intros [= <-]. left. exists round. split; [by left|done].
Qed.


(** ** Example: the message is acknowledged while the turn runs *)
Definition still_pending : InboxResponse :=
  {| ibr_messages := []; ibr_pending_count := 1; ibr_highest_priority := Some NormalDto; ibr_oldest_message_id := Some "msg_1" |}.
Definition all_read : InboxResponse :=
  {| ibr_messages := []; ibr_pending_count := 0; ibr_highest_priority := None; ibr_oldest_message_id := None |}.
Definition example_turn : ChannelTurn :=
  {| ct_sent_after := 0; ct_sent := (CHANNEL_NOTIFICATION, VNull); ct_notified_oldest := "msg_1" |}.
Definition late_round : Round := {| rd_check := 300000000000; rd_observed := Ok all_read; rd_after := 300000000000 |}.
Definition example_rounds : list Round :=
  {| rd_check := 0; rd_observed := Ok still_pending; rd_after := 5 |}
  :: {| rd_check := 1000000005; rd_observed := Ok all_read; rd_after := 1000000009 |} :: replicate 299 late_round.
Lemma clocked_late k now : now <= 300000000000 -> clocked 300000000000 now (replicate k late_round).
Proof.
  revert now. induction k as [|k IH]; intros now Hn; simpl; [done|]. split_and!; [done|lia|]. apply IH. unfold wake_at. lia.
Qed.
