(* ===== verification/Worker.v ===== *)
(** * Worker: the store worker's queue and thread (psst-relay/src/lib.rs, [StoreWorker])

    The worker is a system of tasks: callers of [dispatch] and [request], the thread
    that owns the store, and whoever shuts the worker down.  A caller and the thread
    meet in a bounded queue and in a one-shot channel per command; a step of the
    system is one operation on what they share (an atomic flag, the sender behind its
    lock, the queue, a one-shot channel), and a run is any interleaving of steps.
    What the thread does with one command is [work], the jobs of Relay.v; the
    theorems relate every run to the one-command-at-a-time [dispatch] there. *)
From stdpp Require Import list.
From S2P Require Import Prelude Text Core Credential Dto Validation Notify Sql Store Repository Instance Message Inbox Authenticated Relay.

Inductive WorkerError : Set := WkRateLimited | WkUnavailable | WkStore | WkTimeout.
Definition worker_error_text (self : WorkerError) : string :=
  match self with
  | WkRateLimited => "store command queue is full"
  | WkUnavailable => "store worker is unavailable"
  | WkStore => "store operation failed"
  | WkTimeout => "store operation timed out"
  end.

Inductive SendFailure : Set := Full | Disconnected.

(** What a caller that awaits its command sees in the end: the command was not
    queued; the time ran out; the one-shot sender was dropped; or a value came. *)
Inductive Settlement (A : Type) : Type :=
| NotSent (failure : SendFailure) | Elapsed | SenderDropped | Received (value : A).
#[global] Arguments NotSent {A} failure.
#[global] Arguments Elapsed {A}.
#[global] Arguments SenderDropped {A}.
#[global] Arguments Received {A} value.

(** The errors of [StoreWorker::dispatch]. *)
Definition dispatch_result {T} (o : Settlement (Result RepositoryError T)) : Result DispatchError T :=
  match o with
  | NotSent Full => Err DiRateLimited
  | NotSent Disconnected => Err DiUnavailable
  | Elapsed => Err DiTimeout
  | SenderDropped => Err DiUnavailable
  | Received x => map_err DiStore x
  end.
(** The errors of [StoreWorker::request]. *)
Definition request_result (o : Settlement (Result WorkerError unit)) : Result WorkerError unit :=
  match o with
  | NotSent Full => Err WkRateLimited
  | NotSent Disconnected => Err WkUnavailable
  | Elapsed => Err WkTimeout
  | SenderDropped => Err WkUnavailable
  | Received x => x
  end.

(** Where a caller is: about to load [accepting]; past it, about to take the lock of
    the sender; awaiting its one-shot channel, which holds nothing yet, a value, or
    has lost its sender; done; or dropped together with its future. *)
Inductive CallPhase (A : Type) : Type :=
| Calling | Cleared | Waiting | Answered (value : A) | Dropped | Settled (o : Settlement A) | Abandoned.
#[global] Arguments Calling {A}.
#[global] Arguments Cleared {A}.
#[global] Arguments Waiting {A}.
#[global] Arguments Answered {A} value.
#[global] Arguments Dropped {A}.
#[global] Arguments Settled {A} o.
#[global] Arguments Abandoned {A}.

(** [reply.send] or the drop of [reply]: a caller that has gone does not notice. *)
Definition reply {A} (now : CallPhase A) (p : CallPhase A) : CallPhase A :=
  match p with Waiting => now | _ => p end.

(** The thread: in [recv]; holding a command it received, about to load [shutdown];
    about to execute it; in the loop over [try_iter]; out of the loop; returned. *)
Inductive ThreadPhase : Set :=
| Idling | Taken (i : nat) | Executing (i : nat) | Draining | Closing | Ended (r : Result WorkerError unit).

Section Worker.
Context `{Crypto} `{HttpHeaders} `{TimeCrate} `{Watch} `{Semaphores} `{SerdeJson}.
(** The order in which a hash set yields ids; whether [Store::readiness] and
    [Store::checkpoint] succeed on the store (Migrate.v models them). *)
Context (order : list MessageId -> list MessageId) (store_readiness store_checkpoint : World -> bool).

(** What a one-shot channel carries: the result of a store operation, or the worker's own. *)
Inductive ReplyKind : Type := OfStore (T : Type) | OfWorker.
Definition carried (k : ReplyKind) : Type :=
  match k with OfStore T => Result RepositoryError T | OfWorker => Result WorkerError unit end.

(** A command, with the kind of its one-shot channel. *)
Inductive StoreCommand : ReplyKind -> Type :=
| ScJoin (request : WorkerJoin) : StoreCommand (OfStore JoinAndClaimOutcome)
| ScListSquads : StoreCommand (OfStore (list SquadRecord))
| ScCreateSquad (request : WorkerCreateSquad) : StoreCommand (OfStore SquadRecord)
| ScDescribeSquad (name : SquadName) : StoreCommand (OfStore SquadRecord)
| ScRoster (c : SessionCredential) (name : SquadName) : StoreCommand (OfStore (list RosterMember))
| ScHeartbeat (c : SessionCredential) (a : Availability) (source : AvailabilitySource) (policy : LeasePolicy)
    : StoreCommand (OfStore InstanceRecord)
| ScSend (c : SessionCredential) (request : SendByName) : StoreCommand (OfStore SendOutcome)
| ScPending (c : SessionCredential) (max : Z) : StoreCommand (OfStore InboxPage)
| ScAcknowledge (c : SessionCredential) (ids : list MessageId) : StoreCommand (OfStore unit)
| ScTranscript (c : SessionCredential) (query : TranscriptByName)
    : StoreCommand (OfStore (list MessageView))
| ScLeave (c : SessionCredential) (squad : SquadName) : StoreCommand (OfStore LeaveOutcome)
| ScArchive (c : SessionCredential) (squad : SquadName) : StoreCommand (OfStore SquadRecord)
| ScResume (request : WorkerResume) : StoreCommand (OfStore SessionContext)
| ScReady : StoreCommand OfWorker
| ScCheckpoint : StoreCommand OfWorker.

Definition store_result (ok : bool) : Result WorkerError unit := if ok then Ok tt else Err WkStore.

(** The thread's match on the command. *)
Definition work {k} (c : StoreCommand k) : Relay -> carried k * Relay :=
  match c in StoreCommand k return Relay -> carried k * Relay with
  | ScJoin request => work_join request
  | ScListSquads => work_list_squads
  | ScCreateSquad request => work_create_squad request
  | ScDescribeSquad name => work_describe_squad name
  | ScRoster c name => work_roster c name
  | ScHeartbeat c a source policy => work_heartbeat c a source policy
  | ScSend c request => work_send c request
  | ScPending c max => work_pending c max
  | ScAcknowledge c ids => work_acknowledge order c ids
  | ScTranscript c query => work_transcript c query
  | ScLeave c squad => work_leave c squad
  | ScArchive c squad => work_archive c squad
  | ScResume request => work_resume request
  | ScReady => fun r => (store_result (store_readiness (rl_world r)), r)
  | ScCheckpoint => fun r => (store_result (store_checkpoint (rl_world r)), r)
  end.

(** [StoreCommand::cancel]. *)
Definition cancel {k} (c : StoreCommand k) : CallPhase (carried k) :=
  match c in StoreCommand k return CallPhase (carried k) with
  | ScReady | ScCheckpoint => Answered (Err WkUnavailable)
  | _ => Dropped
  end.

Record StoreCall : Type := Requested { rq_kind : ReplyKind; rq_command : StoreCommand rq_kind; rq_phase : CallPhase (carried rq_kind) }.
#[local] Arguments Requested {rq_kind} rq_command rq_phase.

(** What has happened to the relay's state, in order: commands that ran, and changes
    of the registry by subscribers. *)
Inductive LogEntry : Type := Ran (i : nat) {k} (c : StoreCommand k) | Touched (registry : NotificationRegistry).

(** [wk_sent], [wk_log] and [wk_cancelled] record the history for the statements; no step
    reads them. *)
Record Worker : Type := {
  wk_accepting : bool; wk_shutdown : bool; wk_sender : bool; wk_capacity : nat; wk_queue : list nat;
  wk_thread : ThreadPhase; wk_requests : list StoreCall; wk_relay : Relay;
  wk_sent : list nat; wk_log : list LogEntry; wk_cancelled : list nat }.

(** [StoreWorker::start_internal], the store open and the thread spawned. *)
Definition worker_started (capacity : nat) (r : Relay) : Worker :=
  {| wk_accepting := true; wk_shutdown := false; wk_sender := true; wk_capacity := capacity; wk_queue := [];
     wk_thread := Idling; wk_requests := []; wk_relay := r; wk_sent := []; wk_log := []; wk_cancelled := [] |}.

(** ** Updates *)
Definition set_flags (s : Worker) (accepting shutdown sender : bool) : Worker :=
  {| wk_accepting := accepting; wk_shutdown := shutdown; wk_sender := sender; wk_capacity := wk_capacity s;
     wk_queue := wk_queue s; wk_thread := wk_thread s; wk_requests := wk_requests s; wk_relay := wk_relay s;
     wk_sent := wk_sent s; wk_log := wk_log s; wk_cancelled := wk_cancelled s |}.
Definition set_requests (s : Worker) (requests : list StoreCall) : Worker :=
  {| wk_accepting := wk_accepting s; wk_shutdown := wk_shutdown s; wk_sender := wk_sender s;
     wk_capacity := wk_capacity s; wk_queue := wk_queue s; wk_thread := wk_thread s; wk_requests := requests;
     wk_relay := wk_relay s; wk_sent := wk_sent s; wk_log := wk_log s; wk_cancelled := wk_cancelled s |}.
Definition set_thread (s : Worker) (queue : list nat) (thread : ThreadPhase) : Worker :=
  {| wk_accepting := wk_accepting s; wk_shutdown := wk_shutdown s; wk_sender := wk_sender s;
     wk_capacity := wk_capacity s; wk_queue := queue; wk_thread := thread; wk_requests := wk_requests s;
     wk_relay := wk_relay s; wk_sent := wk_sent s; wk_log := wk_log s; wk_cancelled := wk_cancelled s |}.
Definition enqueue (s : Worker) (i : nat) : Worker :=
  {| wk_accepting := wk_accepting s; wk_shutdown := wk_shutdown s; wk_sender := wk_sender s;
     wk_capacity := wk_capacity s; wk_queue := wk_queue s ++ [i]; wk_thread := wk_thread s;
     wk_requests := wk_requests s; wk_relay := wk_relay s; wk_sent := wk_sent s ++ [i]; wk_log := wk_log s;
     wk_cancelled := wk_cancelled s |}.
Definition happened (s : Worker) (e : LogEntry) (r : Relay) : Worker :=
  {| wk_accepting := wk_accepting s; wk_shutdown := wk_shutdown s; wk_sender := wk_sender s;
     wk_capacity := wk_capacity s; wk_queue := wk_queue s; wk_thread := wk_thread s; wk_requests := wk_requests s;
     wk_relay := r; wk_sent := wk_sent s; wk_log := wk_log s ++ [e]; wk_cancelled := wk_cancelled s |}.
Definition note_cancelled (s : Worker) (i : nat) : Worker :=
  {| wk_accepting := wk_accepting s; wk_shutdown := wk_shutdown s; wk_sender := wk_sender s;
     wk_capacity := wk_capacity s; wk_queue := wk_queue s; wk_thread := wk_thread s; wk_requests := wk_requests s;
     wk_relay := wk_relay s; wk_sent := wk_sent s; wk_log := wk_log s; wk_cancelled := wk_cancelled s ++ [i] |}.

Definition update_call (i : nat) (f : forall k, StoreCommand k -> CallPhase (carried k) -> CallPhase (carried k)) (l : list StoreCall) : list StoreCall :=
  alter (fun rq => Requested (rq_command rq) (f _ (rq_command rq) (rq_phase rq))) i l.
Definition update_request (i : nat) (f : forall k, StoreCommand k -> CallPhase (carried k) -> CallPhase (carried k)) (s : Worker) : Worker :=
  set_requests s (update_call i f (wk_requests s)).
(** A caller's own step, [None] where it cannot take it. *)
Definition caller_step (i : nat) (f : forall A, CallPhase A -> option (CallPhase A)) (s : Worker) : option Worker :=
  rq ← wk_requests s !! i;
  p ← f _ (rq_phase rq);
  Some (set_requests s (<[i := Requested (rq_command rq) p]> (wk_requests s))).

(** ** Steps *)

(** A caller. *)
Definition place_call {k} (c : StoreCommand k) (s : Worker) : option Worker :=
  Some (set_requests s (wk_requests s ++ [Requested c Calling])).
(** [try_send], the load of [accepting]. *)
Definition load_accepting (i : nat) (s : Worker) : option Worker :=
  caller_step i (fun A p => match p with
    | Calling => Some (if wk_accepting s then Cleared else Settled (NotSent Disconnected))
    | _ => None
    end) s.
(** The queue's own [try_send], on the sender if it is there; the receiver lives as long
    as the thread. *)
Definition queue_try_send (s : Worker) : Result SendFailure unit :=
  if negb (wk_sender s) then Err Disconnected
  else match wk_thread s with
  | Ended _ => Err Disconnected
  | _ => if (wk_capacity s <=? length (wk_queue s))%nat then Err Full else Ok tt
  end.
(** [try_send], under the lock of the sender. *)
Definition try_send (i : nat) (s : Worker) : option Worker :=
  let sent := queue_try_send s in
  s' ← caller_step i (fun A p => match p with
    | Cleared => Some (match sent with Ok _ => Waiting | Err failure => Settled (NotSent failure) end)
    | _ => None
    end) s;
  Some (match sent with Ok _ => enqueue s' i | Err _ => s' end).
(** The end of the wait: the one-shot channel has something, or has lost its sender. *)
Definition receive_reply (i : nat) (s : Worker) : option Worker :=
  caller_step i (fun A p => match p with
    | Answered a => Some (Settled (Received a))
    | Dropped => Some (Settled SenderDropped)
    | _ => None
    end) s.
(** [tokio::time::timeout] ends the wait; it may do so just as an answer arrives. *)
Definition elapse (i : nat) (s : Worker) : option Worker :=
  caller_step i (fun A p => match p with
    | Waiting | Answered _ | Dropped => Some (Settled Elapsed)
    | _ => None
    end) s.
(** The caller's future is dropped. *)
Definition abandon (i : nat) (s : Worker) : option Worker :=
  caller_step i (fun A p => match p with
    | Calling | Waiting | Answered _ | Dropped => Some Abandoned
    | _ => None
    end) s.

(** The thread's loop. *)
Definition recv (s : Worker) : option Worker :=
  match wk_thread s with
  | Idling =>
      match wk_queue s with
      | i :: queue => Some (set_thread s queue (Taken i))
      | [] => if wk_sender s then None else Some (set_thread s [] Closing)
      end
  | _ => None
  end.
Definition cancel_command (i : nat) (s : Worker) : Worker :=
  note_cancelled (update_request i (fun k c => reply (cancel c)) s) i.
Definition check_shutdown (s : Worker) : option Worker :=
  match wk_thread s with
  | Taken i =>
      Some (if wk_shutdown s then set_thread (cancel_command i s) (wk_queue s) Draining
            else set_thread s (wk_queue s) (Executing i))
  | _ => None
  end.
Definition execute_command (s : Worker) : option Worker :=
  match wk_thread s with
  | Executing i =>
      rq ← wk_requests s !! i;
      let '(a, r) := work (rq_command rq) (wk_relay s) in
      let s := set_requests s (<[i := Requested (rq_command rq) (reply (Answered a) (rq_phase rq))]> (wk_requests s)) in
      Some (set_thread (happened s (Ran i (rq_command rq)) r) (wk_queue s) Idling)
  | _ => None
  end.
Definition drain (s : Worker) : option Worker :=
  match wk_thread s with
  | Draining =>
      match wk_queue s with
      | i :: queue => Some (set_thread (cancel_command i s) queue Draining)
      | [] => Some (set_thread s [] Closing)
      end
  | _ => None
  end.
(** The last checkpoint; the receiver goes, and with it what is still queued. *)
Definition drop_command (s : Worker) (i : nat) : Worker :=
  note_cancelled (update_request i (fun k _ => reply Dropped) s) i.
Definition finish_thread (s : Worker) : option Worker :=
  match wk_thread s with
  | Closing =>
      Some (set_thread (fold_left drop_command (wk_queue s) s) []
              (Ended (store_result (store_checkpoint (rl_world (wk_relay s))))))
  | _ => None
  end.

(** [begin_shutdown], its three operations in order. *)
Definition stop_worker (s : Worker) : option Worker := Some (set_flags s false (wk_shutdown s) (wk_sender s)).
Definition stop_flag (s : Worker) : option Worker :=
  if wk_accepting s then None else Some (set_flags s (wk_accepting s) true (wk_sender s)).
Definition take_sender (s : Worker) : option Worker :=
  if wk_shutdown s then Some (set_flags s (wk_accepting s) (wk_shutdown s) false) else None.

Definition is_over {A} (p : CallPhase A) : bool := match p with Settled _ | Abandoned => true | _ => false end.
(** The last clone of the worker is dropped: no caller borrows it any more. *)
Definition drop_worker (s : Worker) : option Worker :=
  if forallb (fun rq => is_over (rq_phase rq)) (wk_requests s)
  then Some (set_flags s (wk_accepting s) (wk_shutdown s) false) else None.
(** A subscriber changes the registry, under the registry's own lock. *)
Definition touch (registry : NotificationRegistry) (s : Worker) : option Worker :=
  Some (happened s (Touched registry) (set_registry (wk_relay s) registry)).

Inductive WorkerEvent : Type :=
| EvCall {k} (c : StoreCommand k) | EvLoadAccepting (i : nat) | EvTrySend (i : nat) | EvReceive (i : nat)
| EvElapse (i : nat) | EvAbandon (i : nat) | EvRecv | EvCheckShutdown | EvExecute | EvDrain | EvFinish
| EvStopAccepting | EvStopFlag | EvTakeSender | EvDropWorker | EvTouch (registry : NotificationRegistry).

Definition worker_step (e : WorkerEvent) (s : Worker) : option Worker :=
  match e with
  | EvCall c => place_call c s
  | EvLoadAccepting i => load_accepting i s
  | EvTrySend i => try_send i s
  | EvReceive i => receive_reply i s
  | EvElapse i => elapse i s
  | EvAbandon i => abandon i s
  | EvRecv => recv s
  | EvCheckShutdown => check_shutdown s
  | EvExecute => execute_command s
  | EvDrain => drain s
  | EvFinish => finish_thread s
  | EvStopAccepting => stop_worker s
  | EvStopFlag => stop_flag s
  | EvTakeSender => take_sender s
  | EvDropWorker => drop_worker s
  | EvTouch registry => touch registry s
  end.
Fixpoint interleave (events : list WorkerEvent) (s : Worker) : option Worker :=
  match events with [] => Some s | e :: rest => s' ← worker_step e s; interleave rest s' end.
End Worker.
#[global] Arguments Requested {rq_kind} rq_command rq_phase.
