(* ===== verification/Serial.v ===== *)
(** * Serial: every run of the store worker is a sequence of single commands

    The invariant of the system of Worker.v, and what it gives: commands run in the
    order they were queued, each at most once; a caller sees what [dispatch] of
    Relay.v returns for its command alone; a shutdown runs at most the command already
    begun, and ends. *)
From stdpp Require Import list.
From S2P Require Import Prelude Text Core Credential Dto Validation Notify Sql Store Repository Instance Message Inbox Authenticated Relay Invariant Events History Commands Base64 Fixtures Delivery Queue MessageViews Gateway Worker.

Section Serial.
Context `{Crypto} `{HttpHeaders} `{TimeCrate} `{Watch} `{Semaphores} `{SerdeJson}.
Context (order : list MessageId -> list MessageId) (store_readiness store_checkpoint : World -> bool).
#[local] Abbreviation work := (work order store_readiness store_checkpoint).
#[local] Abbreviation worker_step := (worker_step order store_readiness store_checkpoint).
#[local] Abbreviation interleave := (interleave order store_readiness store_checkpoint).

(** ** The sequential account *)
Definition effect (e : LogEntry) (r : Relay) : Relay :=
  match e with Ran _ c => (work c r).2 | Touched registry => set_registry r registry end.
Definition replay (log : list LogEntry) (r : Relay) : Relay := fold_left (fun r e => effect e r) log r.
Definition executed (log : list LogEntry) : list nat :=
  omap (fun e => match e with Ran i _ => Some i | Touched _ => None end) log.

(** Queued and not yet run or cancelled, oldest first. *)
Definition pending (s : Worker) : list nat :=
  match wk_thread s with Taken i | Executing i => i :: wk_queue s | _ => wk_queue s end.

Lemma replay_app log e r : replay (log ++ [e]) r = effect e (replay log r).
Proof. apply fold_left_app. Qed.
Lemma executed_app log log' : executed (log ++ log') = executed log ++ executed log'.
Proof. apply omap_app. Qed.
Lemma elem_of_executed i log : i ∈ executed log <-> exists k (c : StoreCommand k), Ran i c ∈ log.
Proof.
  unfold executed. rewrite list_elem_of_omap. split.
  - intros ([j A c|] & Hin & [= ->]); eauto.
  - intros (A & c & Hin). by exists (Ran i c).
Qed.

(** ** What a caller's phase says about the history *)
Definition ran_with (r0 : Relay) (s : Worker) (i : nat) {k} (c : StoreCommand k) (a : carried k) : Prop :=
  exists before after, wk_log s = before ++ Ran i c :: after /\ a = (work c (replay before r0)).1.
Definition answer_of (r0 : Relay) (s : Worker) (i : nat) {k} (c : StoreCommand k) (a : carried k) : Prop :=
  ran_with r0 s i c a \/ (i ∈ wk_cancelled s /\ cancel c = Answered a).
Definition accounts_for (r0 : Relay) (s : Worker) (i : nat) {k} (c : StoreCommand k) (p : CallPhase (carried k)) : Prop :=
  match p with
  | Calling | Cleared | Settled (NotSent _) => i ∉ wk_sent s
  | Waiting => i ∈ pending s
  | Answered a | Settled (Received a) => answer_of r0 s i c a
  | Dropped | Settled SenderDropped => i ∈ wk_cancelled s
  | Settled Elapsed | Abandoned => True
  end.

Definition requested (requests : list StoreCall) (e : LogEntry) : Prop :=
  match e with Ran i c => exists p, requests !! i = Some (Requested c p) | Touched _ => True end.

Record account (r0 : Relay) (s : Worker) : Prop := {
  ac_order : wk_sent s = executed (wk_log s) ++ wk_cancelled s ++ pending s;
  ac_distinct : NoDup (wk_sent s);
  ac_known : forall i, i ∈ wk_sent s -> (i < length (wk_requests s))%nat;
  ac_relay : wk_relay s = replay (wk_log s) r0;
  ac_bound : (length (wk_queue s) <= wk_capacity s)%nat;
  ac_early : match wk_thread s with Idling | Taken _ | Executing _ => wk_cancelled s = [] | _ => True end;
  ac_ended : match wk_thread s with Ended _ => wk_queue s = [] | _ => True end;
  ac_entries : forall e, e ∈ wk_log s -> requested (wk_requests s) e;
  ac_callers : forall i rq, wk_requests s !! i = Some rq -> accounts_for r0 s i (rq_command rq) (rq_phase rq) }.

(** The history of [s'] extends the one of [s], as the request [i] sees it. *)
Record extends (s s' : Worker) (i : nat) : Prop := {
  ex_sent : i ∉ wk_sent s -> i ∉ wk_sent s';
  ex_log : wk_log s `prefix_of` wk_log s';
  ex_cancelled : i ∈ wk_cancelled s -> i ∈ wk_cancelled s' }.

Lemma ran_with_extends r0 s s' i k (c : StoreCommand k) a :
  wk_log s `prefix_of` wk_log s' -> ran_with r0 s i c a -> ran_with r0 s' i c a.
Proof.
  intros [l El] (b & a' & E & Ea). exists b, (a' ++ l). split; [|done]. by rewrite El, E, <- app_assoc.
Qed.
Lemma accounted_extends r0 s s' i k (c : StoreCommand k) p :
  extends s s' i -> (i ∈ pending s -> i ∈ pending s') -> accounts_for r0 s i c p -> accounts_for r0 s' i c p.
Proof.
  intros [Hs Hl Hc] Hp. unfold accounts_for, answer_of. destruct p as [| | |a| |o|]; [..|destruct o as [[]| | |a]|]; auto;
    intros [Hr|[Hi E]]; eauto using ran_with_extends.
Qed.
(** A request that leaves the queue is answered, or was not waiting. *)
Lemma accounted_reply r0 s s' i k (c : StoreCommand k) now p :
  extends s s' i -> accounts_for r0 s' i c now -> accounts_for r0 s i c p -> accounts_for r0 s' i c (reply now p).
Proof.
  intros [Hs Hl Hc] Hnow. unfold reply. destruct p as [| | |a| |o|]; [..|destruct o as [[]| | |a]|]; simpl; unfold answer_of; auto;
    intros [Hr|[Hi E]]; eauto using ran_with_extends.
Qed.

(** ** Steps of callers *)
Lemma caller_step_inv i f s s' :
  caller_step i f s = Some s' ->
  exists rq p, wk_requests s !! i = Some rq /\ f _ (rq_phase rq) = Some p
    /\ s' = set_requests s (<[i := Requested (rq_command rq) p]> (wk_requests s)).
Proof.
  unfold caller_step. destruct (wk_requests s !! i) as [rq|] eqn:E; simpl; [|done].
  destruct (f _ (rq_phase rq)) as [p|] eqn:Ep; simpl; [|done]. intros [= <-]. eauto.
Qed.

Lemma requested_insert l i rq p e :
  l !! i = Some rq -> requested l e -> requested (<[i := Requested (rq_command rq) p]> l) e.
Proof.
  intros Hi. destruct e as [j A c|]; [|done]. intros (q & Hj). destruct (decide (j = i)) as [->|Hne].
  - rewrite Hi in Hj. injection Hj as ->. exists p. rewrite list_lookup_insert_eq; [done|by eapply lookup_lt_Some].
  - exists q. by rewrite list_lookup_insert_ne.
Qed.

(** A change of the phases alone. *)
Lemma account_set_request r0 s i rq p :
  account r0 s -> wk_requests s !! i = Some rq -> accounts_for r0 s i (rq_command rq) p ->
  account r0 (set_requests s (<[i := Requested (rq_command rq) p]> (wk_requests s))).
Proof.
  intros [] Hi Hp. constructor; simpl; try done.
  - intros j Hj. rewrite length_insert. auto.
  - intros e He. apply requested_insert; auto.
  - intros j rj. destruct (decide (j = i)) as [->|Hne].
    + rewrite list_lookup_insert_eq by (by eapply lookup_lt_Some). intros [= <-]. done.
    + rewrite list_lookup_insert_ne by done. intros Hj. exact (ac_callers0 j rj Hj).
Qed.

Lemma account_caller_step r0 s s' i f :
  account r0 s -> caller_step i f s = Some s' ->
  (forall k (c : StoreCommand k) p p', accounts_for r0 s i c p -> f _ p = Some p' -> accounts_for r0 s i c p') ->
  account r0 s'.
Proof.
  intros Ha Hs Hf. apply caller_step_inv in Hs as (rq & p & Hi & Hp & ->).
  apply account_set_request; auto. eapply Hf, Hp. by apply (ac_callers _ _ Ha).
Qed.

Lemma account_call r0 s k (c : StoreCommand k) :
  account r0 s -> account r0 (set_requests s (wk_requests s ++ [Requested c Calling])).
Proof.
  intros []. constructor; simpl; try done.
  - intros i Hi. rewrite length_app. specialize (ac_known0 i Hi). lia.
  - intros e He. specialize (ac_entries0 e He). destruct e as [i B d|]; [|done].
    destruct ac_entries0 as (p & Hp). exists p. by apply lookup_app_l_Some.
  - intros i rq Hi. apply lookup_app_Some in Hi as [Hi|[Hlen Hi]]; [exact (ac_callers0 i rq Hi)|].
    apply list_lookup_singleton_Some in Hi as [Hz <-]. simpl. intros Hin. specialize (ac_known0 i Hin). lia.
Qed.

Lemma pending_enqueue s i : pending (enqueue s i) = pending s ++ [i].
Proof. unfold pending; simpl. by destruct (wk_thread s). Qed.
Lemma account_enqueue r0 s i rq :
  account r0 s -> wk_requests s !! i = Some rq -> i ∉ wk_sent s -> (length (wk_queue s) < wk_capacity s)%nat ->
  match wk_thread s with Ended _ => False | _ => True end ->
  account r0 (enqueue (set_requests s (<[i := Requested (rq_command rq) Waiting]> (wk_requests s))) i).
Proof.
  intros [] Hi Hnew Hlen Hth. constructor; simpl; try done.
  - rewrite pending_enqueue, ac_order0, <- !app_assoc. done.
  - apply NoDup_app. split; [done|]. split; [intros x Hx Hx'; set_solver|apply NoDup_singleton].
  - intros j. rewrite length_insert, elem_of_app, list_elem_of_singleton. intros [Hj| ->]; [auto|by eapply lookup_lt_Some].
  - rewrite length_app. simpl. lia.
  - by destruct (wk_thread s).
  - intros e He. apply requested_insert; auto.
  - intros j rj. destruct (decide (j = i)) as [->|Hne].
    + rewrite list_lookup_insert_eq by (by eapply lookup_lt_Some). intros [= <-]. simpl.
      rewrite pending_enqueue. set_solver.
    + rewrite list_lookup_insert_ne by done. intros Hj. eapply accounted_extends, (ac_callers0 j rj Hj).
      { constructor; simpl; [set_solver|done|done]. }
      rewrite pending_enqueue. change (pending (set_requests _ _)) with (pending s). set_solver.
Qed.

Lemma queue_try_send_ok s u :
  queue_try_send s = Ok u ->
  (length (wk_queue s) < wk_capacity s)%nat /\ match wk_thread s with Ended _ => False | _ => True end /\ wk_sender s = true.
Proof.
  unfold queue_try_send. destruct (wk_sender s); simpl; [|done].
  destruct (Nat.leb_spec (wk_capacity s) (length (wk_queue s))); destruct (wk_thread s); done.
Qed.

Lemma account_try_send r0 s s' i : account r0 s -> try_send i s = Some s' -> account r0 s'.
Proof.
  intros Ha. unfold try_send. destruct (caller_step i _ s) as [s1|] eqn:Ec; simpl; [|done]. intros [= <-].
  destruct (queue_try_send s) as [u|failure] eqn:Eq.
  - apply caller_step_inv in Ec as (rq & p & Hi & Hp & ->).
    destruct (rq_phase rq) eqn:Ep; try done. injection Hp as <-.
    apply queue_try_send_ok in Eq as (Hlen & Hth & _).
    apply account_enqueue; auto. pose proof (ac_callers _ _ Ha i rq Hi) as Hin. by rewrite Ep in Hin.
  - eapply account_caller_step; [exact Ha|exact Ec|].
    intros A c p p' Hin Hf. destruct p; try done. by injection Hf as <-.
Qed.

Lemma account_caller r0 s s' i :
  account r0 s ->
  load_accepting i s = Some s' \/ receive_reply i s = Some s' \/ elapse i s = Some s' \/ abandon i s = Some s' ->
  account r0 s'.
Proof.
  intros Ha [E|[E|[E|E]]]; (eapply account_caller_step; [exact Ha|exact E|]);
    intros A c p p' Hin Hf; destruct p; try done; injection Hf as <-; try done.
  by destruct (wk_accepting s).
Qed.

(** ** Steps of the thread *)

(** The oldest pending command leaves the queue. *)
Lemma account_head r0 s i rest :
  account r0 s -> pending s = i :: rest ->
  exists rq, wk_requests s !! i = Some rq /\ (i ∉ rest)
    /\ forall j, j <> i -> j ∈ pending s -> j ∈ rest.
Proof.
  intros Ha Ep. pose proof (ac_distinct _ _ Ha) as Hd. rewrite (ac_order _ _ Ha), Ep in Hd.
  apply NoDup_app in Hd as (_ & _ & Hd). apply NoDup_app in Hd as (_ & _ & Hd).
  apply NoDup_cons in Hd as [Hd _].
  assert (i < length (wk_requests s))%nat as Hlt.
  { apply (ac_known _ _ Ha). rewrite (ac_order _ _ Ha), Ep. set_solver. }
  destruct (lookup_lt_is_Some_2 _ _ Hlt) as [rq Hrq]. exists rq. split; [done|]. split; [done|].
  rewrite Ep. set_solver.
Qed.

Lemma lookup_update i f l j :
  update_call i f l !! j =
  if decide (j = i) then (fun rq => Requested (rq_command rq) (f _ (rq_command rq) (rq_phase rq))) <$> l !! j else l !! j.
Proof.
  unfold update_call. destruct (decide (j = i)) as [->|Hne]; [apply list_lookup_alter_eq|by apply list_lookup_alter_ne].
Qed.

(** It is cancelled. *)
Lemma account_cancel r0 s i rest thread (now : forall k, StoreCommand k -> CallPhase (carried k)) :
  account r0 s -> pending s = i :: rest -> rest = wk_queue s \/ wk_queue s = i :: rest ->
  thread = Draining \/ thread = Closing ->
  (forall k (c : StoreCommand k), now k c = Dropped \/ now k c = cancel c) ->
  account r0 (set_thread (note_cancelled (update_request i (fun k c => reply (now k c)) s) i) rest thread).
Proof.
  intros Ha Ep Hq Hth Hnow. destruct (account_head _ _ _ _ Ha Ep) as (rq & Hrq & Hfresh & Hrest).
  set (s' := set_thread _ _ _).
  assert (pending s' = rest) as Epend by (unfold s', pending; simpl; by destruct Hth as [->| ->]).
  destruct Ha. constructor; unfold s'; simpl; try done.
  - fold s'. rewrite Epend, ac_order0, Ep, <- app_assoc. done.
  - intros j Hj. unfold update_call. rewrite length_alter. auto.
  - destruct Hq as [Hq|Hq]; [by rewrite Hq|]. rewrite Hq in ac_bound0. simpl in ac_bound0. lia.
  - by destruct Hth as [->| ->].
  - by destruct Hth as [->| ->].
  - intros e He. specialize (ac_entries0 e He). destruct e as [j A c|]; [|done]. destruct ac_entries0 as (p & Hp).
    simpl. rewrite lookup_update, Hp. simpl. destruct (decide (j = i)); eauto.
  - fold s'. intros j rj. rewrite lookup_update. destruct (decide (j = i)) as [->|Hne].
    + rewrite Hrq. simpl. intros [= <-]. simpl.
      assert (i ∈ wk_cancelled s') as Hc by (unfold s'; simpl; set_solver).
      apply (accounted_reply r0 s); [|clear Hrq|exact (ac_callers0 i rq Hrq)].
      { constructor; unfold s'; simpl; [done|done|set_solver]. }
      destruct (Hnow _ (rq_command rq)) as [->| ->]; [done|].
      destruct (rq_command rq); simpl; try done; (right; split; [done|reflexivity]).
    + intros Hj. eapply (accounted_extends r0 s s'), (ac_callers0 j rj Hj).
      { constructor; unfold s'; simpl; [done|done|set_solver]. }
      rewrite Epend. auto.
Qed.

(** It runs. *)
Lemma account_execute r0 s s' :
  account r0 s -> execute_command order store_readiness store_checkpoint s = Some s' -> account r0 s'.
Proof.
  intros Ha. unfold execute_command. destruct (wk_thread s) as [|?|i| | |?] eqn:Et; try done.
  assert (pending s = i :: wk_queue s) as Ep by (unfold pending; by rewrite Et).
  destruct (account_head _ _ _ _ Ha Ep) as (rq & Hrq & Hfresh & Hrest). rewrite Hrq. simpl.
  destruct (work (rq_command rq) (wk_relay s)) as [a r] eqn:Ew. intros [= <-]. set (s' := set_thread _ _ _).
  pose proof (ac_early _ _ Ha) as Hearly. rewrite Et in Hearly. destruct Ha. constructor; unfold s'; simpl; try done.
  - rewrite ac_order0, executed_app, Ep, Hearly. simpl. by rewrite <- app_assoc.
  - intros j Hj. rewrite length_insert. auto.
  - rewrite replay_app, <- ac_relay0. simpl. by rewrite Ew.
  - intros e. rewrite elem_of_app, list_elem_of_singleton. intros [He| ->]; [by apply requested_insert; auto|].
    simpl. rewrite list_lookup_insert_eq by (by eapply lookup_lt_Some). eauto.
  - fold s'. intros j rj. destruct (decide (j = i)) as [->|Hne].
    + rewrite list_lookup_insert_eq by (by eapply lookup_lt_Some). intros [= <-]. simpl.
      apply (accounted_reply r0 s); [constructor; unfold s'; simpl; [done|by eexists|done]| |exact (ac_callers0 i rq Hrq)].
      left. exists (wk_log s), []. split; [done|]. by rewrite <- ac_relay0, Ew.
    + rewrite list_lookup_insert_ne by done. intros Hj.
      eapply (accounted_extends r0 s s'), (ac_callers0 j rj Hj); [constructor; unfold s'; simpl; [done|by eexists|done]|auto].
Qed.

Lemma account_recv r0 s s' : account r0 s -> recv s = Some s' -> account r0 s'.
Proof.
  intros Ha. unfold recv. destruct (wk_thread s) eqn:Et; try done.
  assert (pending s = wk_queue s) as Ep by (unfold pending; by rewrite Et).
  pose proof (ac_early _ _ Ha) as Hearly. rewrite Et in Hearly.
  destruct (wk_queue s) as [|i queue] eqn:Eq; [destruct (wk_sender s); [done|]|]; intros [= <-]; destruct Ha; constructor; simpl; try done.
  - by rewrite ac_order0, Ep.
  - lia.
  - intros j rj Hj. eapply accounted_extends, (ac_callers0 j rj Hj); [by constructor|by rewrite Ep].
  - by rewrite ac_order0, Ep.
  - rewrite Eq in ac_bound0. simpl in ac_bound0. lia.
  - intros j rj Hj. eapply accounted_extends, (ac_callers0 j rj Hj); [by constructor|by rewrite Ep].
Qed.

Lemma account_check r0 s s' : account r0 s -> check_shutdown s = Some s' -> account r0 s'.
Proof.
  intros Ha. unfold check_shutdown. destruct (wk_thread s) as [|i|?| | |?] eqn:Et; try done.
  assert (pending s = i :: wk_queue s) as Ep by (unfold pending; by rewrite Et).
  destruct (wk_shutdown s); intros [= <-].
  - apply account_cancel with (now := fun k c => cancel c); auto.
  - pose proof (ac_early _ _ Ha) as Hearly. rewrite Et in Hearly. destruct Ha. constructor; simpl; try done.
    + by rewrite ac_order0, Ep.
    + intros j rj Hj. eapply accounted_extends, (ac_callers0 j rj Hj); [by constructor|by rewrite Ep].
Qed.

(** Nothing is pending and the thread moves on. *)
Lemma account_idle r0 s thread :
  account r0 s -> pending s = [] -> thread = Closing \/ (exists r, thread = Ended r) -> account r0 (set_thread s [] thread).
Proof.
  intros Ha Ep Hth.
  assert (pending (set_thread s [] thread) = []) as Ep' by (unfold pending; simpl; by destruct Hth as [->|[r ->]]).
  destruct Ha. constructor; simpl; try done.
  - by rewrite Ep', ac_order0, Ep.
  - lia.
  - by destruct Hth as [->|[r ->]].
  - by destruct Hth as [->|[r ->]].
  - intros j rj Hj. eapply accounted_extends, (ac_callers0 j rj Hj); [by constructor|by rewrite Ep, Ep'].
Qed.

Lemma account_drain r0 s s' : account r0 s -> drain s = Some s' -> account r0 s'.
Proof.
  intros Ha. unfold drain. destruct (wk_thread s) eqn:Et; try done.
  assert (pending s = wk_queue s) as Ep by (unfold pending; by rewrite Et).
  destruct (wk_queue s) as [|i queue] eqn:Eq; intros [= <-].
  - apply account_idle; auto.
  - apply account_cancel with (now := fun k c => cancel c); auto.
Qed.

Lemma drop_all_thread queue queue' thread s :
  set_thread (fold_left drop_command queue s) queue' thread = fold_left drop_command queue (set_thread s queue' thread).
Proof. revert s. induction queue as [|i queue IH]; intros s; simpl; [done|]. by rewrite IH. Qed.
Lemma account_drop_all r0 queue s :
  account r0 (set_thread s queue Closing) -> account r0 (set_thread (fold_left drop_command queue s) [] Closing).
Proof.
  revert s. induction queue as [|i queue IH]; intros s Ha; simpl; [done|].
  apply IH. exact (account_cancel r0 (set_thread s (i :: queue) Closing) i queue Closing (fun k c => Dropped) Ha
    eq_refl (or_intror eq_refl) (or_intror eq_refl) (fun k c => or_introl eq_refl)).
Qed.
Lemma account_finish r0 s s' : account r0 s -> finish_thread store_checkpoint s = Some s' -> account r0 s'.
Proof.
  intros Ha. unfold finish_thread. destruct (wk_thread s) eqn:Et; try done. intros [= <-].
  set (ended := Ended _).
  change (set_thread (fold_left drop_command (wk_queue s) s) [] ended)
    with (set_thread (set_thread (fold_left drop_command (wk_queue s) s) [] Closing) [] ended).
  apply account_idle; [|done|unfold ended; eauto]. apply account_drop_all.
  replace (set_thread s (wk_queue s) Closing) with s; [done|]. rewrite <- Et. by destruct s.
Qed.

Lemma account_flags r0 s accepting shutdown sender : account r0 s -> account r0 (set_flags s accepting shutdown sender).
Proof.
  intros []. constructor; try done.
Qed.
Lemma account_touch r0 s registry :
  account r0 s -> account r0 (happened s (Touched registry) (set_registry (wk_relay s) registry)).
Proof.
  intros []. constructor; simpl; try done.
  - by rewrite executed_app, app_nil_r.
  - by rewrite replay_app, ac_relay0.
  - intros e. rewrite elem_of_app, list_elem_of_singleton. intros [He| ->]; [auto|done].
  - intros j rj Hj. eapply accounted_extends, (ac_callers0 j rj Hj); [constructor; simpl; [done|by eexists|done]|done].
Qed.

Lemma account_perform r0 e s s' : account r0 s -> worker_step e s = Some s' -> account r0 s'.
Proof.
  intros Ha. destruct e; simpl; intros E.
  - injection E as <-. by apply account_call.
  - eapply account_caller; eauto.
  - eapply account_try_send; eauto.
  - eapply account_caller; eauto.
  - eapply account_caller; eauto.
  - eapply account_caller; eauto.
  - eapply account_recv; eauto.
  - eapply account_check; eauto.
  - eapply account_execute; eauto.
  - eapply account_drain; eauto.
  - eapply account_finish; eauto.
  - injection E as <-. by apply account_flags.
  - unfold stop_flag in E. destruct (wk_accepting s); [done|]. injection E as <-. by apply account_flags.
  - unfold take_sender in E. destruct (wk_shutdown s); [|done]. injection E as <-. by apply account_flags.
  - unfold drop_worker in E. destruct (forallb _ _); [|done]. injection E as <-. by apply account_flags.
  - injection E as <-. by apply account_touch.
Qed.

Lemma interleave_ind (P : Worker -> Prop) :
  (forall e s s', P s -> worker_step e s = Some s' -> P s') ->
  forall events s s', P s -> interleave events s = Some s' -> P s'.
Proof.
  intros Hstep events. induction events as [|e rest IH]; intros s s' Hs; simpl; [by intros [= <-]|].
  destruct (worker_step e s) as [s1|] eqn:E; simpl; [|done]. apply IH. eauto.
Qed.

Lemma interleave_app events events' s :
  interleave (events ++ events') s = (s' ← interleave events s; interleave events' s').
Proof. revert s. induction events as [|e rest IH]; intros s; simpl; [done|]. destruct (worker_step e s); simpl; auto. Qed.

Lemma account_started capacity r : account r (worker_started capacity r).
Proof. constructor; simpl; try done; try set_solver; try lia. apply NoDup_nil_2. Qed.
Lemma account_run capacity r events s : interleave events (worker_started capacity r) = Some s -> account r s.
Proof. intros E. eapply (interleave_ind (account r)); eauto using account_perform, account_started. Qed.

(** ** Histories only grow *)
Lemma caller_step_history i f s s' :
  caller_step i f s = Some s' -> wk_log s' = wk_log s /\ wk_sent s' = wk_sent s /\ wk_queue s' = wk_queue s
    /\ wk_thread s' = wk_thread s /\ wk_shutdown s' = wk_shutdown s /\ wk_sender s' = wk_sender s.
Proof. intros E. apply caller_step_inv in E as (rq & p & _ & _ & ->). done. Qed.
Lemma drop_all_history queue s :
  wk_log (fold_left drop_command queue s) = wk_log s /\ wk_sent (fold_left drop_command queue s) = wk_sent s
  /\ wk_shutdown (fold_left drop_command queue s) = wk_shutdown s /\ wk_sender (fold_left drop_command queue s) = wk_sender s.
Proof.
  revert s. induction queue as [|i queue IH]; intros s; simpl; [done|].
  destruct (IH (drop_command s i)) as (-> & -> & -> & ->). done.
Qed.

(** What a step may do: what it adds to the log, and to the commands sent. *)
Definition adds (s s' : Worker) : Prop :=
  (wk_shutdown s = true -> wk_shutdown s' = true) /\ (wk_sender s = false -> wk_sender s' = false)
  /\ (wk_sent s' = wk_sent s
      \/ (wk_sender s = true /\ exists i, wk_sent s' = wk_sent s ++ [i] /\ wk_queue s' = wk_queue s ++ [i] /\ wk_thread s' = wk_thread s))
  /\ (executed (wk_log s') = executed (wk_log s)
        /\ (forall i, wk_thread s' = Executing i -> wk_thread s = Executing i \/ wk_shutdown s = false)
      \/ exists i, wk_thread s = Executing i /\ wk_thread s' = Idling /\ executed (wk_log s') = executed (wk_log s) ++ [i])
  /\ wk_log s `prefix_of` wk_log s'.
Lemma adds_caller i f s s' : caller_step i f s = Some s' -> adds s s'.
Proof.
  intros E. apply caller_step_history in E as (El & Es & _ & Et & Ef & Eo).
  unfold adds. rewrite El, Es, Et, Ef, Eo. split_and!; auto.
Qed.
Lemma adds_step e s s' : worker_step e s = Some s' -> adds s s'.
Proof.
  destruct e; simpl; intros E; try (by eapply adds_caller); unfold adds.
  - injection E as <-. simpl. split_and!; auto.
  - unfold try_send in E. destruct (caller_step i _ s) as [s1|] eqn:Ec; simpl in E; [|done]. injection E as <-.
    pose proof (adds_caller _ _ _ _ Ec) as Ha. destruct (queue_try_send s) as [u|] eqn:Eq; [|done].
    apply queue_try_send_ok in Eq as (_ & _ & Eq). apply caller_step_history in Ec as (El & Es & Equ & Et & Ef & Eo).
    simpl. rewrite El, Es, Et, Ef, Eo, Equ. split_and!; eauto 8.
  - unfold recv in E. destruct (wk_thread s) eqn:Et; try done.
    destruct (wk_queue s) as [|i queue]; [destruct (wk_sender s) eqn:Eo; [done|]|]; injection E as <-; simpl; split_and!; auto;
      left; split; auto; by intros ? [=].
  - unfold check_shutdown in E. destruct (wk_thread s) eqn:Et; try done. injection E as <-.
    destruct (wk_shutdown s) eqn:Ef; simpl; rewrite ?Ef; split_and!; auto; left; split; auto; by intros ? [=].
  - unfold execute_command in E. destruct (wk_thread s) eqn:Et; try done.
    destruct (wk_requests s !! i) as [rq|]; simpl in E; [|done].
    destruct (work (rq_command rq) (wk_relay s)) as [a r]. injection E as <-. simpl.
    split_and!; auto; [|by eexists]. right. exists i. split_and!; auto. by rewrite executed_app.
  - unfold drain in E. destruct (wk_thread s) eqn:Et; try done.
    destruct (wk_queue s) as [|i queue]; injection E as <-; simpl; split_and!; auto; left; split; auto; by intros ? [=].
  - unfold finish_thread in E. destruct (wk_thread s) eqn:Et; try done. injection E as <-. simpl.
    destruct (drop_all_history (wk_queue s) s) as (-> & -> & -> & ->). split_and!; auto. left. split; auto. by intros ? [=].
  - injection E as <-. simpl. split_and!; auto.
  - unfold stop_flag in E. destruct (wk_accepting s); [done|]. injection E as <-. simpl. split_and!; auto.
  - unfold take_sender in E. destruct (wk_shutdown s); [|done]. injection E as <-. simpl. split_and!; auto.
  - unfold drop_worker in E. destruct (forallb _ _); [|done]. injection E as <-. simpl. split_and!; auto.
  - injection E as <-. simpl. split_and!; auto; [|by eexists]. left. rewrite executed_app. simpl. rewrite app_nil_r. auto.
Qed.

(** ** One command at a time *)
Lemma work_keeps_deliveries k (c : StoreCommand k) r : rl_deliveries (work c r).2 = rl_deliveries r.
Proof.
  destruct c; simpl; try done; unfold work_join, work_list_squads, work_create_squad, work_describe_squad, work_roster,
    work_heartbeat, work_send, work_pending, work_acknowledge, work_transcript, work_leave, work_archive, work_resume,
    at_now, on_store; repeat case_match; simplify_eq; done.
Qed.
Lemma replay_keeps_deliveries log r : rl_deliveries (replay log r) = rl_deliveries r.
Proof.
  induction log as [|e log IH] using rev_ind; [done|]. rewrite replay_app. destruct e; simpl; [|done].
  by rewrite work_keeps_deliveries.
Qed.
Lemma with_no_deliveries r : rl_deliveries r = [] -> with_deliveries r [] = r.
Proof. destruct r; simpl. by intros ->. Qed.

(** The fate of a command, and what it left in the log. *)
Definition fate (s : Worker) (i : nat) {k} (c : StoreCommand k) (d : Delivery) (ran : list LogEntry) : Prop :=
  match d with
  | Replied | TimedOut true => ran = [Ran i c]
  | QueueFull | QueueClosed => ran = [] /\ (i ∉ wk_sent s)
  | Cancelled => ran = [] /\ i ∈ wk_cancelled s
  | TimedOut false => ran = [] /\ (i ∉ executed (wk_log s))
  end.

(** [dispatch] of Relay.v, on the state that a part of the log leaves. *)
Lemma dispatch_delivered T (c : StoreCommand (OfStore T)) before r d :
  rl_deliveries r = [] ->
  dispatch (work c) (with_deliveries (replay before r) [d]) =
  match d with
  | Replied => (map_err ApiFailure_from (map_err DiStore (work c (replay before r)).1), (work c (replay before r)).2)
  | TimedOut true => (Err (ApiFailure_from DiTimeout), (work c (replay before r)).2)
  | TimedOut false => (Err (ApiFailure_from DiTimeout), replay before r)
  | QueueFull => (Err (ApiFailure_from DiRateLimited), replay before r)
  | QueueClosed | Cancelled => (Err (ApiFailure_from DiUnavailable), replay before r)
  end.
Proof.
  intros Hd. unfold dispatch. simpl.
  change (Build_Relay _ _ _ _ _ _) with (with_deliveries (replay before r) []).
  rewrite with_no_deliveries by (by rewrite replay_keeps_deliveries).
  destruct d as [| | | |[]]; try done. by destruct (work c (replay before r)) as [[a|e] r'].
Qed.

Lemma cancelled_store_command T (c : StoreCommand (OfStore T)) : cancel c = Dropped.
Proof.
  refine (match c as c0 in StoreCommand k return (match k return StoreCommand k -> Prop with
            | OfStore T => fun c => cancel c = Dropped | OfWorker => fun _ => True end) c0 with
          | ScReady => I | ScCheckpoint => I | _ => eq_refl end).
Qed.

Lemma settled_is_dispatched r0 s i T (c : StoreCommand (OfStore T)) o :
  rl_deliveries r0 = [] -> account r0 s -> wk_requests s !! i = Some (Requested c (Settled o)) ->
  exists d before ran,
    dispatch (work c) (with_deliveries (replay before r0) [d])
      = (map_err ApiFailure_from (dispatch_result o), replay (before ++ ran) r0)
    /\ before ++ ran `prefix_of` wk_log s /\ fate s i c d ran.
Proof.
  intros Hd Ha Hi. pose proof (ac_callers _ _ Ha i _ Hi) as Hin. simpl in Hin.
  destruct o as [[]| | |a].
  - exists QueueFull, [], []. rewrite dispatch_delivered by done. simpl. split_and!; auto. by eexists.
  - exists QueueClosed, [], []. rewrite dispatch_delivered by done. simpl. split_and!; auto. by eexists.
  - destruct (decide (i ∈ executed (wk_log s))) as [Hx|Hx].
    + apply elem_of_executed in Hx as (k & c' & Hx). pose proof (ac_entries _ _ Ha _ Hx) as (p & Hp).
      rewrite Hi in Hp. apply (f_equal (option_map (fun rq => Ran i (rq_command rq)))) in Hp. simpl in Hp.
      assert (Ran i c ∈ wk_log s) as Hx' by congruence.
      apply list_elem_of_split in Hx' as (b & a & E). exists (TimedOut true), b, [Ran i c].
      rewrite dispatch_delivered by done. rewrite replay_app. simpl. split_and!; auto.
      exists a. rewrite E. by rewrite <- app_assoc.
    + exists (TimedOut false), [], []. rewrite dispatch_delivered by done. simpl. split_and!; auto. by eexists.
  - exists Cancelled, [], []. rewrite dispatch_delivered by done. simpl. split_and!; auto. by eexists.
  - destruct Hin as [(b & l & E & ->)|[_ Hc]]; [|by rewrite cancelled_store_command in Hc].
    exists Replied, b, [Ran i c]. rewrite dispatch_delivered by done. rewrite replay_app. simpl. split_and!; auto.
    exists l. rewrite E. by rewrite <- app_assoc.
Qed.

Lemma log_grows events s s' : interleave events s = Some s' -> wk_log s `prefix_of` wk_log s' /\ wk_sent s `prefix_of` wk_sent s'.
Proof.
  intros E. eapply (interleave_ind (fun s' => wk_log s `prefix_of` wk_log s' /\ wk_sent s `prefix_of` wk_sent s')), E; [|done].
  intros e s1 s2 [Hl Hs] Hstep. destruct (adds_step _ _ _ Hstep) as (_ & _ & Hsent & _ & Hp).
  split; [by etrans|]. etrans; [exact Hs|]. destruct Hsent as [->|(_ & i & -> & _)]; [done|by eexists].
Qed.

(** The lease policy of the command is the one the handlers use. *)
Definition default_lease (e : LogEntry) : Prop :=
  match e with
  | Ran _ c =>
      match c with
      | ScJoin q => wj_lease_policy q = LeasePolicy_default
      | ScResume q => wr_lease_policy q = LeasePolicy_default
      | ScHeartbeat _ _ _ policy => policy = LeasePolicy_default
      | _ => True
      end
  | Touched _ => True
  end.
Lemma effect_steps e r : default_lease e -> rtc step (db_of r) (db_of (effect e r)).
Proof.
  destruct e as [i k c|registry]; simpl; [|intros _; apply rtc_refl].
  destruct c; simpl; intros Hl; try apply rtc_refl; subst; try apply stepping_job.
  - by apply (stepping_join request).
  - by apply (stepping_resume request).
Qed.
Lemma replay_steps log r : Forall default_lease log -> rtc step (db_of r) (db_of (replay log r)).
Proof.
  induction log as [|e log IH] using rev_ind; [intros _; apply rtc_refl|]. rewrite replay_app, Forall_app, Forall_singleton.
  intros [Hl He]. etrans; [by apply IH|]. by apply effect_steps.
Qed.

(** C7: however callers, subscribers, shutdown and the worker's thread interleave, the run is a sequence of
    single commands.  Commands run in the order in which they entered the queue, each at most once, those cancelled
    after all that ran and before all that wait; the queue never exceeds its capacity; the relay's state is what the
    logged commands leave when they are run one by one, so with the handlers' leases its database moves only by public operations of the store;
    the log and the queue's history only grow; and whatever a caller got in the end is the answer of the sequential
    [dispatch] to its command on a state the log went through: refused and cancelled commands left no effect, an
    answered one ran exactly there, and one that timed out ran there or had not run. *)
Theorem worker_is_sequential capacity r0 events s :
  rl_deliveries r0 = [] ->
  interleave events (worker_started capacity r0) = Some s ->
  wk_sent s = executed (wk_log s) ++ wk_cancelled s ++ pending s /\ NoDup (wk_sent s)
  /\ (length (wk_queue s) <= wk_capacity s)%nat
  /\ wk_relay s = replay (wk_log s) r0
  /\ (Forall default_lease (wk_log s) -> rtc step (db_of r0) (db_of (wk_relay s)))
  /\ (forall events' s', interleave events' s = Some s' -> wk_log s `prefix_of` wk_log s' /\ wk_sent s `prefix_of` wk_sent s')
  /\ forall i T (c : StoreCommand (OfStore T)) o,
      wk_requests s !! i = Some (Requested c (Settled o)) ->
      exists d before ran,
        dispatch (work c) (with_deliveries (replay before r0) [d])
          = (map_err ApiFailure_from (dispatch_result o), replay (before ++ ran) r0)
        /\ before ++ ran `prefix_of` wk_log s /\ fate s i c d ran.
Proof.
  intros Hd E. pose proof (account_run _ _ _ _ E) as Ha. pose proof (ac_relay _ _ Ha) as Hr.
  split_and!; [apply (ac_order _ _ Ha)|apply (ac_distinct _ _ Ha)|apply (ac_bound _ _ Ha)|done| |intros events' s'; apply log_grows|].
  - rewrite Hr. apply replay_steps.
  - intros i T c o Hi. by apply settled_is_dispatched.
Qed.

(** ** Shutdown *)

(** What has run since [s], whose shutdown flag is set. *)
Definition only_current (s s' : Worker) : Prop :=
  wk_shutdown s' = true /\
  (executed (wk_log s') = executed (wk_log s) /\ (forall i, wk_thread s' = Executing i -> wk_thread s = Executing i)
   \/ exists i, wk_thread s = Executing i /\ (forall j, wk_thread s' <> Executing j)
       /\ executed (wk_log s') = executed (wk_log s) ++ [i]).

(** C27: once the shutdown flag is set, no command runs any more but the one the thread had already begun, whatever
    is queued and however many callers still get commands in. *)
Theorem shutdown_runs_at_most_the_current events s s' :
  wk_shutdown s = true -> interleave events s = Some s' ->
  executed (wk_log s') = executed (wk_log s)
  \/ exists i, wk_thread s = Executing i /\ executed (wk_log s') = executed (wk_log s) ++ [i].
Proof.
  intros Hf E. assert (only_current s s') as [_ [[Hl _]|(i & Hi & _ & Hl)]]; [|left; exact Hl|right; by exists i].
  revert E. apply (interleave_ind (only_current s)); [|split; auto].
  clear s'. intros e s1 s2 [Hf1 Hs] Hstep. destruct (adds_step _ _ _ Hstep) as (Hf2 & _ & _ & Hx & _).
  split; [by apply Hf2|]. destruct Hs as [[El Ht]|(i & Hi & Ht & El)].
  - destruct Hx as [[El2 Ht2]|(i & Ht1 & Ht2 & El2)].
    + left. split; [by rewrite El2|]. intros i Hi. destruct (Ht2 i Hi); [auto|congruence].
    + right. exists i. split; [auto|]. split; [by rewrite Ht2|]. by rewrite El2, El.
  - destruct Hx as [[El2 Ht2]|(j & Ht1 & _)]; [|by destruct (Ht j)].
    right. exists i. split; [done|]. split; [|by rewrite El2].
    intros j Hj. destruct (Ht2 j Hj); [by apply (Ht j)|congruence].
Qed.

Definition of_thread (e : WorkerEvent) : bool :=
  match e with EvRecv | EvCheckShutdown | EvExecute | EvDrain | EvFinish => true | _ => false end.
(** The steps the thread has left when nothing more is queued. *)
Definition steps_left (s : Worker) : nat :=
  let n := length (wk_queue s) in
  match wk_thread s with
  | Idling => 3 * n + 3 | Taken _ => 3 * n + 5 | Executing _ => 3 * n + 4 | Draining => n + 2 | Closing => 1 | Ended _ => 0
  end.
Definition thread_steps (events : list WorkerEvent) : nat := length (filter (fun e => of_thread e = true) events).

Lemma steps_left_step e s s' :
  wk_sender s = false -> worker_step e s = Some s' ->
  ((if of_thread e then 1 else 0) + steps_left s' <= steps_left s)%nat.
Proof.
  intros Ho E.
  assert (forall i f s', caller_step i f s = Some s' -> steps_left s' = steps_left s) as Hcaller.
  { intros i f s1 E1. apply caller_step_history in E1 as (_ & _ & Eq & Et & _). unfold steps_left. by rewrite Eq, Et. }
  destruct e; simpl in *; try (by rewrite (Hcaller _ _ _ E)).
  - by injection E as <-.
  - unfold try_send, queue_try_send in E. rewrite Ho in E. simpl in E.
    destruct (caller_step i _ s) as [s1|] eqn:Ec; simpl in E; [|done]. injection E as <-. by rewrite (Hcaller _ _ _ Ec).
  - unfold steps_left, recv in *. destruct (wk_thread s); try done.
    destruct (wk_queue s); [rewrite Ho in E|]; injection E as <-; simpl; lia.
  - unfold steps_left, check_shutdown in *. destruct (wk_thread s); try done. destruct (wk_shutdown s); injection E as <-; simpl; lia.
  - unfold steps_left, execute_command in *. destruct (wk_thread s); try done. destruct (wk_requests s !! i); simpl in E; [|done].
    destruct (work _ _). injection E as <-. simpl. lia.
  - unfold steps_left, drain in *. destruct (wk_thread s); try done. destruct (wk_queue s); injection E as <-; simpl; lia.
  - unfold steps_left, finish_thread in *. destruct (wk_thread s); try done. injection E as <-. simpl. lia.
  - by injection E as <-.
  - unfold stop_flag in E. destruct (wk_accepting s); [done|]. by injection E as <-.
  - unfold take_sender in E. destruct (wk_shutdown s); [|done]. by injection E as <-.
  - unfold drop_worker in E. destruct (forallb _ _); [|done]. by injection E as <-.
  - by injection E as <-.
Qed.
Lemma steps_left_run events s s' :
  wk_sender s = false -> interleave events s = Some s' -> (thread_steps events + steps_left s' <= steps_left s)%nat.
Proof.
  revert s. induction events as [|e rest IH]; intros s Ho; simpl; [by intros [= <-]|].
  destruct (worker_step e s) as [s1|] eqn:E; simpl; [|done]. intros Er.
  destruct (adds_step _ _ _ E) as (_ & Ho1 & _). specialize (IH s1 (Ho1 Ho) Er).
  apply steps_left_step in E; [|done]. unfold thread_steps in *. rewrite filter_cons.
  case_decide as He; [rewrite He in E|destruct (of_thread e); [done|]]; simpl in *; lia.
Qed.

Lemma thread_progress r0 s :
  account r0 s -> wk_sender s = false -> (forall r, wk_thread s <> Ended r) ->
  exists e s', of_thread e = true /\ worker_step e s = Some s'.
Proof.
  intros Ha Ho Hn. destruct (wk_thread s) as [|i|i| | |r] eqn:Et.
  - exists EvRecv. simpl. unfold recv. rewrite Et, Ho. destruct (wk_queue s); eauto.
  - exists EvCheckShutdown. simpl. unfold check_shutdown. rewrite Et. eauto.
  - exists EvExecute. simpl. unfold execute_command. rewrite Et.
    destruct (account_head r0 s i (wk_queue s) Ha) as (rq & -> & _); [unfold pending; by rewrite Et|].
    simpl. destruct (work _ _). eauto.
  - exists EvDrain. simpl. unfold drain. rewrite Et. destruct (wk_queue s); eauto.
  - exists EvFinish. simpl. unfold finish_thread. rewrite Et. eauto.
  - by destruct (Hn r).
Qed.

(** The thread ends with the outcome of the last checkpoint, and the store stays as it was then. *)
Definition ended_checked (s : Worker) : Prop :=
  forall r, wk_thread s = Ended r -> r = store_result (store_checkpoint (rl_world (wk_relay s))).
Lemma drop_all_relay queue s : wk_relay (fold_left drop_command queue s) = wk_relay s.
Proof. revert s. induction queue as [|i queue IH]; intros s; simpl; [done|]. by rewrite IH. Qed.
Lemma ended_checked_step e s s' : ended_checked s -> worker_step e s = Some s' -> ended_checked s'.
Proof.
  intros Hs E.
  assert (forall i f s', caller_step i f s = Some s' -> ended_checked s') as Hcaller.
  { intros i f s1 E1. apply caller_step_inv in E1 as (rq & p & _ & _ & ->). exact Hs. }
  destruct e; simpl in *; try (by eapply Hcaller); try (injection E as <-; exact Hs).
  - unfold try_send in E. destruct (caller_step i _ s) as [s1|] eqn:Ec; simpl in E; [|done]. injection E as <-.
    apply Hcaller in Ec. by destruct (queue_try_send s).
  - unfold recv in E. repeat case_match; simplify_eq; by intros ? [=].
  - unfold check_shutdown in E. repeat case_match; simplify_eq; by intros ? [=].
  - unfold execute_command in E. destruct (wk_thread s); try done. destruct (wk_requests s !! i); simpl in E; [|done].
    destruct (work _ _). injection E as <-. by intros ? [=].
  - unfold drain in E. repeat case_match; simplify_eq; by intros ? [=].
  - unfold finish_thread in E. destruct (wk_thread s); try done. injection E as <-. intros r [= <-]. simpl.
    by rewrite drop_all_relay.
  - unfold stop_flag in E. destruct (wk_accepting s); [done|]. injection E as <-. exact Hs.
  - unfold take_sender in E. destruct (wk_shutdown s); [|done]. injection E as <-. exact Hs.
  - unfold drop_worker in E. destruct (forallb _ _); [|done]. injection E as <-. exact Hs.
Qed.
Lemma ended_checked_run capacity r events s :
  interleave events (worker_started capacity r) = Some s -> ended_checked s.
Proof. intros E. eapply (interleave_ind ended_checked); [by eauto using ended_checked_step| |exact E]. by intros r' [=]. Qed.

Lemma ended_nobody_waits r0 s r i k (c : StoreCommand k) p :
  account r0 s -> wk_thread s = Ended r -> wk_requests s !! i = Some (Requested c p) -> p <> Waiting.
Proof.
  intros Ha Hr Hi ->. pose proof (ac_ended _ _ Ha) as Hq. rewrite Hr in Hq.
  pose proof (ac_callers _ _ Ha _ _ Hi) as Hin. simpl in Hin. unfold pending in Hin. rewrite Hr, Hq in Hin. set_solver.
Qed.

(** C28: the worker stops.  Once the sender is gone, the thread takes at most [steps_left] more steps in any run; until
    it has ended it can take one, whatever the others do; and when it has ended nothing is queued and no caller is left
    without an answer. *)
Theorem worker_stops capacity r0 events s :
  interleave events (worker_started capacity r0) = Some s -> wk_sender s = false ->
  (forall events' s', interleave events' s = Some s' -> (thread_steps events' + steps_left s' <= steps_left s)%nat)
  /\ ((forall r, wk_thread s <> Ended r) -> exists e s', of_thread e = true /\ worker_step e s = Some s')
  /\ (forall r, wk_thread s = Ended r ->
       wk_queue s = [] /\ forall i k (c : StoreCommand k) p, wk_requests s !! i = Some (Requested c p) -> p <> Waiting).
Proof.
  intros E Ho. pose proof (account_run _ _ _ _ E) as Ha. split_and!.
  - intros events' s'. by apply steps_left_run.
  - by eapply thread_progress.
  - intros r Hr. pose proof (ac_ended _ _ Ha) as Hq. rewrite Hr in Hq. split; [done|].
    intros i k c p. by eapply ended_nobody_waits.
Qed.
End Serial.

(** ** Examples *)
Section Examples.
#[local] Instance example_json : SerdeJson := {| to_vec _ := Some "{}" |}.
#[local] Abbreviation run events s :=
  (interleave (fun ids => ids) (fun _ => true) (fun _ => true) events s).

(** A send and a listing are queued; the worker is shut down while the send runs. *)
Definition demo_begun : list WorkerEvent :=
  [EvCall (ScSend alice_credential named_hello); EvLoadAccepting 0; EvTrySend 0; EvCall ScListSquads; EvLoadAccepting 1;
   EvTrySend 1; EvRecv; EvCheckShutdown; EvStopAccepting; EvStopFlag].
Definition demo_closed : list WorkerEvent := [EvExecute; EvReceive 0; EvRecv; EvCheckShutdown; EvTakeSender].
Definition demo_ended : list WorkerEvent := [EvDrain; EvFinish; EvReceive 1].

Definition demo_after (events : list WorkerEvent) : Worker :=
  default (worker_started 4 (demo_relay [])) (run events (worker_started 4 (demo_relay []))).
Lemma demo_runs :
  run demo_begun (worker_started 4 (demo_relay [])) = Some (demo_after demo_begun)
  /\ run (demo_begun ++ demo_closed) (worker_started 4 (demo_relay [])) = Some (demo_after (demo_begun ++ demo_closed))
  /\ run demo_closed (demo_after demo_begun) = Some (demo_after (demo_begun ++ demo_closed)).
Proof. split_and!; vm_compute; reflexivity. Qed.

Lemma worker_is_sequential_witness :
  let s := demo_after (demo_begun ++ demo_closed) in
  executed (wk_log s) = [0%nat] /\ wk_cancelled s = [1%nat]
  /\ wk_relay s = replay (fun ids => ids) (fun _ => true) (fun _ => true) (wk_log s) (demo_relay [])
  /\ length (messages (db_of (wk_relay s))) = 1%nat.
Proof.
  split; [vm_compute; reflexivity|]. split; [vm_compute; reflexivity|]. split; [|vm_compute; reflexivity].
  apply (worker_is_sequential (fun ids => ids) (fun _ => true) (fun _ => true) 4 (demo_relay []) (demo_begun ++ demo_closed)).
  - reflexivity.
  - exact (proj1 (proj2 demo_runs)).
Defined.

Lemma shutdown_runs_at_most_the_current_witness :
  wk_shutdown (demo_after demo_begun) = true /\ wk_queue (demo_after demo_begun) = [1%nat]
  /\ executed (wk_log (demo_after (demo_begun ++ demo_closed))) = executed (wk_log (demo_after demo_begun)) ++ [0%nat].
Proof.
  split; [vm_compute; reflexivity|]. split; [vm_compute; reflexivity|].
  destruct (shutdown_runs_at_most_the_current (fun ids => ids) (fun _ => true) (fun _ => true) demo_closed
    (demo_after demo_begun) (demo_after (demo_begun ++ demo_closed))) as [E|(i & Hi & E)].
  - vm_compute. reflexivity.
  - exact (proj2 (proj2 demo_runs)).
  - vm_compute in E. discriminate E.
  - vm_compute in Hi. injection Hi as <-. exact E.
Defined.

Lemma worker_stops_witness :
  let s := demo_after (demo_begun ++ demo_closed) in
  steps_left s = 2%nat /\
  forall events s', run events s = Some s' -> (thread_steps events + steps_left s' <= steps_left s)%nat.
Proof.
  split; [vm_compute; reflexivity|].
  refine (proj1 (worker_stops (fun ids => ids) (fun _ => true) (fun _ => true) 4 (demo_relay []) (demo_begun ++ demo_closed) _ _ _)).
  - exact (proj1 (proj2 demo_runs)).
  - vm_compute. reflexivity.
Defined.
End Examples.
