(* ===== verification/Serve.v ===== *)
(** * Serve: the relay process (psst-relay/src/lib.rs, psst-relay/src/main.rs)

    Configuration from the environment, the layers around the router, the bound on
    connections, and [serve_with_router_factory]: the worker of Worker.v is started,
    serves until shutdown, and is joined before the deadline.  What the operating
    system, the listener and axum's server do is an environment the definitions run
    against. *)
From stdpp Require Import list.
From S2P Require Import Prelude Text Core Base64 Credential Dto Validation Notify Sql Store Repository Instance Message Inbox Authenticated Relay Fixtures MessageViews Gateway Migrate Worker Serial.

(** ** Configuration *)
Inductive LogFormat : Set := LogText | LogJson.
(** The fields of [RelayConfig] that its validation does not read, and those it does. *)
Record RelaySetup : Set := { rs_bind : string; rs_database : string; rs_log_format : LogFormat; rs_limits : RelayConfig }.

Definition DEFAULT_QUEUE_CAPACITY : Z := 256.
Definition RelayConfig_local (database : string) : RelaySetup :=
  {| rs_bind := "127.0.0.1:7341"; rs_database := database; rs_log_format := LogText;
     rs_limits := {| rc_bind_is_loopback := true; rc_allow_lan := false; rc_queue_capacity := DEFAULT_QUEUE_CAPACITY;
       rc_request_timeout := Duration_from_secs 5; rc_shutdown_timeout := Duration_from_secs 10;
       rc_max_body_bytes := 512 * 1024; rc_max_connections := 128; rc_max_in_flight_requests := 128;
       rc_log_level := "info" |} |}.
Definition trusted_lan_warning (self : RelayConfig) : option string :=
  if rc_bind_is_loopback self then None
  else Some "WARNING: Psst has no TLS and trusts every process on this LAN; do not expose it to hostile networks or the internet.".
Definition config_error_text (self : ConfigError) : string :=
  match self with
  | LanRequiresOptIn => "LAN binding requires explicit opt-in"
  | OutOfBounds => "relay configuration is outside supported bounds"
  | InvalidLogLevel => "relay log level/filter is invalid"
  end.
Definition dispatch_error_text (self : DispatchError) : string :=
  match self with
  | DiRateLimited => "store command queue is full"
  | DiUnavailable => "store worker is unavailable"
  | DiTimeout => "store command timed out; committed completion is ambiguous"
  | DiStore _ => "store command failed"
  end.

Definition set_bind (setup : RelaySetup) (bind : string) (loopback : bool) : RelaySetup :=
  let c := rs_limits setup in
  {| rs_bind := bind; rs_database := rs_database setup; rs_log_format := rs_log_format setup;
     rs_limits := {| rc_bind_is_loopback := loopback; rc_allow_lan := rc_allow_lan c;
       rc_queue_capacity := rc_queue_capacity c; rc_request_timeout := rc_request_timeout c;
       rc_shutdown_timeout := rc_shutdown_timeout c; rc_max_body_bytes := rc_max_body_bytes c;
       rc_max_connections := rc_max_connections c; rc_max_in_flight_requests := rc_max_in_flight_requests c;
       rc_log_level := rc_log_level c |} |}.
Definition set_logging (setup : RelaySetup) (allow_lan : bool) (level : string) (format : LogFormat) : RelaySetup :=
  let c := rs_limits setup in
  {| rs_bind := rs_bind setup; rs_database := rs_database setup; rs_log_format := format;
     rs_limits := {| rc_bind_is_loopback := rc_bind_is_loopback c; rc_allow_lan := allow_lan;
       rc_queue_capacity := rc_queue_capacity c; rc_request_timeout := rc_request_timeout c;
       rc_shutdown_timeout := rc_shutdown_timeout c; rc_max_body_bytes := rc_max_body_bytes c;
       rc_max_connections := rc_max_connections c; rc_max_in_flight_requests := rc_max_in_flight_requests c;
       rc_log_level := level |} |}.

Inductive SetupError : Set := BadAddress | BadConfig (e : ConfigError).

Section Process.
(** [EnvFilter::try_new(..).is_ok()]; the parse of a socket address, with whether it is
    a loopback address; the variables of the process. *)
Context (filter_ok : string -> bool) (parse_address : string -> option (string * bool)) (var : string -> option string).

(** [configuration] (main.rs). *)
Definition relay_configuration : Result SetupError RelaySetup :=
  let config := RelayConfig_local (default "psst.db" (var "PSST_DATABASE")) in
  config ← match var "PSST_BIND" with
           | Some bind => '(bind, loopback) ← ok_or (parse_address bind) BadAddress; Ok (set_bind config bind loopback)
           | None => Ok config
           end;
  let config := set_logging config (bool_decide (var "PSST_ALLOW_LAN" = Some "1")) (default "info" (var "PSST_LOG"))
                  (if bool_decide (var "PSST_LOG_FORMAT" = Some "json") then LogJson else LogText) in
  _ ← map_err BadConfig (RelayConfig_validate filter_ok (rs_limits config));
  Ok config.
End Process.

(** ** Layers and extractors *)

(** The deadline of a request; [took] is how long the rest of the stack needs. *)
Definition REQUEST_TIMEOUT : Z := 408.
Definition request_deadline (path : string) (query : option string) (timeout took : Duration) (status : Z) : Z :=
  let allowance := default 0%N (inbox_wait_allowance path query) in
  if (Duration_saturating_add timeout allowance <? took)%N then REQUEST_TIMEOUT else status.

(** [health] and [ready]. *)
Definition health_status : string := "ok".
Definition ready_response (ready : Result WorkerError unit) : Z * ReadyResponse :=
  match ready with
  | Ok _ => (200, {| rr_status := "ready"; rr_schema_version := current_schema_version |})
  | Err _ => (503, {| rr_status := "unavailable"; rr_schema_version := current_schema_version |})
  end.

(** The rejections of axum's extractors, by their status. *)
Definition api_json {T} (value : Result Z T) : Result ApiErrorCode T :=
  map_err (fun status => if status =? 413 then ApiPayloadTooLarge else ApiInvalidRequest) value.
Definition api_query {T} (value : Result Z T) : Result ApiErrorCode T := map_err (fun _ => ApiInvalidRequest) value.

(** ** Shutdown signals: the value a watch receiver sees, what is sent later, and whether the
    sender is dropped after that. *)
Record Watched : Set := { wt_value : bool; wt_changes : list bool; wt_closed : bool }.
(** The graceful shutdown of [serve_with_router_factory] begins. *)
Fixpoint graceful_signal (value : bool) (changes : list bool) (closed : bool) : bool :=
  if value then true else match changes with [] => closed | value :: changes => graceful_signal value changes closed end.
(** [wait_for_shutdown] returns; a receiver whose sender is gone stays pending. *)
Fixpoint wait_for_shutdown (value : bool) (changes : list bool) : bool :=
  if value then true else match changes with [] => false | value :: changes => wait_for_shutdown value changes end.
Definition drains (w : Watched) : bool := graceful_signal (wt_value w) (wt_changes w) (wt_closed w).
Definition wakes_pollers (w : Watched) : bool := wait_for_shutdown (wt_value w) (wt_changes w).

Lemma pollers_wake_only_when_draining w : wakes_pollers w = true -> drains w = true.
Proof.
  unfold wakes_pollers, drains. generalize (wt_value w). induction (wt_changes w) as [|v l IH]; intros [] E; simpl in *; try done. by apply IH.
Qed.

(** ** Permits: the connections of [LimitedTcpListener] and the requests of [admit_request] *)
Section Permits.
Context `{Semaphores}.

(** A pool: the semaphore, whether [accept] holds a permit for a connection to come, the
    connections open, the requests being served. *)
Record Pool : Type := { po_connections : semaphore; po_accepting : bool; po_open : nat; po_admission : semaphore; po_in_flight : nat }.
Definition Pool_new (config : RelayConfig) : Pool :=
  {| po_connections := sem_new (rc_max_connections config); po_accepting := false; po_open := 0;
     po_admission := sem_new (rc_max_in_flight_requests config); po_in_flight := 0 |}.

Inductive PoolEvent : Set := PoAcquire | PoAccepted | PoAcceptFailed | PoClosed | PoAdmitted | PoServed.
(** [None]: the event cannot happen, or its task waits. *)
Definition pool_step (e : PoolEvent) (p : Pool) : option Pool :=
  match e with
  | PoAcquire =>
      if po_accepting p then None
      else s ← try_acquire (po_connections p);
           Some {| po_connections := s; po_accepting := true; po_open := po_open p; po_admission := po_admission p; po_in_flight := po_in_flight p |}
  | PoAccepted =>
      if po_accepting p
      then Some {| po_connections := po_connections p; po_accepting := false; po_open := S (po_open p);
                   po_admission := po_admission p; po_in_flight := po_in_flight p |}
      else None
  | PoAcceptFailed =>
      if po_accepting p
      then Some {| po_connections := release (po_connections p); po_accepting := false; po_open := po_open p;
                   po_admission := po_admission p; po_in_flight := po_in_flight p |}
      else None
  | PoClosed =>
      match po_open p with
      | O => None
      | S n => Some {| po_connections := release (po_connections p); po_accepting := po_accepting p; po_open := n;
                       po_admission := po_admission p; po_in_flight := po_in_flight p |}
      end
  | PoAdmitted =>
      s ← try_acquire (po_admission p);
      Some {| po_connections := po_connections p; po_accepting := po_accepting p; po_open := po_open p; po_admission := s; po_in_flight := S (po_in_flight p) |}
  | PoServed =>
      match po_in_flight p with
      | O => None
      | S n => Some {| po_connections := po_connections p; po_accepting := po_accepting p; po_open := po_open p;
                       po_admission := release (po_admission p); po_in_flight := n |}
      end
  end.
Fixpoint pool_run (events : list PoolEvent) (p : Pool) : option Pool :=
  match events with [] => Some p | e :: rest => p' ← pool_step e p; pool_run rest p' end.

Definition balanced (config : RelayConfig) (p : Pool) : Prop :=
  0 <= available (po_connections p) /\ 0 <= available (po_admission p)
  /\ available (po_connections p) + Z.b2z (po_accepting p) + Z.of_nat (po_open p) = rc_max_connections config
  /\ available (po_admission p) + Z.of_nat (po_in_flight p) = rc_max_in_flight_requests config.

Context {laws : SemaphoreLaws}.
Lemma try_acquire_inv s s' : try_acquire s = Some s' -> 0 < available s /\ available s' = available s - 1.
Proof.
  intros E. destruct (Z.lt_ge_cases 0 (available s)) as [Hp|Hp].
  - destruct (acquire_some s Hp) as (s1 & E1 & Ha). split; congruence.
  - rewrite acquire_none in E by lia. done.
Qed.
Lemma balanced_step config e p p' : balanced config p -> pool_step e p = Some p' -> balanced config p'.
Proof.
  unfold balanced. intros Hb. destruct e; simpl; intros E.
  - destruct (po_accepting p) eqn:Ea; [done|]. destruct (try_acquire (po_connections p)) eqn:Et; simpl in E; [|done].
    apply try_acquire_inv in Et. injection E as <-. simpl in *. lia.
  - destruct (po_accepting p) eqn:Ea; [|done]. injection E as <-. simpl in *. lia.
  - destruct (po_accepting p) eqn:Ea; [|done]. injection E as <-. simpl in *. rewrite available_release. lia.
  - destruct (po_open p) eqn:Ea; [done|]. injection E as <-. simpl in *. rewrite available_release. lia.
  - destruct (try_acquire (po_admission p)) eqn:Et; simpl in E; [|done].
    apply try_acquire_inv in Et. injection E as <-. simpl in *. lia.
  - destruct (po_in_flight p) eqn:Ea; [done|]. injection E as <-. simpl in *. rewrite available_release. lia.
Qed.

(** With a validated configuration, the open connections and the requests in flight never
    exceed their limits, whatever order connections and requests come and go in. *)
Lemma pool_is_bounded filter_ok config events p :
  RelayConfig_validate filter_ok config = Ok tt -> 0 <= rc_max_connections config -> 0 <= rc_max_in_flight_requests config ->
  pool_run events (Pool_new config) = Some p ->
  Z.of_nat (po_open p) <= rc_max_connections config <= 10000
  /\ Z.of_nat (po_in_flight p) <= rc_max_in_flight_requests config <= 10000.
Proof.
  intros Hv Hc Hr E.
  assert (balanced config p) as Hb.
  { revert E. assert (balanced config (Pool_new config)) as H0
      by (unfold balanced; simpl; rewrite !available_new by done; lia).
    revert H0. generalize (Pool_new config). induction events as [|e rest IH]; intros p0 H0; simpl; [by intros [= <-]|].
    destruct (pool_step e p0) eqn:Es; simpl; [|done]. apply IH. by eapply balanced_step. }
  unfold balanced in Hb. unfold RelayConfig_validate in Hv.
  destruct (negb (rc_bind_is_loopback config) && _); [done|].
  match type of Hv with (if ?b then _ else _) = _ => destruct b eqn:Eb; [done|] end.
  rewrite !orb_false_iff, !Z.ltb_ge in Eb. destruct (po_accepting p); simpl in Hb; lia.
Qed.
End Permits.

(** ** Serving *)
Inductive ServeError : Set :=
| SeConfig (e : ConfigError) | SeStore | SeBind | SeAddress | SeShutdownTimedOut | SeJoin | SePanicked | SeWorker (e : WorkerError) | SeServer.

(** [process_result_for_serve_error]. *)
Definition process_result_for_serve_error (error : ServeError) : Z :=
  match error with SeShutdownTimedOut => 3 | _ => 1 end.

Inductive JoinEnd : Set := JoinElapsed | JoinCancelled | JoinPanicked | JoinReturned.

Section Serving.
Context `{Crypto} `{HttpHeaders} `{TimeCrate} `{Watch} `{Semaphores} `{SerdeJson}.
Context (filter_ok : string -> bool) (order : list MessageId -> list MessageId) (store_readiness store_checkpoint : World -> bool).
#[local] Abbreviation interleave := (interleave order store_readiness store_checkpoint).

(** What happens around [serve_with_router_factory]: whether the store opens, the address binds
    and the listener tells its address; what callers and the thread do while the server runs, while
    it drains and while the thread is joined, and between the operations of each [begin_shutdown];
    whether the server ends by itself ([sv_first], with its result) or shutdown is noticed first, and
    then whether it drains before the deadline ([sv_drained]); and how the join of the thread ends. *)
Record Serving : Type := {
  sv_opens : bool; sv_binds : bool; sv_addressed : bool;
  sv_serving : list WorkerEvent; sv_first : option bool;
  sv_noticed : list WorkerEvent * list WorkerEvent; sv_draining : list WorkerEvent; sv_drained : option bool;
  sv_stopped : list WorkerEvent * list WorkerEvent; sv_joining : list WorkerEvent; sv_join : JoinEnd }.

(** [begin_shutdown]: its operations, and what the others do between them. *)
Definition begin_shutdown (between : list WorkerEvent * list WorkerEvent) : list WorkerEvent :=
  [EvStopAccepting] ++ between.1 ++ [EvStopFlag] ++ between.2 ++ [EvTakeSender].

(** [join_worker_until]; [None] where the thread has not ended, so that the join has not returned. *)
Definition join_worker_until (join : JoinEnd) (s : Worker) : option (Result ServeError unit) :=
  match join with
  | JoinElapsed => Some (Err SeShutdownTimedOut)
  | JoinCancelled => Some (Err SeJoin)
  | JoinPanicked => Some (Err SePanicked)
  | JoinReturned => match wk_thread s with Ended r => Some (map_err SeWorker r) | _ => None end
  end.

(** [serve_with_router_factory]: its result and the worker it leaves, [None] where the environment
    is not a possible one. *)
Definition serve_with_router_factory (config : RelayConfig) (relay : Relay) (env : Serving)
    : option (Result ServeError unit * option Worker) :=
  match RelayConfig_validate filter_ok config with
  | Err e => Some (Err (SeConfig e), None)
  | Ok _ =>
      if negb (sv_opens env) then Some (Err SeStore, None)
      else
        let s := worker_started (Z.to_nat (rc_queue_capacity config)) relay in
        if negb (sv_binds env) then Some (Err SeBind, Some s)
        else if negb (sv_addressed env) then Some (Err SeAddress, Some s)
        else
          s ← interleave (sv_serving env) s;
          '(server, s) ← match sv_first env with
                         | Some result => Some (Some result, s)
                         | None => s ← interleave (begin_shutdown (sv_noticed env) ++ sv_draining env) s;
                                   Some (sv_drained env, s)
                         end;
          match server with
          | None => Some (Err SeShutdownTimedOut, Some s)
          | Some result =>
              s ← interleave (begin_shutdown (sv_stopped env) ++ sv_joining env) s;
              joined ← join_worker_until (sv_join env) s;
              Some (match joined with
                    | Err e => Err e
                    | Ok _ => if result : bool then Ok tt else Err SeServer
                    end, Some s)
          end
  end.

(** What the relay's work has been when it stops. *)
Lemma serve_runs_worker config relay env result s :
  serve_with_router_factory config relay env = Some (result, Some s) ->
  exists events, interleave events (worker_started (Z.to_nat (rc_queue_capacity config)) relay) = Some s.
Proof.
  unfold serve_with_router_factory. destruct (RelayConfig_validate filter_ok config); [|done].
  destruct (negb (sv_opens env)); [done|].
  destruct (negb (sv_binds env)); [intros [= _ <-]; by exists []|].
  destruct (negb (sv_addressed env)); [intros [= _ <-]; by exists []|].
  intros (s1 & E1 & E)%bind_Some. apply bind_Some in E as ([server s2] & E2 & E).
  assert (exists events, interleave events (worker_started (Z.to_nat (rc_queue_capacity config)) relay) = Some s2) as [before Eb].
  { destruct (sv_first env); [injection E2 as _ <-; eauto|]. apply bind_Some in E2 as (s3 & E3 & [= _ <-]).
    eexists. rewrite interleave_app, E1. exact E3. }
  destruct server as [server|]; [|injection E as _ <-; eauto].
  apply bind_Some in E as (s3 & E3 & (joined & _ & [= _ <-])%bind_Some).
  eexists. rewrite interleave_app, Eb. exact E3.
Qed.
Lemma serve_ok_joined config relay env s :
  serve_with_router_factory config relay env = Some (Ok tt, s) ->
  exists s', s = Some s' /\ RelayConfig_validate filter_ok config = Ok tt /\ wk_thread s' = Ended (Ok tt).
Proof.
  unfold serve_with_router_factory. destruct (RelayConfig_validate filter_ok config) as [[]|]; [|done].
  repeat (destruct (negb _); [done|]).
  intros (s1 & _ & E)%bind_Some. apply bind_Some in E as ([[server|] s2] & _ & E); [|done].
  apply bind_Some in E as (s3 & _ & (joined & Ej & [= E <-])%bind_Some).
  exists s3. split_and!; try done. destruct joined as [[]|]; [|done].
  unfold join_worker_until in Ej. destruct (sv_join env); try done.
  destruct (wk_thread s3) as [| | | | |[[]|]]; done.
Qed.

(** C21: when the relay's serving loop reports success, nothing was lost on the way down: the configuration was
    valid, the worker's thread has ended, its last checkpoint succeeded on the very store it leaves, the queue is
    empty and no caller is still waiting, and that store is what the commands that ran leave when they are run one
    by one, in the order they were queued. *)
Theorem served_means_checkpointed config relay env s :
  serve_with_router_factory config relay env = Some (Ok tt, s) ->
  exists s', s = Some s' /\ RelayConfig_validate filter_ok config = Ok tt
    /\ wk_thread s' = Ended (Ok tt) /\ store_checkpoint (rl_world (wk_relay s')) = true
    /\ wk_queue s' = [] /\ (forall i k (c : StoreCommand k) p, wk_requests s' !! i = Some (Requested c p) -> p <> Waiting)
    /\ wk_relay s' = replay order store_readiness store_checkpoint (wk_log s') relay
    /\ wk_sent s' = executed (wk_log s') ++ wk_cancelled s'.
Proof.
  intros E. destruct (serve_ok_joined _ _ _ _ E) as (s' & -> & Hv & Ht). exists s'.
  destruct (serve_runs_worker _ _ _ _ _ E) as [events Er].
  pose proof (account_run _ _ _ _ _ _ _ Er) as Ha. pose proof (ended_checked_run _ _ _ _ _ _ _ Er _ Ht) as Hc.
  pose proof (ac_ended _ _ _ _ _ Ha) as Hq. rewrite Ht in Hq. split_and!; try done.
  - unfold store_result in Hc. by destruct (store_checkpoint _).
  - intros i k c p. by eapply ended_nobody_waits.
  - apply Ha.
  - rewrite (ac_order _ _ _ _ _ Ha). unfold pending. rewrite Ht, Hq. by rewrite app_nil_r.
Qed.
End Serving.

(** ** The process (main.rs) *)
Definition relay_main (second_argument : option string) (setup : Result SetupError RelaySetup) (logging : bool)
    (served : RelaySetup -> Result ServeError unit) : Z :=
  if bool_decide (second_argument = Some "--version") || bool_decide (second_argument = Some "-V") then 0
  else match setup with
  | Err _ => 2
  | Ok config =>
      if negb logging then 2
      else match served config with Ok _ => 0 | Err error => process_result_for_serve_error error end
  end.

(** [SystemTimeSource::now], [None] where an [expect] panics; [since_epoch] is [None] before the epoch. *)
Definition relay_now (since_epoch : option Z) : option UnixMillis :=
  millis ← since_epoch;
  if millis <=? i64_max then match UnixMillis_new millis with Ok now => Some now | Err _ => None end else None.

(** ** Examples *)
Section Examples.
#[local] Instance example_json : SerdeJson := {| to_vec _ := Some "{}" |}.

(** The relay of the tests serves a send; shutdown is noticed while it runs. *)
Definition demo_serving : Serving :=
  {| sv_opens := true; sv_binds := true; sv_addressed := true;
     sv_serving := [EvCall (ScSend alice_credential named_hello); EvLoadAccepting 0; EvTrySend 0;
                    EvCall ScListSquads; EvLoadAccepting 1; EvTrySend 1; EvRecv; EvCheckShutdown];
     sv_first := None; sv_noticed := ([EvExecute], [EvRecv]); sv_draining := [EvReceive 0]; sv_drained := Some true;
     sv_stopped := ([], [EvCheckShutdown]); sv_joining := [EvDrain; EvFinish; EvReceive 1]; sv_join := JoinReturned |}.
Definition demo_left : option Worker :=
  serve_with_router_factory (fun _ => true) (fun ids => ids) (fun _ => true) (fun _ => true)
    (rs_limits (RelayConfig_local "psst.db")) (demo_relay []) demo_serving ≫= snd.
Lemma demo_serve_ok :
  serve_with_router_factory (fun _ => true) (fun ids => ids) (fun _ => true) (fun _ => true)
    (rs_limits (RelayConfig_local "psst.db")) (demo_relay []) demo_serving = Some (Ok tt, demo_left).
Proof. vm_compute. reflexivity. Qed.

Lemma served_means_checkpointed_witness :
  exists s', demo_left = Some s' /\ wk_thread s' = Ended (Ok tt) /\ wk_sent s' = executed (wk_log s') ++ wk_cancelled s'.
Proof.
  destruct (served_means_checkpointed (fun _ => true) (fun ids => ids) (fun _ => true) (fun _ => true)
    (rs_limits (RelayConfig_local "psst.db")) (demo_relay []) demo_serving demo_left demo_serve_ok)
    as (s' & Es & _ & Ht & _ & _ & _ & _ & Ho).
  exists s'. split; [exact Es|]. split; [exact Ht|exact Ho].
Defined.
End Examples.
