(* ===== verification/Grammar.v ===== *)
(** * Grammar: the command line (psst-cli/src/lib.rs, psst-application/src/cli.rs)

    Arguments are the bytes of [OsString]s.  A parser is total here where the source can
    index past the end or unwrap nothing: [None] is a panic.  The loops over an index are
    recursions over what is left of the arguments. *)
From stdpp Require Import gmap strings.
From Stdlib Require Import Ascii.
From S2P Require Import Prelude Text Core Files Client Profile Config.

(** ** Commands *)
Inductive CliCommand : Set :=
| CcInvocation | CcRelayStart | CcHealth | CcConfigShowEffective | CcProfileList | CcProfileShow | CcSquadList | CcSquadCreate
| CcSquadDescribe | CcSquadArchive | CcSquadJoin | CcSquadLeave | CcSquadRoster | CcMessageSend | CcInbox | CcListen
| CcMessageAcknowledge | CcTranscript | CcStatus | CcHarnessStatus | CcDatabaseInfo | CcDatabaseBackup | CcDatabaseIntegrityCheck.
#[global] Instance CliCommand_eq_dec : EqDecision CliCommand.
Proof. solve_decision. Defined.

Record GlobalOptions : Set := { go_relay : option string; go_profile : option string; go_config : option string; go_json : bool }.
(** The address as the [Display] of the parsed one. *)
Record RelayStartArgs : Set := { ra_bind : option string; ra_data_dir : option string; ra_allow_lan : bool; ra_log_level : option string }.
Inductive ParsedCommand : Set :=
| PcRelayStart (arguments : RelayStartArgs)
| PcHealth
| PcConfigShowEffective
| PcHarnessStatus
| PcSquadList
| PcSquadCreate (squad mission : string)
| PcSquadDescribe (squad : string)
| PcDeferred (command : CliCommand) (arguments : list string).
Definition contract (self : ParsedCommand) : CliCommand :=
  match self with
  | PcRelayStart _ => CcRelayStart
  | PcHealth => CcHealth
  | PcConfigShowEffective => CcConfigShowEffective
  | PcHarnessStatus => CcHarnessStatus
  | PcSquadList => CcSquadList
  | PcSquadCreate _ _ => CcSquadCreate
  | PcSquadDescribe _ => CcSquadDescribe
  | PcDeferred command _ => command
  end.
Inductive Invocation : Set := InHelp | InVersion | InCommand (options : GlobalOptions) (command : ParsedCommand).
Record ParseError : Set := { pe_command : option CliCommand; pe_json : bool }.

(** ** Arguments *)
(** [OsStr::to_str]. *)
Definition to_str (arg : string) : option string := if utf8_valid (as_bytes arg) then Some arg else None.
(** [str::starts_with]. *)
Definition starts_with (prefix s : string) : bool := match strip_prefix prefix s with Some _ => true | None => false end.
(** [&args[n..]]. *)
Definition slice_from {A} (n : nat) (args : list A) : option (list A) :=
  if (n <=? length args)%nat then Some (drop n args) else None.
Definition is_arg (lit : string) (arg : option string) : bool := bool_decide (arg = Some lit).

Definition nonempty (value : option string) : option string :=
  value ← value;
  text ← to_str value;
  if is_empty text then None else Some text.
Definition string_arg (value : option string) (json : bool) : Result ParseError string :=
  ok_or (value ← value; text ← to_str value; if is_empty text then None else Some text) {| pe_command := None; pe_json := json |}.
Definition os_arg (value : option string) (json : bool) : Result ParseError string :=
  ok_or (value ← value; if is_empty value then None else Some value) {| pe_command := None; pe_json := json |}.
Definition command_arg (value : option string) (json : bool) (command : CliCommand) : Result ParseError string :=
  map_err (fun _ => {| pe_command := Some command; pe_json := json |}) (string_arg value json).
Definition command_os_arg (value : option string) (json : bool) (command : CliCommand) : Result ParseError string :=
  map_err (fun _ => {| pe_command := Some command; pe_json := json |}) (os_arg value json).

(** [str::parse::<i64>]. *)
Definition parse_i64 (s : string) : option Z :=
  match s with
  | String "-" (String _ _ as rest) =>
      match rest with
      | String "+" _ => None
      | _ => Z.opp <$> parse_unsigned (2 ^ 63) rest
      end
  | _ => parse_unsigned i64_max s
  end.
Definition u8_max : Z := 255.
Definition u16_max : Z := 65535.
Definition bounded_number (value : option string) (min max : Z) : bool :=
  match nonempty value ≫= parse_unsigned u16_max with
  | Some n => (min <=? n) && (n <=? max)
  | None => false
  end.

Fixpoint option_pairs (values : gmap string string) (args allowed : list string) : option (gmap string string) :=
  match args with
  | flag :: value :: rest =>
      flag ← to_str flag;
      value ← nonempty (Some value);
      if negb (bool_decide (flag ∈ allowed)) || opt_is_some (values !! flag) then None
      else option_pairs (<[flag := value]> values) rest allowed
  | _ => Some values
  end.
Definition parse_option_pairs (args allowed : list string) : option (gmap string string) :=
  if Nat.even (length args) then option_pairs ∅ args allowed else None.

Definition has (flag : string) (values : gmap string string) : bool := opt_is_some (values !! flag).
Definition valid_named_options (args required optional : list string) : bool :=
  match parse_option_pairs args (required ++ optional) with
  | Some values => forallb (fun flag => has flag values) required
  | None => false
  end.

(** ** The grammars of the deferred commands *)
Section Grammar.
(** What [to_string_lossy] makes of bytes that are not UTF-8; the [Display] of the socket address a
    text parses to. *)
Variables (replaced display_address : string -> string).
Definition to_string_lossy (arg : string) : string := if utf8_valid (as_bytes arg) then arg else replaced arg.

Definition valid_join_grammar (args : list string) : bool :=
  if (length args <? 7)%nat || bool_decide (nonempty (args !! 2%nat) = None) then false
  else valid_named_options (drop 3 args) ["--name"; "--role"] ["--mission"].

Definition SEND_OPTIONS : list string := ["--to"; "--body"; "--file"; "--priority"; "--reply-to"; "--correlation-id"].
Definition valid_send_grammar (args : list string) : option bool :=
  rest ← slice_from 2 args;
  Some match parse_option_pairs rest SEND_OPTIONS with
  | None => false
  | Some options =>
      has "--to" options && xorb (has "--body" options) (has "--file" options)
      && match options !! "--priority" with
         | Some value => bool_decide (value = "normal") || bool_decide (value = "high")
         | None => true
         end
  end.

(** The loop over the arguments of [inbox]: at a flag, or in the list after [--ack] with the
    number of ids so far. *)
Inductive AckList : Set := AtFlag | InIds (count : nat).
Fixpoint inbox_grammar (seen : list string) (mode : AckList) (args : list string) : bool :=
  match args with
  | [] => match mode with AtFlag => true | InIds count => negb (count =? 0)%nat && negb (100 <? count)%nat end
  | arg :: rest =>
      let at_flag :=
        match to_str arg with
        | None => false
        | Some flag =>
            if bool_decide (flag ∈ seen) then false
            else if bool_decide (flag = "--limit") then
              match rest with
              | value :: rest => bounded_number (Some value) 1 100 && inbox_grammar (flag :: seen) AtFlag rest
              | [] => false
              end
            else if bool_decide (flag = "--wait") then
              match rest with
              | value :: rest => bounded_number (Some value) 0 30 && inbox_grammar (flag :: seen) AtFlag rest
              | [] => false
              end
            else if bool_decide (flag = "--ack") then inbox_grammar (flag :: seen) (InIds 0) rest
            else false
        end in
      match mode with
      | AtFlag => at_flag
      | InIds count =>
          if starts_with "--" (to_string_lossy arg) then negb (count =? 0)%nat && negb (100 <? count)%nat && at_flag
          else opt_is_some (nonempty (Some arg)) && inbox_grammar seen (InIds (S count)) rest
      end
  end.
Definition valid_inbox_grammar (args : list string) : bool := inbox_grammar [] AtFlag (drop 1 args).

Fixpoint listen_grammar (wait ack : bool) (args : list string) : bool :=
  match args with
  | [] => true
  | arg :: rest =>
      if is_arg "--wait" (to_str arg) && negb wait then
        match rest with
        | value :: rest => bounded_number (Some value) 1 30 && listen_grammar true ack rest
        | [] => false
        end
      else if is_arg "--ack" (to_str arg) && negb ack then listen_grammar wait true rest
      else false
  end.
Definition valid_listen_grammar (args : list string) : bool := listen_grammar false false (drop 1 args).

Definition TRANSCRIPT_OPTIONS : list string := ["--after"; "--limit"].
Definition valid_transcript_grammar (args : list string) : option bool :=
  rest ← slice_from 1 args;
  Some match parse_option_pairs rest TRANSCRIPT_OPTIONS with
  | None => false
  | Some options =>
      match options !! "--after" with
      | Some value => match parse_i64 value with Some n => 0 <=? n | None => false end
      | None => true
      end
      && match options !! "--limit" with
         | Some value => match parse_unsigned u16_max value with Some n => (1 <=? n) && (n <=? 100) | None => false end
         | None => true
         end
  end.

(** ** Commands *)
Definition deferred_identity (args : list string) : option CliCommand :=
  first ← head args;
  first ← to_str first;
  let second := args !! 1%nat ≫= to_str in
  let both f s := bool_decide (first = f) && is_arg s second in
  if both "relay" "start" then Some CcRelayStart
  else if bool_decide (first = "health") then Some CcHealth
  else if both "config" "show" then Some CcConfigShowEffective
  else if both "harness" "status" then Some CcHarnessStatus
  else if both "profile" "list" then Some CcProfileList
  else if both "profile" "show" then Some CcProfileShow
  else if both "squad" "archive" then Some CcSquadArchive
  else if both "squad" "list" then Some CcSquadList
  else if both "squad" "create" then Some CcSquadCreate
  else if both "squad" "describe" then Some CcSquadDescribe
  else if both "squad" "join" then Some CcSquadJoin
  else if both "squad" "leave" then Some CcSquadLeave
  else if both "squad" "roster" then Some CcSquadRoster
  else if both "message" "send" then Some CcMessageSend
  else if both "message" "acknowledge" then Some CcMessageAcknowledge
  else if both "database" "info" then Some CcDatabaseInfo
  else if both "database" "backup" then Some CcDatabaseBackup
  else if both "database" "integrity-check" then Some CcDatabaseIntegrityCheck
  else if bool_decide (first = "inbox") then Some CcInbox
  else if bool_decide (first = "listen") then Some CcListen
  else if bool_decide (first = "transcript") then Some CcTranscript
  else if bool_decide (first = "status") then Some CcStatus
  else None.

Definition deferred_key (args : list string) : string := String.concat " " (omap to_str (take 2 args)).
(** An arm of the match: its guard may panic; where the arm does not apply the next ones are tried. *)
Definition arm (matches : bool) (guard : option bool) (command : CliCommand) (next : option (option CliCommand))
    : option (option CliCommand) :=
  if matches then (holds ← guard; if holds : bool then Some (Some command) else next) else next.
Definition deferred_command (args : list string) : option (option CliCommand) :=
  let key := deferred_key args in
  let n := length args in
  let keyed (k : string) := arm (bool_decide (key = k)) in
  let first (f : string) := arm (is_arg f (head args)) in
  keyed "profile list" (Some (n =? 2)%nat) CcProfileList (
  keyed "profile show" (Some ((n =? 2)%nat || ((n =? 3)%nat && opt_is_some (nonempty (args !! 2%nat))))) CcProfileShow (
  keyed "squad archive" (Some ((n =? 3)%nat && opt_is_some (nonempty (args !! 2%nat)))) CcSquadArchive (
  keyed "squad join" (Some (valid_join_grammar args)) CcSquadJoin (
  keyed "squad leave" (Some (n =? 2)%nat) CcSquadLeave (
  keyed "squad roster" (Some (n =? 2)%nat) CcSquadRoster (
  keyed "message send" (valid_send_grammar args) CcMessageSend (
  keyed "message acknowledge"
    (Some ((3 <=? n)%nat && (n <=? 102)%nat && forallb (fun value => opt_is_some (nonempty (Some value))) (drop 2 args)))
    CcMessageAcknowledge (
  keyed "database info" (Some (n =? 2)%nat) CcDatabaseInfo (
  keyed "database backup" (Some ((n =? 3)%nat && opt_is_some (nonempty (args !! 2%nat)))) CcDatabaseBackup (
  keyed "database integrity-check" (Some (n =? 2)%nat) CcDatabaseIntegrityCheck (
  first "inbox" (Some (valid_inbox_grammar args)) CcInbox (
  first "listen" (Some (valid_listen_grammar args)) CcListen (
  first "transcript" (valid_transcript_grammar args) CcTranscript (
  first "status" (Some (n =? 1)%nat) CcStatus (Some None))))))))))))))).
Definition parse_deferred (args : list string) (json : bool) : option (Result ParseError ParsedCommand) :=
  command ← deferred_command args;
  Some match command with
  | Some command => Ok (PcDeferred command args)
  | None => Err {| pe_command := deferred_identity args; pe_json := json |}
  end.

Fixpoint relay_start_options (seen : list string) (parsed : RelayStartArgs) (args : list string) (json : bool)
    : Result ParseError RelayStartArgs :=
  let fail {A} : Result ParseError A := Err {| pe_command := Some CcRelayStart; pe_json := json |} in
  match args with
  | [] => Ok parsed
  | arg :: rest =>
      let flag := to_str arg in
      if is_arg "--bind" flag then
        if bool_decide ("--bind" ∈ seen) then fail
        else match rest with
        | [] => fail
        | value :: rest =>
            value ← command_arg (Some value) json CcRelayStart;
            if negb (Net.socket_addr value) then fail
            else relay_start_options ("--bind" :: seen) {| ra_bind := Some (display_address value); ra_data_dir := ra_data_dir parsed;
                   ra_allow_lan := ra_allow_lan parsed; ra_log_level := ra_log_level parsed |} rest json
        end
      else if is_arg "--data-dir" flag then
        if bool_decide ("--data-dir" ∈ seen) then fail
        else match rest with
        | [] => fail
        | value :: rest =>
            value ← command_os_arg (Some value) json CcRelayStart;
            relay_start_options ("--data-dir" :: seen) {| ra_bind := ra_bind parsed; ra_data_dir := Some value;
              ra_allow_lan := ra_allow_lan parsed; ra_log_level := ra_log_level parsed |} rest json
        end
      else if is_arg "--allow-lan" flag && negb (bool_decide ("--allow-lan" ∈ seen)) then
        relay_start_options ("--allow-lan" :: seen) {| ra_bind := ra_bind parsed; ra_data_dir := ra_data_dir parsed;
          ra_allow_lan := true; ra_log_level := ra_log_level parsed |} rest json
      else if is_arg "--log" flag then
        if bool_decide ("--log" ∈ seen) then fail
        else match rest with
        | [] => fail
        | value :: rest =>
            value ← command_arg (Some value) json CcRelayStart;
            relay_start_options ("--log" :: seen) {| ra_bind := ra_bind parsed; ra_data_dir := ra_data_dir parsed;
              ra_allow_lan := ra_allow_lan parsed; ra_log_level := Some value |} rest json
        end
      else fail
  end.
Definition parse_relay_start (args : list string) (json : bool) : Result ParseError ParsedCommand :=
  parsed ← relay_start_options [] {| ra_bind := None; ra_data_dir := None; ra_allow_lan := false; ra_log_level := None |} args json;
  Ok (PcRelayStart parsed).

Definition parse_command (args : list string) (json : bool) : option (Result ParseError ParsedCommand) :=
  match head args ≫= to_str with
  | None => Some (Err {| pe_command := None; pe_json := json |})
  | Some head =>
      let n := length args in
      let second (s : string) := is_arg s (args !! 1%nat) in
      if bool_decide (head = "health") && (n =? 1)%nat then Some (Ok PcHealth)
      else if bool_decide (head = "relay") && second "start" then Some (parse_relay_start (drop 2 args) json)
      else if bool_decide (head = "config") && second "show" && is_arg "--effective" (args !! 2%nat) && (n =? 3)%nat
        then Some (Ok PcConfigShowEffective)
      else if bool_decide (head = "harness") && second "status" && (n =? 2)%nat then Some (Ok PcHarnessStatus)
      else if bool_decide (head = "squad") && second "list" && (n =? 2)%nat then Some (Ok PcSquadList)
      else if bool_decide (head = "squad") && second "create" then
        if negb (n =? 5)%nat || negb (is_arg "--mission" (args !! 3%nat))
        then Some (Err {| pe_command := Some CcSquadCreate; pe_json := json |})
        else Some (squad ← command_arg (args !! 2%nat) json CcSquadCreate;
                   mission ← command_arg (args !! 4%nat) json CcSquadCreate;
                   Ok (PcSquadCreate squad mission))
      else if bool_decide (head = "squad") && second "describe" && (n =? 3)%nat then
        Some (squad ← command_arg (args !! 2%nat) json CcSquadDescribe; Ok (PcSquadDescribe squad))
      else parse_deferred args json
  end.

(** The loop stops at a value that begins with a hyphen or is not UTF-8. *)
Fixpoint leading_json_requested (json : bool) (args : list string) : bool :=
  match args with
  | [] => json
  | arg :: rest =>
      let flag := to_str arg in
      if is_arg "--json" flag then leading_json_requested true rest
      else if is_arg "--relay" flag || is_arg "--profile" flag || is_arg "--config" flag then
        match rest with
        | value :: rest =>
            match to_str value with
            | Some text => if starts_with "-" text then json else leading_json_requested json rest
            | None => json
            end
        | [] => json
        end
      else json
  end.

Fixpoint global_options (seen : list string) (global : GlobalOptions) (args : list string)
    : Result ParseError (GlobalOptions * list string) :=
  let fail {A} : Result ParseError A := Err {| pe_command := None; pe_json := go_json global |} in
  match args with
  | [] => Ok (global, [])
  | arg :: rest =>
      let flag := to_str arg in
      if is_arg "--json" flag then
        if bool_decide ("--json" ∈ seen) then Err {| pe_command := None; pe_json := true |}
        else global_options ("--json" :: seen) global rest
      else if is_arg "--relay" flag then
        if bool_decide ("--relay" ∈ seen) then fail
        else match rest with
        | [] => fail
        | value :: rest =>
            value ← string_arg (Some value) (go_json global);
            global_options ("--relay" :: seen) {| go_relay := Some value; go_profile := go_profile global;
              go_config := go_config global; go_json := go_json global |} rest
        end
      else if is_arg "--profile" flag then
        if bool_decide ("--profile" ∈ seen) then fail
        else match rest with
        | [] => fail
        | value :: rest =>
            value ← string_arg (Some value) (go_json global);
            global_options ("--profile" :: seen) {| go_relay := go_relay global; go_profile := Some value;
              go_config := go_config global; go_json := go_json global |} rest
        end
      else if is_arg "--config" flag then
        if bool_decide ("--config" ∈ seen) then fail
        else match rest with
        | [] => fail
        | value :: rest =>
            value ← os_arg (Some value) (go_json global);
            global_options ("--config" :: seen) {| go_relay := go_relay global; go_profile := go_profile global;
              go_config := Some value; go_json := go_json global |} rest
        end
      else Ok (global, args)
  end.

(** [parse], on the arguments with the name of the program. *)
Definition cli_parse (arguments : list string) : option (Result ParseError Invocation) :=
  let args := drop 1 arguments in
  let json_requested := leading_json_requested false args in
  let alone (a b : string) := bool_decide (args = [a]) || bool_decide (args = [b]) in
  if bool_decide (args = []) || alone "--help" "-h" then Some (Ok InHelp)
  else if alone "--version" "-V" then Some (Ok InVersion)
  else match global_options [] {| go_relay := None; go_profile := None; go_config := None; go_json := json_requested |} args with
  | Err e => Some (Err e)
  | Ok (global, rest) =>
      command ← parse_command rest (go_json global);
      Some (command ← command; Ok (InCommand global command))
  end.

(** ** What the commands read back from their arguments *)
Record InboxArguments : Set := { ia_limit : Z; ia_wait : Z; ia_ack : list string }.
Fixpoint read_inbox (acc : InboxArguments) (ids : bool) (args : list string) : option InboxArguments :=
  match args with
  | [] => Some acc
  | arg :: rest =>
      let at_flag :=
        if is_arg "--limit" (to_str arg) then
          match rest with
          | value :: rest =>
              limit ← parse_unsigned u16_max (to_string_lossy value);
              read_inbox {| ia_limit := limit; ia_wait := ia_wait acc; ia_ack := ia_ack acc |} false rest
          | [] => None
          end
        else if is_arg "--wait" (to_str arg) then
          match rest with
          | value :: rest =>
              wait ← parse_unsigned u8_max (to_string_lossy value);
              read_inbox {| ia_limit := ia_limit acc; ia_wait := wait; ia_ack := ia_ack acc |} false rest
          | [] => None
          end
        else if is_arg "--ack" (to_str arg) then read_inbox acc true rest
        else None in
      if ids then
        if starts_with "--" (to_string_lossy arg) then at_flag
        else read_inbox {| ia_limit := ia_limit acc; ia_wait := ia_wait acc; ia_ack := ia_ack acc ++ [to_string_lossy arg] |} true rest
      else at_flag
  end.
Definition inbox_arguments (args : list string) : option InboxArguments :=
  read_inbox {| ia_limit := 100; ia_wait := 0; ia_ack := [] |} false (drop 1 args).

(** [windows(2).find(..)]. *)
Fixpoint listen_wait (args : list string) : option Z :=
  match args with
  | a :: ((b :: _) as rest) => if bool_decide (a = "--wait") then parse_unsigned u8_max (to_string_lossy b) else listen_wait rest
  | _ => Some 30
  end.

Definition transcript_arguments (args : list string) : option (Z * Z) :=
  rest ← slice_from 1 args;
  values ← parse_option_pairs rest TRANSCRIPT_OPTIONS;
  after ← (match values !! "--after" with Some v => parse_i64 v | None => Some 0 end);
  after ← (if 0 <=? after then Some after else None);
  limit ← (match values !! "--limit" with Some v => parse_unsigned u16_max v | None => Some 100 end);
  Some (after, limit).

Definition acknowledged_ids (args : list string) : option (list string) :=
  ids ← slice_from 2 args;
  Some (map to_string_lossy ids).

(** ** Accepted arguments can be read back *)
#[local] Arguments nonempty : simpl never.
#[local] Arguments bounded_number : simpl never.
Lemma to_str_Some arg s : to_str arg = Some s -> s = arg /\ utf8_valid (as_bytes arg) = true.
Proof. unfold to_str. destruct (utf8_valid _); [|done]. by intros [= <-]. Qed.
Lemma nonempty_Some arg s : nonempty (Some arg) = Some s -> s = arg /\ to_string_lossy arg = arg /\ arg <> "".
Proof.
  unfold nonempty, to_string_lossy. cbn [mbind option_bind]. destruct (to_str arg) as [x|] eqn:E; simpl; [|done].
  apply to_str_Some in E as [-> Hv]. rewrite Hv. unfold is_empty. case_bool_decide; [done|]. by intros [= <-].
Qed.
Lemma is_arg_true lit arg : is_arg lit arg = true -> arg = Some lit.
Proof. unfold is_arg. by case_bool_decide. Qed.

Lemma digits_mono max max' acc bs n : digits max acc bs = Some n -> n <= max' -> 0 <= acc -> digits max' acc bs = Some n /\ acc <= n.
Proof.
  revert acc. induction bs as [|b bs IH]; simpl; intros acc; [intros [= ->]; split; [done|lia]|].
  destruct (digit_of 10 b) as [d|] eqn:Ed; simpl; [|done].
  assert (0 <= d) as Hd.
  { unfold digit_of in Ed. match type of Ed with (if ?v <? 10 then _ else _) = _ => set (w := v) in *; assert (0 <= w) end.
    { unfold w. unfold is_ascii_digit, is_ascii_lowercase, is_ascii_uppercase. repeat case_match; bool_to_prop; lia. }
    destruct (w <? 10); [|done]. by injection Ed as <-. }
  destruct (max <? acc * 10 + d) eqn:Em; [done|]. intros E Hn Hacc.
  destruct (IH _ E Hn) as [E' Hle]; [lia|]. rewrite (proj2 (Z.ltb_ge _ _)) by lia. split; [done|lia].
Qed.
(** A number that one width accepts, another reads as the same. *)
Lemma parse_unsigned_width max max' s n :
  parse_unsigned max s = Some n -> n <= max' -> parse_unsigned max' s = Some n /\ 0 <= n.
Proof.
  unfold parse_unsigned. destruct (as_bytes s) as [|b [|c rest]]; [done| |case_bool_decide];
    intros E Hn; by apply (digits_mono max max' 0 _ n E Hn).
Qed.
Lemma bounded_number_reads value low high max :
  bounded_number (Some value) low high = true -> high <= max ->
  exists n, parse_unsigned max (to_string_lossy value) = Some n /\ low <= n <= high.
Proof.
  unfold bounded_number. destruct (nonempty (Some value)) as [text|] eqn:En; simpl; [|done].
  apply nonempty_Some in En as (-> & -> & _). destruct (parse_unsigned u16_max value) as [n|] eqn:E; [|done].
  intros Hb Hm. bool_to_prop. exists n. split; [|lia]. apply (parse_unsigned_width u16_max max); [done|lia].
Qed.

Definition within (a : InboxArguments) : Prop := 1 <= ia_limit a <= 100 /\ 0 <= ia_wait a <= 30 /\ Forall (fun id => id <> "") (ia_ack a).
(** How far the list after [--ack] is. *)
Definition listed (seen : list string) (mode : AckList) (a : InboxArguments) : Prop :=
  match mode with
  | AtFlag => (length (ia_ack a) <= 100)%nat /\ ("--ack" ∈ seen \/ ia_ack a = [])
  | InIds count => length (ia_ack a) = count /\ "--ack" ∈ seen
  end.
Definition in_ids (mode : AckList) : bool := match mode with AtFlag => false | InIds _ => true end.

(** The rest of the arguments can be read, as far as they are accepted. *)
Definition readable (args : list string) : Prop :=
  forall seen mode acc, inbox_grammar seen mode args = true -> within acc -> listed seen mode acc ->
  exists a, read_inbox acc (in_ids mode) args = Some a /\ within a /\ (length (ia_ack a) <= 100)%nat.

Lemma read_inbox_flag arg rest seen acc :
  (forall rest', (length rest' <= length rest)%nat -> readable rest') ->
  inbox_grammar seen AtFlag (arg :: rest) = true -> within acc -> listed seen AtFlag acc ->
  exists a, read_inbox acc false (arg :: rest) = Some a /\ within a /\ (length (ia_ack a) <= 100)%nat.
Proof.
  intros IH Hg (Hlim & Hwait & Hids) [Hlen Hack]. simpl in *. destruct (to_str arg) as [flag|] eqn:Ea; [|done].
  destruct (bool_decide (flag ∈ seen)) eqn:Eseen; [done|]. apply bool_decide_eq_false in Eseen. unfold is_arg.
  destruct (decide (flag = "--limit")) as [->|Hnl];
    [|rewrite (bool_decide_eq_false_2 (flag = "--limit")) in Hg by done;
      rewrite (bool_decide_eq_false_2 (Some flag = Some "--limit")) by congruence;
      destruct (decide (flag = "--wait")) as [->|Hnw];
      [|rewrite (bool_decide_eq_false_2 (flag = "--wait")) in Hg by done;
        rewrite (bool_decide_eq_false_2 (Some flag = Some "--wait")) by congruence;
        destruct (decide (flag = "--ack")) as [->|Hna]]]; simpl in *.
  - destruct rest as [|value rest]; [done|]. apply andb_true_iff in Hg as [Hb Hg].
    destruct (bounded_number_reads _ _ _ u16_max Hb) as (limit & -> & Hlimit); [done|]. simpl.
    apply (IH rest ltac:(simpl; lia) _ AtFlag _ Hg); [done|]. split; [done|]. set_solver.
  - destruct rest as [|value rest]; [done|]. apply andb_true_iff in Hg as [Hb Hg].
    destruct (bounded_number_reads _ _ _ u8_max Hb) as (wait & -> & Hwait'); [done|]. simpl.
    apply (IH rest ltac:(simpl; lia) _ AtFlag _ Hg); [done|]. split; [done|]. set_solver.
  - destruct Hack as [Hack|Hack]; [done|].
    apply (IH rest ltac:(lia) _ (InIds 0) _ Hg); [done|]. split; [by rewrite Hack|set_solver].
  - by rewrite bool_decide_eq_false_2 in Hg.
Qed.
Lemma inbox_readable args : readable args.
Proof.
  remember (length args) as n eqn:Hn. revert args Hn. induction n as [n IH] using lt_wf_ind.
  intros [|arg rest] Hn seen mode acc Hg Hw Hl.
  { exists acc. split; [done|]. split; [done|]. destruct mode as [|count]; [apply Hl|]. destruct Hl as [<- _]. simpl in Hg.
    apply andb_true_iff in Hg as [_ Hg]. apply negb_true_iff, Nat.ltb_ge in Hg. lia. }
  assert (forall rest', (length rest' <= length rest)%nat -> readable rest') as IH'.
  { intros rest' Hlen. apply (IH (length rest')); [simpl in Hn; lia|done]. }
  destruct mode as [|count]; [by apply (read_inbox_flag _ _ seen)|]. destruct Hl as [<- Hack].
  pose proof (read_inbox_flag arg rest seen acc IH') as Hflag. simpl in *.
  destruct (starts_with "--" (to_string_lossy arg)).
  - rewrite !andb_true_iff, !negb_true_iff, Nat.ltb_ge in Hg. apply Hflag; [apply Hg|done|]. split; [lia|by left].
  - apply andb_true_iff in Hg as [Hne Hg]. destruct (nonempty (Some arg)) as [text|] eqn:Ene; [|done].
    apply nonempty_Some in Ene as (-> & Elossy & Hne'). rewrite Elossy.
    apply (IH' rest ltac:(lia) _ (InIds (S (length (ia_ack acc)))) _ Hg).
    + destruct Hw as (? & ? & ?). split_and!; try done; simpl; try lia. apply Forall_app. by repeat constructor.
    + split; [|done]. simpl. rewrite length_app. simpl. lia.
Qed.

(** *** The other readers *)
Lemma listen_wait_accepted wait ack args first :
  listen_grammar wait ack args = true -> first <> "--wait" ->
  exists w, listen_wait (first :: args) = Some w /\ 1 <= w <= 30.
Proof.
  revert wait ack first. induction args as [|arg rest IH]; intros wait ack first Hg Hf; [by exists 30|].
  simpl. rewrite bool_decide_eq_false_2 by done. simpl in Hg.
  destruct (is_arg "--wait" (to_str arg) && negb wait) eqn:Ew.
  - apply andb_true_iff in Ew as [Ew%is_arg_true _]. apply to_str_Some in Ew as [<- _].
    destruct rest as [|value rest]; [done|]. apply andb_true_iff in Hg as [Hb _].
    destruct (bounded_number_reads _ _ _ u8_max Hb) as (w & Hr & Hw); [done|]. exists w. split; [exact Hr|lia].
  - destruct (is_arg "--ack" (to_str arg) && negb ack) eqn:Ea; [|done].
    apply andb_true_iff in Ea as [Ea%is_arg_true _]. apply to_str_Some in Ea as [<- _]. by apply (IH wait true).
Qed.

Lemma option_pairs_grow values args allowed values' :
  option_pairs values args allowed = Some values' -> values ⊆ values'.
Proof.
  remember (length args) as n eqn:Hn. revert args values Hn. induction n as [n IH] using lt_wf_ind.
  intros [|flag [|value rest]] values Hn; simpl; [by intros [= <-]|by intros [= <-]|].
  destruct (to_str flag) as [f|]; simpl; [|done]. destruct (nonempty (Some value)) as [v|]; simpl; [|done].
  destruct (negb _ || opt_is_some (values !! f)) eqn:Eb; [done|]. intros E. simpl in Hn.
  apply (IH (length rest)) in E; [|lia|done]. apply orb_false_iff in Eb as [_ Eb]. etrans; [|exact E].
  apply insert_subseteq. by destruct (values !! f).
Qed.
Lemma has_Some flag values : has flag values = true -> exists v, values !! flag = Some v.
Proof. unfold has. destruct (values !! flag); [eauto|done]. Qed.

Lemma arm_inv matches guard command next c :
  arm matches guard command next = Some (Some c) -> (matches = true /\ guard = Some true /\ c = command) \/ next = Some (Some c).
Proof.
  unfold arm. destruct matches; [|by right]. destruct guard as [[]|]; simpl; [|by right|done]. intros [= <-]. by left.
Qed.

(** What the reader of a command's arguments returns, and between which bounds. *)
Definition reads_back (command : CliCommand) (args : list string) : Prop :=
  match command with
  | CcInbox => exists a, inbox_arguments args = Some a /\ within a /\ (length (ia_ack a) <= 100)%nat
  | CcListen => exists wait, listen_wait args = Some wait /\ 1 <= wait <= 30
  | CcTranscript => exists after limit, transcript_arguments args = Some (after, limit) /\ 0 <= after <= i64_max /\ 1 <= limit <= 100
  | CcMessageAcknowledge =>
      exists ids, acknowledged_ids args = Some ids /\ (1 <= length ids <= 100)%nat /\ Forall (fun id => id <> "") ids
  | CcMessageSend =>
      exists rest values, slice_from 2 args = Some rest /\ parse_option_pairs rest SEND_OPTIONS = Some values
        /\ has "--to" values = true /\ xorb (has "--body" values) (has "--file" values) = true
  | CcSquadJoin =>
      exists rest values squad, slice_from 3 args = Some rest /\ parse_option_pairs rest ["--name"; "--role"; "--mission"] = Some values
        /\ has "--name" values = true /\ has "--role" values = true /\ nonempty (args !! 2%nat) = Some squad
  | CcSquadArchive => exists squad, nonempty (args !! 2%nat) = Some squad
  | _ => True
  end.

Lemma join_reads_back args : valid_join_grammar args = true -> reads_back CcSquadJoin args.
Proof.
  unfold valid_join_grammar. destruct (Nat.ltb_spec (length args) 7); [done|]. simpl.
  destruct (nonempty (args !! 2%nat)) as [squad|] eqn:En; [|done]. rewrite bool_decide_eq_false_2 by done.
  unfold valid_named_options. simpl. destruct (parse_option_pairs _ _) as [values|] eqn:Ep; [|done].
  rewrite !andb_true_iff. intros (Hn & Hr & _). exists (drop 3 args), values, squad. unfold slice_from.
  rewrite (proj2 (Nat.leb_le _ _)) by lia. done.
Qed.
Lemma send_reads_back args : valid_send_grammar args = Some true -> reads_back CcMessageSend args.
Proof.
  unfold valid_send_grammar. destruct (slice_from 2 args) as [rest|] eqn:Es; simpl; [|done].
  destruct (parse_option_pairs rest SEND_OPTIONS) as [values|] eqn:Ep; [|done].
  intros [= [[Ht Hx]%andb_true_iff _]%andb_true_iff]. by exists rest, values.
Qed.
Lemma parse_unsigned_range max s n : parse_unsigned max s = Some n -> 0 <= max -> 0 <= n <= max.
Proof.
  intros E Hm. destruct (Z.le_gt_cases n max) as [Hle|Hgt].
  - split; [|done]. by eapply (parse_unsigned_width max max).
  - exfalso. revert E Hgt. unfold parse_unsigned.
    assert (forall bs acc, acc <= max -> digits max acc bs = Some n -> n <= max) as Hd.
    { induction bs as [|b bs IH]; simpl; intros acc Hacc; [by intros [= <-]|]. destruct (digit_of 10 b); simpl; [|done].
      destruct (Z.ltb_spec max (acc * 10 + z)); [done|]. by apply IH. }
    destruct (as_bytes s) as [|b [|c l]]; [done| |case_bool_decide]; intros E Hgt; apply Hd in E; lia.
Qed.
Lemma parse_i64_range s n : parse_i64 s = Some n -> 0 <= n -> n <= i64_max.
Proof.
  unfold parse_i64. intros E Hn.
  assert (parse_unsigned i64_max s = Some n \/ n <= 0) as [Hp|Hp]; [|apply parse_unsigned_range in Hp; [lia|done]|unfold i64_max; lia].
  destruct s as [|b rest]; [by left|].
  destruct (decide (b = "-"%char)) as [->|Hb].
  - destruct rest as [|c rest]; [by left|].
    assert (c = "+"%char \/ exists m, parse_unsigned (2 ^ 63) (String c rest) = Some m /\ n = - m) as [->|(m & Em & ->)].
    { destruct c as [[] [] [] [] [] [] [] []]; try (by left);
        (right; destruct (parse_unsigned _ _) as [m|]; simpl in E; [|done]; injection E as <-; eauto). }
    + done.
    + right. apply parse_unsigned_range in Em; lia.
  - left. destruct b as [[] [] [] [] [] [] [] []]; done.
Qed.
Lemma transcript_reads_back args : valid_transcript_grammar args = Some true -> reads_back CcTranscript args.
Proof.
  unfold valid_transcript_grammar, reads_back, transcript_arguments. destruct (slice_from 1 args) as [rest|]; simpl; [|done].
  destruct (parse_option_pairs rest TRANSCRIPT_OPTIONS) as [values|]; simpl; [|done]. intros [= [Ha Hl]%andb_true_iff].
  assert (exists after, (match values !! "--after" with Some v => parse_i64 v | None => Some 0 end) = Some after /\ 0 <= after <= i64_max) as (after & -> & Hafter).
  { destruct (values !! "--after") as [v|]; [|by exists 0]. destruct (parse_i64 v) as [n|] eqn:E; [|done].
    apply Z.leb_le in Ha. exists n. split; [done|]. by eauto using parse_i64_range. }
  assert (exists limit, (match values !! "--limit" with Some v => parse_unsigned u16_max v | None => Some 100 end) = Some limit /\ 1 <= limit <= 100) as (limit & -> & Hlimit).
  { destruct (values !! "--limit") as [v|]; [|by exists 100]. destruct (parse_unsigned _ v) as [n|] eqn:E; [|done].
    apply andb_true_iff in Hl as [H1%Z.leb_le H2%Z.leb_le]. by exists n. }
  simpl. rewrite (proj2 (Z.leb_le _ _)) by lia. simpl. by exists after, limit.
Qed.
Lemma acknowledge_reads_back args :
  (3 <=? length args)%nat && (length args <=? 102)%nat && forallb (fun value => opt_is_some (nonempty (Some value))) (drop 2 args) = true ->
  reads_back CcMessageAcknowledge args.
Proof.
  rewrite !andb_true_iff, !Nat.leb_le. intros [[H3 H102] Hall]. unfold reads_back, acknowledged_ids, slice_from.
  rewrite (proj2 (Nat.leb_le _ _)) by lia. simpl. eexists. split; [done|]. rewrite length_map, length_drop. split; [lia|].
  apply Forall_forall. intros id (arg & -> & Hin)%list_elem_of_fmap. apply forallb_forall with (x := arg) in Hall; [|by apply list_elem_of_In].
  destruct (nonempty (Some arg)) as [text|] eqn:E; [|done]. apply nonempty_Some in E as (_ & -> & Hne). done.
Qed.

Lemma parse_reads_back args json command arguments :
  parse_command args json = Some (Ok (PcDeferred command arguments)) -> arguments = args /\ reads_back command args.
Proof.
  intros E. assert (parse_deferred args json = Some (Ok (PcDeferred command arguments))) as Ed.
  { revert E. unfold parse_command. destruct (head args ≫= to_str); [|done].
    repeat match goal with |- (if ?b then _ else _) = _ -> _ => destruct b end; try done.
    - intros [= (parsed & _ & [=])%try_bind_ok].
    - intros [= (squad & _ & (mission & _ & [=])%try_bind_ok)%try_bind_ok].
    - intros [= (squad & _ & [=])%try_bind_ok]. }
  unfold parse_deferred in Ed. apply bind_Some in Ed as ([c|] & Ed & Ec); [|done].
  injection Ec as -> <-. split; [done|].
  unfold deferred_command in Ed. cbv zeta in Ed.
  repeat (apply arm_inv in Ed as [(Hm & Hg & ->)|Ed]; [try exact I; try injection Hg as Hg|]); [..|done].
  - apply andb_true_iff in Hg as [_ Hg]. simpl. destruct (nonempty _); [eauto|done].
  - by apply join_reads_back.
  - by apply send_reads_back.
  - by apply acknowledge_reads_back.
  - apply (inbox_readable (drop 1 args) [] AtFlag _ Hg).
    + by repeat constructor.
    + split; [simpl; lia|by right].
  - unfold valid_listen_grammar in Hg. apply is_arg_true in Hm. destruct args as [|first args]; [done|].
    injection Hm as ->. by apply (listen_wait_accepted false false).
  - by apply transcript_reads_back.
Qed.

(** C26: a command line that is accepted can be read back: where the commands index their arguments and unwrap
    what they parse, after the grammar has accepted them, nothing panics, whatever the arguments are, and what they
    read is within the bounds the help states: limits from 1 to 100, waits of at most 30 seconds, sequences that are
    not negative, at most a hundred ids, none empty, and exactly one body. *)
Theorem accepted_arguments_read_back args json command arguments :
  parse_command args json = Some (Ok (PcDeferred command arguments)) -> arguments = args /\ reads_back command args.
Proof. apply parse_reads_back. Qed.

(** ** Where parsing panics *)
Lemma arm_none matches guard command next : arm matches guard command next = None -> (matches = true /\ guard = None) \/ next = None.
Proof. unfold arm. destruct matches; [|by right]. destruct guard as [[]|]; simpl; [done|by right|by left]. Qed.
Lemma slice_from_none {A} n (args : list A) : slice_from n args = None -> (length args < n)%nat.
Proof. unfold slice_from. destruct (Nat.leb_spec n (length args)); [done|lia]. Qed.
Lemma deferred_panics args : deferred_command args = None -> head args <> None -> args = ["message send"].
Proof.
  unfold deferred_command. cbv zeta. intros E Hh.
  repeat (apply arm_none in E as [[Hm Hg]|E]; [try discriminate Hg|]); [..|done].
  - unfold valid_send_grammar in Hg. destruct (slice_from 2 args) eqn:Es; [done|]. apply slice_from_none in Es.
    destruct args as [|a [|b rest]]; simpl in Es; [done| |lia]. apply bool_decide_eq_true in Hm.
    unfold deferred_key in Hm. simpl in Hm. unfold to_str in Hm. destruct (utf8_valid _); [|done]. simpl in Hm. by subst.
  - unfold valid_transcript_grammar in Hg. destruct (slice_from 1 args) eqn:Es; [done|]. apply slice_from_none in Es.
    by destruct args; simpl in Es; [|lia].
Qed.

(** C40: parsing panics on exactly one command: a single argument, after the global options, that is the two words
    of [message send] in one.  Every other command line, of any bytes, is parsed or refused. *)
Theorem parsing_panics_only_on_message_send args json : parse_command args json = None <-> args = ["message send"].
Proof.
  split; [|by intros ->]. unfold parse_command. destruct (head args ≫= to_str) as [h|] eqn:Eh; [|done].
  repeat match goal with |- (if ?b then _ else _) = _ -> _ => destruct b end; try done.
  unfold parse_deferred. destruct (deferred_command args) as [c|] eqn:Ed; simpl; [done|]. intros _.
  apply deferred_panics; [done|]. by destruct args.
Qed.

(** ** The flag for machine output *)
(** Without [--json] among the arguments nothing asks for it. *)
Lemma json_is_requested json args : leading_json_requested json args = true -> json = true \/ "--json" ∈ args.
Proof.
  remember (length args) as n eqn:Hn. revert args json Hn. induction n as [n IH] using lt_wf_ind.
  intros [|arg rest] json Hn; simpl; [by left|]. destruct (is_arg "--json" (to_str arg)) eqn:Ej.
  { apply is_arg_true, to_str_Some in Ej as [-> _]. right. set_solver. }
  destruct (_ || _ || _); [|by left]. destruct rest as [|value rest]; [by left|].
  destruct (to_str value) as [text|]; [|by left]. destruct (starts_with "-" text); [by left|]. intros E.
  destruct (IH (length rest) ltac:(simpl in Hn; lia) rest json eq_refl E); [by left|right; set_solver].
Qed.
(** [global_options] keeps what was requested first. *)
Lemma global_options_json seen global args global' rest :
  global_options seen global args = Ok (global', rest) -> go_json global' = go_json global.
Proof.
  remember (length args) as n eqn:Hn. revert args seen global Hn. induction n as [n IH] using lt_wf_ind.
  intros [|arg args] seen global Hn; simpl; [by intros [= <- _]|]. simpl in Hn.
  assert (forall seen global'' args', (length args' <= length args)%nat -> go_json global'' = go_json global ->
    global_options seen global'' args' = Ok (global', rest) -> go_json global' = go_json global) as Hstep.
  { intros seen' g' args' Hl Hj E. rewrite <- Hj. by apply (IH (length args')) in E; [|lia|done]. }
  destruct (is_arg "--json" _); [destruct (bool_decide _); [done|]; by apply Hstep|].
  destruct (is_arg "--relay" _);
    [destruct (bool_decide _); [done|]; destruct args as [|value args]; [done|]; intros (v & _ & E)%try_bind_ok;
     revert E; apply Hstep; simpl; [lia|done]|].
  destruct (is_arg "--profile" _);
    [destruct (bool_decide _); [done|]; destruct args as [|value args]; [done|]; intros (v & _ & E)%try_bind_ok;
     revert E; apply Hstep; simpl; [lia|done]|].
  destruct (is_arg "--config" _);
    [destruct (bool_decide _); [done|]; destruct args as [|value args]; [done|]; intros (v & _ & E)%try_bind_ok;
     revert E; apply Hstep; simpl; [lia|done]|].
  by intros [= <- _].
Qed.
(** [--json] after a value that begins with a hyphen, or that is not UTF-8, is accepted and has no effect. *)
Lemma json_after_hyphen_is_ignored :
  cli_parse ["psst"; "--profile"; "-a"; "--json"; "health"]
  = Some (Ok (InCommand {| go_relay := None; go_profile := Some "-a"; go_config := None; go_json := false |} PcHealth)).
Proof. reflexivity. Qed.
Lemma json_after_bytes_is_ignored :
  let bytes := String "255" EmptyString in
  cli_parse ["psst"; "--config"; bytes; "--json"; "health"]
  = Some (Ok (InCommand {| go_relay := None; go_profile := None; go_config := Some bytes; go_json := false |} PcHealth)).
Proof. reflexivity. Qed.
End Grammar.

(** ** Examples *)
Definition demo_inbox : list string := ["inbox"; "--ack"; "msg_a"; "msg_b"; "--wait"; "+5"].
Lemma accepted_arguments_read_back_witness :
  parse_command id id demo_inbox false = Some (Ok (PcDeferred CcInbox demo_inbox)) /\ reads_back id CcInbox demo_inbox.
Proof.
  split; [vm_compute; reflexivity|].
  apply (accepted_arguments_read_back id id demo_inbox false CcInbox demo_inbox). vm_compute. reflexivity.
Defined.
