(* ===== verification/Cli.v ===== *)
(** * Cli: what the commands do (psst-cli/src/lib.rs, psst-application/src/cli.rs)

    A command is a program that asks the rest of the client side for operations (the
    configuration, profiles, the HTTP client, sessions: Config, Profile, Client, Startup,
    Leaving and Running model them) and ends with a value, a failure, a panic, or the end
    of the process.  Its result is then written to one of the two streams. *)
From stdpp Require Import gmap strings pretty.
From Stdlib Require Import Ascii.
From S2P Require Import Prelude Text Core Base64 Dto Validation Relay Sql Migrate Worker Serve Files Client Failure Profile Config Json AppServer Startup Running Status Tools Grammar.

#[local] Set Warnings "-register-all".

(** ** Envelopes (cli.rs) *)
Definition CLI_CONTRACT_VERSION : string := "psst.cli.v1".
Definition CLI_HELP : string := "Psst — durable direct messages for cooperative AI agents

Usage: psst [GLOBAL OPTIONS] <command>

Global options:
  --relay <origin>       Relay origin (CLI > PSST_RELAY > config > default)
  --profile <name>       Local profile (CLI > PSST_PROFILE > config > default)
  --config <path>        Non-secret configuration file
  --json                 Emit one versioned JSON value on the designated stream
  -h, --help             Print help
  -V, --version          Print version

Commands:
  relay start [--bind <address>] [--data-dir <path>] [--allow-lan] [--log <level>]
  health
  config show --effective
  profile list
  profile show [<name>]
  squad list
  squad create <squad> --mission <text>
  squad describe <squad>
  squad archive <squad>
  squad join <squad> --name <name> --role <role> [--mission <text>]
  squad leave
  squad roster
  message send --to <member> (--body <text> | --file <path|->) [--priority normal|high] [--reply-to <id>] [--correlation-id <id>]
  inbox [--limit <1..100>] [--wait <0..30>] [--ack <id>...]
  listen [--wait <1..30>] [--ack]
  message acknowledge <id>...
  transcript [--after <sequence>] [--limit <1..100>]
  status
  harness status
  database info
  database backup <destination>
  database integrity-check

In --json mode success writes exactly one JSON value plus a newline to stdout and writes nothing
to stderr. Failure writes exactly one JSON value plus a newline to stderr and writes nothing to
stdout. No surrounding prose is permitted. Sensitive authentication material never appears in
arguments, environment variables, output, help, diagnostics, configuration, or model-visible data.
".
Record CliSuccess (T : Type) : Type := { csu_version : string; csu_ok : bool; csu_command : CliCommand; csu_data : T }.
Arguments csu_data {T} c.
Record CliFailure : Set := { cfa_version : string; cfa_ok : bool; cfa_command : CliCommand; cfa_error : SafeError }.
Definition CliSuccess_new {T} (command : CliCommand) (data : T) : CliSuccess T :=
  {| csu_version := CLI_CONTRACT_VERSION; csu_ok := true; csu_command := command; csu_data := data |}.
Definition CliFailure_new (command : CliCommand) (error : SafeError) : CliFailure :=
  {| cfa_version := CLI_CONTRACT_VERSION; cfa_ok := false; cfa_command := command; cfa_error := error |}.
Definition CliFailure_exit_class (self : CliFailure) : ExitClass := se_exit_class (cfa_error self).
Record JsonEmission : Set := { je_stdout : string; je_stderr : string; je_exit_code : Z }.

(** ** Failures *)
Definition cli_local_io (error : IoError) : LocalErrorCode :=
  match io_kind error with
  | KindPermissionDenied => LcLocalPermission
  | KindWouldBlock | KindAddrInUse => LcProfileLocked
  | KindAlreadyExists => LcProfileAlreadyBound
  | KindNotFound => LcInvalidSession
  | _ => LcLocalRead
  end.
Definition input_io (error : IoError) : LocalErrorCode :=
  if bool_decide (io_kind error = KindPermissionDenied) then LcLocalPermission else LcLocalRead.
Definition cli_map_session_error (error : SessionError) : LocalErrorCode :=
  match error with
  | SeLocal error => cli_local_io error
  | SeRelay error => map_client_error error
  | SeShutdownTimedOut | SeRecoveryOutcomeUnknown => LcOutcomeUnknown
  | SeNotReady => LcInvalidSession
  | SeUnbound => LcProfileUnbound
  | SeSendCapacity | SeOperationCapacity => LcLocalLock
  end.
Definition map_io_error (error : IoError) : LocalErrorCode :=
  match io_kind error with
  | KindPermissionDenied => LcLocalPermission
  | KindTimedOut => LcRelayTimeout
  | KindAddrInUse | KindAddrNotAvailable => LcRelayUnavailable
  | _ => LcLocalWrite
  end.
(** The error of [psst_relay::serve], by what it downcasts to. *)
Inductive ServeFailure : Set :=
| SfShutdownTimedOut | SfConfig (e : Relay.ConfigError) | SfIo (e : IoError) | SfWorker (e : WorkerError) | SfStore (e : StoreError) | SfOther.
Definition map_relay_serve_error (error : ServeFailure) : LocalErrorCode :=
  match error with
  | SfShutdownTimedOut => LcOutcomeUnknown
  | SfConfig _ => LcInvalidConfiguration
  | SfIo error => map_io_error error
  | SfWorker error =>
      match error with
      | WkRateLimited => LcRateLimited
      | WkTimeout => LcRelayTimeout
      | WkUnavailable => LcRelayUnavailable
      | WkStore => LcLocalWrite
      end
  | SfStore error =>
      match error with
      | StFutureSchema _ _ | StMigrationChecksumMismatch _ | StInvalidMigrationLedger _ _ | StInvalidMigrationPlan _
      | StUnexpectedApplicationId _ => LcInvalidConfiguration
      | StDatabase _ => LcLocalWrite
      | StWorkerUnavailable => LcRelayUnavailable
      end
  | SfOther => LcInternal
  end.

(** ** Programs *)

(** A session, by the identity of its runtime. *)
Abbreviation Session := nat.
Record RelayStartup : Set := { su_bind : string; su_database : string; su_schema_version : Z; su_trusted_lan_warning : option string }.
(** How a task ends: with its result, or the join fails. *)
Inductive Joined : Set := JoinedWith (r : Result ServeFailure unit) | JoinFailed.
Inductive CliOp : Set :=
| CoDetectPaths
| CoResolve (paths : PlatformPaths) (flags : ConfigFlags)
| CoNewClient (origin : string)
| CoHealth | CoReady | CoListSquads
| CoCreateSquad (request : CreateSquadRequest)
| CoDescribeSquad (squad : string)
| CoCredentialExists (path : Path)
| CoHarnessStatus (path : Path)
| CoLoadProfile (path : Path)
| CoRecoverOrphanedLeave (paths : ProfilePaths) (origin profile : string)
| CoStart (spec : RuntimeSpec)
| CoJoinAndBind (spec : UnboundRuntimeSpec) (request : JoinSquadRequest)
| CoLeave (s : Session) | CoShutdown (s : Session) | CoAuthority (s : Session) | CoArchive (s : Session) | CoRoster (s : Session)
| CoSnapshot (s : Session)
| CoRandom
| CoSendPrepared (s : Session) (prepared : PreparedSend)
| CoInbox (s : Session) (limit wait : Z)
| CoPoll (s : Session) (limit wait : Z)
| CoAcknowledge (s : Session) (request : AckMessagesRequest)
| CoTranscript (s : Session) (after limit : Z)
| CoFileLength (path : string) | CoOpenFile (path : string)
| CoRead (path : string) (maximum : Z)
| CoInitTracing (format : LogFormat) (level : string)
| CoCreateDirs (path : string)
| CoServe (setup : RelaySetup)
| CoBeginServing (setup : RelaySetup) | CoEndServing | CoAbortServing.
(** What an operation returns: [CoAuthority] the name of the session's squad, [CoRandom] the bytes of a
    send's key, [CoPoll] nothing when the process is told to stop first, [CoRead] at most [maximum] bytes,
    [CoBeginServing] the report of the started relay or the end of its task. *)
Definition CliReturned (op : CliOp) : Set :=
  match op with
  | CoDetectPaths => Result ConfigError PlatformPaths
  | CoResolve _ _ => Result ConfigError ResolvedConfig
  | CoNewClient _ => Result ClientError unit
  | CoHealth => Result ClientError HealthResponse
  | CoReady => Result ClientError ReadyResponse
  | CoListSquads => Result ClientError (list SquadSummary)
  | CoCreateSquad _ | CoDescribeSquad _ => Result ClientError SquadSummary
  | CoCredentialExists _ => Result IoError bool
  | CoHarnessStatus _ => Result IoError (option HarnessStatusView)
  | CoLoadProfile _ => Result IoError (option ProfileBinding)
  | CoRecoverOrphanedLeave _ _ _ | CoShutdown _ => Result SessionError unit
  | CoStart _ => Result SessionError Session
  | CoJoinAndBind _ _ => Result SessionError (Session * SessionResponse)
  | CoLeave _ => Result SessionError LeaveSquadResponse
  | CoAuthority _ => Result SessionError string
  | CoArchive _ => Result SessionError ArchiveSquadResponse
  | CoRoster _ => Result SessionError RosterResponse
  | CoSnapshot _ => SessionSnapshot
  | CoRandom => option string
  | CoSendPrepared _ _ => Result SessionError SendMessageResponse
  | CoInbox _ _ _ => Result SessionError InboxResponse
  | CoPoll _ _ _ => option (Result SessionError InboxResponse)
  | CoAcknowledge _ _ => Result SessionError AckMessagesResponse
  | CoTranscript _ _ _ => Result SessionError TranscriptResponse
  | CoFileLength _ => Result IoError Z
  | CoOpenFile _ | CoCreateDirs _ => Result IoError unit
  | CoRead _ _ => Result IoError string
  | CoInitTracing _ _ => bool
  | CoServe _ => Result ServeFailure unit
  | CoBeginServing _ => RelayStartup + Joined
  | CoEndServing | CoAbortServing => Joined
  end.

(** [Exits]: [std::process::exit].  [Listening]: the command still polls. *)
Inductive CliProgram (A : Type) : Type :=
| Yields (a : A) | Asks (op : CliOp) (k : CliReturned op -> CliProgram A) | Panics | Exits (code : Z) | Listening.
Arguments Yields {A} a.
Arguments Asks {A} op k.
Arguments Panics {A}.
Arguments Exits {A} code.
Arguments Listening {A}.
Fixpoint command_bind {A B} (k : A -> CliProgram B) (p : CliProgram A) : CliProgram B :=
  match p with
  | Yields a => k a
  | Asks op k' => Asks op (fun r => command_bind k (k' r))
  | Panics => Panics
  | Exits code => Exits code
  | Listening => Listening
  end.
(** Commands that can fail, with [?]. *)
Definition Cli (A : Type) : Type := CliProgram (Result LocalErrorCode A).
#[global] Instance Cli_ret : MRet Cli := fun A a => Yields (Ok a).
#[global] Instance Cli_bind : MBind Cli := fun A B k m =>
  command_bind (fun r => match r with Ok a => k a | Err e => Yields (Err e) end) m.
Definition cli_give {A} (r : Result LocalErrorCode A) : Cli A := Yields r.
Definition ask_for (op : CliOp) : Cli (CliReturned op) := Asks op (fun r => Yields (Ok r)).
(** [unwrap], [expect] and indexing. *)
Definition unwrapped {A} (x : option A) : Cli A := match x with Some a => mret a | None => Panics end.
(** The result as a value, without [?]. *)
Definition caught {A} (m : Cli A) : Cli (Result LocalErrorCode A) := command_bind (fun r => Yields (Ok r)) m.
Definition relay_try {A} (r : Result ClientError A) : Cli A := cli_give (map_err map_client_error r).
Definition session_try {A} (r : Result SessionError A) : Cli A := cli_give (map_err cli_map_session_error r).
Definition config_try {A} (r : Result ConfigError A) : Cli A := cli_give (map_err (fun _ => LcInvalidConfiguration) r).

(** ** Results *)
Inductive CliData : Set :=
| CdHealth (health : HealthResponse) (ready : ReadyResponse)
| CdConfig (view : EffectiveConfigView)
| CdHarness (view : HarnessStatusView)
| CdSquads (squads : list SquadSummary)
| CdSquad (squad : SquadSummary)
| CdLeft (response : LeaveSquadResponse)
| CdArchived (response : ArchiveSquadResponse)
| CdRoster (response : RosterResponse)
| CdStatus (health : string) (generation : Z) (instance_id : string) (heartbeat_interval_seconds : Z) (lease_expires_at : ApiTimestamp)
| CdJoined (response : SessionResponse)
| CdSent (response : SendMessageResponse)
| CdInbox (response : InboxResponse)
| CdAcknowledged (response : AckMessagesResponse)
| CdTranscript (response : TranscriptResponse)
| CdShutdown
| CdStartup (startup : RelayStartup).

Definition session_health_name (health : SessionHealth) : string :=
  match health with
  | HealthReady => "ready"
  | HealthDegraded => "degraded"
  | HealthOutcomeUnknown => "outcome_unknown"
  | HealthRotationFailed => "rotation_failed"
  | HealthStopped => "stopped"
  end.
Definition cli_metadata : ClientMetadata :=
  {| cm_kind := "psst-cli"; cm_hostname := None; cm_version := Some CARGO_PKG_VERSION |}.

Section Commands.
Context `{UrlCrate} `{Crypto} `{!ToValue CliData}.
(** [to_string_lossy] on bytes that are not UTF-8. *)
Variable replaced : string -> string.

Definition json_value (data : CliData) : Cli Value := cli_give (ok_or (to_value data) LcInternal).
(** [json!], which unwraps. *)
Definition json_macro (data : CliData) : Cli Value := unwrapped (to_value data).

Definition relay_flags (options : GlobalOptions) (relay : option RelayStartArgs) : ConfigFlags :=
  {| f_relay_origin := go_relay options; f_profile := go_profile options; f_config_path := go_config options;
     f_relay_bind := relay ≫= ra_bind; f_data_dir := relay ≫= ra_data_dir;
     f_allow_lan := (match relay with Some relay => if ra_allow_lan relay then Some "true" else None | None => None end);
     f_log_level := relay ≫= ra_log_level; f_log_format := None; f_max_message_bytes := None;
     f_max_long_poll_seconds := None; f_heartbeat_seconds := None; f_lease_seconds := None |}.
Definition resolve_config (options : GlobalOptions) (relay : option RelayStartArgs) : Cli ResolvedConfig :=
  paths ← ask_for CoDetectPaths;
  paths ← config_try paths;
  resolved ← ask_for (CoResolve paths (relay_flags options relay));
  config_try resolved.
Definition cli_client (config : ResolvedConfig) : Cli unit :=
  client ← ask_for (CoNewClient (ev_value (rc_relay_origin config)));
  relay_try client.
Definition profile_paths (resolved : ResolvedConfig) : Cli ProfilePaths :=
  config_try (for_profile (rc_paths resolved) (ev_value (rc_relay_origin resolved)) (ev_value (rc_profile resolved))).

Definition credential_state (config : ResolvedConfig) : Cli CredentialState :=
  match for_profile (rc_paths config) (ev_value (rc_relay_origin config)) (ev_value (rc_profile config)) with
  | Err _ => mret CsUnavailable
  | Ok paths =>
      exists_ ← ask_for (CoCredentialExists (pp_credential paths));
      mret (match exists_ with Ok true => CsAvailable | Ok false => CsAbsent | Err _ => CsUnavailable end)
  end.
Definition execute_harness_status (resolved : ResolvedConfig) : Cli Value :=
  paths ← profile_paths resolved;
  path ← config_try (harness_status paths);
  record ← ask_for (CoHarnessStatus path);
  record ← cli_give (map_err input_io record);
  record ← cli_give (ok_or record LcInvalidSession);
  json_value (CdHarness record).

(** *** Sessions *)
Definition cli_load_profile (path : Path) : Cli (option ProfileBinding) :=
  binding ← ask_for (CoLoadProfile path);
  cli_give (map_err cli_local_io binding).
Definition session_spec (binding : ProfileBinding) (paths : ProfilePaths) : RuntimeSpec :=
  {| rs_profile := binding; rs_paths := paths; rs_mode := CooperativeDto; rs_client_metadata := cli_metadata;
     rs_shutdown_bound := Duration_from_secs 5 |}.
Definition open_session (resolved : ResolvedConfig) : Cli Session :=
  let origin := ev_value (rc_relay_origin resolved) in
  let profile := ev_value (rc_profile resolved) in
  paths ← profile_paths resolved;
  binding ← cli_load_profile (pp_metadata paths);
  binding ← (match binding with
             | Some binding => mret (Some binding)
             | None =>
                 recovered ← ask_for (CoRecoverOrphanedLeave paths origin profile);
                 _ ← session_try recovered;
                 cli_load_profile (pp_metadata paths)
             end);
  binding ← cli_give (ok_or binding LcProfileUnbound);
  _ ← cli_give (map_err (fun _ => LcProfileOriginMismatch) (verify_profile_origin binding origin));
  _ ← cli_client resolved;
  started ← ask_for (CoStart (session_spec binding paths));
  session_try started.

Definition cli_finish_leave (leave : Result SessionError LeaveSquadResponse) (s : Session) : Cli Value :=
  match leave with
  | Ok response => json_value (CdLeft response)
  | Err error => _ ← ask_for (CoShutdown s); session_try (Err error)
  end.

Definition join_options : list string := ["--name"; "--role"; "--mission"].
Definition execute_join (resolved : ResolvedConfig) (args : list string) : Cli Value :=
  rest ← unwrapped (slice_from 3 args);
  values ← cli_give (ok_or (parse_option_pairs rest join_options) LcInvalidInput);
  squad ← cli_give (ok_or (nonempty (args !! 2%nat)) LcInvalidInput);
  paths ← profile_paths resolved;
  _ ← cli_client resolved;
  name ← unwrapped (values !! "--name");
  role ← unwrapped (values !! "--role");
  joined ← ask_for (CoJoinAndBind
    {| us_relay_origin := ev_value (rc_relay_origin resolved); us_profile_name := ev_value (rc_profile resolved);
       us_squad := squad; us_paths := paths; us_shutdown_bound := Duration_from_secs 5 |}
    {| jsr_name := name; jsr_role := role; jsr_mode := CooperativeDto; jsr_client := cli_metadata; jsr_mission := values !! "--mission" |});
  '(s, response) ← session_try joined;
  response ← json_value (CdJoined response);
  shutdown ← ask_for (CoShutdown s);
  _ ← session_try shutdown;
  mret response.

(** [-] is the standard input. *)
Definition read_bounded_utf8 (path : string) (maximum : Z) : Cli string :=
  bytes ← ask_for (CoRead path (maximum + 1));
  bytes ← cli_give (map_err (fun _ => LcLocalRead) bytes);
  if maximum <? len bytes then cli_give (Err LcPayloadTooLarge)
  else if utf8_valid (as_bytes bytes) then mret bytes
  else cli_give (Err LcInvalidInput).
Definition send_body (maximum : Z) (values : gmap string string) : Cli string :=
  match values !! "--body" with
  | Some body => if maximum <? len body then cli_give (Err LcPayloadTooLarge) else mret body
  | None =>
      path ← unwrapped (values !! "--file");
      if bool_decide (path = "-") then read_bounded_utf8 path maximum
      else
        length ← ask_for (CoFileLength path);
        length ← cli_give (map_err input_io length);
        if maximum <? length then cli_give (Err LcPayloadTooLarge)
        else
          file ← ask_for (CoOpenFile path);
          _ ← cli_give (map_err input_io file);
          read_bounded_utf8 path maximum
  end.
Definition execute_send (resolved : ResolvedConfig) (s : Session) (args : list string) : Cli Value :=
  rest ← unwrapped (slice_from 2 args);
  values ← unwrapped (parse_option_pairs rest SEND_OPTIONS);
  body ← send_body (ev_value (rc_max_message_bytes resolved)) values;
  let priority := if bool_decide (values !! "--priority" = Some "high") then HighDto else NormalDto in
  recipient ← unwrapped (values !! "--to");
  random ← ask_for CoRandom;
  prepared ← relay_try (prepare_send random recipient body priority (values !! "--reply-to") (values !! "--correlation-id"));
  sent ← ask_for (CoSendPrepared s prepared);
  sent ← session_try sent;
  json_value (CdSent sent).

Definition cli_acknowledge (s : Session) (ids : list string) : Cli AckMessagesResponse :=
  acknowledged ← ask_for (CoAcknowledge s {| amr_message_ids := ids |});
  session_try acknowledged.
Definition execute_inbox (s : Session) (args : list string) : Cli Value :=
  arguments ← unwrapped (inbox_arguments replaced args);
  _ ← (if bool_decide (ia_ack arguments = []) then mret tt
       else _ ← cli_acknowledge s (ia_ack arguments); mret tt);
  response ← ask_for (CoInbox s (ia_limit arguments) (ia_wait arguments));
  response ← session_try response;
  json_value (CdInbox response).
Definition execute_ack (s : Session) (args : list string) : Cli Value :=
  ids ← unwrapped (acknowledged_ids replaced args);
  response ← cli_acknowledge s ids;
  json_value (CdAcknowledged response).
Definition execute_transcript (s : Session) (args : list string) : Cli Value :=
  '(after, limit) ← unwrapped (transcript_arguments args);
  response ← ask_for (CoTranscript s after limit);
  response ← session_try response;
  json_value (CdTranscript response).

Definition no_mail : InboxResponse :=
  {| ibr_messages := []; ibr_pending_count := 0; ibr_highest_priority := None; ibr_oldest_message_id := None |}.
(** The loop, for at most [polls] polls. *)
Fixpoint listen_loop (polls : nat) (s : Session) (wait : Z) : Cli InboxResponse :=
  match polls with
  | O => Listening
  | S polls =>
      response ← ask_for (CoPoll s 100 wait);
      match response with
      | None => mret no_mail
      | Some response =>
          response ← session_try response;
          if negb (bool_decide (map md_id (ibr_messages response) = [])) || (wait =? 0) then mret response
          else listen_loop polls s wait
      end
  end.
Definition execute_listen_until (polls : nat) (s : Session) (args : list string) : Cli Value :=
  wait ← unwrapped (listen_wait replaced args);
  response ← listen_loop polls s wait;
  _ ← (if bool_decide ("--ack" ∈ args) && negb (bool_decide (map md_id (ibr_messages response) = []))
       then _ ← cli_acknowledge s (map md_id (ibr_messages response)); mret tt
       else mret tt);
  json_value (CdInbox response).

(** The arms of [execute_protected] that use the session; [caught] where the source keeps the result. *)
Definition protected_arm (polls : nat) (resolved : ResolvedConfig) (command : CliCommand) (s : Session) (args : list string)
    : Cli (Result LocalErrorCode Value) :=
  match command with
  | CcSquadArchive =>
      authority ← ask_for (CoAuthority s);
      squad_name ← session_try authority;
      if bool_decide (nonempty (args !! 2%nat) = Some squad_name) then
        archived ← ask_for (CoArchive s);
        archived ← session_try archived;
        caught (json_value (CdArchived archived))
      else mret (Err LcAuthorityDenied)
  | CcSquadRoster =>
      roster ← ask_for (CoRoster s);
      roster ← session_try roster;
      caught (json_value (CdRoster roster))
  | CcStatus =>
      snapshot ← ask_for (CoSnapshot s);
      caught (json_macro (CdStatus (session_health_name (sn_health snapshot)) (sn_generation snapshot) (sn_instance_id snapshot)
        (sn_heartbeat_interval_seconds snapshot) (sn_lease_expires_at snapshot)))
  | CcMessageSend => caught (execute_send resolved s args)
  | CcInbox => caught (execute_inbox s args)
  | CcMessageAcknowledge => caught (execute_ack s args)
  | CcTranscript => caught (execute_transcript s args)
  | CcListen => caught (execute_listen_until polls s args)
  | _ => mret (Err LcUnsupported)
  end.
Definition execute_protected (polls : nat) (options : GlobalOptions) (command : CliCommand) (args : list string) : Cli Value :=
  resolved ← resolve_config options None;
  if bool_decide (command = CcSquadJoin) then execute_join resolved args
  else
    s ← open_session resolved;
    if bool_decide (command = CcSquadLeave) then
      leave ← ask_for (CoLeave s);
      cli_finish_leave leave s
    else
      result ← protected_arm polls resolved command s args;
      shutdown ← ask_for (CoShutdown s);
      match result, shutdown with
      | Err error, _ => cli_give (Err error)
      | Ok _, Err error => session_try (Err error)
      | Ok value, Ok _ => mret value
      end.

(** *** The relay *)
(** [EnvFilter::try_new(..).is_ok()]; the parse of a socket address, with whether it is a loopback address. *)
Variables (filter_ok : string -> bool) (parse_address : string -> option (string * bool)).

(** [Path::join] with a plain name. *)
Definition join_text (directory name : string) : string :=
  match last (as_bytes directory) with
  | None => name
  | Some b => if bool_decide (b = "/"%char) then directory +:+ name else directory +:+ "/" +:+ name
  end.
Definition relay_config (resolved : ResolvedConfig) : Result LocalErrorCode (string * RelaySetup) :=
  let data_dir := ev_value (rc_relay_data_dir resolved) in
  let config := RelayConfig_local (join_text data_dir "psst.db") in
  '(bind, loopback) ← ok_or (parse_address (ev_value (rc_relay_bind resolved))) LcInvalidConfiguration;
  format ← (if bool_decide (ev_value (rc_log_format resolved) = "text") then Ok LogText
            else if bool_decide (ev_value (rc_log_format resolved) = "json") then Ok LogJson
            else Err LcInvalidConfiguration);
  let config := set_logging (set_bind config bind loopback) (ev_value (rc_allow_lan resolved)) (ev_value (rc_log_level resolved)) format in
  _ ← map_err (fun _ => LcInvalidConfiguration) (RelayConfig_validate filter_ok (rs_limits config));
  Ok (data_dir, config).
Definition handle_relay_error (error : ServeFailure) (hard_exit_on_timeout : bool) : Cli unit :=
  match error with
  | SfShutdownTimedOut => if hard_exit_on_timeout then Exits 3 else cli_give (Err (map_relay_serve_error error))
  | _ => cli_give (Err (map_relay_serve_error error))
  end.
Definition run_relay_until (json hard_exit_on_timeout : bool) (resolved : ResolvedConfig) : Cli Value :=
  '(data_dir, config) ← cli_give (relay_config resolved);
  _ ← (if json then mret tt
       else ready ← ask_for (CoInitTracing (rs_log_format config) (Relay.rc_log_level (rs_limits config)));
            if ready : bool then mret tt else cli_give (Err LcInvalidConfiguration));
  created ← ask_for (CoCreateDirs data_dir);
  _ ← cli_give (map_err map_io_error created);
  served ← ask_for (CoServe config);
  _ ← (match served with Ok _ => mret tt | Err error => handle_relay_error error hard_exit_on_timeout end);
  json_macro CdShutdown.

(** ** [execute] *)
Definition cli_execute (polls : nat) (options : GlobalOptions) (command : ParsedCommand) : Cli Value :=
  match command with
  | PcRelayStart arguments =>
      resolved ← resolve_config options (Some arguments);
      run_relay_until (go_json options) true resolved
  | PcHealth =>
      resolved ← resolve_config options None;
      _ ← cli_client resolved;
      health ← ask_for CoHealth;
      health ← relay_try health;
      ready ← ask_for CoReady;
      ready ← relay_try ready;
      json_macro (CdHealth health ready)
  | PcConfigShowEffective =>
      resolved ← resolve_config options None;
      state ← credential_state resolved;
      json_value (CdConfig (ResolvedConfig_view resolved state))
  | PcHarnessStatus =>
      resolved ← resolve_config options None;
      execute_harness_status resolved
  | PcSquadList =>
      resolved ← resolve_config options None;
      _ ← cli_client resolved;
      squads ← ask_for CoListSquads;
      squads ← relay_try squads;
      json_value (CdSquads squads)
  | PcSquadCreate squad mission =>
      resolved ← resolve_config options None;
      _ ← cli_client resolved;
      created ← ask_for (CoCreateSquad {| csr_name := squad; csr_mission := mission |});
      created ← relay_try created;
      json_value (CdSquad created)
  | PcSquadDescribe squad =>
      resolved ← resolve_config options None;
      _ ← cli_client resolved;
      described ← ask_for (CoDescribeSquad squad);
      described ← relay_try described;
      json_value (CdSquad described)
  | PcDeferred command arguments => execute_protected polls options command arguments
  end.

(** ** Output *)
(** The two streams: what was written to them, and whether writing succeeds. *)
Record Streams : Set := { st_stdout : string; st_stderr : string; st_stdout_ok : bool; st_stderr_ok : bool }.
Inductive Stream : Set := Stdout | Stderr.
Definition write_bytes (stream : Stream) (bytes : string) (code : Z) (st : Streams) : Z * Streams :=
  match stream with
  | Stdout =>
      if st_stdout_ok st
      then (code, {| st_stdout := st_stdout st +:+ bytes; st_stderr := st_stderr st; st_stdout_ok := true; st_stderr_ok := st_stderr_ok st |})
      else (70, st)
  | Stderr =>
      if st_stderr_ok st
      then (code, {| st_stdout := st_stdout st; st_stderr := st_stderr st +:+ bytes; st_stdout_ok := st_stdout_ok st; st_stderr_ok := true |})
      else (70, st)
  end.

(** [serde_json::to_string] of the envelopes, and [to_string_pretty]. *)
Variables (success_text : CliSuccess Value -> option string) (failure_text : CliFailure -> option string) (pretty_text : Value -> option string).
Definition newline : string := String "010" EmptyString.
Definition emit_json_success (value : CliSuccess Value) : option JsonEmission :=
  text ← success_text value;
  Some {| je_stdout := text +:+ newline; je_stderr := ""; je_exit_code := 0 |}.
Definition emit_json_failure (value : CliFailure) : option JsonEmission :=
  text ← failure_text value;
  Some {| je_stdout := ""; je_stderr := text +:+ newline; je_exit_code := ExitClass_code (CliFailure_exit_class value) |}.

(** [value[key]], and [as_str().unwrap_or(..)]. *)
Definition member (key : string) (v : Value) : Value := default VNull (get key v).
Definition text_or (fallback : string) (v : Value) : string := default fallback (as_str v).
Definition tab : string := String "009" EmptyString.
Definition pretty_or_failed (value : Value) : string :=
  match pretty_text value with Some text => text +:+ newline | None => "psst: output encoding failed" +:+ newline end.
Definition rendered (command : CliCommand) (value : Value) : string :=
  match command with
  | CcHealth =>
      "relay: " +:+ text_or "unknown" (member "status" (member "health" value)) +:+ newline
      +:+ "database: " +:+ text_or "unknown" (member "status" (member "ready" value))
      +:+ " (schema " +:+ pretty (default 0 (as_u64 (member "schema_version" (member "ready" value)))) +:+ ")" +:+ newline
  | CcSquadList =>
      String.concat "" (map (fun squad => text_or "?" (member "name" squad) +:+ tab +:+ text_or "?" (member "state" squad)
        +:+ tab +:+ text_or "" (member "mission" squad) +:+ newline) (default [] (as_array value)))
  | CcSquadCreate | CcSquadDescribe =>
      text_or "?" (member "name" value) +:+ " [" +:+ text_or "?" (member "state" value) +:+ "]" +:+ newline
      +:+ "mission: " +:+ text_or "" (member "mission" value) +:+ newline
  | _ => pretty_or_failed value
  end.
Definition write_human (command : CliCommand) (value : Value) : Streams -> Z * Streams := write_bytes Stdout (rendered command value) 0.

Definition encoding_failed : Streams -> Z * Streams := write_bytes Stderr ("psst: output encoding failed" +:+ newline) 70.
Definition emit_success (json : bool) (command : CliCommand) (data : Value) : Streams -> Z * Streams :=
  if json then
    match emit_json_success (CliSuccess_new command data) with
    | Some emission => write_bytes Stdout (je_stdout emission) (je_exit_code emission)
    | None => encoding_failed
    end
  else write_human command data.
Definition emit_failure (json : bool) (command : CliCommand) (code : LocalErrorCode) : Streams -> Z * Streams :=
  let failure := CliFailure_new command (SafeError_from code) in
  if json then
    match emit_json_failure failure with
    | Some emission => write_bytes Stderr (je_stderr emission) (je_exit_code emission)
    | None => encoding_failed
    end
  else write_bytes Stderr ("psst: " +:+ safe_message code +:+ newline) (ExitClass_code (CliFailure_exit_class failure)).

Definition ask_plain (op : CliOp) : CliProgram (CliReturned op) := Asks op Yields.
(** [?] with what is written instead. *)
Definition or_else {A B} (m : Cli A) (failed : LocalErrorCode -> CliProgram B) (k : A -> CliProgram B) : CliProgram B :=
  command_bind (fun r => match r with Ok a => k a | Err e => failed e end) m.
Definition run_relay_json_until (options : GlobalOptions) (arguments : RelayStartArgs) (st : Streams) : CliProgram (Z * Streams) :=
  let failed (error : LocalErrorCode) := Yields (emit_failure true CcRelayStart error st) in
  or_else (resolve_config options (Some arguments)) failed (fun resolved =>
  or_else (cli_give (relay_config resolved)) failed (fun '(data_dir, config) =>
  or_else (created ← ask_for (CoCreateDirs data_dir); cli_give (map_err map_io_error created)) failed (fun _ =>
  command_bind (fun serving =>
    match serving with
    | inr (JoinedWith (Err error)) => failed (map_relay_serve_error error)
    | inr _ => failed LcInternal
    | inl startup =>
        or_else (json_macro (CdStartup startup)) failed (fun data =>
        let '(emitted, st) := emit_success true CcRelayStart data st in
        if negb (emitted =? 0) then command_bind (fun _ => Yields (emitted, st)) (ask_plain CoAbortServing)
        else command_bind (fun ended =>
          match ended with
          | JoinedWith (Ok _) => Yields (0, st)
          | JoinedWith (Err SfShutdownTimedOut) => Exits 3
          | JoinedWith (Err error) =>
              Yields (write_bytes Stderr ("psst: relay failed after startup" +:+ newline) (ExitClass_code (exit_class (map_relay_serve_error error))) st)
          | JoinFailed => Yields (write_bytes Stderr ("psst: relay failed after startup" +:+ newline) 70 st)
          end) (ask_plain CoEndServing))
    end) (ask_plain (CoBeginServing config))))).

(** ** [run_with_io] *)
Variable display_address : string -> string.
Definition run_with_io (polls : nat) (arguments : list string) (st : Streams) : CliProgram (Z * Streams) :=
  match cli_parse replaced display_address arguments with
  | None => Panics
  | Some (Ok InHelp) => Yields (write_bytes Stdout CLI_HELP 0 st)
  | Some (Ok InVersion) => Yields (write_bytes Stdout ("psst " +:+ CARGO_PKG_VERSION +:+ newline) 0 st)
  | Some (Ok (InCommand options command)) =>
      match command with
      | PcRelayStart arguments =>
          if go_json options then run_relay_json_until options arguments st
          else or_else (cli_execute polls options command) (fun e => Yields (emit_failure false (contract command) e st))
                 (fun value => Yields (emit_success false (contract command) value st))
      | _ => or_else (cli_execute polls options command) (fun e => Yields (emit_failure (go_json options) (contract command) e st))
               (fun value => Yields (emit_success (go_json options) (contract command) value st))
      end
  | Some (Err error) =>
      Yields (if pe_json error then emit_failure true (default CcInvocation (pe_command error)) LcInvalidInput st
              else write_bytes Stderr ("psst: invalid command line" +:+ newline) 2 st)
  end.
End Commands.
