(* ===== verification/Terminal.v ===== *)
(** * Terminal: what the commands may ask for, and what they leave on the streams

    Every program of Cli.v is followed through all answers the rest of the client side can
    give: no panic, one session that is shut down before success is reported,
    acknowledgements and sends only as the command line asks, and output on one stream. *)
From stdpp Require Import gmap strings pretty.
From S2P Require Import Prelude Text Core Base64 Dto Validation Relay Sql Migrate Worker Serve Files Client Failure Profile Config Json AppServer Startup Running Status Tools Grammar Cli.

(** ** What has happened so far *)
Record Seen : Set := {
  sn_session : option Session; sn_ended : bool; sn_acked : nat; sn_sent : nat; sn_mail : list string; sn_squad : option string }.
Definition nothing_yet : Seen :=
  {| sn_session := None; sn_ended := false; sn_acked := 0; sn_sent := 0; sn_mail := []; sn_squad := None |}.
Definition with_session (x : Seen) (s : Session) : Seen :=
  {| sn_session := Some s; sn_ended := false; sn_acked := sn_acked x; sn_sent := sn_sent x; sn_mail := sn_mail x; sn_squad := sn_squad x |}.
Definition with_end (x : Seen) : Seen :=
  {| sn_session := sn_session x; sn_ended := true; sn_acked := sn_acked x; sn_sent := sn_sent x; sn_mail := sn_mail x; sn_squad := sn_squad x |}.
(** The session a program opened, and whether it was shut down or left; how often it acknowledged and
    sent; the ids of the mail of its last poll; the squad its session said it belongs to. *)
Definition observe (x : Seen) (op : CliOp) : CliReturned op -> Seen :=
  match op return CliReturned op -> Seen with
  | CoStart _ => fun r => match r with Ok s => with_session x s | Err _ => x end
  | CoJoinAndBind _ _ => fun r => match r with Ok (s, _) => with_session x s | Err _ => x end
  | CoShutdown _ => fun r => match r with Ok _ => with_end x | Err _ => x end
  | CoLeave _ => fun r => match r with Ok _ => with_end x | Err _ => x end
  | CoAcknowledge _ _ => fun _ =>
      {| sn_session := sn_session x; sn_ended := sn_ended x; sn_acked := S (sn_acked x); sn_sent := sn_sent x; sn_mail := sn_mail x; sn_squad := sn_squad x |}
  | CoSendPrepared _ _ => fun _ =>
      {| sn_session := sn_session x; sn_ended := sn_ended x; sn_acked := sn_acked x; sn_sent := S (sn_sent x); sn_mail := sn_mail x; sn_squad := sn_squad x |}
  | CoPoll _ _ _ => fun r =>
      {| sn_session := sn_session x; sn_ended := sn_ended x; sn_acked := sn_acked x; sn_sent := sn_sent x;
         sn_mail := match r with Some (Ok response) => map md_id (ibr_messages response) | _ => [] end; sn_squad := sn_squad x |}
  | CoAuthority _ => fun r =>
      {| sn_session := sn_session x; sn_ended := sn_ended x; sn_acked := sn_acked x; sn_sent := sn_sent x; sn_mail := sn_mail x;
         sn_squad := match r with Ok squad => Some squad | Err _ => sn_squad x end |}
  | _ => fun _ => x
  end.

(** [p] asks only for what [P] permits and yields only what [Q] says, whatever it is answered; it does not
    panic, and ends the process only with a failure. *)
Fixpoint follows {A} (P : Seen -> CliOp -> Prop) (Q : Seen -> A -> Prop) (x : Seen) (p : CliProgram A) : Prop :=
  match p with
  | Yields a => Q x a
  | Asks op k => P x op /\ forall r, follows P Q (observe x op r) (k r)
  | Panics => False
  | Exits code => code <> 0
  | Listening => True
  end.

Section Follows.
Context (P : Seen -> CliOp -> Prop).
Lemma follows_mono {A} (Q Q' : Seen -> A -> Prop) x p : (forall x a, Q x a -> Q' x a) -> follows P Q x p -> follows P Q' x p.
Proof.
  intros HQ. revert x. induction p as [a|op k IH| |code|]; intros x; simpl; auto. intros [Hp Hk]. split; [done|]. intros r. auto.
Qed.
Lemma follows_bind {A B} (Q : Seen -> B -> Prop) (k : A -> CliProgram B) x p :
  follows P (fun x a => follows P Q x (k a)) x p -> follows P Q x (command_bind k p).
Proof.
  revert x. induction p as [a|op k' IH| |code|]; intros x; simpl; auto. intros [Hp Hk]. split; [done|]. intros r. auto.
Qed.
(** [?]: what a failure yields must be allowed, a success goes on. *)
Definition then_ {A B} (Q : Seen -> Result LocalErrorCode B -> Prop) (k : Seen -> A -> Prop) (x : Seen) (r : Result LocalErrorCode A) : Prop :=
  match r with Ok a => k x a | Err e => Q x (Err e) end.
Lemma follows_try {A B} (Q : Seen -> Result LocalErrorCode B -> Prop) (k : A -> Cli B) x (m : Cli A) :
  follows P (then_ Q (fun x a => follows P Q x (k a))) x m -> follows P Q x (m ≫= k).
Proof. intros Hm. apply follows_bind. eapply follows_mono; [|exact Hm]. by intros x' [a|e]. Qed.
Lemma follows_ask {B} (Q : Seen -> Result LocalErrorCode B -> Prop) op (k : CliReturned op -> Cli B) x :
  P x op -> (forall r, follows P Q (observe x op r) (k r)) -> follows P Q x (ask_for op ≫= k).
Proof. intros Hp Hk. by split. Qed.
Lemma follows_give {A B} (Q : Seen -> Result LocalErrorCode B -> Prop) (r : Result LocalErrorCode A) (k : A -> Cli B) x :
  (forall a, r = Ok a -> follows P Q x (k a)) -> (forall e, r = Err e -> Q x (Err e)) -> follows P Q x (cli_give r ≫= k).
Proof. intros Ho He. destruct r as [a|e]; [exact (Ho a eq_refl)|exact (He e eq_refl)]. Qed.
Lemma follows_caught {A} (Q : Seen -> Result LocalErrorCode (Result LocalErrorCode A) -> Prop) x (m : Cli A) :
  follows P (fun x r => Q x (Ok r)) x m -> follows P Q x (caught m).
Proof. intros Hm. apply follows_bind. eapply follows_mono; [|exact Hm]. done. Qed.
Lemma follows_or_else {A B} (Q : Seen -> B -> Prop) (m : Cli A) failed k x :
  follows P (fun x r => match r with Ok a => follows P Q x (k a) | Err e => follows P Q x (failed e) end) x m ->
  follows P Q x (or_else m failed k).
Proof. intros Hm. apply follows_bind. eapply follows_mono; [|exact Hm]. by intros x' [a|e]. Qed.
Lemma follows_weaken {A} (P' : Seen -> CliOp -> Prop) (Q : Seen -> A -> Prop) x p :
  (forall x op, P x op -> P' x op) -> follows P Q x p -> follows P' Q x p.
Proof.
  intros HP. revert x. induction p as [a|op k IH| |code|]; intros x; simpl; auto. intros [Hp Hk]. split; [auto|]. intros r. auto.
Qed.

Context `{!ToValue CliData}.
Lemma resolve_follows {B} (Q : Seen -> Result LocalErrorCode B -> Prop) options relay (k : ResolvedConfig -> Cli B) x :
  P x CoDetectPaths -> (forall paths flags, P x (CoResolve paths flags)) -> (forall e, Q x (Err e)) ->
  (forall resolved, follows P Q x (k resolved)) -> follows P Q x (resolve_config options relay ≫= k).
Proof.
  intros Hdetect Hres He Hk. apply follows_try. unfold resolve_config. apply follows_ask; [done|]. intros paths.
  apply follows_give; [|intros e _; apply He]. intros paths' _. apply follows_ask; [done|]. intros [resolved|e]; simpl; auto.
Qed.
Lemma client_follows {B} (Q : Seen -> Result LocalErrorCode B -> Prop) config (k : unit -> Cli B) x :
  (forall origin, P x (CoNewClient origin)) -> (forall e, Q x (Err e)) -> (forall u, follows P Q x (k u)) ->
  follows P Q x (cli_client config ≫= k).
Proof. intros Hnew He Hk. apply follows_try. unfold cli_client. apply follows_ask; [done|]. intros [u|e]; simpl; auto. Qed.
Lemma macro_yields (Q : Seen -> Result LocalErrorCode Value -> Prop) data x :
  to_value data <> None -> (forall v, Q x (Ok v)) -> follows P Q x (json_macro data).
Proof. intros Hp HQ. unfold json_macro. destruct (to_value data); [apply HQ|done]. Qed.
End Follows.

(** ** Commands that open a session *)
Section Protected.
Context `{UrlCrate} `{Crypto} `{!ToValue CliData}.
Context (replaced : string -> string).

(** The values that [json!] is given are strings, numbers and structures of them. *)
Class PlainJson : Prop := {
  plain_health : forall health ready, to_value (CdHealth health ready) <> None;
  plain_status : forall health generation instance seconds expires, to_value (CdStatus health generation instance seconds expires) <> None;
  plain_shutdown : to_value CdShutdown <> None;
  plain_startup : forall startup, to_value (CdStartup startup) <> None }.

(** Which ids a command may acknowledge: those it lists, or those of the mail it has just received. *)
Definition ack_asked (command : CliCommand) (args mail ids : list string) : Prop :=
  match command with
  | CcMessageAcknowledge => acknowledged_ids replaced args = Some ids
  | CcInbox => exists a, inbox_arguments replaced args = Some a /\ ia_ack a = ids
  | CcListen => "--ack" ∈ args /\ mail = ids
  | _ => False
  end.
Definition in_session (x : Seen) (s : Session) : Prop := sn_session x = Some s /\ sn_ended x = false.
Definition permitted (command : CliCommand) (args : list string) (x : Seen) (op : CliOp) : Prop :=
  match op with
  | CoStart _ => sn_session x = None
  | CoJoinAndBind _ _ => sn_session x = None /\ command = CcSquadJoin
  | CoLeave s => in_session x s /\ command = CcSquadLeave
  | CoShutdown s | CoAuthority s | CoRoster s | CoSnapshot s => in_session x s
  | CoArchive s => in_session x s /\ command = CcSquadArchive /\ sn_squad x <> None /\ sn_squad x = nonempty (args !! 2%nat)
  | CoSendPrepared s _ => in_session x s /\ command = CcMessageSend /\ sn_sent x = 0%nat
  | CoAcknowledge s request => in_session x s /\ sn_acked x = 0%nat /\ ack_asked command args (sn_mail x) (amr_message_ids request)
  | CoInbox s limit wait => in_session x s /\ 1 <= limit <= 100 /\ 0 <= wait <= 30
  | CoPoll s limit wait => in_session x s /\ limit = 100 /\ 1 <= wait <= 30
  | CoTranscript s after limit => in_session x s /\ 0 <= after /\ 1 <= limit <= 100
  | CoCreateSquad _ | CoServe _ | CoBeginServing _ | CoEndServing | CoAbortServing => False
  | _ => True
  end.
(** A command that reports success has ended its session, and done what it is for. *)
Definition kept (command : CliCommand) {A} (x : Seen) (r : Result LocalErrorCode A) : Prop :=
  match r with
  | Err _ => True
  | Ok _ => sn_ended x = true /\ (command = CcMessageSend -> sn_sent x = 1%nat) /\ (command = CcMessageAcknowledge -> sn_acked x = 1%nat)
  end.

Context (command : CliCommand) (args : list string).
#[local] Abbreviation obeys := (follows (permitted command args)).
Ltac ask := apply follows_ask; [try exact I|let r := fresh "r" in intros r].
Ltac give := apply follows_give; [|intros ? ?; try exact I].

Lemma json_obeys (Q : Seen -> Result LocalErrorCode Value -> Prop) data x :
  (forall r, Q x r) -> obeys Q x (json_value data).
Proof. intros HQ. unfold json_value. simpl. apply HQ. Qed.
Lemma load_profile_obeys {B} (Q : Seen -> Result LocalErrorCode B -> Prop) path (k : option ProfileBinding -> Cli B) x :
  (forall e, Q x (Err e)) -> (forall b, obeys Q x (k b)) -> obeys Q x (cli_load_profile path ≫= k).
Proof. intros He Hk. apply follows_try. unfold cli_load_profile. ask. destruct r as [b|e]; simpl; auto. Qed.

Lemma open_session_obeys {B} (Q : Seen -> Result LocalErrorCode B -> Prop) resolved (k : Session -> Cli B) x :
  sn_session x = None -> (forall e, Q x (Err e)) -> (forall s, obeys Q (with_session x s) (k s)) ->
  obeys Q x (open_session resolved ≫= k).
Proof.
  intros Hx He Hk. apply follows_try. unfold open_session. cbv zeta. unfold profile_paths, config_try.
  apply follows_give; [|intros e _; apply He]. intros paths _.
  apply load_profile_obeys; [apply He|]. intros binding. apply follows_try.
  assert (forall binding', obeys (then_ Q (fun x s => obeys Q x (k s))) x
    (binding ← cli_give (ok_or binding' LcProfileUnbound);
     _ ← cli_give (map_err (fun _ => LcProfileOriginMismatch) (verify_profile_origin binding (ev_value (rc_relay_origin resolved))));
     _ ← cli_client resolved;
     started ← ask_for (CoStart (session_spec binding paths));
     session_try started)) as Hrest.
  { intros binding'. apply follows_give; [|intros e _; apply He]. intros b _. apply follows_give; [|intros e _; apply He]. intros _ _.
    apply client_follows; [done|apply He|]. intros _. apply follows_ask; [exact Hx|]. intros [s|e]; simpl; [apply Hk|apply He]. }
  destruct binding as [binding|]; [exact (Hrest (Some binding))|].
  ask. apply follows_give; [|intros e _; apply He]. intros _ _.
  unfold cli_load_profile. ask. destruct r0 as [b|e]; simpl; [apply Hrest|apply He].
Qed.

(** A session in use, before and after an arm. *)
Definition opened (s : Session) (x : Seen) : Prop := in_session x s /\ sn_acked x = 0%nat /\ sn_sent x = 0%nat.
Definition used (s : Session) {A} (x : Seen) (r : Result LocalErrorCode A) : Prop :=
  in_session x s /\
  match r with
  | Err _ => True
  | Ok _ => (command = CcMessageSend -> sn_sent x = 1%nat) /\ (command = CcMessageAcknowledge -> sn_acked x = 1%nat)
  end.

Lemma unwrapped_obeys {A B} (Q : Seen -> Result LocalErrorCode B -> Prop) (o : option A) (k : A -> Cli B) x a :
  o = Some a -> obeys Q x (k a) -> obeys Q x (unwrapped o ≫= k).
Proof. by intros ->. Qed.
Lemma read_obeys {B} (Q : Seen -> Result LocalErrorCode B -> Prop) path maximum (k : string -> Cli B) x :
  (forall e, Q x (Err e)) -> (forall body, obeys Q x (k body)) -> obeys Q x (read_bounded_utf8 path maximum ≫= k).
Proof.
  intros He Hk. apply follows_try. unfold read_bounded_utf8. ask. apply follows_give; [|intros e _; apply He].
  intros bytes _. destruct (maximum <? len bytes); [apply He|]. destruct (utf8_valid _); [apply Hk|apply He].
Qed.
Lemma body_obeys {B} (Q : Seen -> Result LocalErrorCode B -> Prop) maximum values (k : string -> Cli B) x :
  xorb (has "--body" values) (has "--file" values) = true -> (forall e, Q x (Err e)) -> (forall body, obeys Q x (k body)) ->
  obeys Q x (send_body maximum values ≫= k).
Proof.
  intros Hx He Hk. apply follows_try. unfold send_body. unfold has in Hx.
  destruct (values !! "--body") as [body|]; [destruct (maximum <? len body); [apply He|apply Hk]|].
  destruct (values !! "--file") as [path|]; [|done]. apply (unwrapped_obeys _ _ _ _ path); [done|].
  assert (obeys (then_ Q (fun x a => obeys Q x (k a))) x (read_bounded_utf8 path maximum)) as Hread.
  { pose proof (read_obeys (then_ Q (fun x a => obeys Q x (k a))) path maximum mret x) as Hr.
    unfold read_bounded_utf8. ask. apply follows_give; [|intros e _; apply He].
    intros bytes _. destruct (maximum <? len bytes); [apply He|]. destruct (utf8_valid _); [apply Hk|apply He]. }
  destruct (bool_decide (path = "-")); [exact Hread|]. ask. apply follows_give; [|intros e _; apply He].
  intros length _. destruct (maximum <? length); [apply He|]. ask. apply follows_give; [|intros e _; apply He]. by intros _ _.
Qed.

Ltac spent := intros [?|?]; (split; [done|]); [split; intros; congruence|done].

Lemma send_obeys resolved s x :
  command = CcMessageSend -> reads_back replaced CcMessageSend args -> opened s x -> obeys (used s) x (execute_send resolved s args).
Proof.
  intros Hc (rest & values & Es & Ep & Ht & Hx) ([Hs Hend] & Ha & Hn). unfold execute_send.
  apply (unwrapped_obeys _ _ _ _ rest); [done|]. apply (unwrapped_obeys _ _ _ _ values); [done|].
  apply body_obeys; [done|done|]. intros body. apply has_Some in Ht as [to Eto]. apply (unwrapped_obeys _ _ _ _ to); [done|].
  ask. apply follows_give; [|done]. intros prepared _. apply follows_ask; [done|]. intros sent. apply follows_give; [|done].
  intros response _. apply json_obeys. intros [v|e]; split; try done. split; [intros _; simpl; by rewrite Hn|congruence].
Qed.
Lemma acknowledge_obeys {B} (Q : Seen -> Result LocalErrorCode B -> Prop) s ids (k : AckMessagesResponse -> Cli B) x :
  in_session x s -> sn_acked x = 0%nat -> ack_asked command args (sn_mail x) ids ->
  (forall x' e, in_session x' s -> Q x' (Err e)) ->
  (forall x' response, in_session x' s -> sn_acked x' = 1%nat -> obeys Q x' (k response)) ->
  obeys Q x (cli_acknowledge s ids ≫= k).
Proof.
  intros Hs Ha Hask He Hk. apply follows_try. unfold cli_acknowledge. apply follows_ask; [done|].
  intros [response|e]; simpl; [apply Hk; [done|simpl; by rewrite Ha]|by apply He].
Qed.
Lemma inbox_obeys s x :
  command = CcInbox -> reads_back replaced CcInbox args -> opened s x -> obeys (used s) x (execute_inbox replaced s args).
Proof.
  intros Hc (a & Ea & (Hlim & Hwait & _) & _) (Hs & Ha & Hn). unfold execute_inbox. apply (unwrapped_obeys _ _ _ _ a); [done|].
  assert (forall x', in_session x' s -> obeys (used s) x' (response ← ask_for (CoInbox s (ia_limit a) (ia_wait a));
    response ← session_try response; json_value (CdInbox response))) as Hrest.
  { intros x' Hs'. apply follows_ask; [done|]. intros r. apply follows_give; [|done]. intros response _. apply json_obeys.
    spent. }
  apply follows_try. destruct (bool_decide (ia_ack a = [])); [by apply Hrest|].
  apply acknowledge_obeys; [done|done|rewrite Hc; by exists a|by intros|]. intros x' _ Hs' _. by apply Hrest.
Qed.
Lemma ack_obeys s x :
  command = CcMessageAcknowledge -> reads_back replaced CcMessageAcknowledge args -> opened s x ->
  obeys (used s) x (execute_ack replaced s args).
Proof.
  intros Hc (ids & Ei & _) (Hs & Ha & Hn). unfold execute_ack. apply (unwrapped_obeys _ _ _ _ ids); [done|].
  apply acknowledge_obeys; [done|done|rewrite Hc; exact Ei|by intros|]. intros x' response Hs' Ha'. apply json_obeys. spent.
Qed.
Lemma transcript_obeys s x :
  command = CcTranscript -> reads_back replaced CcTranscript args -> opened s x -> obeys (used s) x (execute_transcript s args).
Proof.
  intros Hc (after & limit & E & Hafter & Hlimit) (Hs & Ha & Hn). unfold execute_transcript.
  apply (unwrapped_obeys _ _ _ _ (after, limit)); [done|]. apply follows_ask; [simpl; split; [done|lia]|]. intros r.
  apply follows_give; [|done]. intros response _. apply json_obeys. spent.
Qed.

(** A poll leaves the session as it is and remembers the mail. *)
Lemma listen_loop_obeys polls s wait (Q : Seen -> Result LocalErrorCode InboxResponse -> Prop) x :
  opened s x -> 1 <= wait <= 30 ->
  (forall x' e, opened s x' -> Q x' (Err e)) ->
  (forall x' response, opened s x' -> sn_mail x' = map md_id (ibr_messages response) -> Q x' (Ok response)) ->
  obeys Q x (listen_loop polls s wait).
Proof.
  intros Ho Hw He Hk. revert x Ho. induction polls as [|polls IH]; intros x Ho; cbn [listen_loop]; [exact I|].
  assert (forall mail, opened s {| sn_session := sn_session x; sn_ended := sn_ended x; sn_acked := sn_acked x; sn_sent := sn_sent x;
    sn_mail := mail; sn_squad := sn_squad x |}) as Ho' by (intros; apply Ho).
  apply follows_ask; [split; [apply Ho|lia]|]. intros [response|]; [|by apply Hk].
  destruct response as [response|e]; [|by apply He]. apply follows_give; [|done]. intros ? [= <-].
  destruct (_ || _); [by apply Hk|by apply IH].
Qed.
Lemma listen_obeys polls s x :
  command = CcListen -> reads_back replaced CcListen args -> opened s x -> obeys (used s) x (execute_listen_until replaced polls s args).
Proof.
  intros Hc (wait & Ew & Hw) Ho. unfold execute_listen_until. apply (unwrapped_obeys _ _ _ _ wait); [done|].
  apply follows_try. apply listen_loop_obeys; [done|done|by intros x' e (Hs & _)|]. intros x' response (Hs & Ha & Hn) Hm. simpl.
  apply follows_try. destruct (bool_decide ("--ack" ∈ args)) eqn:Eack; simpl;
    [destruct (negb _)|]; try (apply json_obeys; spent).
  apply bool_decide_eq_true in Eack.
  apply acknowledge_obeys; [done|done|rewrite Hc; by split|by intros|]. intros x'' _ Hs' _. apply json_obeys; spent.
Qed.

Lemma macro_obeys {B} (Q : Seen -> Result LocalErrorCode B -> Prop) data (k : Value -> Cli B) x :
  to_value data <> None -> (forall v, obeys Q x (k v)) -> obeys Q x (json_macro data ≫= k).
Proof. intros Hp Hk. unfold json_macro. destruct (to_value data) as [v|]; [|done]. apply Hk. Qed.

Definition arm_used (s : Session) (x : Seen) (r : Result LocalErrorCode (Result LocalErrorCode Value)) : Prop :=
  match r with Err _ => True | Ok r => used s x r end.
Lemma caught_obeys s x (m : Cli Value) : obeys (used s) x m -> obeys (arm_used s) x (caught m).
Proof. intros Hm. apply (follows_caught _ (arm_used s)). exact Hm. Qed.
Lemma arm_obeys `{!PlainJson} polls resolved s x :
  reads_back replaced command args -> opened s x -> command <> CcSquadJoin -> command <> CcSquadLeave ->
  obeys (arm_used s) x (protected_arm replaced polls resolved command s args).
Proof.
  intros Hr Ho Hj Hl. pose proof Ho as ([Hs Hend] & Ha & Hn). unfold protected_arm.
  destruct command eqn:Hc; try done; try (by split); rewrite <- Hc in *.
  - apply follows_ask; [done|]. intros authority. apply follows_give; [|done]. intros squad Esq.
    destruct authority as [squad'|]; [|done]. injection Esq as ->.
    destruct (bool_decide (nonempty (args !! 2%nat) = Some squad)) eqn:Eb; [|by split].
    apply bool_decide_eq_true in Eb. apply follows_ask; [simpl; rewrite Eb; done|]. intros archived.
    apply follows_give; [|done]. intros response _. apply caught_obeys, json_obeys. spent.
  - apply follows_ask; [done|]. intros roster. apply follows_give; [|done]. intros response _. apply caught_obeys, json_obeys. spent.
  - apply caught_obeys. rewrite Hc in Hr. by apply send_obeys.
  - apply caught_obeys. rewrite Hc in Hr. by apply inbox_obeys.
  - apply caught_obeys. rewrite Hc in Hr. by apply listen_obeys.
  - apply caught_obeys. rewrite Hc in Hr. by apply ack_obeys.
  - apply caught_obeys. rewrite Hc in Hr. by apply transcript_obeys.
  - apply follows_ask; [done|]. intros snapshot. apply caught_obeys. unfold json_macro.
    match goal with |- context [to_value ?d] => destruct (to_value d) as [v|] eqn:Ev end.
    + split; [done|]. split; intros; congruence.
    + by apply plain_status in Ev.
Qed.

Lemma join_obeys resolved x :
  command = CcSquadJoin -> reads_back replaced CcSquadJoin args -> sn_session x = None ->
  obeys (kept command) x (execute_join resolved args).
Proof.
  intros Hc (rest & values & squad & Es & Ep & Hname & Hrole & Esq) Hx. unfold execute_join.
  apply (unwrapped_obeys _ _ _ _ rest); [done|]. apply follows_give; [|done]. intros values' Ev.
  change join_options with ["--name"; "--role"; "--mission"] in Ev. rewrite Ep in Ev. injection Ev as <-.
  apply follows_give; [|done]. intros squad' _. unfold profile_paths, config_try. apply follows_give; [|done]. intros paths _.
  apply client_follows; [done|done|]. intros _. apply has_Some in Hname as [name Hname]. apply has_Some in Hrole as [role Hrole].
  apply (unwrapped_obeys _ _ _ _ name); [done|]. apply (unwrapped_obeys _ _ _ _ role); [done|].
  apply follows_ask; [done|]. intros [[s response]|e]; [|exact I].
  apply follows_give; [|done]. intros [s' response'] [= <- <-]. apply follows_give; [|done]. intros v _.
  apply follows_ask; [done|]. intros [u|e]; [|exact I]. simpl. split; [done|]. split; congruence.
Qed.

Lemma protected_obeys `{!PlainJson} polls options :
  reads_back replaced command args -> obeys (kept command) nothing_yet (execute_protected replaced polls options command args).
Proof.
  intros Hr. unfold execute_protected. apply resolve_follows; [done|done|done|]. intros resolved.
  destruct (bool_decide (command = CcSquadJoin)) eqn:Ej.
  { apply bool_decide_eq_true in Ej. rewrite Ej in Hr. by apply join_obeys. }
  apply bool_decide_eq_false in Ej. apply open_session_obeys; [done|done|]. intros s.
  destruct (bool_decide (command = CcSquadLeave)) eqn:El.
  { apply bool_decide_eq_true in El. apply follows_ask; [done|]. intros [response|e]; simpl.
    - destruct (to_value _); [|done]. split; [done|]. split; congruence.
    - split; [done|]. by intros [u|e']. }
  apply bool_decide_eq_false in El. apply follows_try. eapply follows_mono; [|by apply (arm_obeys polls resolved s)].
  intros x [result|e]; [|done]. intros [Hs Hu]. apply follows_ask; [done|].
  intros [u|e]; destruct result as [v|e']; simpl; done.
Qed.
End Protected.

(** ** Every command *)
Section Commands.
Context `{UrlCrate} `{Crypto} `{!ToValue CliData} `{!PlainJson}.
Context (replaced display_address : string -> string) (filter_ok : string -> bool) (parse_address : string -> option (string * bool)).

(** A command without a session asks for nothing that needs one. *)
Definition allowed (command : ParsedCommand) (x : Seen) (op : CliOp) : Prop :=
  match command with
  | PcDeferred command args => permitted replaced command args x op
  | PcRelayStart _ =>
      match op with CoDetectPaths | CoResolve _ _ | CoInitTracing _ _ | CoCreateDirs _ | CoServe _ => True | _ => False end
  | PcSquadCreate squad mission =>
      match op with
      | CoDetectPaths | CoResolve _ _ | CoNewClient _ => True
      | CoCreateSquad request => request = {| csr_name := squad; csr_mission := mission |}
      | _ => False
      end
  | _ =>
      match op with
      | CoDetectPaths | CoResolve _ _ | CoNewClient _ | CoHealth | CoReady | CoListSquads | CoDescribeSquad _ | CoCredentialExists _
      | CoHarnessStatus _ => True
      | _ => False
      end
  end.
Definition done_ (command : ParsedCommand) (x : Seen) (r : Result LocalErrorCode Value) : Prop :=
  match command with PcDeferred command _ => kept command x r | _ => True end.

Lemma relay_start_follows options arguments x :
  follows (allowed (PcRelayStart arguments)) (done_ (PcRelayStart arguments)) x
    (cli_execute replaced filter_ok parse_address 0 options (PcRelayStart arguments)).
Proof.
  cbn [cli_execute]. apply resolve_follows; [done|done|done|]. intros resolved. unfold run_relay_until.
  apply follows_give; [|done]. intros [data_dir config] _. apply follows_try.
  assert (forall x, follows (allowed (PcRelayStart arguments)) (done_ (PcRelayStart arguments)) x
    (created ← ask_for (CoCreateDirs data_dir); _ ← cli_give (map_err map_io_error created); served ← ask_for (CoServe config);
     _ ← (match served with Ok _ => mret tt | Err error => handle_relay_error error true end); json_macro CdShutdown)) as Hrest.
  { intros x'. apply follows_ask; [done|]. intros created. apply follows_give; [|done]. intros _ _. apply follows_ask; [done|].
    intros [u|e]; [by apply macro_yields; [apply plain_shutdown|]|]. by destruct e. }
  destruct (go_json options); [apply Hrest|]. apply follows_ask; [done|]. intros [|]; [apply Hrest|done].
Qed.

Lemma execute_follows polls options args json command :
  parse_command replaced display_address args json = Some (Ok command) ->
  follows (allowed command) (done_ command) nothing_yet (cli_execute replaced filter_ok parse_address polls options command).
Proof.
  intros Hp. destruct command as [arguments| | | | |squad mission|squad|command arguments]; [exact (relay_start_follows _ _ _)|..|];
    cbn [cli_execute];
    [apply resolve_follows; [done|done|done|]; intros resolved..|
     destruct (parse_reads_back replaced display_address args json command arguments Hp) as [-> Hr]; by apply protected_obeys].
  - apply client_follows; [done|done|]. intros _. apply follows_ask; [done|]. intros health.
    apply follows_give; [|done]. intros health' _. apply follows_ask; [done|]. intros ready. apply follows_give; [|done]. intros ready' _.
    by apply macro_yields; [apply plain_health|].
  - apply follows_try. unfold credential_state.
    destruct (for_profile _ _ _) as [paths|]; [|done]. by apply follows_ask.
  - unfold execute_harness_status, profile_paths, config_try. apply follows_give; [|done]. intros paths _.
    apply follows_give; [|done]. intros path _. apply follows_ask; [done|]. intros record.
    apply follows_give; [|done]. intros record' _. by apply follows_give.
  - apply client_follows; [done|done|]. intros _. apply follows_ask; [done|]. intros squads. by apply follows_give.
  - apply client_follows; [done|done|]. intros _. apply follows_ask; [done|]. intros created. by apply follows_give.
  - apply client_follows; [done|done|]. intros _. apply follows_ask; [done|]. intros described. by apply follows_give.
Qed.

(** C20: a command line that parses does what it says and nothing else, whatever the configuration, the profile, the
    relay and the session answer.  It never panics.  It opens at most one session, uses only that one, and reports success only
    after that session was shut down or left.  It acknowledges at most once, and only the ids it was given with [message
    acknowledge] or [inbox --ack], or, with [listen --ack], exactly the messages it received last; it sends at most once and
    only for [message send], which has sent when it reports success; it archives only the squad that was named and that the
    session belongs to. *)
Theorem commands_do_as_told polls options args json command :
  parse_command replaced display_address args json = Some (Ok command) ->
  follows (allowed command) (done_ command) nothing_yet (cli_execute replaced filter_ok parse_address polls options command).
Proof. apply execute_follows. Qed.

(** ** Output *)
Variables (success_text : CliSuccess Value -> option string) (failure_text : CliFailure -> option string) (pretty_text : Value -> option string).

(** What is left on the streams, when [json] was asked for and when it was not. *)
Definition tidy (json : bool) (command : CliCommand) (r : Z * Streams) : Prop :=
  let '(code, st) := r in
  (code = 0 -> st_stderr st = "") /\ (code <> 0 -> st_stdout st = "")
  /\ (json = true ->
      (code = 0 /\ exists v text, success_text (CliSuccess_new command v) = Some text /\ st_stdout st = text +:+ newline)
      \/ (exists e text, failure_text (CliFailure_new command (SafeError_from e)) = Some text
          /\ code = ExitClass_code (exit_class e) /\ st_stderr st = text +:+ newline)
      \/ (code = 70 /\ (st_stderr st = "" \/ st_stderr st = "psst: output encoding failed" +:+ newline))).
Definition blank (st : Streams) : Prop := st_stdout st = "" /\ st_stderr st = "".

Lemma exit_class_fails e : ExitClass_code (exit_class e) <> 0.
Proof. by destruct e. Qed.
Lemma encoding_failed_tidy json command st : blank st -> tidy json command (encoding_failed st).
Proof.
  intros [Ho He]. unfold encoding_failed, write_bytes. destruct (st_stderr_ok st); simpl; rewrite ?Ho, ?He; split_and!; auto; try done.
Qed.
Lemma emit_success_tidy json command v st : blank st -> tidy json command (emit_success success_text pretty_text json command v st).
Proof.
  intros Hb. pose proof Hb as [Ho He]. unfold emit_success. destruct json.
  - unfold emit_json_success. destruct (success_text _) as [text|] eqn:Et; simpl; [|by apply encoding_failed_tidy].
    destruct (st_stdout_ok st); simpl; rewrite ?Ho, ?He; split_and!; auto; try done. intros _. left. eauto.
  - unfold write_human, write_bytes. destruct (st_stdout_ok st); simpl; rewrite ?Ho, ?He; split_and!; auto; done.
Qed.
Lemma emit_failure_tidy json command e st : blank st -> tidy json command (emit_failure failure_text json command e st).
Proof.
  intros Hb. pose proof Hb as [Ho He]. pose proof (exit_class_fails e) as Hx. unfold emit_failure. cbv zeta. destruct json.
  - unfold emit_json_failure. destruct (failure_text _) as [text|] eqn:Et; simpl; [|by apply encoding_failed_tidy].
    unfold CliFailure_exit_class. simpl. destruct (st_stderr_ok st); simpl; rewrite ?Ho, ?He; split_and!; auto; try done.
    intros _. right. left. eauto.
  - unfold CliFailure_exit_class, write_bytes. simpl. destruct (st_stderr_ok st); simpl; rewrite ?Ho, ?He; split_and!; auto; done.
Qed.

Lemma cli_parse_command arguments options command :
  cli_parse replaced display_address arguments = Some (Ok (InCommand options command)) ->
  exists rest json, parse_command replaced display_address rest json = Some (Ok command).
Proof.
  unfold cli_parse. destruct (_ || _); [done|]. destruct (_ || _); [done|]. destruct (global_options _ _ _) as [[global rest]|]; [|done].
  intros (r & Er & [= Ec])%bind_Some. destruct r as [c|]; [|done]. injection Ec as _ <-. eauto.
Qed.

(** The command an invocation is reported under, and whether as JSON. *)
Definition reported (parsed : Result ParseError Invocation) : bool * CliCommand :=
  match parsed with
  | Ok (InCommand options command) => (go_json options, contract command)
  | Ok _ => (false, CcInvocation)
  | Err error => (pe_json error, default CcInvocation (pe_command error))
  end.

End Commands.

(** ** Examples *)
Section Examples.
#[local] Instance example_url : UrlCrate := {| url_parse _ := None; url_join _ _ := None; url_as_str _ := "" |}.
#[local] Instance example_data : ToValue CliData := fun _ => Some VNull.
#[local] Instance example_plain : PlainJson.
Proof. by constructor. Qed.
Definition no_streams : Streams := {| st_stdout := ""; st_stderr := ""; st_stdout_ok := true; st_stderr_ok := true |}.

Lemma commands_do_as_told_witness :
  parse_command id id ["listen"; "--ack"] true = Some (Ok (PcDeferred CcListen ["listen"; "--ack"]))
  /\ follows (permitted id CcListen ["listen"; "--ack"]) (kept CcListen) nothing_yet
       (execute_protected id 3 {| go_relay := None; go_profile := None; go_config := None; go_json := true |} CcListen ["listen"; "--ack"]).
Proof.
  split; [vm_compute; reflexivity|].
  apply (commands_do_as_told id id (fun _ => true) (fun _ => None) 3 {| go_relay := None; go_profile := None; go_config := None; go_json := true |}
    ["listen"; "--ack"] true (PcDeferred CcListen ["listen"; "--ack"])).
  vm_compute. reflexivity.
Defined.

End Examples.
