(* ===== verification/Bootstrap.v ===== *)
(** * Bootstrap: the Codex wake observer (psst-codex/src/bootstrap.rs, psst-codex/src/main.rs)

    The start of the process, from the configuration to the running activation, and the
    source of wakes that opens a session only while it looks for mail, so that the profile
    is free when the host's own tools need it. *)
From stdpp Require Import gmap strings.
From Stdlib Require Import Ascii.
From S2P Require Import Prelude Text Core Files Dto Validation Client Failure Profile Config Activation Json AppServer Journal CredentialStore Startup Running Tools Adapter Server.

(** ** Failures *)
Definition classify_session (error : SessionError) : ObservationFailure :=
  match error with
  | SeRelay (CeTransport _ | CeTimeout | CeOutcomeUnknown | CeClientBusy | CeRetryExhausted _ _ | CeApi _ _ true)
  | SeNotReady | SeOperationCapacity | SeSendCapacity => ObsRetryable
  | SeLocal error =>
      match io_kind error with KindAddrInUse | KindWouldBlock => ObsRetryable | _ => ObsPermanent end
  | SeRelay _ | SeShutdownTimedOut | SeUnbound | SeRecoveryOutcomeUnknown => ObsPermanent
  end.
Definition map_io (error : IoError) : AppServerError := AeConfiguration.
Definition map_session_start (error : SessionError) : AppServerError :=
  match classify_session error with ObsRetryable => AeLaunch | ObsPermanent => AeConfiguration end.

(** ** The source *)

(** Its slot, behind a lock that [observe] holds for its whole length; and the sessions that run. *)
Record CyclingSource : Set := { cy_slot : option Runtime; cy_running : list Runtime }.
Definition idle_source : CyclingSource := {| cy_slot := None; cy_running := [] |}.

(** What the sessions answer to one [observe]: the start of a session, should one be needed, its inbox, and
    its shutdown, should there be mail. *)
Record Answers : Set := {
  an_start : Result SessionError Runtime; an_inbox : Result SessionError InboxResponse; an_shutdown : Result SessionError unit }.

Definition observer_spec (binding : ProfileBinding) (paths : ProfilePaths) : RuntimeSpec :=
  {| rs_profile := binding; rs_paths := paths; rs_mode := HarnessedDto;
     rs_client_metadata := {| cm_kind := "psst-codex"; cm_hostname := None; cm_version := Some CARGO_PKG_VERSION |};
     rs_shutdown_bound := Duration_from_secs 5 |}.
Definition ensure_runtime (a : Answers) (self : CyclingSource) : Result ObservationFailure Runtime * CyclingSource :=
  match cy_slot self with
  | Some runtime => (Ok runtime, self)
  | None =>
      match an_start a with
      | Ok runtime => (Ok runtime, {| cy_slot := Some runtime; cy_running := runtime :: cy_running self |})
      | Err error => (Err (classify_session error), self)
      end
  end.
(** A session that was shut down no longer runs. *)
Definition stopped_session (runtime : Runtime) (self : CyclingSource) (slot : option Runtime) : CyclingSource :=
  {| cy_slot := slot; cy_running := filter (fun r => r <> runtime) (cy_running self) |}.
(** [u8::try_from(maximum_wait.as_secs().min(30))]. *)
Definition observe_wait (maximum_wait : Duration) : Z := Z.min (as_secs maximum_wait) 30.
Definition cycling_observe (profile squad : string) (a : Answers) (self : CyclingSource)
    : Result ObservationFailure (option WakeMetadata) * CyclingSource :=
  match ensure_runtime a self with
  | (Err failure, self) => (Err failure, self)
  | (Ok runtime, self) =>
      match an_inbox a with
      | Err error => (Err (classify_session error), self)
      | Ok inbox =>
          match wake_from_inbox profile squad inbox with
          | Err failure => (Err failure, self)
          | Ok None => (Ok None, self)
          | Ok (Some wake) =>
              match an_shutdown a with
              | Err _ => (Err ObsPermanent, self)
              | Ok _ => (Ok (Some wake), stopped_session runtime self None)
              end
          end
      end
  end.
Definition cycling_shutdown (answer : Result SessionError unit) (self : CyclingSource) : Result AppServerError unit * CyclingSource :=
  match cy_slot self with
  | None => (Ok tt, self)
  | Some runtime =>
      match answer with
      | Ok _ => (Ok tt, stopped_session runtime self None)
      | Err error => (Err (map_session_start error), {| cy_slot := None; cy_running := cy_running self |})
      end
  end.

(** ** Stopping: the activation first, then the publisher, the host and the source; the first failure counts. *)
Definition activation_shutdown (status : Result IoError unit) (host source : Result AppServerError unit) : Result AppServerError unit :=
  _ ← map_err map_io status;
  _ ← host;
  source.

(** ** Starting *)
Section Start.
Context {N : Type}.
(** [None]: the process crashed. *)
Definition Launch (A : Type) : Type := World * N -> option (Result AppServerError A) * (World * N).
#[global] Instance Launch_ret : MRet Launch := fun A a s => (Some (Ok a), s).
#[global] Instance Launch_bind : MBind Launch := fun A B k m s =>
  match m s with
  | (Some (Ok a), s') => k a s'
  | (Some (Err e), s') => (Some (Err e), s')
  | (None, s') => (None, s')
  end.
Definition launch_try {A} (r : Result AppServerError A) : Launch A := fun s => (Some r, s).
Definition launch_io {A} (m : IO A) : Launch A := fun '(w, n) =>
  match m w with (Done r, w') => (Some (map_err map_io r), (w', n)) | (Crashed, w') => (None, (w', n)) end.
Definition launch_session {A} (m : Sess N A) : Launch A := fun s =>
  match m s with (SDone r, s') => (Some (map_err map_session_start r), s') | (SCrashed, s') => (None, s') end.

Context `{Os} `{UrlCrate} `{Yaml} `{Crypto} `{HttpHeaders} `{SessionTransport N}.
Context `{Serialize ProfileBinding, !Deserialize ProfileBinding, !Serialize CredentialRecord, !Deserialize CredentialRecord,
          !Serialize LeaveJournal, !Deserialize LeaveJournal} `{Serialize Value, !Deserialize Value}.
Record CodexActivation : Set := {
  ca_host : HostState; ca_client : Client; ca_binding : ProfileBinding; ca_paths : ProfilePaths; ca_profile : string; ca_source : CyclingSource }.

(** [var_os] and [environment]: the variables, and those that are text; [tempdir], [generated] and [root]: the
    schema the Codex binary writes; [builds]: reqwest's builder; [lock]: what locking the profile returns;
    [activation] and [status]: what the starts of the activation and of the publisher return. *)
Definition start_from_environment (cwd : Path) (var_os : string -> option string) (current_dir : option string)
    (environment : gmap string string) (tempdir : bool) (generated : option bool) (root : list (string * Entry))
    (builds : Result TransportError unit) (lock : Result IoError unit) (activation : Result ActivationContractError unit)
    (status : Result IoError unit) : Launch CodexActivation :=
  platform ← launch_try (map_err (fun _ => AeConfiguration) (PlatformPaths_detect cwd var_os));
  resolved ← launch_io (ConfigResolver_resolve cwd platform {| ci_flags := no_flags; ci_environment := environment |});
  resolved ← launch_try (map_err (fun _ => AeConfiguration) resolved);
  let origin := ev_value (rc_relay_origin resolved) in
  let profile := ev_value (rc_profile resolved) in
  config ← launch_io (from_environment var_os current_dir origin profile environment);
  config ← launch_try config;
  host ← launch_try (prepare tempdir generated root config);
  paths ← launch_try (map_err (fun _ => AeConfiguration) (for_profile (rc_paths resolved) origin profile));
  binding ← launch_io (load_profile (pp_metadata paths));
  binding ← (match binding with
             | Some binding => mret (Some binding)
             | None =>
                 _ ← launch_session (recover_orphaned_leave paths origin profile lock);
                 launch_io (load_profile (pp_metadata paths))
             end);
  binding ← launch_try (ok_or binding AeConfiguration);
  _ ← launch_try (map_err (fun _ => AeConfiguration) (verify_profile_origin binding origin));
  client ← launch_try (map_err (fun _ => AeConfiguration) (Client_new builds origin ClientConfig_default));
  _ ← launch_try (map_err (fun _ => AeConfiguration) activation);
  _ ← launch_try (map_err map_io status);
  mret {| ca_host := host; ca_client := client; ca_binding := binding; ca_paths := paths; ca_profile := profile; ca_source := idle_source |}.
End Start.

(** ** The process (main.rs): its exit status *)
Definition codex_main (arguments : list string) (started : bool) (signal stopped : bool) : Z :=
  if bool_decide (arguments = ["--version"]) then 0
  else if negb (bool_decide (arguments = [])) then 64
  else if negb started then 70
  else if negb signal || negb stopped then 70
  else 0.

(** ** What the source keeps *)

(** A session runs only while the slot holds it. *)
Definition one_session (self : CyclingSource) : Prop :=
  match cy_slot self with Some runtime => cy_running self = [runtime] | None => cy_running self = [] end.

Lemma ensure_runtime_one a self result self' :
  one_session self -> ensure_runtime a self = (result, self') ->
  one_session self' /\ forall runtime, result = Ok runtime -> cy_slot self' = Some runtime.
Proof.
  unfold ensure_runtime, one_session. destruct (cy_slot self) as [runtime|] eqn:Es.
  - intros Hr [= <- <-]. rewrite Es. split; [done|]. by intros ? [= <-].
  - intros Hr. destruct (an_start a) as [runtime|error]; intros [= <- <-]; simpl; [|by rewrite Es].
    rewrite Hr. split; [done|]. by intros ? [= <-].
Qed.
Lemma stopped_one runtime self : one_session self -> cy_slot self = Some runtime -> cy_running (stopped_session runtime self None) = [].
Proof.
  unfold one_session, stopped_session. intros Hr Es. rewrite Es in Hr. simpl. rewrite Hr. rewrite filter_cons_False; [done|].
  intros Hne. by apply Hne.
Qed.
(** However often the source observes and whatever the sessions answer: at most one session runs and the slot holds
    it; a wake is reported only when that session was shut down, with what the inbox says. *)
Lemma source_keeps_one_session profile squad a self result self' :
  one_session self -> cycling_observe profile squad a self = (result, self') ->
  one_session self'
  /\ (forall wake, result = Ok (Some wake) ->
       cy_slot self' = None /\ cy_running self' = []
       /\ exists inbox, an_inbox a = Ok inbox /\ wake_from_inbox profile squad inbox = Ok (Some wake)).
Proof.
  intros Ho. unfold cycling_observe. destruct (ensure_runtime a self) as [ensured self1] eqn:Ee.
  destruct (ensure_runtime_one _ _ _ _ Ho Ee) as [Ho1 Hslot].
  destruct ensured as [runtime|failure]; [|by intros [= <- <-]].
  destruct (an_inbox a) as [inbox|error] eqn:Ei; [|by intros [= <- <-]].
  destruct (wake_from_inbox profile squad inbox) as [[wake|]|failure] eqn:Ew; [|by intros [= <- <-]|by intros [= <- <-]].
  destruct (an_shutdown a) as [u|error]; [|by intros [= <- <-]]. intros [= <- <-].
  pose proof (stopped_one runtime self1 Ho1 (Hslot _ eq_refl)) as Hr.
  split; [exact Hr|]. intros wake' [= <-]. split_and!; [done|done|]. by exists inbox.
Qed.
(** The sequence of observations of one activation, and its end. *)
Fixpoint observations (profile squad : string) (answers : list Answers) (self : CyclingSource) : CyclingSource :=
  match answers with [] => self | a :: rest => observations profile squad rest (cycling_observe profile squad a self).2 end.
Lemma observations_keep_one profile squad answers self : one_session self -> one_session (observations profile squad answers self).
Proof.
  revert self. induction answers as [|a rest IH]; intros self Ho; simpl; [done|]. apply IH.
  destruct (cycling_observe profile squad a self) as [result self'] eqn:E. by apply (source_keeps_one_session _ _ _ _ _ _ Ho E).
Qed.
(** A shutdown that succeeds leaves no session behind. *)
Lemma shutdown_leaves_none profile squad answers answer self :
  cycling_shutdown answer (observations profile squad answers idle_source) = (Ok tt, self) -> cy_running self = [] /\ cy_slot self = None.
Proof.
  pose proof (observations_keep_one profile squad answers idle_source eq_refl) as Ho. unfold cycling_shutdown.
  destruct (cy_slot (observations _ _ _ _)) as [runtime|] eqn:Es.
  - destruct answer as [u|error]; [|done]. intros [= <-]. split; [|done]. by apply stopped_one.
  - intros [= <-]. unfold one_session in Ho. by rewrite Es in Ho.
Qed.
