(* ===== verification/Locks.v ===== *)
(** * Locks: one process at a time on the files of a profile (psst-application/src/profile.rs)

    [ProfileLock::acquire] and its [Drop] as programs of system calls, and the processes
    that run them beside each other on one kernel.  The lock is a pair of sockets on
    loopback endpoints that are derived from the canonical path, besides the lock of the
    file system, so that it holds also where the lock file is removed or replaced. *)
From stdpp Require Import gmap strings.
From Stdlib Require Import Ascii.
From S2P Require Import Prelude Text Core Files Profile Durability Recovery Grammar.

(** ** Endpoints *)
Record SocketAddrV4 : Set := { sa_ip : Z * Z * Z * Z; sa_port : Z }.
#[global] Instance SocketAddrV4_eq_dec : EqDecision SocketAddrV4.
Proof. solve_decision. Defined.
#[global] Instance SocketAddrV4_countable : Countable SocketAddrV4 :=
  inj_countable' (fun a => (sa_ip a, sa_port a)) (fun '(ip, port) => {| sa_ip := ip; sa_port := port |}) ltac:(by intros []).

Definition byte_at (digest : string) (i : nat) : Z :=
  match as_bytes digest !! i with Some b => Z.of_N (N_of_ascii b) | None => 0 end.
Definition u16_from_be_bytes (high low : Z) : Z := 256 * high + low.
Definition path_text (path : Path) : string := String.concat "" (map (fun name => "/" +:+ name) path).

(** The branch of Unix systems other than macOS. *)
Definition lock_endpoints `{Crypto} (replaced : string -> string) (path : Path) : SocketAddrV4 * SocketAddrV4 :=
  let digest := sha256 (to_string_lossy replaced (path_text path)) in
  let d := byte_at digest in
  ({| sa_ip := (127, d 0%nat, d 1%nat, d 2%nat); sa_port := 10000 + u16_from_be_bytes (d 6%nat) (d 7%nat) mod 20000 |},
   {| sa_ip := (127, d 3%nat, d 4%nat, d 5%nat); sa_port := 10000 + u16_from_be_bytes (d 8%nat) (d 9%nat) mod 20000 |}).

(** ** Programs *)
Inductive SocketOp : Set :=
| BindStream (e : SocketAddrV4) | BindDatagram (e : SocketAddrV4) | CloseStream (e : SocketAddrV4) | CloseDatagram (e : SocketAddrV4).
(** [fs2]'s [try_lock_exclusive] and [unlock]. *)
Inductive FlockOp : Set := TryLockExclusive (file : Path) | Unlock (file : Path).
Inductive LockProg (A : Type) : Type :=
| LkDone (r : Result IoError A)
| LkFiles (B : Type) (m : IO B) (k : Result IoError B -> LockProg A)
| LkSocket (op : SocketOp) (k : Result IoError unit -> LockProg A)
| LkFlock (op : FlockOp) (k : Result IoError unit -> LockProg A).
Arguments LkDone {A} r.
Arguments LkFiles {A B} m k.
Arguments LkSocket {A} op k.
Arguments LkFlock {A} op k.

(** What follows a result, whether it is a value or an error. *)
Fixpoint lk_then {A B} (k : Result IoError A -> LockProg B) (p : LockProg A) : LockProg B :=
  match p with
  | LkDone r => k r
  | LkFiles m k' => LkFiles m (fun r => lk_then k (k' r))
  | LkSocket op k' => LkSocket op (fun r => lk_then k (k' r))
  | LkFlock op k' => LkFlock op (fun r => lk_then k (k' r))
  end.
#[global] Instance LockProg_ret : MRet LockProg := fun A a => LkDone (Ok a).
#[global] Instance LockProg_bind : MBind LockProg := fun A B k p =>
  lk_then (fun r => match r with Ok a => k a | Err e => LkDone (Err e) end) p.
Definition lk_try {A} (r : Result IoError A) : LockProg A := LkDone r.
Definition lk_io {A} (m : IO A) : LockProg A := LkFiles m LkDone.
Definition lk_socket (op : SocketOp) : LockProg unit := LkSocket op LkDone.
Definition lk_flock (op : FlockOp) : LockProg unit := LkFlock op LkDone.
(** A value that is dropped by [op] when the rest fails. *)
Definition dropped_by {A} (op : SocketOp) (body : LockProg A) : LockProg A :=
  lk_then (fun r => match r with Ok a => LkDone (Ok a) | Err e => LkSocket op (fun _ => LkDone (Err e)) end) body.

(** ** The lock *)
Record ProfileLock : Set := {
  pl_file : Path; pl_directory_guard : Path; pl_ownership_socket : SocketAddrV4; pl_ownership_datagram : SocketAddrV4; pl_path : Path }.

Section Lock.
Context `{Os} `{Crypto}.
Variable replaced : string -> string.

(** [options.read(true).write(true).create(true).truncate(false)] with [O_NOFOLLOW] and mode 0600. *)
Definition open_lock_file (p : Path) : IO Path :=
  syscall (fun w => match real_path (w_nodes w) false p with
    | Err e => (Err e, w)
    | Ok real =>
        match node_at (w_nodes w) real with
        | None => (Ok real, set_node w real (Some (File (Z.ldiff 384 umask) "" false)))
        | Some (Symlink _) => (Err ELOOP, w)
        | Some (Directory _ _) => (Err EISDIR, w)
        | Some (File _ _ _) => (Ok real, w)
        end
    end).

Definition ProfileLock_acquire (path : Path) : LockProg ProfileLock :=
  _ ← lk_io (reject_symlink path);
  parent ← lk_try (ok_or (path_parent path) (io_error KindInvalidInput "lock parent unavailable"));
  _ ← lk_io (create_dir_all parent);
  _ ← lk_io (reject_symlink parent);
  canonical_parent ← lk_io (canonicalize parent);
  name ← lk_try (ok_or (path_file_name path) (io_error KindInvalidInput "lock name unavailable"));
  let identity := path_join canonical_parent name in
  let '(stream_endpoint, datagram_endpoint) := lock_endpoints replaced identity in
  _ ← lk_socket (BindStream stream_endpoint);
  dropped_by (CloseStream stream_endpoint) (
    _ ← lk_socket (BindDatagram datagram_endpoint);
    dropped_by (CloseDatagram datagram_endpoint) (
      file ← lk_io (open_lock_file path);
      _ ← lk_flock (TryLockExclusive file);
      directory_guard ← lk_io (open_dir parent);
      mret {| pl_file := file; pl_directory_guard := directory_guard; pl_ownership_socket := stream_endpoint;
              pl_ownership_datagram := datagram_endpoint; pl_path := path |})).
(** Unlocking, whose result is ignored, and the drop of the fields. *)
Definition ProfileLock_drop (self : ProfileLock) : LockProg unit :=
  LkFlock (Unlock (pl_file self)) (fun _ =>
  LkSocket (CloseStream (pl_ownership_socket self)) (fun _ =>
  LkSocket (CloseDatagram (pl_ownership_datagram self)) (fun _ => LkDone (Ok tt)))).

(** ** The kernel and the processes

    An endpoint is bound by one of the processes below, or by a program that has nothing to do with them. *)
Record Kernel : Set := {
  k_files : World; k_streams : gmap SocketAddrV4 (option nat); k_datagrams : gmap SocketAddrV4 (option nat) }.
Definition with_files (k : Kernel) (w : World) : Kernel := {| k_files := w; k_streams := k_streams k; k_datagrams := k_datagrams k |}.
Definition with_streams (k : Kernel) (t : gmap SocketAddrV4 (option nat)) : Kernel :=
  {| k_files := k_files k; k_streams := t; k_datagrams := k_datagrams k |}.
Definition with_datagrams (k : Kernel) (t : gmap SocketAddrV4 (option nat)) : Kernel :=
  {| k_files := k_files k; k_streams := k_streams k; k_datagrams := t |}.
Definition EADDRINUSE : IoError := io_error KindAddrInUse "Address already in use".

(** Binding an endpoint fails when it is bound, or for a reason of its own. *)
Definition bind_in (t : gmap SocketAddrV4 (option nat)) (owner : option nat) (fault : option IoError) (e : SocketAddrV4)
    : Result IoError unit * gmap SocketAddrV4 (option nat) :=
  match t !! e, fault with
  | Some _, _ => (Err EADDRINUSE, t)
  | None, Some error => (Err error, t)
  | None, None => (Ok tt, <[e := owner]> t)
  end.
Definition socket_call (i : nat) (fault : option IoError) (op : SocketOp) (k : Kernel) : Result IoError unit * Kernel :=
  match op with
  | BindStream e => let '(r, t) := bind_in (k_streams k) (Some i) fault e in (r, with_streams k t)
  | BindDatagram e => let '(r, t) := bind_in (k_datagrams k) (Some i) fault e in (r, with_datagrams k t)
  | CloseStream e => (Ok tt, with_streams k (delete e (k_streams k)))
  | CloseDatagram e => (Ok tt, with_datagrams k (delete e (k_datagrams k)))
  end.
(** The end of a process closes its sockets. *)
Definition disown (i : nat) (k : Kernel) : Kernel :=
  with_datagrams (with_streams k (filter (fun '(_, o) => o <> Some i) (k_streams k))) (filter (fun '(_, o) => o <> Some i) (k_datagrams k)).

Inductive HolderState : Type :=
| Acquiring (p : LockProg ProfileLock) | Holding (l : ProfileLock) | Refused (e : IoError) | Releasing (p : LockProg unit) | Gone.
Record Holder : Type := { ho_path : Path; ho_state : HolderState }.
Record System : Type := { sy_kernel : Kernel; sy_holders : list Holder }.

(** One system call of a program: the answer and what is left of the program, or the process dies in it. *)
Definition prog_step {A} (i : nat) (fault : option IoError) (p : LockProg A) (k : Kernel) : option (LockProg A * Kernel) :=
  match p with
  | LkDone r => Some (LkDone r, k)
  | LkFiles m k' => match m (k_files k) with
                    | (Done r, w) => Some (k' r, with_files k w)
                    | (Crashed, w) => None
                    end
  | LkSocket op k' => let '(r, k) := socket_call i fault op k in Some (k' r, k)
  | LkFlock _ k' => Some (k' (match fault with Some e => Err e | None => Ok tt end), k)
  end.
Definition files_after {A} (p : LockProg A) (k : Kernel) : Kernel :=
  match p with LkFiles m _ => with_files k (snd (m (k_files k))) | _ => k end.

(** A process calls [acquire]; makes its next system call; gets the result; drops the lock; dies.  Others change the files and
    bind and close endpoints of their own. *)
Inductive LockEvent : Type :=
| LeCall (path : Path) | LeStep (i : nat) (fault : option IoError) | LeDrop (i : nat) | LeDie (i : nat)
| LeFiles (w : World) | LeForeignStream (e : SocketAddrV4) (open : bool) | LeForeignDatagram (e : SocketAddrV4) (open : bool).

(** A program that is done hands over its result. *)
Definition acquired (p : LockProg ProfileLock) : HolderState :=
  match p with LkDone (Ok l) => Holding l | LkDone (Err e) => Refused e | _ => Acquiring p end.
Definition released (p : LockProg unit) : HolderState := match p with LkDone _ => Gone | _ => Releasing p end.
Definition set_state (s : System) (k : Kernel) (i : nat) (h : Holder) (st : HolderState) : System :=
  {| sy_kernel := k; sy_holders := <[i := {| ho_path := ho_path h; ho_state := st |}]> (sy_holders s) |}.
Definition step_with {A} (s : System) (i : nat) (h : Holder) (fault : option IoError) (p : LockProg A) (wrap : LockProg A -> HolderState) : System :=
  match prog_step i fault p (sy_kernel s) with
  | Some (p', k) => set_state s k i h (wrap p')
  | None => set_state s (disown i (files_after p (sy_kernel s))) i h Gone
  end.
Definition foreign (t : gmap SocketAddrV4 (option nat)) (e : SocketAddrV4) (open : bool) : option (gmap SocketAddrV4 (option nat)) :=
  match t !! e, open with
  | None, true => Some (<[e := None]> t)
  | Some None, false => Some (delete e t)
  | _, _ => None
  end.
Definition lock_step (ev : LockEvent) (s : System) : option System :=
  match ev with
  | LeCall path => Some {| sy_kernel := sy_kernel s;
                           sy_holders := sy_holders s ++ [{| ho_path := path; ho_state := acquired (ProfileLock_acquire path) |}] |}
  | LeStep i fault =>
      h ← sy_holders s !! i;
      match ho_state h with
      | Acquiring p => Some (step_with s i h fault p acquired)
      | Releasing p => Some (step_with s i h fault p released)
      | _ => None
      end
  | LeDrop i =>
      h ← sy_holders s !! i;
      match ho_state h with Holding l => Some (set_state s (sy_kernel s) i h (released (ProfileLock_drop l))) | _ => None end
  | LeDie i => h ← sy_holders s !! i; Some (set_state s (disown i (sy_kernel s)) i h Gone)
  | LeFiles w => Some {| sy_kernel := with_files (sy_kernel s) w; sy_holders := sy_holders s |}
  | LeForeignStream e open =>
      t ← foreign (k_streams (sy_kernel s)) e open; Some {| sy_kernel := with_streams (sy_kernel s) t; sy_holders := sy_holders s |}
  | LeForeignDatagram e open =>
      t ← foreign (k_datagrams (sy_kernel s)) e open; Some {| sy_kernel := with_datagrams (sy_kernel s) t; sy_holders := sy_holders s |}
  end.
Fixpoint lock_run (events : list LockEvent) (s : System) : option System :=
  match events with [] => Some s | ev :: rest => s ← lock_step ev s; lock_run rest s end.
(** ** Files that only grow *)

(** A lookup that succeeds is not changed by files that are added. *)
Lemma resolve_mono nodes nodes' follow r : nodes ⊆ nodes' -> is_Some (nodes !! r) \/ r = [] ->
  forall links todo cur, resolve links nodes follow cur todo = Ok r -> resolve links nodes' follow cur todo = Ok r.
Proof.
  intros Hsub Hr. induction links as [|links IHl]; induction todo as [|name rest IHt]; intros cur; try done.
  all: simpl; destruct (nodes !! (cur ++ [name])) as [n|] eqn:E.
  all: try (rewrite (lookup_weaken _ _ _ _ E Hsub); destruct n as [mode bytes synced|uid mode|target]; [done|by apply IHt|];
            destruct rest as [|x rest], follow; try done; try apply IHl).
  all: destruct rest; [|done]; intros [= <-]; destruct Hr as [[? Hr]|Hr]; [congruence|by destruct cur].
Qed.
Lemma lookup_mono w w' follow p r n :
  w_nodes w ⊆ w_nodes w' -> lookup_path w follow p = Ok (r, n) -> lookup_path w' follow p = Ok (r, n).
Proof.
  intros Hsub. unfold lookup_path, real_path. generalize 40%nat. intros links. destruct (resolve links (w_nodes w) follow [] p) as [real|] eqn:Er; [|done]. simpl.
  destruct (node_at (w_nodes w) real) as [node|] eqn:En; [|done]. simpl. intros [= -> ->].
  assert (is_Some (w_nodes w !! r) \/ r = []) as Hr by (destruct r; [by right|left; by eexists]).
  rewrite (resolve_mono _ _ _ _ Hsub Hr _ _ _ Er). simpl.
  assert (node_at (w_nodes w') r = Some n) as ->; [|done]. destruct r; [done|]. by eapply lookup_weaken.
Qed.

Definition grows {A} (m : IO A) : Prop := forall w x w', m w = (x, w') -> w_nodes w ⊆ w_nodes w'.
Lemma grows_syscall {A} (act : World -> Result IoError A * World) :
  (forall w, w_nodes w ⊆ w_nodes (act w).2) -> grows (syscall act).
Proof.
  intros Ha w x w'. unfold syscall, syscall_with. destruct (w_script w) as [|[|f n|n] rest].
  - specialize (Ha w). destruct (act w) as [r w1]. by intros [= <- <-].
  - specialize (Ha (set_script w rest)). destruct (act (set_script w rest)) as [r w1]. by intros [= <- <-].
  - by intros [= <- <-].
  - by intros [= <- <-].
Qed.
Lemma grows_bind {A B} (m : IO A) (k : A -> IO B) : grows m -> (forall a, grows (k a)) -> grows (m ≫= k).
Proof.
  intros Hm Hk w x w'. unfold mbind, IO_bind. destruct (m w) as [[[a|e]|] w1] eqn:E; pose proof (Hm _ _ _ E) as H1.
  - intros E'. etrans; [exact H1|by eapply Hk].
  - by intros [= <- <-].
  - by intros [= <- <-].
Qed.
Lemma grows_io {A} (r : Result IoError A) : grows (io r).
Proof. by intros w x w' [= <- <-]. Qed.
Lemma grows_attempt {A} (m : IO A) : grows m -> grows (attempt m).
Proof. intros Hm w x w'. unfold attempt. destruct (m w) as [[r|] w1] eqn:E; intros [= <- <-]; by eapply Hm. Qed.
Lemma set_node_grows w p n : w_nodes w !! p = None -> w_nodes w ⊆ w_nodes (set_node w p (Some n)).
Proof. intros Hp. by apply (insert_subseteq (w_nodes w) p n). Qed.
Lemma create_dirs_grows todo : forall p w, w_nodes w ⊆ w_nodes (create_dirs p w todo).2.
Proof.
  induction todo as [|name rest IH]; intros p w; simpl; [done|].
  destruct (lookup_path w true (p ++ [name])) as [[r [| |]]|e]; simpl; auto.
  destruct (real_path (w_nodes w) false (p ++ [name])) as [real|e']; simpl; [|done].
  destruct (w_nodes w !! real) eqn:E; simpl; [done|]. etrans; [by apply set_node_grows|apply IH].
Qed.
Lemma reject_symlink_grows p : grows (reject_symlink p).
Proof.
  apply grows_bind; [by apply grows_attempt, grows_syscall|]. intros [[| |]|e]; try apply grows_io. by destruct (bool_decide _); apply grows_io.
Qed.
Lemma create_dir_all_grows p : grows (create_dir_all p).
Proof. apply grows_syscall. intros w. apply create_dirs_grows. Qed.
Lemma open_lock_file_grows p : grows (open_lock_file p).
Proof.
  apply grows_syscall. intros w. destruct (real_path (w_nodes w) false p) as [real|e]; [|done].
  destruct (node_at (w_nodes w) real) as [[| |]|] eqn:E; [done..|]. apply set_node_grows. by destruct real.
Qed.
Lemma canonicalize_grows p : grows (canonicalize p).
Proof. by apply grows_syscall. Qed.
Lemma open_dir_grows p : grows (open_dir p).
Proof. by apply grows_syscall. Qed.
#[local] Hint Resolve reject_symlink_grows create_dir_all_grows open_lock_file_grows canonicalize_grows open_dir_grows : core.

(** ** What a program has bound *)
Section Accounts.

(** The directories whose canonical path is known, and does not change. *)
Variable home : Path -> Path -> Prop.
Definition at_home (w : World) : Prop := forall parent c, home parent c -> exists n, lookup_path w true parent = Ok (c, n).
Lemma at_home_grows {A} (m : IO A) w x w' : grows m -> at_home w -> m w = (x, w') -> at_home w'.
Proof. intros Hg Hh E parent c Hp. destruct (Hh _ _ Hp) as [n Hn]. exists n. by eapply lookup_mono; [eapply Hg|]. Qed.

(** [st] and [dg] are the endpoints the program has bound so far; it binds when it has none, closes what it has, and ends as [final] says. *)
Abbreviation Bound := (option SocketAddrV4).
Fixpoint orderly {A} (st dg : Bound) (final : Result IoError A -> Bound -> Bound -> Prop) (p : LockProg A) : Prop :=
  match p with
  | LkDone r => final r st dg
  | LkFiles m k => grows m /\ forall w r w', at_home w -> m w = (Done r, w') -> orderly st dg final (k r)
  | LkSocket (BindStream e) k => st = None /\ orderly (Some e) dg final (k (Ok tt)) /\ forall error, orderly None dg final (k (Err error))
  | LkSocket (BindDatagram e) k => dg = None /\ orderly st (Some e) final (k (Ok tt)) /\ forall error, orderly st None final (k (Err error))
  | LkSocket (CloseStream e) k => st = Some e /\ orderly None dg final (k (Ok tt))
  | LkSocket (CloseDatagram e) k => dg = Some e /\ orderly st None final (k (Ok tt))
  | LkFlock _ k => forall r, orderly st dg final (k r)
  end.
Lemma orderly_mono {A} (final final' : Result IoError A -> Bound -> Bound -> Prop) p : (forall r st dg, final r st dg -> final' r st dg) ->
  forall st dg, orderly st dg final p -> orderly st dg final' p.
Proof.
  intros Hf. induction p as [r|C m k' IH|op k' IH|op k' IH]; intros st dg; simpl; [apply Hf| | |by intros Hp r; apply IH].
  - intros [Hg Hp]. split; [done|]. intros w r w' Hh E. by eapply IH, Hp.
  - destruct op; [intros (-> & Hok & Herr)|intros (-> & Hok & Herr)|intros [-> Hok]|intros [-> Hok]]; split_and!; auto.
Qed.
Lemma orderly_then {A B} (k : Result IoError A -> LockProg B) final p : forall st dg,
  orderly st dg (fun r st dg => orderly st dg final (k r)) p -> orderly st dg final (lk_then k p).
Proof.
  induction p as [r|C m k' IH|op k' IH|op k' IH]; intros st dg; simpl; [done| | |by intros Hp r; apply IH].
  - intros [Hg Hp]. split; [done|]. intros w r w' Hh E. eapply IH, Hp; eassumption.
  - destruct op; [intros (-> & Hok & Herr)|intros (-> & Hok & Herr)|intros [-> Hok]|intros [-> Hok]]; split_and!; auto.
Qed.
Lemma orderly_bind {A B} (p : LockProg A) (k : A -> LockProg B) st dg final :
  orderly st dg (fun r st dg => match r with Ok a => orderly st dg final (k a) | Err e => final (Err e) st dg end) p ->
  orderly st dg final (p ≫= k).
Proof. intros Hp. apply orderly_then. revert Hp. apply orderly_mono. by intros [a|e]. Qed.
Lemma orderly_io {A B} (m : IO A) (k : A -> LockProg B) st dg final :
  grows m -> (forall e, final (Err e) st dg) -> (forall w a w', at_home w -> m w = (Done (Ok a), w') -> orderly st dg final (k a)) ->
  orderly st dg final (lk_io m ≫= k).
Proof. intros Hg He Hk. apply orderly_bind. simpl. split; [done|]. intros w [a|e] w' Hh E; [by eapply Hk|apply He]. Qed.
Lemma orderly_try {A B} (r : Result IoError A) (k : A -> LockProg B) st dg final :
  (forall e, final (Err e) st dg) -> (forall a, r = Ok a -> orderly st dg final (k a)) -> orderly st dg final (lk_try r ≫= k).
Proof. intros He Hk. apply orderly_bind. simpl. destruct r as [a|e]; [by apply Hk|apply He]. Qed.
Lemma orderly_flock {B} op (k : unit -> LockProg B) st dg final :
  (forall e, final (Err e) st dg) -> orderly st dg final (k tt) -> orderly st dg final (lk_flock op ≫= k).
Proof. intros He Hk. apply orderly_bind. intros [[]|e]; [exact Hk|apply He]. Qed.
(** A socket that is bound, and dropped when what follows fails. *)
Lemma orderly_stream {B} e (body : LockProg B) dg final :
  (forall error, final (Err error) None dg) ->
  orderly (Some e) dg (fun r st dg => match r with Ok a => final (Ok a) st dg | Err error => st = Some e /\ final (Err error) None dg end) body ->
  orderly None dg final (lk_socket (BindStream e) ≫= fun _ => dropped_by (CloseStream e) body).
Proof.
  intros He Hb. apply orderly_bind. split; [done|]. split; [|exact He]. apply orderly_then. revert Hb. apply orderly_mono. by intros [a|error].
Qed.
Lemma orderly_datagram {B} e (body : LockProg B) st final :
  (forall error, final (Err error) st None) ->
  orderly st (Some e) (fun r st dg => match r with Ok a => final (Ok a) st dg | Err error => dg = Some e /\ final (Err error) st None end) body ->
  orderly st None final (lk_socket (BindDatagram e) ≫= fun _ => dropped_by (CloseDatagram e) body).
Proof.
  intros He Hb. apply orderly_bind. split; [done|]. split; [|exact He]. apply orderly_then. revert Hb. apply orderly_mono. by intros [a|error].
Qed.

(** An [acquire] that fails has bound nothing; one that succeeds has bound the endpoints of its identity. *)
Definition acquired_bound (path : Path) (r : Result IoError ProfileLock) (st dg : Bound) : Prop :=
  match r with
  | Ok l => st = Some (pl_ownership_socket l) /\ dg = Some (pl_ownership_datagram l)
      /\ forall parent name c, path_parent path = Some parent -> path_file_name path = Some name -> home parent c ->
           lock_endpoints replaced (path_join c name) = (pl_ownership_socket l, pl_ownership_datagram l)
  | Err _ => st = None /\ dg = None
  end.
Definition nothing_bound {A} (r : Result IoError A) (st dg : Bound) : Prop := st = None /\ dg = None.
Lemma canonicalize_home w parent c r w' : at_home w -> home parent c -> canonicalize parent w = (Done (Ok r), w') -> r = c.
Proof.
  intros Hh Hp. unfold canonicalize, syscall, syscall_with. destruct (Hh _ _ Hp) as [n Hn].
  assert (forall script, lookup_path (set_script w script) true parent = Ok (c, n)) as Hs.
  { intros script. by eapply lookup_mono; [|exact Hn]. }
  destruct (w_script w) as [|[]]; try done; rewrite ?Hn, ?Hs; simpl; congruence.
Qed.
Lemma acquire_orderly path : orderly None None (acquired_bound path) (ProfileLock_acquire path).
Proof.
  unfold ProfileLock_acquire. apply orderly_io; [auto|done|]. intros _ _ _ _ _.
  apply orderly_try; [done|]. intros parent Ep. do 2 (apply orderly_io; [auto|done|]; intros _ _ _ _ _).
  apply orderly_io; [auto|done|]. intros w canonical w' Hh Ec. apply orderly_try; [done|]. intros name En.
  destruct (lock_endpoints replaced (path_join canonical name)) as [stream datagram] eqn:El.
  apply orderly_stream; [done|]. apply orderly_datagram; [done|].
  apply orderly_io; [auto|done|]. intros _ file _ _ _. apply orderly_flock; [done|].
  apply orderly_io; [auto|done|]. intros _ guard _ _ _. split_and!; [done..|].
  intros parent' name' c Ep' En' Hc. rewrite Ep' in Ep. rewrite En' in En. simplify_eq/=.
  by rewrite <- El, (canonicalize_home _ _ _ _ _ Hh Hc Ec).
Qed.
Lemma drop_orderly l : orderly (Some (pl_ownership_socket l)) (Some (pl_ownership_datagram l)) nothing_bound (ProfileLock_drop l).
Proof. done. Qed.

(** ** The invariant of the system *)
Abbreviation Table := (gmap SocketAddrV4 (option nat)).
Definition owns (t : Table) (i : nat) (b : Bound) : Prop := forall e, t !! e = Some (Some i) <-> b = Some e.
(** Who else has which endpoint. *)
Definition same_for_others (i : nat) (t t' : Table) : Prop := forall j e, j <> i -> t' !! e = Some (Some j) <-> t !! e = Some (Some j).
Lemma owns_others t t' i j b : same_for_others i t t' -> j <> i -> owns t j b -> owns t' j b.
Proof. intros Hs Hj Ho e. rewrite (Hs j e Hj). apply Ho. Qed.

Lemma bind_in_ok t i fault e r t' : bind_in t (Some i) fault e = (r, t') -> owns t i None ->
  same_for_others i t t' /\ match r with Ok _ => owns t' i (Some e) | Err _ => owns t' i None end.
Proof.
  unfold bind_in. intros E Ho. destruct (t !! e) as [o|] eqn:Ee; [|destruct fault as [error|]]; injection E as <- <-; [done..|].
  split.
  - intros j e' Hj. destruct (decide (e' = e)) as [->|]; [rewrite lookup_insert_eq, Ee|by rewrite lookup_insert_ne]. split; congruence.
  - intros e'. destruct (decide (e' = e)) as [->|]; [by rewrite lookup_insert_eq|rewrite lookup_insert_ne by done].
    rewrite (Ho e'). split; congruence.
Qed.
Lemma close_ok t i e : owns t i (Some e) -> same_for_others i t (delete e t) /\ owns (delete e t) i None.
Proof.
  intros Ho. assert (t !! e = Some (Some i)) as Ee by (by apply Ho). split.
  - intros j e' Hj. destruct (decide (e' = e)) as [->|]; [rewrite lookup_delete_eq, Ee|by rewrite lookup_delete_ne]. split; congruence.
  - intros e'. destruct (decide (e' = e)) as [->|]; [by rewrite lookup_delete_eq|rewrite lookup_delete_ne by done].
    rewrite (Ho e'). split; congruence.
Qed.
Lemma disown_table_ok i (t : Table) :
  same_for_others i t (filter (fun '(_, o) => o <> Some i) t) /\ owns (filter (fun '(_, o) => o <> Some i) t) i None.
Proof.
  split; [intros j e Hj|intros e]; rewrite map_lookup_filter_Some.
  - split; [by intros [? _]|]. intros E. split; [done|congruence].
  - split; [by intros [_ ?]|done].
Qed.
Lemma foreign_ok (t t' : Table) e open : foreign t e open = Some t' -> forall j e', t' !! e' = Some (Some j) <-> t !! e' = Some (Some j).
Proof.
  unfold foreign. intros E j e'. destruct (t !! e) as [[o|]|] eqn:Ee, open; try done; injection E as <-;
    (destruct (decide (e' = e)) as [->|]; [rewrite ?lookup_delete_eq, ?lookup_insert_eq, Ee; split; congruence|]).
  - by rewrite lookup_delete_ne.
  - by rewrite lookup_insert_ne.
Qed.

(** The two tables, for process [i]. *)
Definition has_bound (i : nat) (k : Kernel) (st dg : Bound) : Prop := owns (k_streams k) i st /\ owns (k_datagrams k) i dg.
Definition unchanged_for_others (i : nat) (k k' : Kernel) : Prop :=
  same_for_others i (k_streams k) (k_streams k') /\ same_for_others i (k_datagrams k) (k_datagrams k').
Lemma disown_ok i k : unchanged_for_others i k (disown i k) /\ has_bound i (disown i k) None None.
Proof. destruct (disown_table_ok i (k_streams k)), (disown_table_ok i (k_datagrams k)). by split; split. Qed.

Lemma prog_step_ok {A} i fault (p : LockProg A) k p' k' st dg final :
  at_home (k_files k) -> orderly st dg final p -> has_bound i k st dg -> prog_step i fault p k = Some (p', k') ->
  at_home (k_files k') /\ unchanged_for_others i k k' /\ exists st' dg', has_bound i k' st' dg' /\ orderly st' dg' final p'.
Proof.
  intros Hh Hp [Hst Hdg]. destruct p as [r|B m c|op c|op c]; simpl.
  - intros [= <- <-]. split; [done|]. split; [done|]. by exists st, dg.
  - destruct Hp as [Hg Hp]. destruct (m (k_files k)) as [[r|] w] eqn:E; [|done]. intros [= <- <-].
    split; [by eapply at_home_grows|]. split; [done|]. exists st, dg. split; [done|]. by eapply Hp.
  - destruct op as [e|e|e|e]; simpl.
    + destruct Hp as (-> & Hok & Herr). destruct (bind_in (k_streams k) (Some i) fault e) as [r t] eqn:E. intros [= <- <-].
      destruct (bind_in_ok _ _ _ _ _ _ E Hst) as [Hs Ho]. split; [done|]. split; [by split|]. destruct r as [[]|error]; do 2 eexists; (split; [split; [exact Ho|exact Hdg]|]); [exact Hok|apply Herr].
    + destruct Hp as (-> & Hok & Herr). destruct (bind_in (k_datagrams k) (Some i) fault e) as [r t] eqn:E. intros [= <- <-].
      destruct (bind_in_ok _ _ _ _ _ _ E Hdg) as [Hs Ho]. split; [done|]. split; [by split|]. destruct r as [[]|error]; do 2 eexists; (split; [split; [exact Hst|exact Ho]|]); [exact Hok|apply Herr].
    + destruct Hp as [-> Hp]. intros [= <- <-]. destruct (close_ok _ _ _ Hst) as [Hs Ho]. split; [done|]. split; [by split|]. by exists None, dg.
    + destruct Hp as [-> Hp]. intros [= <- <-]. destruct (close_ok _ _ _ Hdg) as [Hs Ho]. split; [done|]. split; [by split|]. by exists st, None.
  - intros [= <- <-]. split; [done|]. split; [done|]. exists st, dg. by split.
Qed.

Definition state_ok (h : Holder) (st dg : Bound) : Prop :=
  match ho_state h with
  | Acquiring p => orderly st dg (acquired_bound (ho_path h)) p
  | Holding l => acquired_bound (ho_path h) (Ok l) st dg
  | Releasing p => orderly st dg nothing_bound p
  | Refused _ | Gone => st = None /\ dg = None
  end.
Record accounted (s : System) : Prop := {
  ac_home : at_home (k_files (sy_kernel s));
  ac_holder : forall i h, sy_holders s !! i = Some h -> exists st dg, has_bound i (sy_kernel s) st dg /\ state_ok h st dg;
  ac_nobody : forall i, (length (sy_holders s) <= i)%nat -> has_bound i (sy_kernel s) None None }.

Lemma acquired_ok path p st dg : orderly st dg (acquired_bound path) p -> state_ok {| ho_path := path; ho_state := acquired p |} st dg.
Proof. by destruct p as [[l|e]| | |]. Qed.
Lemma released_ok path p st dg : orderly st dg nothing_bound p -> state_ok {| ho_path := path; ho_state := released p |} st dg.
Proof. by destruct p as [[l|e]| | |]. Qed.
Lemma has_bound_others i j k k' st dg : unchanged_for_others i k k' -> j <> i -> has_bound j k st dg -> has_bound j k' st dg.
Proof. intros [Hs Hd] Hj [Ho Ho']. split; by eapply owns_others. Qed.
(** A step of one process. *)
Lemma accounted_step s i h k state st dg :
  accounted s -> sy_holders s !! i = Some h -> at_home (k_files k) -> unchanged_for_others i (sy_kernel s) k -> has_bound i k st dg ->
  state_ok {| ho_path := ho_path h; ho_state := state |} st dg -> accounted (set_state s k i h state).
Proof.
  intros [_ Hholder Hnobody] Hi Hh Ho Hb Hs. pose proof (lookup_lt_Some _ _ _ Hi) as Hlt. split; simpl; [done| |].
  - intros j h'. destruct (decide (j = i)) as [->|Hj]; [rewrite list_lookup_insert_eq by done|rewrite list_lookup_insert_ne by done].
    + intros [= <-]. by exists st, dg.
    + intros Hj'. destruct (Hholder _ _ Hj') as (st' & dg' & Hb' & Hs'). exists st', dg'. split; [by eapply has_bound_others|done].
  - intros j. rewrite length_insert. intros Hj. eapply has_bound_others; [done|lia|by apply Hnobody].
Qed.
Lemma accounted_prog {A} s i h fault (p : LockProg A) wrap st dg final :
  accounted s -> sy_holders s !! i = Some h -> has_bound i (sy_kernel s) st dg -> orderly st dg final p ->
  (forall p' st dg, orderly st dg final p' -> state_ok {| ho_path := ho_path h; ho_state := wrap p' |} st dg) ->
  accounted (step_with s i h fault p wrap).
Proof.
  intros Ha Hi Hb Hp Hw. unfold step_with. destruct (prog_step i fault p (sy_kernel s)) as [[p' k]|] eqn:E.
  - destruct (prog_step_ok _ _ _ _ _ _ _ _ _ (ac_home _ Ha) Hp Hb E) as (Hh & Ho & st' & dg' & Hb' & Hp'). eapply accounted_step; eauto.
  - destruct p as [r|B m c|op c|op c]; try done; [|by simpl in E; destruct (socket_call _ _ _ _)].
    destruct Hp as [Hg _]. simpl. destruct (m (k_files (sy_kernel s))) as [x w] eqn:Em.
    assert (at_home w) as Hh by (by eapply at_home_grows; [|apply (ac_home _ Ha)|]).
    destruct (disown_ok i (with_files (sy_kernel s) w)) as [Ho Hn]. by eapply accounted_step.
Qed.
Lemma accounted_call s path : accounted s ->
  accounted {| sy_kernel := sy_kernel s; sy_holders := sy_holders s ++ [{| ho_path := path; ho_state := acquired (ProfileLock_acquire path) |}] |}.
Proof.
  intros [Hh Hholder Hnobody]. split; cbn [sy_kernel sy_holders]; [done| |].
  - intros i h. rewrite lookup_app_Some. intros [Hi|[Hi Hl]]; [by apply Hholder|]. exists None, None. split; [by apply Hnobody|].
    apply list_lookup_singleton_Some in Hl as [_ <-]. apply acquired_ok, acquire_orderly.
  - intros i. rewrite length_app. intros Hi. apply Hnobody. lia.
Qed.
(** What others do to the kernel. *)
Lemma accounted_kernel s k : accounted s -> at_home (k_files k) ->
  (forall j e, k_streams k !! e = Some (Some j) <-> k_streams (sy_kernel s) !! e = Some (Some j)) ->
  (forall j e, k_datagrams k !! e = Some (Some j) <-> k_datagrams (sy_kernel s) !! e = Some (Some j)) ->
  accounted {| sy_kernel := k; sy_holders := sy_holders s |}.
Proof.
  intros [_ Hholder Hnobody] Hh Hs Hd.
  assert (forall j st dg, has_bound j (sy_kernel s) st dg -> has_bound j k st dg) as Hb.
  { intros j st dg [H1 H2]. split; intros e; [rewrite Hs|rewrite Hd]; auto. }
  split; simpl; [done| |by auto]. intros i h Hi. destruct (Hholder _ _ Hi) as (st & dg & ? & ?). exists st, dg. auto.
Qed.
Lemma lock_step_accounted ev s s' : (forall w, ev = LeFiles w -> at_home w) -> accounted s -> lock_step ev s = Some s' -> accounted s'.
Proof.
  intros Hw Ha. destruct ev as [path|i fault|i|i|w|e open|e open]; unfold lock_step.
  - intros [= <-]. by apply accounted_call.
  - destruct (sy_holders s !! i) as [h|] eqn:Hi; [|done]. simpl. destruct (ac_holder _ Ha _ _ Hi) as (st & dg & Hb & Hs).
    unfold state_ok in Hs. destruct (ho_state h) as [p|l|error|p|] eqn:Eh; try done; intros [= <-];
      eapply accounted_prog; eauto using acquired_ok, released_ok.
  - destruct (sy_holders s !! i) as [h|] eqn:Hi; [|done]. simpl. destruct (ac_holder _ Ha _ _ Hi) as (st & dg & Hb & Hs).
    unfold state_ok in Hs. destruct (ho_state h) as [p|l|error|p|] eqn:Eh; try done. intros [= <-].
    destruct Hs as (-> & -> & _). eapply accounted_step; [done|done|apply Ha|done|exact Hb|exact (released_ok (ho_path h) _ _ _ (drop_orderly l))].
  - destruct (sy_holders s !! i) as [h|] eqn:Hi; [|done]. intros [= <-]. destruct (disown_ok i (sy_kernel s)) as [Ho Hn].
    eapply accounted_step; [done|done|apply Ha|done|exact Hn|done].
  - intros [= <-]. apply accounted_kernel; [done|by apply Hw|done|done].
  - destruct (foreign (k_streams (sy_kernel s)) e open) as [t|] eqn:E; [|done]. intros [= <-].
    apply accounted_kernel; [done|apply Ha|by eapply foreign_ok|done].
  - destruct (foreign (k_datagrams (sy_kernel s)) e open) as [t|] eqn:E; [|done]. intros [= <-].
    apply accounted_kernel; [done|apply Ha|done|by eapply foreign_ok].
Qed.
Lemma lock_run_accounted events : forall s s', (forall w, LeFiles w ∈ events -> at_home w) -> accounted s -> lock_run events s = Some s' -> accounted s'.
Proof.
  induction events as [|ev rest IH]; intros s s' Hw Ha; simpl; [by intros [= <-]|].
  destruct (lock_step ev s) as [s1|] eqn:E; [|done]. simpl. apply IH; [intros w Hin; apply Hw; by right|].
  eapply lock_step_accounted; [|done|done]. intros w ->. apply Hw. left.
Qed.
End Accounts.

(** ** Exclusion *)

(** No process has called [acquire] yet; what is bound is bound by others. *)
Definition idle (s : System) : Prop :=
  sy_holders s = [] /\ forall e i, k_streams (sy_kernel s) !! e <> Some (Some i) /\ k_datagrams (sy_kernel s) !! e <> Some (Some i).
(** Whatever others do to the files, [parent] is the directory [c]. *)
Definition stays (parent c : Path) (s : System) (events : list LockEvent) : Prop :=
  forall w, w = k_files (sy_kernel s) \/ LeFiles w ∈ events -> exists n, lookup_path w true parent = Ok (c, n).
Lemma idle_accounted home s : idle s -> at_home home (k_files (sy_kernel s)) -> accounted home s.
Proof.
  intros [Hn Hb] Hh. split; [done|intros i h; by rewrite Hn|]. intros i _. split; intros e; split; try done; intros E; by destruct (Hb e i).
Qed.
Definition names (path parent : Path) (name : string) : Prop := path_parent path = Some parent /\ path_file_name path = Some name.

(** ** A free lock is acquired *)

(** A program that runs with nobody in between and nothing failing. *)
Fixpoint alone {A} (i : nat) (p : LockProg A) (k : Kernel) : option (Result IoError A) * Kernel :=
  match p with
  | LkDone r => (Some r, k)
  | LkFiles m c => match m (k_files k) with
                   | (Done r, w) => alone i (c r) (with_files k w)
                   | (Crashed, w) => (None, disown i (with_files k w))
                   end
  | LkSocket op c => let '(r, k) := socket_call i None op k in alone i (c r) k
  | LkFlock _ c => alone i (c (Ok tt)) k
  end.
Lemma alone_then {A B} i (f : Result IoError A -> LockProg B) p : forall k,
  alone i (lk_then f p) k = match alone i p k with (Some r, k') => alone i (f r) k' | (None, k') => (None, k') end.
Proof.
  induction p as [r|C m c IH|op c IH|op c IH]; intros k; simpl; [done| | |apply IH].
  - destruct (m (k_files k)) as [[r|] w]; [apply IH|done].
  - destruct (socket_call i None op k) as [r k']. apply IH.
Qed.
Lemma alone_io {A B} i (m : IO A) (f : A -> LockProg B) k a w :
  m (k_files k) = (Done (Ok a), w) -> alone i (lk_io m ≫= f) k = alone i (f a) (with_files k w).
Proof. intros E. unfold mbind, LockProg_bind. rewrite alone_then. simpl. by rewrite E. Qed.
Lemma alone_stream {B} i e (f : unit -> LockProg B) k :
  k_streams k !! e = None -> alone i (lk_socket (BindStream e) ≫= f) k = alone i (f tt) (with_streams k (<[e := Some i]> (k_streams k))).
Proof. intros E. unfold mbind, LockProg_bind. rewrite alone_then. simpl. unfold bind_in. by rewrite E. Qed.
Lemma alone_datagram {B} i e (f : unit -> LockProg B) k :
  k_datagrams k !! e = None -> alone i (lk_socket (BindDatagram e) ≫= f) k = alone i (f tt) (with_datagrams k (<[e := Some i]> (k_datagrams k))).
Proof. intros E. unfold mbind, LockProg_bind. rewrite alone_then. simpl. unfold bind_in. by rewrite E. Qed.
Lemma alone_flock {B} i op (f : unit -> LockProg B) k : alone i (lk_flock op ≫= f) k = alone i (f tt) k.
Proof. unfold mbind, LockProg_bind. by rewrite alone_then. Qed.
Lemma alone_held {A} i op (body : LockProg A) k a k' : alone i body k = (Some (Ok a), k') -> alone i (dropped_by op body) k = (Some (Ok a), k').
Proof. intros E. unfold dropped_by. by rewrite alone_then, E. Qed.
(** Such a run is a run of the system. *)
Lemma lock_step_acquiring s i h k p p' k' : sy_holders s !! i = Some h -> acquired p = Acquiring p -> prog_step i None p k = Some (p', k') ->
  lock_step (LeStep i None) (set_state s k i h (acquired p)) = Some (set_state s k' i h (acquired p')).
Proof.
  intros Hi Ha Hp. pose proof (lookup_lt_Some _ _ _ Hi) as Hlt. rewrite Ha. unfold lock_step, set_state. cbn [sy_holders].
  rewrite list_lookup_insert_eq by done. cbn [mbind option_bind ho_state]. unfold step_with. cbn [sy_kernel]. rewrite Hp.
  unfold set_state. cbn [sy_holders ho_path]. by rewrite list_insert_insert_eq.
Qed.
Lemma alone_runs i h p : forall s k k' r, sy_holders s !! i = Some h -> alone i p k = (Some r, k') ->
  exists n, lock_run (replicate n (LeStep i None)) (set_state s k i h (acquired p)) = Some (set_state s k' i h (acquired (LkDone r))).
Proof.
  assert (forall s k k1 k' q q' r, sy_holders s !! i = Some h -> acquired q = Acquiring q -> prog_step i None q k = Some (q', k1) ->
    (exists n, lock_run (replicate n (LeStep i None)) (set_state s k1 i h (acquired q')) = Some (set_state s k' i h (acquired (LkDone r)))) ->
    exists n, lock_run (replicate n (LeStep i None)) (set_state s k i h (acquired q)) = Some (set_state s k' i h (acquired (LkDone r)))) as Hstep.
  { intros s k k1 k' q q' r Hi Ha Hp [n Hn]. exists (S n). cbn [replicate lock_run].
    by rewrite (lock_step_acquiring _ _ _ _ _ _ _ Hi Ha Hp). }
  induction p as [r0|C m c IH|op c IH|op c IH]; intros s k k' r Hi E.
  - injection E as <- <-. by exists 0%nat.
  - simpl in E. destruct (m (k_files k)) as [[r0|] w] eqn:Em; [|done].
    eapply Hstep; [done|done|simpl; by rewrite Em|by apply IH].
  - simpl in E. destruct (socket_call i None op k) as [r0 k0] eqn:Es. eapply Hstep; [done|done|simpl; by rewrite Es|by apply IH].
  - eapply Hstep; [done|done|done|by apply IH].
Qed.

Lemma syscall_works {A} (act : World -> Result IoError A * World) w r w' : w_script w = [] -> act w = (r, w') -> syscall act w = (Done r, w').
Proof. intros Hs E. unfold syscall, syscall_with. by rewrite Hs, E. Qed.
Lemma reject_symlink_works p w : w_script w = [] ->
  match lookup_path w false p with Ok (_, Symlink _) => False | Ok _ => True | Err e => io_kind e = KindNotFound end ->
  reject_symlink p w = (Done (Ok tt), w).
Proof.
  intros Hs Hl. unfold reject_symlink, mbind, IO_bind, attempt, symlink_metadata. rewrite (syscall_works (fun w => (snd <$> lookup_path w false p, w)) w _ _ Hs eq_refl).
  destruct (lookup_path w false p) as [[r [| |]]|e]; simpl; try done. by rewrite bool_decide_true.
Qed.
Definition may_lock (node : option Node) : Prop := match node with None | Some (File _ _ _) => True | _ => False end.
Lemma lookup_entry w parent name : plain (w_nodes w) parent ->
  lookup_path w false (parent ++ [name]) = (n ← ok_or (w_nodes w !! (parent ++ [name])) ENOENT; Ok (parent ++ [name], n)).
Proof.
  intros Hp. unfold lookup_path, real_path. rewrite resolve_plain_last by done. cbn [mbind result_bind].
  assert (node_at (w_nodes w) (parent ++ [name]) = w_nodes w !! (parent ++ [name])) as ->; [|done]. by destruct parent.
Qed.
Lemma open_lock_file_works w parent name : w_script w = [] -> plain (w_nodes w) parent -> may_lock (w_nodes w !! (parent ++ [name])) ->
  exists w', open_lock_file (parent ++ [name]) w = (Done (Ok (parent ++ [name])), w') /\ w_script w' = [] /\ w_nodes w ⊆ w_nodes w'.
Proof.
  intros Hs Hp Hm. unfold open_lock_file, syscall, syscall_with, real_path. rewrite Hs, resolve_plain_last by done.
  assert (node_at (w_nodes w) (parent ++ [name]) = w_nodes w !! (parent ++ [name])) as -> by (by destruct parent).
  destruct (w_nodes w !! (parent ++ [name])) as [[| |]|] eqn:En; try done; eexists; (split; [reflexivity|]); [done|].
  split; [done|by apply set_node_grows].
Qed.
(** With its directory in place and its endpoints free, a lock that nobody asks for at the same time is acquired. *)
Lemma free_lock_is_acquired s parent name stream datagram :
  let w := k_files (sy_kernel s) in
  let path := parent ++ [name] in
  let i := length (sy_holders s) in
  w_script w = [] -> plain (w_nodes w) parent -> may_lock (w_nodes w !! path) ->
  lock_endpoints replaced path = (stream, datagram) -> k_streams (sy_kernel s) !! stream = None -> k_datagrams (sy_kernel s) !! datagram = None ->
  exists n s' h l, lock_run (LeCall path :: replicate n (LeStep i None)) s = Some s' /\ sy_holders s' !! i = Some h
    /\ ho_state h = Holding l /\ pl_path l = path.
Proof.
  intros w path i Hs Hp Hm El Est Edg.
  destruct (open_lock_file_works _ _ _ Hs Hp Hm) as (w' & Eo & Hs' & Hsub).
  destruct (plain_lookup w false _ Hp) as (uid & mode & Ef), (plain_lookup w true _ Hp) as (uid' & mode' & Et).
  assert (reject_symlink path w = (Done (Ok tt), w)) as Er.
  { apply reject_symlink_works; [done|]. unfold path. rewrite lookup_entry by done. fold path.
    destruct (w_nodes w !! path) as [[| |]|]; done. }
  assert (exists l k', alone i (ProfileLock_acquire path) (sy_kernel s) = (Some (Ok l), k') /\ pl_path l = path) as (l & k' & Ea & Epath).
  { unfold ProfileLock_acquire.
    rewrite (alone_io _ _ _ _ tt w) by exact Er.
    assert (path_parent path = Some parent) as -> by (unfold path_parent, path; rewrite rev_app_distr; simpl; by rewrite rev_involutive).
    change (lk_try (ok_or (Some parent) _) ≫= ?f) with (f parent). cbn beta.
    rewrite (alone_io _ _ _ _ tt w) by (apply syscall_works; [done|by apply create_dirs_plain]).
    rewrite (alone_io _ _ _ _ tt w) by (apply reject_symlink_works; [done|by rewrite Ef]).
    rewrite (alone_io _ _ _ _ parent w) by (apply syscall_works; [done|simpl; by rewrite Et]).
    assert (path_file_name path = Some name) as -> by (apply last_snoc).
    change (lk_try (ok_or (Some name) _) ≫= ?f) with (f name). cbn beta. change (path_join parent name) with path. cbn zeta. rewrite El.
    rewrite alone_stream by exact Est. eexists _, _. split.
    - apply alone_held. rewrite alone_datagram by exact Edg. apply alone_held.
      rewrite (alone_io _ _ _ _ path w') by exact Eo. rewrite alone_flock.
      rewrite (alone_io _ _ _ _ parent w'); [reflexivity|].
      apply syscall_works; [done|]. simpl. by rewrite (lookup_mono _ _ _ _ _ _ Hsub Ef).
    - done. }
  set (h := {| ho_path := path; ho_state := acquired (ProfileLock_acquire path) |}).
  set (s1 := {| sy_kernel := sy_kernel s; sy_holders := sy_holders s ++ [h] |}).
  assert (sy_holders s1 !! i = Some h) as Hi by (by apply list_lookup_middle).
  destruct (alone_runs i h _ s1 _ _ _ Hi Ea) as [n Hn]. exists n, (set_state s1 k' i h (Holding l)). do 2 eexists. split_and!.
  - etrans; [|exact Hn]. cbn [lock_run lock_step mbind option_bind]. f_equal. unfold set_state. cbn [sy_holders].
    rewrite list_insert_id; [done|exact Hi].
  - cbn [set_state sy_holders]. apply list_lookup_insert_eq. by eapply lookup_lt_Some.
  - done.
  - done.
Qed.

(** C15: the lock of a profile is exclusive.  However the calls of [acquire], the drops, the deaths of processes, failures of
    any system call and what other programs do to files and sockets interleave: two processes never hold the lock of
    the same name in the same directory, by whatever paths they reach it and even if the lock file was removed or replaced
    meanwhile, as long as the directory stays where it is.  And a call that failed, a lock that was dropped
    and a process that died have no endpoint left. *)
Theorem profile_lock_is_exclusive events s0 s :
  idle s0 -> lock_run events s0 = Some s ->
  (forall i j hi hj li lj pi pj c name,
     sy_holders s !! i = Some hi -> ho_state hi = Holding li -> names (ho_path hi) pi name -> stays pi c s0 events ->
     sy_holders s !! j = Some hj -> ho_state hj = Holding lj -> names (ho_path hj) pj name -> stays pj c s0 events -> i = j)
  /\ (forall i h, sy_holders s !! i = Some h -> (ho_state h = Gone \/ exists e, ho_state h = Refused e) ->
       forall e, k_streams (sy_kernel s) !! e <> Some (Some i) /\ k_datagrams (sy_kernel s) !! e <> Some (Some i)).
Proof.
  intros Hidle Hrun. split.
  - intros i j hi hj li lj pi pj c name Hi Ei [Epi Eni] Hpi Hj Ej [Epj Enj] Hpj.
    set (home := fun parent d => d = c /\ (parent = pi \/ parent = pj)).
    assert (forall w, w = k_files (sy_kernel s0) \/ LeFiles w ∈ events -> at_home home w) as Hhome.
    { intros w Hw parent d [-> [->| ->]]; auto. }
    assert (accounted home s) as Ha.
    { eapply lock_run_accounted; [|by apply idle_accounted; [|apply Hhome; left]|exact Hrun]. auto. }
    destruct (ac_holder _ _ Ha _ _ Hi) as (sti & dgi & [Hbi _] & Hsi), (ac_holder _ _ Ha _ _ Hj) as (stj & dgj & [Hbj _] & Hsj).
    unfold state_ok in Hsi, Hsj. rewrite Ei in Hsi. rewrite Ej in Hsj. destruct Hsi as (-> & _ & Hsi), Hsj as (-> & _ & Hsj).
    specialize (Hsi _ _ c Epi Eni ltac:(split; auto)). specialize (Hsj _ _ c Epj Enj ltac:(split; auto)).
    assert (pl_ownership_socket lj = pl_ownership_socket li) as Es by congruence. rewrite Es in Hbj.
    pose proof (proj2 (Hbi _) eq_refl) as Hti. pose proof (proj2 (Hbj _) eq_refl) as Htj. congruence.
  - intros i h Hi Hs e. assert (accounted (fun _ _ => False) s) as Ha.
    { eapply lock_run_accounted; [|apply idle_accounted; [done|]|exact Hrun]; by intros; intros ? ? []. }
    destruct (ac_holder _ _ Ha _ _ Hi) as (st & dg & [Hb1 Hb2] & Hst).
    assert (st = None /\ dg = None) as [-> ->] by (unfold state_ok in Hst; by destruct Hs as [Hs|[error Hs]]; rewrite Hs in Hst).
    split; intros E; [by apply Hb1 in E|by apply Hb2 in E].
Qed.

(** The endpoints are on the loopback network and below the ephemeral ports, which start at 32768. *)
Lemma byte_at_bounds digest i : 0 <= byte_at digest i <= 255.
Proof.
  unfold byte_at. destruct (as_bytes digest !! i) as [b|]; [|lia]. pose proof (N_ascii_bounded b). lia.
Qed.
Lemma endpoints_are_local path stream datagram : lock_endpoints replaced path = (stream, datagram) ->
  Forall (fun e => 10000 <= sa_port e < 30000 /\ exists b c d, sa_ip e = (127, b, c, d) /\ Forall (fun x => 0 <= x <= 255) [b; c; d]) [stream; datagram].
Proof.
  unfold lock_endpoints. intros [= <- <-]. repeat apply Forall_cons_2; try apply Forall_nil_2; cbn [sa_port sa_ip].
  all: split; [assert (0 < 20000) as Hpos by lia; match goal with |- context [?a mod 20000] => pose proof (Z.mod_pos_bound a 20000 Hpos) end; lia|].
  all: do 3 eexists; split; [reflexivity|]; repeat apply Forall_cons_2; try apply Forall_nil_2; apply byte_at_bounds.
Qed.
End Lock.

(** ** Examples: one process holds the lock, another one comes by a link and after the lock file was removed *)
#[local] Instance lock_os : Os := {| effective_uid := 1000; umask := 18 |}.
Definition lock_tree (locked : bool) : gmap Path Node :=
  <[["run"] := Directory 1000 448]> (<[["run"; "locks"] := Directory 1000 448]> (<[["link"] := Symlink ["run"]]>
    (if locked then {[["run"; "locks"; "work.lock"] := File 384 "" false]} else ∅))).
Definition lock_world (locked : bool) : World := {| w_nodes := lock_tree locked; w_earlier := ∅; w_script := []; w_entropy := [] |}.
Definition lock_demo : System := {| sy_kernel := {| k_files := lock_world false; k_streams := ∅; k_datagrams := ∅ |}; sy_holders := [] |}.
Definition lock_events : list LockEvent :=
  LeCall ["run"; "locks"; "work.lock"] :: replicate 9 (LeStep 0 None)
  ++ LeFiles (lock_world false) :: LeCall ["link"; "locks"; "work.lock"] :: replicate 5 (LeStep 1 None).
Definition lock_states (s : System) : list (option bool) :=
  map (fun h => match ho_state h with Holding _ => Some true | Refused _ => Some false | _ => None end) (sy_holders s).

Lemma profile_lock_is_exclusive_witness :
  exists s, lock_run id lock_events lock_demo = Some s /\ lock_states s = [Some true; Some false]
    /\ (forall e, k_streams (sy_kernel s) !! e <> Some (Some 1%nat))
    /\ (forall j hj lj, sy_holders s !! j = Some hj -> ho_state hj = Holding lj ->
           names (ho_path hj) ["link"; "locks"] "work.lock" -> j = 0%nat).
Proof.
  assert (idle lock_demo) as Hidle by (split; [done|]; intros e i; by split).
  assert (forall w, w = k_files (sy_kernel lock_demo) \/ LeFiles w ∈ lock_events -> w = lock_world false) as Hw.
  { intros w [->|Hin]; [done|]. unfold lock_events in Hin. cbn [replicate app] in Hin. rewrite !elem_of_cons in Hin.
    destruct_or!; try done; [congruence|]. by apply not_elem_of_nil in Hin. }
  destruct (lock_run id lock_events lock_demo) as [s|] eqn:E; [|by vm_compute in E].
  destruct (profile_lock_is_exclusive id lock_events lock_demo s Hidle E) as [Hone Hnone].
  assert (exists h0 h1 l e, sy_holders s = [h0; h1] /\ ho_state h0 = Holding l /\ names (ho_path h0) ["run"; "locks"] "work.lock" /\ ho_state h1 = Refused e)
    as (h0 & h1 & l & e & Hs & E0 & N0 & E1).
  { vm_compute in E. injection E as <-. do 4 eexists. split_and!; [reflexivity|reflexivity|split; reflexivity|reflexivity]. }
  assert (forall parent, real_path (lock_tree false) true parent = Ok ["run"; "locks"] -> stays parent ["run"; "locks"] lock_demo lock_events) as Hstays.
  { intros parent Hp w Hin. rewrite (Hw w Hin). eexists. unfold lookup_path. cbn [w_nodes lock_world]. rewrite Hp. reflexivity. }
  exists s. split; [reflexivity|]. clear E Hw Hidle. split; [by unfold lock_states; rewrite Hs; simpl; rewrite E0, E1|]. split.
  - intros e'. assert (sy_holders s !! 1%nat = Some h1) as H1 by (by rewrite Hs). exact (proj1 (Hnone 1%nat h1 H1 (or_intror (ex_intro _ e E1)) e')).
  - intros j hj lj Hj Ej Nj. assert (sy_holders s !! 0%nat = Some h0) as H0 by (by rewrite Hs).
    exact (Hone j 0%nat hj h0 lj l _ _ _ _ Hj Ej Nj (Hstays ["link"; "locks"] eq_refl) H0 E0 N0 (Hstays ["run"; "locks"] eq_refl)).
Defined.
