(* ===== verification/Controller.v ===== *)
(** * Controller: the parts of the Claude channel and their life (psst-mcp/src/claude_channel.rs, main.rs; psst-application/src/activation.rs)

    The channel's controller starts the activation, whose task runs [run_activation], the publisher of its status and the
    diagnostics, and stops them again. *)
From stdpp Require Import gmap strings.
From S2P Require Import Prelude Text Core Files Client Failure Profile Activation Status Server Channel.

Definition STATUS_DIAGNOSTIC : string := "psst-mcp: Claude Channel status shutdown failed".

(** ** The activation's task *)
Record ActivationRuntime : Set := { ar_machine : ActivationMachine; ar_cancelled : bool; ar_task : bool }.
Definition ActivationRuntime_start (policy : ActivationPolicy) : Result ActivationContractError ActivationRuntime :=
  machine ← ActivationMachine_new policy;
  Ok {| ar_machine := machine; ar_cancelled := false; ar_task := true |}.
(** [left]: the machine as the task leaves it when it ends. *)
Definition ActivationRuntime_shutdown (left : ActivationMachine) (self : ActivationRuntime) : ActivationRuntime :=
  {| ar_machine := stop (if ar_task self then left else ar_machine self); ar_cancelled := true; ar_task := false |}.
Definition ActivationRuntime_drop (self : ActivationRuntime) : ActivationRuntime :=
  {| ar_machine := ar_machine self; ar_cancelled := true; ar_task := false |}.

(** ** The controller *)
Record ClaudeChannelController : Set := {
  cl_peer : option Instant; cl_source : string * string; cl_activation : ActivationRuntime; cl_status : HarnessStatusPublisher;
  cl_diagnostic_task : bool }.

Section Controller.
Context `{Os} `{Serialize HarnessStatusRecord, !Deserialize HarnessStatusRecord}.

(** The process that is named in the status. *)
Variable pid : Z.

(** [seen]: the machine when the publisher looks at it first, which the task may have moved already; [left]: as the task leaves
    it.  With the result, the activation that was started. *)
Definition controller_start (profile squad : string) (paths : ProfilePaths) (now : Z) (seen left : ActivationMachine) (w : World)
    : Exit ClaudeChannelController * option ActivationRuntime * World :=
  let other {A} (e : ActivationContractError) : Exit A := Done (Err (io_error KindOther (ActivationContractError_fmt e))) in
  match SessionActivationSource_new profile squad with
  | Err e => (other e, None, w)
  | Ok source =>
      match ActivationRuntime_start ActivationPolicy_default with
      | Err e => (other e, None, w)
      | Ok activation =>
          match Publisher_start pid paths profile ClaudeChannel (snapshot seen) now w with
          | (Crashed, w) => (Crashed, None, w)
          | (Done (Err error), w) => (Done (Err error), Some (ActivationRuntime_shutdown left activation), w)
          | (Done (Ok status), w) =>
              (Done (Ok {| cl_peer := None; cl_source := source; cl_activation := activation; cl_status := status; cl_diagnostic_task := true |}),
               Some activation, w)
          end
      end
  end.
Definition controller_connected (now : Instant) (self : ClaudeChannelController) : ClaudeChannelController :=
  {| cl_peer := channel_connected now; cl_source := cl_source self; cl_activation := cl_activation self; cl_status := cl_status self;
     cl_diagnostic_task := cl_diagnostic_task self |}.
(** [task]: how the publisher's task ended; with the controller, what is printed. *)
Definition controller_shutdown (left : ActivationMachine) (task : option (option (Result IoError unit))) (now : Z)
    (self : ClaudeChannelController) (w : World) : Exit (ClaudeChannelController * list string) * World :=
  let activation := ActivationRuntime_shutdown left (cl_activation self) in
  match Publisher_shutdown pid (cl_status self) task (snapshot (ar_machine activation)) now w with
  | (Crashed, w) => (Crashed, w)
  | (Done result, w) =>
      (Done (Ok ({| cl_peer := None; cl_source := cl_source self; cl_activation := activation; cl_status := cl_status self;
                    cl_diagnostic_task := false |},
                 match result with Ok _ => [] | Err _ => [STATUS_DIAGNOSTIC] end)), w)
  end.

(** ** What runs *)
Definition at_rest (activation : ActivationRuntime) : Prop :=
  ar_cancelled activation = true /\ ar_task activation = false /\ am_phase (ar_machine activation) = PhStopped.
(** A start that fails leaves no task behind, whatever failed. *)
Lemma failed_start_leaves_nothing profile squad paths now seen left w e activation w' :
  controller_start profile squad paths now seen left w = (Done (Err e), activation, w') -> forall a, activation = Some a -> at_rest a.
Proof.
  unfold controller_start. destruct (SessionActivationSource_new profile squad) as [source|error]; [|by intros [= <- <- <-]].
  destruct (ActivationRuntime_start ActivationPolicy_default) as [started|error]; [|by intros [= <- <- <-]].
  destruct (Publisher_start _ _ _ _ _ _ w) as [[[status|error]|] w1]; [done| |done]. by intros [= <- <- <-] a [= <-].
Qed.
(** Stopping stops every part, also where the status could not be published: that is reported. *)
Lemma shutdown_stops_every_part left task now self w self' printed w' :
  controller_shutdown left task now self w = (Done (Ok (self', printed)), w') ->
  at_rest (cl_activation self') /\ cl_diagnostic_task self' = false /\ cl_peer self' = None
  /\ (printed = [] <-> exists w1, Publisher_shutdown pid (cl_status self) task (snapshot (ar_machine (cl_activation self'))) now w = (Done (Ok tt), w1)).
Proof.
  unfold controller_shutdown. destruct (Publisher_shutdown _ _ _ _ _ w) as [[[[]|error]|] w1] eqn:E; [| |done]; intros [= <- <- <-]; split_and!; try done.
  - cbn [cl_activation]. rewrite E. split; [by exists w1|done].
  - cbn [cl_activation]. rewrite E. split; [done|]. by intros [? ?].
Qed.
End Controller.

(** ** The process (main.rs): its exit status *)
Definition mcp_main (started served : bool) : Z := if negb started then 70 else if negb served then 70 else 0.
